(** * nuke: a shallow embedding of the selector, walker, trash store and
      deletion engine, and the properties of their specification.

    The Go packages [internal/filter], [internal/scanner], [internal/trash]
    and [internal/deleter] are rendered as Rocq functions over an explicit
    model of the file system; [internal/config], [cmd] and [internal/utils]
    follow them.  Part I holds the definitions, in the order of the
    packages' dependencies; Part II holds the lemmas and the theorems of
    the specification, and Part III the properties of more of the code. *)

From Stdlib Require Import ZArith Lia Bool Ascii String.
From Stdlib Require Import Sorting.Sorted OrderedTypeEx DecimalString.
From stdpp Require Import base tactics option list strings relations sorting.
From Equations Require Import Equations.

Local Open Scope string_scope.
Local Open Scope Z_scope.
Local Open Scope list_scope.

(* ================================================================= *)
(** * Part I: the embedding *)
(* ================================================================= *)

(* ----------------------------------------------------------------- *)
(** ** Machine integers *)

(** Go's [int64] (and [int] on the 64-bit targets the tool is built for):
    values are mathematical integers, arithmetic wraps around. *)
Module Int64.

Definition modulus : Z := 2 ^ 64.
Definition half : Z := 2 ^ 63.
Definition max : Z := half - 1.
Definition min : Z := - half.

Definition wrap (z : Z) : Z := (z + half) mod modulus - half.
Definition add (a b : Z) : Z := wrap (a + b).
Definition sub (a b : Z) : Z := wrap (a - b).
Definition mul (a b : Z) : Z := wrap (a * b).

Definition in_range (z : Z) : Prop := min <= z <= max.

End Int64.

(* ----------------------------------------------------------------- *)
(** ** Strings and paths ([strings], [path/filepath]) *)

Module Filepath.

(** [filepath.Separator] on the Unix targets. *)
Definition Separator : ascii := "/"%char.

(** The pieces of [s] between occurrences of [sep], empty pieces included. *)
Fixpoint split_on (sep : ascii) (s : string) : list string :=
  match s with
  | EmptyString => [EmptyString]
  | String c s' =>
      if Ascii.eqb c sep then EmptyString :: split_on sep s'
      else match split_on sep s' with
           | h :: t => String c h :: t
           | [] => [String c EmptyString]
           end
  end.

(** The names a path is resolved through, as the kernel reads it: the
    non-empty pieces between separators. *)
Definition components (p : string) : list string :=
  List.filter (fun c => negb (String.eqb c "")) (split_on Separator p).

(** A name that is one path element: not empty, and without a separator. *)
Fixpoint noSeparator (s : string) : bool :=
  match s with
  | EmptyString => true
  | String c s' => negb (Ascii.eqb c Separator) && noSeparator s'
  end.

Definition simple_name (n : string) : bool :=
  negb (String.eqb n "") && noSeparator n.

(** [strings.HasPrefix], [strings.HasSuffix] and [strings.Contains]. *)
Definition HasPrefix (s pre : string) : bool := String.prefix pre s.

Fixpoint HasSuffix (s suf : string) : bool :=
  String.eqb s suf ||
  match s with
  | EmptyString => false
  | String _ s' => HasSuffix s' suf
  end.

Fixpoint Contains (s sub : string) : bool :=
  String.prefix sub s ||
  match s with
  | EmptyString => false
  | String _ s' => Contains s' sub
  end.

(** [filepath.Join] of a directory and one more element.  The elements the
    tool joins are already clean, so that [Clean] has nothing left to do: the
    result is the two elements around one separator, which the directory
    brings along when it is the root. *)
Definition Join (dir name : string) : string :=
  if String.eqb dir "" then name
  else if HasSuffix dir "/" then dir +:+ name
  else dir +:+ "/" +:+ name.

(** [filepath.Base]: the last element of the path; ["."] for the empty path
    and ["/"] for a path of separators only. *)
Definition Base (p : string) : string :=
  if String.eqb p "" then "."
  else match last (components p) with
       | Some c => c
       | None => "/"
       end.

(** [s] without its trailing separators. *)
Definition trim_separators (s : string) : string :=
  String.rev
    ((fix drop (r : string) : string :=
        match r with
        | String c r' => if Ascii.eqb c Separator then drop r' else r
        | EmptyString => EmptyString
        end) (String.rev s)).

(** The prefix of [s] up to and including its last separator. *)
Fixpoint upto_last_separator (s : string) : string :=
  match s with
  | EmptyString => EmptyString
  | String c s' =>
      let rest := upto_last_separator s' in
      if Ascii.eqb c Separator then String c rest
      else if String.eqb rest "" then EmptyString else String c rest
  end.

(** [filepath.Dir] on a clean path: everything before the last element,
    without the separator that ends it; ["."] when nothing is left of a
    relative path and ["/"] when nothing is left of a rooted one. *)
Definition Dir (p : string) : string :=
  let d := upto_last_separator p in
  if String.eqb d "" then "."
  else let t := trim_separators d in
       if String.eqb t "" then "/" else t.

(** The number of bytes of the path, [len(path)]. *)
Definition len (s : string) : Z := Z.of_nat (String.length s).

End Filepath.

(* ----------------------------------------------------------------- *)
(** ** Time ([time]) *)

(** A [time.Time] is an instant, counted in nanoseconds since the Unix
    epoch.  The clock is read in UTC, where a calendar day is always 86400
    seconds long. *)
Module Time.

Definition second : Z := 1000000000.
Definition day : Z := 86400 * second.

Definition Before (t u : Z) : bool := t <? u.
Definition After (t u : Z) : bool := u <? t.

(** [t.Unix()]: whole seconds since the epoch. *)
Definition Unix (t : Z) : Z := t / second.

(** [t.AddDate(0, 0, days)]. *)
Definition AddDays (t days : Z) : Z := t + days * day.

End Time.


(* ----------------------------------------------------------------- *)
(** ** The bubble sort of [sortByDepth] and of [AutoCleanup] *)

(** Both sorts of the tool are the same pair of loops over a slice, around
    a test of two neighbours. *)
Module Bubble.

(** One turn of an inner loop of a bubble sort: [files[j]] and [files[j+1]]
    change places when [exchange] says so. *)
Definition bubbleStep {A : Type} (exchange : A -> A -> bool) (files : list A) (j : nat) : list A :=
  match files !! j, files !! S j with
  | Some a, Some b => if exchange a b then <[j := b]> (<[S j := a]> files) else files
  | _, _ => files
  end.

(** [for j := 0; j < bound; j++]. *)
Definition bubblePass {A : Type} (exchange : A -> A -> bool) (bound : nat) (files : list A) : list A :=
  fold_left (bubbleStep exchange) (seq 0 bound) files.

(** [for i := 0; i < n-1; i++ { for j := 0; j < n-i-1; j++ { ... } }]. *)
Definition bubbleSort {A : Type} (exchange : A -> A -> bool) (files : list A) : list A :=
  let n := length files in
  fold_left (fun fs i => bubblePass exchange (n - i - 1) fs) (seq 0 (n - 1)) files.

End Bubble.
(* ----------------------------------------------------------------- *)
(** ** The file system ([os]) *)

Module Os.

(** What [stat] reports besides the kind of the entry. *)
Record Attr := mkAttr { a_size : Z; a_mode : Z; a_mtime : Z }.

(** What a regular file holds, as far as the tool reads file contents: the
    five fields of a trash record written as a JSON object, or bytes that
    are something else. *)
Inductive Content :=
| Raw
| Doc (original_path trash_path : string) (deleted_at size : Z) (is_dir : bool).

(** A file system is a tree.  A directory lists its entries in the order
    [os.ReadDir] returns them (by file name); a name occurs once. *)
#[local] Set Warnings "-register-all".
Inductive Node :=
| File (a : Attr) (c : Content)
| Dir (a : Attr) (es : list (string * Node)).

(** [os.FileInfo]. *)
Record FileInfo := mkInfo { Size : Z; Mode : Z; ModTime : Z; IsDir : bool }.

(** The bytes [os.ReadFile] returns and [os.WriteFile] takes. *)
Record Data := mkData { d_len : Z; d_content : Content }.

(** What a write puts into a file: bytes of [crypto/rand], or zeros. *)
Inductive Fill := Random | Zeros.

(** The error of a call, when it fails. *)
Inductive Errno :=
  ENOENT | EEXIST | ENOTDIR | EISDIR | ENOTEMPTY | EINVAL | ENAMETOOLONG | EIO.

(** The calls the tool makes. *)
Inductive Syscall :=
| SysGetwd
| SysLstat (p : string)
| SysStat (p : string)
| SysReadDir (p : string)
| SysReadFile (p : string)
| SysWriteFile (p : string)
| SysMkdirAll (p : string)
| SysRename (src dst : string)
| SysRemove (p : string)
| SysRemoveAll (p : string)
| SysOpen (p : string)
| SysSeek (p : string) (offset : Z)
| SysWrite (p : string) (fill : Fill) (n : Z)
| SysSync (p : string)
| SysClose (p : string).

(** A call that changes the file system or acts on an open file is kept in
    the world's log, with its outcome. *)
Definition Event : Type := Syscall * option Errno.

(** The world a call runs in: the tree, the working directory and the home
    directory of the process, the clock, the log of effects in the order
    they were made, and the failures the environment injects (permissions,
    devices, media), which may depend on what happened before. *)
Record World := mkWorld {
  root : Node;
  cwd : string;
  home : string;
  now : Z;
  log : list Event;
  faulty : list Event -> Syscall -> bool
}.

Definition fails (w : World) (c : Syscall) : bool := faulty w (log w) c.

Definition logged (c : Syscall) (r : option Errno) (w : World) : World :=
  mkWorld (root w) (cwd w) (home w) (now w) (log w ++ [(c, r)]) (faulty w).

Definition with_root (t : Node) (w : World) : World :=
  mkWorld t (cwd w) (home w) (now w) (log w) (faulty w).

(** The environment injects no failure, whatever happened before. *)
Definition fault_free (w : World) : Prop := forall h c, faulty w h c = false.

Definition is_dir (n : Node) : bool :=
  match n with Dir _ _ => true | File _ _ => false end.

Definition info_of (n : Node) : FileInfo :=
  match n with
  | File a _ => mkInfo (a_size a) (a_mode a) (a_mtime a) false
  | Dir a _ => mkInfo (a_size a) (a_mode a) (a_mtime a) true
  end.

(** *** The tree *)

Fixpoint assoc (name : string) (es : list (string * Node)) : option Node :=
  match es with
  | [] => None
  | (n, x) :: es' => if String.eqb n name then Some x else assoc name es'
  end.

Fixpoint es_remove (name : string) (es : list (string * Node)) : list (string * Node) :=
  match es with
  | [] => []
  | (n, x) :: es' =>
      if String.eqb n name then es_remove name es' else (n, x) :: es_remove name es'
  end.

(** Put [x] under [name]: in place when the name is there, else before the
    first greater name. *)
Fixpoint es_put (name : string) (x : Node) (es : list (string * Node)) : list (string * Node) :=
  match es with
  | [] => [(name, x)]
  | (n, y) :: es' =>
      if String.eqb n name then (name, x) :: es'
      else if String.ltb name n then (name, x) :: (n, y) :: es'
      else (n, y) :: es_put name x es'
  end.

Fixpoint lookup (p : list string) (t : Node) : option Node :=
  match p with
  | [] => Some t
  | c :: p' =>
      match t with
      | Dir _ es => match assoc c es with Some x => lookup p' x | None => None end
      | File _ _ => None
      end
  end.

(** The tree without what [p] names (and everything below it). *)
Fixpoint remove_at (p : list string) (t : Node) : Node :=
  match p with
  | [] => t
  | c :: p' =>
      match t with
      | File _ _ => t
      | Dir a es =>
          match p' with
          | [] => Dir a (es_remove c es)
          | _ :: _ =>
              match assoc c es with
              | Some x => Dir a (es_put c (remove_at p' x) es)
              | None => t
              end
          end
      end
  end.

(** The tree with [x] at [p]; the directory that is to hold it must exist. *)
Fixpoint put_at (p : list string) (x : Node) (t : Node) : option Node :=
  match p with
  | [] => None
  | c :: p' =>
      match t with
      | File _ _ => None
      | Dir a es =>
          match p' with
          | [] => Some (Dir a (es_put c x es))
          | _ :: _ =>
              match assoc c es with
              | Some y =>
                  match put_at p' x y with
                  | Some y' => Some (Dir a (es_put c y' es))
                  | None => None
                  end
              | None => None
              end
          end
      end
  end.

(** The tree with a directory at [p] and at every prefix of [p]; [fresh]
    are the attributes of the directories made. *)
Fixpoint mkdir_all (fresh : Attr) (p : list string) (t : Node) : option Node :=
  match t with
  | File _ _ => None
  | Dir a es =>
      match p with
      | [] => Some t
      | c :: p' =>
          let x := match assoc c es with Some y => y | None => Dir fresh [] end in
          match mkdir_all fresh p' x with
          | Some x' => Some (Dir a (es_put c x' es))
          | None => None
          end
      end
  end.

Definition path_of (p : string) : list string := Filepath.components p.

(** [p] names [q] or something above it. *)
Fixpoint is_prefix (p q : list string) : bool :=
  match p, q with
  | [], _ => true
  | c :: p', d :: q' => String.eqb c d && is_prefix p' q'
  | _ :: _, [] => false
  end.

(** The size a new, empty directory reports. *)
Definition dir_size : Z := 4096.

(** *** The calls that read *)

(** [filepath.Abs]: a rooted path as it is, another one under the working
    directory.  The paths the tool is given are clean, and [Clean] is not
    modelled. *)
Definition filepath_Abs (p : string) (w : World) : Errno + string :=
  if Filepath.HasPrefix p "/" then inr p
  else if fails w SysGetwd then inl EIO
  else inr (Filepath.Join (cwd w) p).

Definition os_Lstat (p : string) (w : World) : Errno + FileInfo :=
  if fails w (SysLstat p) then inl EIO
  else match lookup (path_of p) (root w) with
       | Some n => inr (info_of n)
       | None => inl ENOENT
       end.

(** [os.Stat].  The tree holds regular files and directories, and for these
    [os.Stat] reads what [os.Lstat] reads.  Symbolic links are not in the
    tree: for a link [os.Stat] reports on what the link names and fails
    when it names nothing, which [MoveToTrash] can bring about by staging
    a link.  What is proved of [List] and [Restore] for a path they have
    staged states the outcome of [os.Stat] on that path as a condition. *)
Definition os_Stat (p : string) (w : World) : Errno + FileInfo :=
  if fails w (SysStat p) then inl EIO
  else match lookup (path_of p) (root w) with
       | Some n => inr (info_of n)
       | None => inl ENOENT
       end.

(** [os.UserHomeDir]: [$HOME], an error when it is empty. *)
Definition os_UserHomeDir (w : World) : Errno + string :=
  if String.eqb (home w) "" then inl ENOENT else inr (home w).

(** [os.IsNotExist]. *)
Definition IsNotExist {A} (r : Errno + A) : bool :=
  match r with inl ENOENT => true | _ => false end.

Definition is_ok {A} (r : Errno + A) : bool :=
  match r with inr _ => true | inl _ => false end.

(** [os.ReadDir]: the entries' names with their kinds, in directory order. *)
Definition os_ReadDir (p : string) (w : World) : Errno + list (string * bool) :=
  if fails w (SysReadDir p) then inl EIO
  else match lookup (path_of p) (root w) with
       | Some (Dir _ es) => inr (List.map (fun e => (fst e, is_dir (snd e))) es)
       | Some (File _ _) => inl ENOTDIR
       | None => inl ENOENT
       end.

Definition os_ReadFile (p : string) (w : World) : Errno + Data :=
  if fails w (SysReadFile p) then inl EIO
  else match lookup (path_of p) (root w) with
       | Some (File a c) => inr (mkData (a_size a) c)
       | Some (Dir _ _) => inl EISDIR
       | None => inl ENOENT
       end.

(** *** The calls that write *)

(** A call [c] whose effect on the tree is [run]: it fails when the
    environment says so, or when the tree does not allow it. *)
Definition effect (c : Syscall) (run : Node -> Errno + Node) (w : World) : World * option Errno :=
  if fails w c then (logged c (Some EIO) w, Some EIO)
  else match run (root w) with
       | inr t => (with_root t (logged c None w), None)
       | inl e => (logged c (Some e) w, Some e)
       end.

(** [os.WriteFile]: creates the file with [perm], or replaces the contents
    of the one that is there. *)
Definition os_WriteFile (p : string) (d : Data) (perm : Z) (w : World) : World * option Errno :=
  effect (SysWriteFile p)
    (fun t =>
       let mode := match lookup (path_of p) t with
                   | Some (File a _) => Some (a_mode a)
                   | Some (Dir _ _) => None
                   | None => Some perm
                   end in
       match mode with
       | None => inl EISDIR
       | Some m =>
           match put_at (path_of p) (File (mkAttr (d_len d) m (now w)) (d_content d)) t with
           | Some t' => inr t'
           | None => inl ENOENT
           end
       end) w.

(** [os.MkdirAll]: makes the directory and the parents it lacks; no error
    when it is there already. *)
Definition os_MkdirAll (p : string) (perm : Z) (w : World) : World * option Errno :=
  effect (SysMkdirAll p)
    (fun t => match mkdir_all (mkAttr dir_size perm (now w)) (path_of p) t with
              | Some t' => inr t'
              | None => inl ENOTDIR
              end) w.

(** [os.Remove]: removes a file or an empty directory. *)
Definition os_Remove (p : string) (w : World) : World * option Errno :=
  effect (SysRemove p)
    (fun t => match path_of p, lookup (path_of p) t with
              | [], _ => inl EINVAL
              | _, None => inl ENOENT
              | _, Some (Dir _ (_ :: _)) => inl ENOTEMPTY
              | q, Some _ => inr (remove_at q t)
              end) w.

(** [os.RemoveAll]: removes the path and everything below it; no error when
    there is nothing at the path. *)
Definition os_RemoveAll (p : string) (w : World) : World * option Errno :=
  effect (SysRemoveAll p)
    (fun t => match path_of p with
              | [] => inl EINVAL
              | q => inr (remove_at q t)
              end) w.

(** [os.Rename]: moves what is at [src] to [dst], over a file or an empty
    directory of the same kind when one is there. *)
Definition os_Rename (src dst : string) (w : World) : World * option Errno :=
  effect (SysRename src dst)
    (fun t =>
       let s := path_of src in
       let d := path_of dst in
       match lookup s t with
       | None => inl ENOENT
       | Some x =>
           if is_prefix s d then (if is_prefix d s then inr t else inl EINVAL)
           else
             let go := match put_at d x (remove_at s t) with
                       | Some t' => inr t'
                       | None => inl ENOENT
                       end in
             match lookup d t with
             | None => go
             | Some (File _ _) => if is_dir x then inl ENOTDIR else go
             | Some (Dir _ []) => if is_dir x then go else inl EISDIR
             | Some (Dir _ (_ :: _)) => if is_dir x then inl ENOTEMPTY else inl EISDIR
             end
       end) w.

(** *** Open files *)

(** The model keeps no file contents: what a call on an open file does is
    in the log, and the tree stays as it is. *)
Definition on_file (c : Syscall) (w : World) : World * option Errno :=
  effect c (fun t => inr t) w.

(** [os.OpenFile(p, os.O_WRONLY, 0)]. *)
Definition os_OpenFile (p : string) (w : World) : World * option Errno :=
  effect (SysOpen p)
    (fun t => match lookup (path_of p) t with
              | Some (File _ _) => inr t
              | Some (Dir _ _) => inl EISDIR
              | None => inl ENOENT
              end) w.

(** *** [filepath.Walk] *)

(** The walk of the tree [n] found at [path]: a file is visited; a directory
    is visited, with the error when it cannot be read, and then its entries
    in directory order, each visited with the error when it cannot be
    statted.  The visitors of the tool never return an error, so that the
    walk has none to pass on and the visitor is a change of the state [S]
    of the caller. *)
Fixpoint walk {S : Type} (fn : string -> option FileInfo -> option Errno -> S -> S)
    (w : World) (path : string) (n : Node) (s : S) : S :=
  match n with
  | File _ _ => fn path (Some (info_of n)) None s
  | Dir _ es =>
      if fails w (SysReadDir path) then fn path (Some (info_of n)) (Some EIO) s
      else
        (fix each (es : list (string * Node)) (s : S) : S :=
           match es with
           | [] => s
           | (name, x) :: es' =>
               let filename := Filepath.Join path name in
               each es'
                 (if fails w (SysLstat filename) then fn filename None (Some EIO) s
                  else walk fn w filename x s)
           end) es (fn path (Some (info_of n)) None s)
  end.

Definition filepath_Walk {S : Type} (rootp : string)
    (fn : string -> option FileInfo -> option Errno -> S -> S) (w : World) (s : S) : S :=
  if fails w (SysLstat rootp) then fn rootp None (Some EIO) s
  else match lookup (path_of rootp) (root w) with
       | Some n => walk fn w rootp n s
       | None => fn rootp None (Some ENOENT) s
       end.

End Os.

(* ----------------------------------------------------------------- *)
(** ** The selector ([internal/filter]) *)

Module Filter.

(** [Options]: the filter criteria.  A compiled [*regexp.Regexp] is the
    predicate its [MatchString] computes. *)
Record Options := mkOptions {
  OlderThan : option Z;
  NewerThan : option Z;
  SizeFilter : Z;
  SizeOp : string;
  Exclude : list string;
  Include : list string;
  Regex : option (string -> bool);
  SkipHidden : bool
}.

(** [isHidden]: the base name starts with a dot. *)
Definition isHidden (path : string) : bool :=
  match Filepath.Base path with
  | String c _ => Ascii.eqb c "."
  | EmptyString => false
  end.

(** The checks of [Match], one by one; each says whether it rejects. *)

Definition olderRejects (o : Options) (info : Os.FileInfo) : bool :=
  match OlderThan o with
  | Some t => Time.After (Os.ModTime info) t
  | None => false
  end.

Definition newerRejects (o : Options) (info : Os.FileInfo) : bool :=
  match NewerThan o with
  | Some t => Time.Before (Os.ModTime info) t
  | None => false
  end.

Definition sizeRejects (o : Options) (info : Os.FileInfo) : bool :=
  if (SizeFilter o >? 0) && negb (Os.IsDir info) then
    if String.eqb (SizeOp o) "+" then Os.Size info <=? SizeFilter o
    else if String.eqb (SizeOp o) "-" then Os.Size info >=? SizeFilter o
    else false
  else false.

Section Glob.

(** [filepath.Match pattern name], with its error read as no match. *)
Variable filepath_Match : string -> string -> bool.

(** [MatchesGlob]: the base name or the path matches one of the patterns. *)
Definition MatchesGlob (path : string) (patterns : list string) : bool :=
  existsb
    (fun pattern =>
       filepath_Match pattern (Filepath.Base path) || filepath_Match pattern path)
    patterns.

Definition includeRejects (o : Options) (path : string) : bool :=
  match Include o with
  | [] => false
  | _ :: _ =>
      negb (existsb
              (fun pattern =>
                 filepath_Match pattern (Filepath.Base path) || filepath_Match pattern path)
              (Include o))
  end.

Definition excludeRejects (o : Options) (path : string) : bool :=
  match Exclude o with
  | [] => false
  | _ :: _ =>
      existsb
        (fun pattern =>
           filepath_Match pattern (Filepath.Base path) || filepath_Match pattern path)
        (Exclude o)
  end.

Definition regexRejects (o : Options) (path : string) : bool :=
  match Regex o with
  | Some re => negb (re path) && negb (re (Filepath.Base path))
  | None => false
  end.

(** [Options.Match]: the receiver is a pointer, and may be nil. *)
Definition Match (o : option Options) (path : string) (info : Os.FileInfo) : bool :=
  match o with
  | None => true
  | Some o =>
      if SkipHidden o && isHidden path then false
      else if olderRejects o info then false
      else if newerRejects o info then false
      else if sizeRejects o info then false
      else if includeRejects o path then false
      else if excludeRejects o path then false
      else if regexRejects o path then false
      else true
  end.

End Glob.

End Filter.

(* ----------------------------------------------------------------- *)
(** ** The walker ([internal/scanner]) *)

Module Scanner.

(** [FileInfo]: one candidate.  [ModTime] is in Unix seconds. *)
Record FileInfo := mkFileInfo {
  Path : string;
  Size : Z;
  Mode : Z;
  ModTime : Z;
  IsDir : bool
}.

Definition candidate (path : string) (info : Os.FileInfo) (isDir : bool) : FileInfo :=
  mkFileInfo path (Os.Size info) (Os.Mode info) (Time.Unix (Os.ModTime info)) isDir.

(** [countSeparators].  The loop ranges over the runes of the path; the
    separator is one byte of ASCII, which UTF-8 uses for nothing else, so
    the runes that equal it are the bytes that equal it. *)
Fixpoint countSeparators (path : string) : Z :=
  match path with
  | EmptyString => 0
  | String c rest =>
      (if Ascii.eqb c Filepath.Separator then 1 else 0) + countSeparators rest
  end.

(** The test of the inner loop of [sortByDepth]: the two neighbours are
    exchanged. *)
Definition outOfOrder (a b : FileInfo) : bool :=
  let depth1 := countSeparators (Path a) in
  let depth2 := countSeparators (Path b) in
  (depth1 <? depth2) || ((depth1 =? depth2) && String.ltb (Path b) (Path a)).

(** [sortByDepth]. *)
Definition sortByDepth (files : list FileInfo) : list FileInfo :=
  Bubble.bubbleSort outOfOrder files.

Section Glob.

Variable filepath_Match : string -> string -> bool.

Local Abbreviation Match := (Filter.Match filepath_Match).

(** The function [Scan] hands to [filepath.Walk]. *)
Definition scanVisit (filterOpts : option Filter.Options)
    (filePath : string) (fileInfo : option Os.FileInfo) (walkErr : option Os.Errno)
    (files : list FileInfo) : list FileInfo :=
  match walkErr, fileInfo with
  | Some _, _ => files
  | None, None => files
  | None, Some fileInfo =>
      if negb (Match filterOpts filePath fileInfo) then files
      else files ++ [candidate filePath fileInfo (Os.IsDir fileInfo)]
  end.

(** [Scan]. *)
Definition Scan (path : string) (recursive : bool) (filterOpts : option Filter.Options)
    (w : Os.World) : Os.Errno + list FileInfo :=
  match Os.filepath_Abs path w with
  | inl err => inl err
  | inr absPath =>
  match Os.os_Lstat absPath w with
  | inl err => inl err
  | inr info =>
      if negb (Os.IsDir info) then
        inr (if Match filterOpts absPath info then [candidate absPath info false] else [])
      else if negb recursive then
        inr (if Match filterOpts absPath info then [candidate absPath info true] else [])
      else
        inr (sortByDepth (Os.filepath_Walk absPath (scanVisit filterOpts) w []))
  end
  end.

(** The function [ScanWithCallback] hands to [filepath.Walk].  The state is
    the sequence of the entries the callback was called with. *)
Definition callbackVisit (filterOpts : option Filter.Options)
    (filePath : string) (fileInfo : option Os.FileInfo) (walkErr : option Os.Errno)
    (calls : list FileInfo) : list FileInfo :=
  match walkErr, fileInfo with
  | Some _, _ => calls
  | None, None => calls
  | None, Some fileInfo =>
      if negb (Match filterOpts filePath fileInfo) then calls
      else calls ++ [candidate filePath fileInfo (Os.IsDir fileInfo)]
  end.

(** [ScanWithCallback]: the error it returns, and the calls of the callback
    in the order they are made. *)
Definition ScanWithCallback (path : string) (recursive : bool)
    (filterOpts : option Filter.Options) (w : Os.World) : option Os.Errno * list FileInfo :=
  match Os.filepath_Abs path w with
  | inl err => (Some err, [])
  | inr absPath =>
  match Os.os_Lstat absPath w with
  | inl err => (Some err, [])
  | inr info =>
      if negb (Os.IsDir info) then
        (None, if Match filterOpts absPath info then [candidate absPath info false] else [])
      else if negb recursive then
        (None, if Match filterOpts absPath info then [candidate absPath info true] else [])
      else
        (None, Os.filepath_Walk absPath (callbackVisit filterOpts) w [])
  end
  end.

End Glob.

End Scanner.

(* ----------------------------------------------------------------- *)
(** ** The trash store ([internal/trash]) *)

Module Trash.

Import Os.

(** [Manager]. *)
Record Manager := mkManager {
  trashDir : string;
  metaDir : string
}.

(** [TrashEntry]: the record of one staged item. *)
Record TrashEntry := mkEntry {
  OriginalPath : string;
  TrashPath : string;
  DeletedAt : Z;
  Size : Z;
  IsDir : bool
}.

(** The errors of the package: the ones of [os] passed on as they are, and
    the ones it makes with [fmt.Errorf], by the place that makes them. *)
Inductive Error :=
| OsError (e : Errno)
| HomeDirError (e : Errno)
| CreateTrashDirError (e : Errno)
| CreateMetaDirError (e : Errno)
| MoveToTrashError (e : Error)
| RemoveOriginalError (e : Errno)
| SaveMetadataError (e : Errno)
| TrashFileGone (trashPath : string)
| OriginalExists (originalPath : string)
| CreateParentError (e : Errno)
| RestoreFileError (e : Error)
| NotInTrash (filename : string)
| EmptyTrashError (e : Errno)
| RemoveMetadataError (e : Errno).

(** [json.Unmarshal] into a [TrashEntry]. *)
Definition json_Unmarshal (d : Data) : option TrashEntry :=
  match d_content d with
  | Doc o t at_ s dir => Some (mkEntry o t at_ s dir)
  | Raw => None
  end.

(** [0755] and [0644]. *)
Definition perm_dir : Z := 493.
Definition perm_file : Z := 420.

(** [NewManager]. *)
Definition NewManager (w : World) : World * (Error + Manager) :=
  match os_UserHomeDir w with
  | inl err => (w, inl (HomeDirError err))
  | inr homeDir =>
      let trashDir := Filepath.Join (Filepath.Join homeDir ".nuke-trash") "files" in
      let metaDir := Filepath.Join (Filepath.Join homeDir ".nuke-trash") "meta" in
      match os_MkdirAll trashDir perm_dir w with
      | (w, Some err) => (w, inl (CreateTrashDirError err))
      | (w, None) =>
          match os_MkdirAll metaDir perm_dir w with
          | (w, Some err) => (w, inl (CreateMetaDirError err))
          | (w, None) => (w, inr (mkManager trashDir metaDir))
          end
      end
  end.

(** [copyFile]. *)
Definition copyFile (src dst : string) (w : World) : World * option Error :=
  match os_ReadFile src w with
  | inl err => (w, Some (OsError err))
  | inr data =>
      match os_Stat src w with
      | inl err => (w, Some (OsError err))
      | inr srcInfo =>
          match os_WriteFile dst data (Os.Mode srcInfo) w with
          | (w, Some err) => (w, Some (OsError err))
          | (w, None) => (w, None)
          end
      end
  end.

(** [copyDir].  The recursion follows the directories it reads; [depth]
    bounds its depth, as the length of a path bounds it for the kernel. *)
Fixpoint copyDir (depth : nat) (src dst : string) (w : World) : World * option Error :=
  match depth with
  | O => (w, Some (OsError ENAMETOOLONG))
  | S depth =>
      match os_Stat src w with
      | inl err => (w, Some (OsError err))
      | inr srcInfo =>
          match os_MkdirAll dst (Os.Mode srcInfo) w with
          | (w, Some err) => (w, Some (OsError err))
          | (w, None) =>
              match os_ReadDir src w with
              | inl err => (w, Some (OsError err))
              | inr entries =>
                  (fix each (entries : list (string * bool)) (w : World) : World * option Error :=
                     match entries with
                     | [] => (w, None)
                     | (name, isDir) :: entries' =>
                         let srcPath := Filepath.Join src name in
                         let dstPath := Filepath.Join dst name in
                         match (if isDir then copyDir depth srcPath dstPath w
                                else copyFile srcPath dstPath w) with
                         | (w, Some err) => (w, Some err)
                         | (w, None) => each entries' w
                         end
                     end) entries w
              end
          end
      end
  end.

(** The number of directories on the longest way down from [n]. *)
Fixpoint height (n : Node) : nat :=
  match n with
  | File _ _ => O
  | Dir _ es =>
      S ((fix most (es : list (string * Node)) : nat :=
            match es with
            | [] => O
            | (_, x) :: es' => Nat.max (height x) (most es')
            end) es)
  end.

(** [copyPath]. *)
Definition copyPath (src dst : string) (w : World) : World * option Error :=
  match os_Lstat src w with
  | inl err => (w, Some (OsError err))
  | inr info =>
      if Os.IsDir info then copyDir (S (height (root w))) src dst w
      else copyFile src dst w
  end.

(** [fmt.Sprintf("%d", n)]. *)
Definition decimal (n : Z) : string :=
  DecimalString.NilZero.string_of_int (Z.to_int n).

Section Json.

(** The number of bytes of the text [json.MarshalIndent] writes for a
    record; the encoder is not modelled. *)
Variable json_length : TrashEntry -> Z.

Definition json_MarshalIndent (e : TrashEntry) : Data :=
  mkData (json_length e)
    (Doc (OriginalPath e) (TrashPath e) (DeletedAt e) (Size e) (IsDir e)).

(** [MoveToTrash]. *)
Definition MoveToTrash (m : Manager) (path : string) (w : World) : World * option Error :=
  match filepath_Abs path w with
  | inl err => (w, Some (OsError err))
  | inr absPath =>
  match os_Lstat absPath w with
  | inl err => (w, Some (OsError err))
  | inr info =>
      let timestamp := now w in
      let baseName := Filepath.Base absPath in
      let trashName := decimal timestamp +:+ "_" +:+ baseName in
      let trashPath := Filepath.Join (trashDir m) trashName in
      let moved :=
        match os_Rename absPath trashPath w with
        | (w, None) => (w, None)
        | (w, Some _) =>
            match copyPath absPath trashPath w with
            | (w, Some err) => (w, Some (MoveToTrashError err))
            | (w, None) =>
                match os_RemoveAll absPath w with
                | (w, Some err) =>
                    let (w, _) := os_RemoveAll trashPath w in
                    (w, Some (RemoveOriginalError err))
                | (w, None) => (w, None)
                end
            end
        end in
      match moved with
      | (w, Some err) => (w, Some err)
      | (w, None) =>
          let entry := mkEntry absPath trashPath (now w) (Os.Size info) (Os.IsDir info) in
          let metaPath := Filepath.Join (metaDir m) (trashName +:+ ".json") in
          let metaData := json_MarshalIndent entry in
          match os_WriteFile metaPath metaData perm_file w with
          | (w, Some err) => (w, Some (SaveMetadataError err))
          | (w, None) => (w, None)
          end
      end
  end
  end.

End Json.

(** The last steps of [Restore], for the record it has found. *)
Definition restoreEntry (metaPath : string) (trashEntry : TrashEntry) (w : World)
    : World * option Error :=
  if IsNotExist (os_Stat (TrashPath trashEntry) w) then
    (w, Some (TrashFileGone (TrashPath trashEntry)))
  else if is_ok (os_Stat (OriginalPath trashEntry) w) then
    (w, Some (OriginalExists (OriginalPath trashEntry)))
  else
    let parentDir := Filepath.Dir (OriginalPath trashEntry) in
    match os_MkdirAll parentDir perm_dir w with
    | (w, Some err) => (w, Some (CreateParentError err))
    | (w, None) =>
        match os_Rename (TrashPath trashEntry) (OriginalPath trashEntry) w with
        | (w, None) =>
            let (w, _) := os_Remove metaPath w in
            (w, None)
        | (w, Some _) =>
            match copyPath (TrashPath trashEntry) (OriginalPath trashEntry) w with
            | (w, Some err) => (w, Some (RestoreFileError err))
            | (w, None) =>
                let (w, _) := os_RemoveAll (TrashPath trashEntry) w in
                let (w, _) := os_Remove metaPath w in
                (w, None)
            end
        end
    end.

(** The test of [Restore]: this is the record looked for. *)
Definition wanted (filename : string) (trashEntry : TrashEntry) : bool :=
  String.eqb (Filepath.Base (OriginalPath trashEntry)) filename
  || Filepath.Contains (OriginalPath trashEntry) filename.

(** The loop of [Restore] over the entries of the metadata directory. *)
Fixpoint restoreLoop (m : Manager) (filename : string) (entries : list (string * bool))
    (w : World) : World * option Error :=
  match entries with
  | [] => (w, Some (NotInTrash filename))
  | (name, _) :: entries' =>
      if negb (Filepath.HasSuffix name ".json") then restoreLoop m filename entries' w
      else
        let metaPath := Filepath.Join (metaDir m) name in
        match os_ReadFile metaPath w with
        | inl _ => restoreLoop m filename entries' w
        | inr data =>
            match json_Unmarshal data with
            | None => restoreLoop m filename entries' w
            | Some trashEntry =>
                if wanted filename trashEntry then restoreEntry metaPath trashEntry w
                else restoreLoop m filename entries' w
            end
        end
  end.

(** [Restore]. *)
Definition Restore (m : Manager) (filename : string) (w : World) : World * option Error :=
  match os_ReadDir (metaDir m) w with
  | inl err => (w, Some (OsError err))
  | inr entries => restoreLoop m filename entries w
  end.

(** The function [List] hands to [filepath.Walk] to size a directory. *)
Definition sizeVisit (path : string) (info : option FileInfo) (err : option Errno)
    (dirSize : Z) : Z :=
  match info with
  | Some info => if negb (Os.IsDir info) then Int64.add dirSize (Os.Size info) else dirSize
  | None => dirSize
  end.

Definition withSize (e : TrashEntry) (size : Z) : TrashEntry :=
  mkEntry (OriginalPath e) (TrashPath e) (DeletedAt e) size (IsDir e).

(** The loop of [List] over the entries of the metadata directory. *)
Fixpoint listLoop (m : Manager) (entries : list (string * bool)) (w : World)
    (trashEntries : list TrashEntry) (totalSize : Z) : list TrashEntry * Z :=
  match entries with
  | [] => (trashEntries, totalSize)
  | (name, _) :: entries' =>
      if negb (Filepath.HasSuffix name ".json") then
        listLoop m entries' w trashEntries totalSize
      else
        let metaPath := Filepath.Join (metaDir m) name in
        match os_ReadFile metaPath w with
        | inl _ => listLoop m entries' w trashEntries totalSize
        | inr data =>
            match json_Unmarshal data with
            | None => listLoop m entries' w trashEntries totalSize
            | Some trashEntry =>
                match os_Stat (TrashPath trashEntry) w with
                | inr info =>
                    let trashEntry :=
                      if Os.IsDir info then
                        withSize trashEntry
                          (filepath_Walk (TrashPath trashEntry) sizeVisit w 0)
                      else trashEntry in
                    listLoop m entries' w (trashEntries ++ [trashEntry])
                      (Int64.add totalSize (Size trashEntry))
                | inl _ => listLoop m entries' w trashEntries totalSize
                end
            end
        end
  end.

(** [List]. *)
Definition List (m : Manager) (w : World) : Errno + (list TrashEntry * Z) :=
  match os_ReadDir (metaDir m) w with
  | inl err => inl err
  | inr entries => inr (listLoop m entries w [] 0)
  end.

(** [Empty]. *)
Definition Empty (m : Manager) (w : World) : World * option Error :=
  match os_RemoveAll (trashDir m) w with
  | (w, Some err) => (w, Some (EmptyTrashError err))
  | (w, None) =>
      match os_RemoveAll (metaDir m) w with
      | (w, Some err) => (w, Some (RemoveMetadataError err))
      | (w, None) =>
          match os_MkdirAll (trashDir m) perm_dir w with
          | (w, Some err) => (w, Some (OsError err))
          | (w, None) =>
              match os_MkdirAll (metaDir m) perm_dir w with
              | (w, Some err) => (w, Some (OsError err))
              | (w, None) => (w, None)
              end
          end
      end
  end.

(** [GetTrashDir]. *)
Definition GetTrashDir (m : Manager) : string := trashDir m.

(** What the loops of [AutoCleanup] carry along: the world, and the
    variables [itemsRemoved], [bytesFreed] and (from the end of the first
    loop on) [newTotalSize]. *)
Record Sweep := mkSweep {
  world : World;
  itemsRemoved : Z;
  bytesFreed : Z;
  newTotalSize : Z
}.

(** The path both loops of [AutoCleanup] remove the record of an entry at. *)
Definition metaPathOf (m : Manager) (entry : TrashEntry) : string :=
  Filepath.Join (metaDir m) (Filepath.Base (TrashPath entry) +:+ ".json").

(** The first pass of [AutoCleanup]: the entries older than the cutoff.
    The staged data is removed, and counted when that went well; then the
    record is removed. *)
Fixpoint firstPass (m : Manager) (cutoffTime : Z) (entries : list TrashEntry) (s : Sweep) : Sweep :=
  match entries with
  | [] => s
  | entry :: entries' =>
      if Time.Before (DeletedAt entry) cutoffTime then
        let (w, err) := os_RemoveAll (TrashPath entry) (world s) in
        let (w, _) := os_Remove (metaPathOf m entry) w in
        firstPass m cutoffTime entries'
          match err with
          | None => mkSweep w (itemsRemoved s + 1) (Int64.add (bytesFreed s) (Size entry))
                      (newTotalSize s)
          | Some _ => mkSweep w (itemsRemoved s) (bytesFreed s) (newTotalSize s)
          end
      else firstPass m cutoffTime entries' s
  end.

(** The test of the sort in [AutoCleanup]: the two neighbours are
    exchanged. *)
Definition deletedLater (a b : TrashEntry) : bool :=
  Time.After (DeletedAt a) (DeletedAt b).

(** The second pass of [AutoCleanup]: the oldest entries, until the size is
    within the limit. *)
Fixpoint secondPass (m : Manager) (maxSizeBytes : Z) (remaining : list TrashEntry) (s : Sweep)
    : Sweep :=
  match remaining with
  | [] => s
  | entry :: remaining' =>
      if newTotalSize s <=? maxSizeBytes then s
      else
        let (w, err) := os_RemoveAll (TrashPath entry) (world s) in
        let (w, _) := os_Remove (metaPathOf m entry) w in
        secondPass m maxSizeBytes remaining'
          match err with
          | None => mkSweep w (itemsRemoved s + 1) (Int64.add (bytesFreed s) (Size entry))
                      (Int64.sub (newTotalSize s) (Size entry))
          | Some _ => mkSweep w (itemsRemoved s) (bytesFreed s) (newTotalSize s)
          end
  end.

(** The state of [AutoCleanup] after its first pass, with the size that is
    left. *)
Definition afterFirstPass (m : Manager) (retentionDays : Z) (entries : list TrashEntry)
    (totalSize : Z) (w : World) : Sweep :=
  let cutoffTime := Time.AddDays (now w) (- retentionDays) in
  let s := firstPass m cutoffTime entries (mkSweep w 0 0 0) in
  mkSweep (world s) (itemsRemoved s) (bytesFreed s) (Int64.sub totalSize (bytesFreed s)).

(** The entries the second pass goes through: what [List] returns now, the
    oldest first. *)
Definition remainingOf (m : Manager) (w : World) : list TrashEntry :=
  Bubble.bubbleSort deletedLater
    (match List m w with
     | inr (remaining, _) => remaining
     | inl _ => []
     end).

(** [AutoCleanup]: the world after it, and the error or the number of items
    removed with the bytes freed. *)
Definition AutoCleanup (m : Manager) (retentionDays maxSizeMB : Z) (w : World)
    : World * (Errno + (Z * Z)) :=
  match List m w with
  | inl err => (w, inl err)
  | inr (entries, totalSize) =>
      match entries with
      | [] => (w, inr (0, 0))
      | _ :: _ =>
          let maxSizeBytes := Int64.mul (Int64.mul maxSizeMB 1024) 1024 in
          let s := afterFirstPass m retentionDays entries totalSize w in
          let s :=
            if newTotalSize s >? maxSizeBytes then
              secondPass m maxSizeBytes (remainingOf m (world s)) s
            else s in
          (world s, inr (itemsRemoved s, bytesFreed s))
      end
  end.

End Trash.

(* ----------------------------------------------------------------- *)
(** ** The deletion engine ([internal/deleter]) *)

Module Deleter.

Import Os.

(** [Deleter]. *)
Record Deleter := mkDeleter {
  workers : Z;
  shred : bool;
  trashMgr : option Trash.Manager
}.

(** [New]. *)
Definition New (workers : Z) (shred : bool) (trashMgr : option Trash.Manager) : Deleter :=
  mkDeleter (if workers <=? 0 then 8 else workers) shred trashMgr.

(** The buffer of [shredFile]: 64 KiB. *)
Definition bufLen : Z := 64 * 1024.

(** The number of overwrite passes of [shredFile]. *)
Definition passes : nat := 3.

(** What a pass fills the buffer with. *)
Definition fillOf (pass : Z) : Fill :=
  if pass mod 2 =? 0 then Random else Zeros.

(** The inner loop of [shredFile]: [for remaining > 0].  A write that
    returns no error has written all it was given. *)
Equations? writeLoop (path : string) (pass : Z) (remaining : Z) (w : World)
    : World * option Errno by wf (Z.to_nat remaining) lt :=
  writeLoop path pass remaining w with Z_gt_dec remaining 0 := {
    | right _ => (w, None)
    | left _ =>
        let toWrite := if bufLen >? remaining then remaining else bufLen in
        match on_file (SysWrite path (fillOf pass) toWrite) w with
        | (w, Some err) => (w, Some err)
        | (w, None) => writeLoop path pass (remaining - toWrite) w
        end
  }.
Proof.
  subst toWrite. unfold bufLen. destruct (64 * 1024 >? remaining) eqn:E; lia.
Qed.

(** The outer loop of [shredFile], over the passes given. *)
Fixpoint passLoop (path : string) (size : Z) (todo : list nat) (w : World)
    : World * option Errno :=
  match todo with
  | [] => (w, None)
  | pass :: todo' =>
      match on_file (SysSeek path 0) w with
      | (w, Some err) => let (w, _) := on_file (SysClose path) w in (w, Some err)
      | (w, None) =>
          match writeLoop path (Z.of_nat pass) size w with
          | (w, Some err) => let (w, _) := on_file (SysClose path) w in (w, Some err)
          | (w, None) =>
              match on_file (SysSync path) w with
              | (w, Some err) => let (w, _) := on_file (SysClose path) w in (w, Some err)
              | (w, None) => passLoop path size todo' w
              end
          end
      end
  end.

(** [shredFile]. *)
Definition shredFile (file : Scanner.FileInfo) (w : World) : World * option Trash.Error :=
  match os_OpenFile (Scanner.Path file) w with
  | (w, Some err) => (w, Some (Trash.OsError err))
  | (w, None) =>
      let size := Scanner.Size file in
      match passLoop (Scanner.Path file) size (seq 0 passes) w with
      | (w, Some err) => (w, Some (Trash.OsError err))
      | (w, None) =>
          let (w, _) := on_file (SysClose (Scanner.Path file)) w in
          match os_Remove (Scanner.Path file) w with
          | (w, Some err) => (w, Some (Trash.OsError err))
          | (w, None) => (w, None)
          end
      end
  end.

Section Json.

Variable json_length : Trash.TrashEntry -> Z.

(** [softDelete]. *)
Definition softDelete (d : Deleter) (file : Scanner.FileInfo) (w : World)
    : World * option Trash.Error :=
  match trashMgr d with
  | None =>
      match os_Remove (Scanner.Path file) w with
      | (w, Some err) => (w, Some (Trash.OsError err))
      | (w, None) => (w, None)
      end
  | Some m => Trash.MoveToTrash json_length m (Scanner.Path file) w
  end.

(** [deleteDirectory]. *)
Definition deleteDirectory (d : Deleter) (dir : Scanner.FileInfo) (w : World)
    : World * option Trash.Error :=
  match trashMgr d with
  | Some m =>
      if shred d then
        match os_Remove (Scanner.Path dir) w with
        | (w, Some err) => (w, Some (Trash.OsError err))
        | (w, None) => (w, None)
        end
      else Trash.MoveToTrash json_length m (Scanner.Path dir) w
  | None =>
      match os_Remove (Scanner.Path dir) w with
      | (w, Some err) => (w, Some (Trash.OsError err))
      | (w, None) => (w, None)
      end
  end.

(** [DeleteSingle]. *)
Definition DeleteSingle (d : Deleter) (file : Scanner.FileInfo) (w : World)
    : World * option Trash.Error :=
  if Scanner.IsDir file then deleteDirectory d file w
  else if shred d then shredFile file w
  else softDelete d file w.

(** What a worker of [deleteFilesConcurrently] does with the file it has
    received, before it reports. *)
Definition dispose (d : Deleter) (file : Scanner.FileInfo) (w : World)
    : World * option Trash.Error :=
  if shred d then shredFile file w else softDelete d file w.

(** *** [Delete] and [deleteFilesConcurrently]: the goroutines *)

(** The two slices [Delete] sorts the candidates into. *)
Definition regularFiles (files : list Scanner.FileInfo) : list Scanner.FileInfo :=
  List.filter (fun f => negb (Scanner.IsDir f)) files.

Definition directories (files : list Scanner.FileInfo) : list Scanner.FileInfo :=
  List.filter (fun f => Scanner.IsDir f) files.

(** What an observer of [Delete] sees, in the order it happens: the
    disposition of a candidate has returned, and [onProgress] has been
    called. *)
Inductive Notice :=
| Disposed (file : Scanner.FileInfo) (err : option Trash.Error)
| Progress (path : string) (err : option Trash.Error).

(** A worker goroutine: at the receive of [for file := range workChan],
    between the receive and the disposition, between the disposition and
    the report, and after [wg.Done()]. *)
Inductive Worker :=
| Receiving
| Holding (file : Scanner.FileInfo)
| Reporting (file : Scanner.FileInfo) (err : option Trash.Error)
| Exited.

(** The goroutine that runs [Delete]: in the loop that starts the workers,
    in the loop that sends, at [wg.Wait()] with the channel closed, at
    [sort.Slice], in the loop over the directories, and after it. *)
Inductive Main :=
| Starting (left : nat)
| Sending (rest : list Scanner.FileInfo)
| Waiting
| Sorting
| Removing (dirs : list Scanner.FileInfo)
| Returned.

Record State := mkState {
  world : World;
  main : Main;
  workChan : list Scanner.FileInfo;
  closed : bool;
  pool : list Worker;
  trace : list Notice
}.

(** The call of [onProgress], when there is one. *)
Definition report (onProgress : bool) (path : string) (err : option Trash.Error) : list Notice :=
  if onProgress then [Progress path err] else [].

(** The less function [Delete] hands to [sort.Slice]. *)
Definition longer (a b : Scanner.FileInfo) : bool :=
  Filepath.len (Scanner.Path a) >? Filepath.len (Scanner.Path b).

(** What [sort.Slice] promises of its result: the elements it was given,
    none of them before one that is less than it.  The sort is not stable,
    and nothing more is known of the order. *)
Definition sortedSlice (dirs result : list Scanner.FileInfo) : Prop :=
  Permutation dirs result /\ StronglySorted (fun a b => longer b a = false) result.

(** [Delete] at its start, after the candidates are sorted into the two
    slices: [deleteFilesConcurrently] returns at once when there is no
    file. *)
Definition initial (d : Deleter) (files : list Scanner.FileInfo) (w : World) : State :=
  mkState w
    (match regularFiles files with
     | [] => Sorting
     | _ :: _ => Starting (Z.to_nat (workers d))
     end)
    [] false [] [].

(** One step of one goroutine.  The channel has room for every file, so a
    send never waits.  A disposition is one step.  A worker reports in a
    step of its own, so that the other goroutines may run between its
    disposition and its report; when a directory is removed no other
    goroutine is left, and the removal and its report are one step. *)
Inductive step (d : Deleter) (onProgress : bool) (files : list Scanner.FileInfo)
    : State -> State -> Prop :=
| step_start w n ch cl ws tr :
    step d onProgress files
      (mkState w (Starting (S n)) ch cl ws tr)
      (mkState w (Starting n) ch cl (ws ++ [Receiving]) tr)
| step_started w ch cl ws tr :
    step d onProgress files
      (mkState w (Starting O) ch cl ws tr)
      (mkState w (Sending (regularFiles files)) ch cl ws tr)
| step_send w f rest ch cl ws tr :
    step d onProgress files
      (mkState w (Sending (f :: rest)) ch cl ws tr)
      (mkState w (Sending rest) (ch ++ [f]) cl ws tr)
| step_close w ch cl ws tr :
    step d onProgress files
      (mkState w (Sending []) ch cl ws tr)
      (mkState w Waiting ch true ws tr)
| step_receive w mn f ch cl ws tr i :
    ws !! i = Some Receiving ->
    step d onProgress files
      (mkState w mn (f :: ch) cl ws tr)
      (mkState w mn ch cl (<[i := Holding f]> ws) tr)
| step_dispose w w' err mn f ch cl ws tr i :
    ws !! i = Some (Holding f) ->
    dispose d f w = (w', err) ->
    step d onProgress files
      (mkState w mn ch cl ws tr)
      (mkState w' mn ch cl (<[i := Reporting f err]> ws) (tr ++ [Disposed f err]))
| step_report w mn f err ch cl ws tr i :
    ws !! i = Some (Reporting f err) ->
    step d onProgress files
      (mkState w mn ch cl ws tr)
      (mkState w mn ch cl (<[i := Receiving]> ws)
         (tr ++ report onProgress (Scanner.Path f) err))
| step_exit w mn ws tr i :
    ws !! i = Some Receiving ->
    step d onProgress files
      (mkState w mn [] true ws tr)
      (mkState w mn [] true (<[i := Exited]> ws) tr)
| step_wait w ch cl ws tr :
    Forall (fun k => k = Exited) ws ->
    step d onProgress files
      (mkState w Waiting ch cl ws tr)
      (mkState w Sorting ch cl ws tr)
| step_sort w ch cl ws tr dirs :
    sortedSlice (directories files) dirs ->
    step d onProgress files
      (mkState w Sorting ch cl ws tr)
      (mkState w (Removing dirs) ch cl ws tr)
| step_remove w w' err dir dirs ch cl ws tr :
    deleteDirectory d dir w = (w', err) ->
    step d onProgress files
      (mkState w (Removing (dir :: dirs)) ch cl ws tr)
      (mkState w' (Removing dirs) ch cl ws
         (tr ++ Disposed dir err :: report onProgress (Scanner.Path dir) err))
| step_return w ch cl ws tr :
    step d onProgress files
      (mkState w (Removing []) ch cl ws tr)
      (mkState w Returned ch cl ws tr).

(** The states an execution of [Delete] goes through. *)
Definition reachable (d : Deleter) (onProgress : bool) (files : list Scanner.FileInfo)
    (w : World) (s : State) : Prop :=
  rtc (step d onProgress files) (initial d files w) s.

End Json.

End Deleter.

(* ----------------------------------------------------------------- *)
(** ** The configuration ([internal/config]) *)

Module Config.

(** [Config]. *)
Record Config := mkConfig {
  ProtectedPaths : list string;
  TrashRetentionDays : Z;
  TrashMaxSizeMB : Z;
  AutoCleanupEnabled : bool
}.

(** [DefaultProtectedPaths]. *)
Definition DefaultProtectedPaths : list string :=
  ["/"; "/bin"; "/sbin"; "/usr"; "/usr/bin"; "/usr/sbin"; "/usr/lib"; "/usr/local";
   "/etc"; "/var"; "/lib"; "/lib64"; "/boot"; "/sys"; "/proc"; "/dev"; "/run"; "/tmp";
   "/System"; "/Library"; "/Applications"; "/private"; "/cores";
   "~/.ssh"; "~/.gnupg"; "~/.config"; "~/.local/share"; "~/Library";
   ".git"; "node_modules"].

(** [s[n:]]. *)
Fixpoint from (n : nat) (s : string) : string :=
  match n, s with
  | O, _ => s
  | S n', String _ s' => from n' s'
  | S _, EmptyString => EmptyString
  end.

Definition criticalSubdirs : list string := ["/bin"; "/sbin"; "/lib"; "/etc"].

Section Library.

(** The library functions the package calls: [filepath.Abs], with [None]
    for its error, [filepath.Clean], [filepath.Join] and
    [os.UserHomeDir], with [None] for its error. *)
Variable filepath_Abs : string -> option string.
Variable filepath_Clean : string -> string.
Variable filepath_Join : string -> string -> string.
Variable os_UserHomeDir : option string.

(** One turn of the loop of [IsProtected]: whether it returns [true] for
    the entry. *)
Definition protects (absPath protected0 : string) : bool :=
  let protected := filepath_Clean protected0 in
  if String.eqb absPath protected then true
  else if negb (Filepath.HasPrefix protected "/")
          && (Filepath.Contains absPath ("/" +:+ protected +:+ "/")
              || Filepath.HasSuffix absPath ("/" +:+ protected)) then true
  else if negb (Filepath.HasPrefix protected "/")
          && String.eqb (Filepath.Base absPath) protected then true
  else if Filepath.HasPrefix absPath (protected +:+ "/")
          && existsb (fun critical => Filepath.HasPrefix absPath (protected +:+ critical))
               criticalSubdirs then true
  else if Filepath.HasPrefix protected "/" && String.eqb absPath protected then true
  else false.

Fixpoint protectedLoop (absPath : string) (paths : list string) : bool :=
  match paths with
  | [] => false
  | protected :: paths' =>
      if protects absPath protected then true else protectedLoop absPath paths'
  end.

(** [IsProtected]. *)
Definition IsProtected (c : Config) (path : string) : bool :=
  let absPath := match filepath_Abs path with
                 | Some absPath => absPath
                 | None => path
                 end in
  let absPath := filepath_Clean absPath in
  protectedLoop absPath (ProtectedPaths c).

(** [AddProtectedPath]. *)
Definition AddProtectedPath (c : Config) (path : string) : Config :=
  let path := if Filepath.HasPrefix path "~/" then
                match os_UserHomeDir with
                | Some homeDir => filepath_Join homeDir (from 2 path)
                | None => path
                end
              else path in
  mkConfig (ProtectedPaths c ++ [path]) (TrashRetentionDays c) (TrashMaxSizeMB c)
    (AutoCleanupEnabled c).

End Library.

End Config.

(* ----------------------------------------------------------------- *)
(** ** The command line ([cmd]) *)

Module Cmd.

(** The package variables the flags are parsed into. *)
Record Flags := mkFlags {
  dryRun : bool;
  recursive : bool;
  force : bool;
  interactive : bool;
  shred : bool;
  verbose : bool;
  emptyTrash : bool;
  cleanupTrash : bool;
  restoreFile : string;
  showTrash : bool;
  olderThan : string;
  newerThan : string;
  sizeFilter : string;
  exclude : list string;
  include : list string;
  regexPattern : string;
  noCountdown : bool;
  workers : Z
}.

(** The assignments to the variables. *)
Definition set_dryRun (v : bool) (fl : Flags) : Flags :=
  mkFlags v (recursive fl) (force fl) (interactive fl) (shred fl) (verbose fl) (emptyTrash fl) (cleanupTrash fl) (restoreFile fl) (showTrash fl) (olderThan fl) (newerThan fl) (sizeFilter fl) (exclude fl) (include fl) (regexPattern fl) (noCountdown fl) (workers fl).

Definition set_recursive (v : bool) (fl : Flags) : Flags :=
  mkFlags (dryRun fl) v (force fl) (interactive fl) (shred fl) (verbose fl) (emptyTrash fl) (cleanupTrash fl) (restoreFile fl) (showTrash fl) (olderThan fl) (newerThan fl) (sizeFilter fl) (exclude fl) (include fl) (regexPattern fl) (noCountdown fl) (workers fl).

Definition set_force (v : bool) (fl : Flags) : Flags :=
  mkFlags (dryRun fl) (recursive fl) v (interactive fl) (shred fl) (verbose fl) (emptyTrash fl) (cleanupTrash fl) (restoreFile fl) (showTrash fl) (olderThan fl) (newerThan fl) (sizeFilter fl) (exclude fl) (include fl) (regexPattern fl) (noCountdown fl) (workers fl).

Definition set_interactive (v : bool) (fl : Flags) : Flags :=
  mkFlags (dryRun fl) (recursive fl) (force fl) v (shred fl) (verbose fl) (emptyTrash fl) (cleanupTrash fl) (restoreFile fl) (showTrash fl) (olderThan fl) (newerThan fl) (sizeFilter fl) (exclude fl) (include fl) (regexPattern fl) (noCountdown fl) (workers fl).

Definition set_shred (v : bool) (fl : Flags) : Flags :=
  mkFlags (dryRun fl) (recursive fl) (force fl) (interactive fl) v (verbose fl) (emptyTrash fl) (cleanupTrash fl) (restoreFile fl) (showTrash fl) (olderThan fl) (newerThan fl) (sizeFilter fl) (exclude fl) (include fl) (regexPattern fl) (noCountdown fl) (workers fl).

Definition set_verbose (v : bool) (fl : Flags) : Flags :=
  mkFlags (dryRun fl) (recursive fl) (force fl) (interactive fl) (shred fl) v (emptyTrash fl) (cleanupTrash fl) (restoreFile fl) (showTrash fl) (olderThan fl) (newerThan fl) (sizeFilter fl) (exclude fl) (include fl) (regexPattern fl) (noCountdown fl) (workers fl).

Definition set_emptyTrash (v : bool) (fl : Flags) : Flags :=
  mkFlags (dryRun fl) (recursive fl) (force fl) (interactive fl) (shred fl) (verbose fl) v (cleanupTrash fl) (restoreFile fl) (showTrash fl) (olderThan fl) (newerThan fl) (sizeFilter fl) (exclude fl) (include fl) (regexPattern fl) (noCountdown fl) (workers fl).

Definition set_cleanupTrash (v : bool) (fl : Flags) : Flags :=
  mkFlags (dryRun fl) (recursive fl) (force fl) (interactive fl) (shred fl) (verbose fl) (emptyTrash fl) v (restoreFile fl) (showTrash fl) (olderThan fl) (newerThan fl) (sizeFilter fl) (exclude fl) (include fl) (regexPattern fl) (noCountdown fl) (workers fl).

Definition set_restoreFile (v : string) (fl : Flags) : Flags :=
  mkFlags (dryRun fl) (recursive fl) (force fl) (interactive fl) (shred fl) (verbose fl) (emptyTrash fl) (cleanupTrash fl) v (showTrash fl) (olderThan fl) (newerThan fl) (sizeFilter fl) (exclude fl) (include fl) (regexPattern fl) (noCountdown fl) (workers fl).

Definition set_showTrash (v : bool) (fl : Flags) : Flags :=
  mkFlags (dryRun fl) (recursive fl) (force fl) (interactive fl) (shred fl) (verbose fl) (emptyTrash fl) (cleanupTrash fl) (restoreFile fl) v (olderThan fl) (newerThan fl) (sizeFilter fl) (exclude fl) (include fl) (regexPattern fl) (noCountdown fl) (workers fl).

Definition set_olderThan (v : string) (fl : Flags) : Flags :=
  mkFlags (dryRun fl) (recursive fl) (force fl) (interactive fl) (shred fl) (verbose fl) (emptyTrash fl) (cleanupTrash fl) (restoreFile fl) (showTrash fl) v (newerThan fl) (sizeFilter fl) (exclude fl) (include fl) (regexPattern fl) (noCountdown fl) (workers fl).

Definition set_newerThan (v : string) (fl : Flags) : Flags :=
  mkFlags (dryRun fl) (recursive fl) (force fl) (interactive fl) (shred fl) (verbose fl) (emptyTrash fl) (cleanupTrash fl) (restoreFile fl) (showTrash fl) (olderThan fl) v (sizeFilter fl) (exclude fl) (include fl) (regexPattern fl) (noCountdown fl) (workers fl).

Definition set_sizeFilter (v : string) (fl : Flags) : Flags :=
  mkFlags (dryRun fl) (recursive fl) (force fl) (interactive fl) (shred fl) (verbose fl) (emptyTrash fl) (cleanupTrash fl) (restoreFile fl) (showTrash fl) (olderThan fl) (newerThan fl) v (exclude fl) (include fl) (regexPattern fl) (noCountdown fl) (workers fl).

Definition set_exclude (v : list string) (fl : Flags) : Flags :=
  mkFlags (dryRun fl) (recursive fl) (force fl) (interactive fl) (shred fl) (verbose fl) (emptyTrash fl) (cleanupTrash fl) (restoreFile fl) (showTrash fl) (olderThan fl) (newerThan fl) (sizeFilter fl) v (include fl) (regexPattern fl) (noCountdown fl) (workers fl).

Definition set_include (v : list string) (fl : Flags) : Flags :=
  mkFlags (dryRun fl) (recursive fl) (force fl) (interactive fl) (shred fl) (verbose fl) (emptyTrash fl) (cleanupTrash fl) (restoreFile fl) (showTrash fl) (olderThan fl) (newerThan fl) (sizeFilter fl) (exclude fl) v (regexPattern fl) (noCountdown fl) (workers fl).

Definition set_regexPattern (v : string) (fl : Flags) : Flags :=
  mkFlags (dryRun fl) (recursive fl) (force fl) (interactive fl) (shred fl) (verbose fl) (emptyTrash fl) (cleanupTrash fl) (restoreFile fl) (showTrash fl) (olderThan fl) (newerThan fl) (sizeFilter fl) (exclude fl) (include fl) v (noCountdown fl) (workers fl).

Definition set_noCountdown (v : bool) (fl : Flags) : Flags :=
  mkFlags (dryRun fl) (recursive fl) (force fl) (interactive fl) (shred fl) (verbose fl) (emptyTrash fl) (cleanupTrash fl) (restoreFile fl) (showTrash fl) (olderThan fl) (newerThan fl) (sizeFilter fl) (exclude fl) (include fl) (regexPattern fl) v (workers fl).

Definition set_workers (v : Z) (fl : Flags) : Flags :=
  mkFlags (dryRun fl) (recursive fl) (force fl) (interactive fl) (shred fl) (verbose fl) (emptyTrash fl) (cleanupTrash fl) (restoreFile fl) (showTrash fl) (olderThan fl) (newerThan fl) (sizeFilter fl) (exclude fl) (include fl) (regexPattern fl) (noCountdown fl) v.

(** [strings.TrimPrefix]. *)
Definition TrimPrefix (s pre : string) : string :=
  if Filepath.HasPrefix s pre then Config.from (String.length pre) s else s.

(** How [parseArgs] ends: with [printHelp] and [os.Exit(0)], with the error
    of an unknown option, or with the targets.  The variables are as the
    arguments read so far have set them. *)
Inductive Parsed :=
| Help (fl : Flags)
| UnknownOption (arg : string) (fl : Flags)
| Targets (targets : list string) (fl : Flags).

Section Library.

(** [fmt.Sscanf(s, "%d", &workers)]: the value of [workers] after the call,
    from the text and the value before it. *)
Variable fmt_Sscanf_d : string -> Z -> Z.

(** The loop of [parseArgs]. *)
Fixpoint parseLoop (args : list string) (targets : list string) (fl : Flags) : Parsed :=
  match args with
  | [] => Targets targets fl
  | arg :: args' =>
      if String.eqb arg "-h" || String.eqb arg "--help" then Help fl
      else if String.eqb arg "--dry-run" then parseLoop args' targets (set_dryRun true fl)
      else if String.eqb arg "-r" || String.eqb arg "--recursive" then
        parseLoop args' targets (set_recursive true fl)
      else if String.eqb arg "-f" || String.eqb arg "--force" then
        parseLoop args' targets (set_force true fl)
      else if String.eqb arg "-i" || String.eqb arg "--interactive" then
        parseLoop args' targets (set_interactive true fl)
      else if String.eqb arg "--shred" then parseLoop args' targets (set_shred true fl)
      else if String.eqb arg "-v" || String.eqb arg "--verbose" then
        parseLoop args' targets (set_verbose true fl)
      else if String.eqb arg "--empty-trash" then
        parseLoop args' targets (set_emptyTrash true fl)
      else if String.eqb arg "--cleanup-trash" then
        parseLoop args' targets (set_cleanupTrash true fl)
      else if String.eqb arg "--show-trash" then
        parseLoop args' targets (set_showTrash true fl)
      else if String.eqb arg "--no-countdown" then
        parseLoop args' targets (set_noCountdown true fl)
      else if Filepath.HasPrefix arg "--restore=" then
        parseLoop args' targets (set_restoreFile (TrimPrefix arg "--restore=") fl)
      else if Filepath.HasPrefix arg "--older-than=" then
        parseLoop args' targets (set_olderThan (TrimPrefix arg "--older-than=") fl)
      else if Filepath.HasPrefix arg "--newer-than=" then
        parseLoop args' targets (set_newerThan (TrimPrefix arg "--newer-than=") fl)
      else if Filepath.HasPrefix arg "--size=" then
        parseLoop args' targets (set_sizeFilter (TrimPrefix arg "--size=") fl)
      else if Filepath.HasPrefix arg "--exclude=" then
        parseLoop args' targets
          (set_exclude (exclude fl ++ [TrimPrefix arg "--exclude="]) fl)
      else if Filepath.HasPrefix arg "--include=" then
        parseLoop args' targets
          (set_include (include fl ++ [TrimPrefix arg "--include="]) fl)
      else if Filepath.HasPrefix arg "--regex=" then
        parseLoop args' targets (set_regexPattern (TrimPrefix arg "--regex=") fl)
      else if Filepath.HasPrefix arg "--workers=" then
        parseLoop args' targets
          (set_workers (fmt_Sscanf_d (TrimPrefix arg "--workers=") (workers fl)) fl)
      else if Filepath.HasPrefix arg "-" then UnknownOption arg fl
      else parseLoop args' (targets ++ [arg]) fl
  end.

(** [parseArgs]. *)
Definition parseArgs (args : list string) (fl : Flags) : Parsed :=
  match parseLoop args [] fl with
  | Targets targets fl =>
      Targets targets (if workers fl <=? 0 then set_workers 8 fl else fl)
  | parsed => parsed
  end.

End Library.

(** [calculateTotalSize]. *)
Definition calculateTotalSize (files : list Scanner.FileInfo) : Z :=
  fold_left (fun total f => Int64.add total (Scanner.Size f)) files 0.

(** *** [checkDangerousPatterns] *)

(** The reasons [checkDangerousPatterns] gives. *)
Inductive Reason :=
| RootDirectory
| WildcardOnly
| ManyInSystemDir (dir : string).

Definition systemDirs : list string :=
  ["/bin"; "/sbin"; "/usr"; "/etc"; "/var"; "/lib"; "/boot"].

(** The loop over [systemDirs] for one target: it stops at the first
    directory that makes the operation dangerous. *)
Fixpoint systemLoop (absPath : string) (nfiles : nat) (dirs : list string)
    (found : option Reason) : option Reason :=
  match dirs with
  | [] => found
  | dir :: dirs' =>
      if (String.eqb absPath dir || Filepath.HasPrefix absPath (dir +:+ "/"))
         && (100 <? Z.of_nat nfiles)
      then Some (ManyInSystemDir dir)
      else systemLoop absPath nfiles dirs' found
  end.

Section Danger.

(** [filepath.Abs], with [None] for its error: the path is empty then. *)
Variable filepath_Abs : string -> option string.

(** The loop over the targets: [found] is the reason when [dangerous] is
    set.  The loop ends at the root directory and at a wildcard; after a
    system directory it goes on with the next target. *)
Fixpoint dangerLoop (targets : list string) (nfiles : nat) (found : option Reason)
    : option Reason :=
  match targets with
  | [] => found
  | target :: targets' =>
      let absPath := match filepath_Abs target with
                     | Some absPath => absPath
                     | None => ""
                     end in
      if String.eqb absPath "/" then Some RootDirectory
      else if String.eqb target "*" || String.eqb target "/*" || String.eqb target "./*"
      then Some WildcardOnly
      else dangerLoop targets' nfiles (systemLoop absPath nfiles systemDirs found)
  end.

(** [checkDangerousPatterns]: the error it returns, if any.  [input] is the
    line read from the terminal, after [strings.TrimSpace]; it is read only
    when the operation is dangerous. *)
Definition checkDangerousPatterns (targets : list string) (nfiles : nat) (input : string)
    : option string :=
  match dangerLoop targets nfiles None with
  | Some _ =>
      if negb (String.eqb input "yes I am sure")
      then Some "dangerous operation not confirmed"
      else None
  | None => None
  end.

End Danger.

(** *** [handleInteractiveDelete] *)

(** How [handleInteractiveDelete] ends: cancelled, with nothing selected,
    or with the call of [performDeletion] on the files marked. *)
Inductive Interactive :=
| Cancelled
| NothingSelected
| Perform (toDelete : list Scanner.FileInfo).

(** The next line of the terminal, and the lines after it; an exhausted
    input reads as the empty line.  The lines are as [strings.TrimSpace]
    and [strings.ToLower] leave them. *)
Definition readLine (answers : list string) : string * list string :=
  match answers with
  | [] => ("", [])
  | a :: answers' => (a, answers')
  end.

Definition isYes (s : string) : bool := String.eqb s "y" || String.eqb s "yes".

(** The loop of [handleInteractiveDelete]. *)
Fixpoint interactiveLoop (files : list Scanner.FileInfo) (answers : list string)
    (deleteAll : bool) (toDelete : list Scanner.FileInfo) : Interactive :=
  match files with
  | [] =>
      match toDelete with
      | [] => NothingSelected
      | _ :: _ => Perform toDelete
      end
  | f :: files' =>
      if deleteAll then interactiveLoop files' answers deleteAll (toDelete ++ [f])
      else
        let (input, answers) := readLine answers in
        if isYes input then interactiveLoop files' answers deleteAll (toDelete ++ [f])
        else if String.eqb input "a" || String.eqb input "all" then
          interactiveLoop files' answers true (toDelete ++ [f])
        else if String.eqb input "q" || String.eqb input "quit" then
          match toDelete with
          | [] => Cancelled
          | _ :: _ =>
              let (confirm, _) := readLine answers in
              if isYes confirm then Perform toDelete else Cancelled
          end
        else interactiveLoop files' answers deleteAll toDelete
  end.

(** [handleInteractiveDelete]. *)
Definition handleInteractiveDelete (files : list Scanner.FileInfo) (answers : list string)
    : Interactive :=
  interactiveLoop files answers false [].

End Cmd.

(* ----------------------------------------------------------------- *)
(** ** Utilities ([internal/utils]) *)

Module Utils.

(** [s[:n]]. *)
Fixpoint upto (n : nat) (s : string) : string :=
  match n, s with
  | O, _ => EmptyString
  | S n', String c s' => String c (upto n' s')
  | S _, EmptyString => EmptyString
  end.

(** [path[:hi]] and [path[lo:]]: a slice expression panics when its bound
    is negative or beyond the length. *)
Definition sliceTo (path : string) (hi : Z) : option string :=
  if (0 <=? hi) && (hi <=? Filepath.len path) then Some (upto (Z.to_nat hi) path)
  else None.

Definition sliceFrom (path : string) (lo : Z) : option string :=
  if (0 <=? lo) && (lo <=? Filepath.len path) then Some (Config.from (Z.to_nat lo) path)
  else None.

(** [TruncatePath]; [None] is the panic of a slice out of range.  The
    arithmetic is the one of [int]. *)
Definition TruncatePath (path : string) (maxLen : Z) : option string :=
  if Filepath.len path <=? maxLen then Some path
  else
    let parts := Filepath.split_on "/" path in
    if Z.of_nat (length parts) <=? 2 then
      match sliceTo path (Int64.sub maxLen 3) with
      | Some s => Some (s +:+ "...")
      | None => None
      end
    else
      let filename := List.last parts "" in
      let tail := match sliceFrom path (Int64.add (Int64.sub (Filepath.len path) maxLen) 3) with
                  | Some s => Some ("..." +:+ s)
                  | None => None
                  end in
      if Filepath.len filename >? Int64.sub maxLen 6 then tail
      else
        let prefix := match parts with
                      | p0 :: p1 :: _ => if String.eqb p0 "" then "/" +:+ p1 else p0
                      | p0 :: _ => p0
                      | [] => ""
                      end in
        let remaining :=
          Int64.sub (Int64.sub (Int64.sub maxLen (Filepath.len prefix))
                       (Filepath.len filename)) 4 in
        if remaining <? 0 then tail
        else Some (prefix +:+ "/..." +:+ "/" +:+ filename).

(** [IsGlobPattern]. *)
Fixpoint IsGlobPattern (s : string) : bool :=
  match s with
  | EmptyString => false
  | String c s' =>
      if Ascii.eqb c "*" || Ascii.eqb c "?" || Ascii.eqb c "[" || Ascii.eqb c "]" then true
      else IsGlobPattern s'
  end.

End Utils.

(* ================================================================= *)
(** * Part II: the properties *)
(* ================================================================= *)

(* ----------------------------------------------------------------- *)
(** ** The selector *)

Module FilterFacts.

Import Filter.

(** The criteria that hold a size filter and nothing else. *)
Definition sizeOnly (threshold : Z) (op : string) : Options :=
  mkOptions None None threshold op [] [] None false.

(** The criteria that hold a newer-than cutoff and nothing else. *)
Definition newerOnly (cutoff : Z) : Options :=
  mkOptions None (Some cutoff) 0 "" [] [] None false.

Definition regularFile (size mtime : Z) : Os.FileInfo := Os.mkInfo size 420 mtime false.

Section Glob.

Variable filepath_Match : string -> string -> bool.

Local Abbreviation Match := (Filter.Match filepath_Match).

(** [Match] admits an entry exactly when none of its checks rejects it: the
    order of the checks decides nothing. *)
Lemma Match_all_checks o path info :
  Match (Some o) path info =
  negb (SkipHidden o && isHidden path)
  && negb (olderRejects o info)
  && negb (newerRejects o info)
  && negb (sizeRejects o info)
  && negb (includeRejects filepath_Match o path)
  && negb (excludeRejects filepath_Match o path)
  && negb (regexRejects o path).
Proof.
  unfold Filter.Match.
  destruct (SkipHidden o && isHidden path); [reflexivity|].
  destruct (olderRejects o info); [reflexivity|].
  destruct (newerRejects o info); [reflexivity|].
  destruct (sizeRejects o info); [reflexivity|].
  destruct (includeRejects filepath_Match o path); [reflexivity|].
  destruct (excludeRejects filepath_Match o path); [reflexivity|].
  destruct (regexRejects o path); reflexivity.
Qed.

Lemma sizeRejects_Match o path info :
  sizeRejects o info = true -> Match (Some o) path info = false.
Proof.
  intros H. rewrite Match_all_checks, H. simpl.
  rewrite !andb_false_r. reflexivity.
Qed.

Lemma newerRejects_Match o path info :
  newerRejects o info = true -> Match (Some o) path info = false.
Proof.
  intros H. rewrite Match_all_checks, H. simpl.
  rewrite !andb_false_r. reflexivity.
Qed.

Lemma sizeRejects_plus o info :
  SizeFilter o > 0 -> SizeOp o = "+" -> Os.IsDir info = false ->
  sizeRejects o info = (Os.Size info <=? SizeFilter o).
Proof.
  intros Hpos Hop Hdir. unfold sizeRejects. rewrite Hop, Hdir.
  replace (SizeFilter o >? 0) with true by (symmetry; apply Z.gtb_lt; lia).
  reflexivity.
Qed.

Lemma sizeRejects_dir o info : Os.IsDir info = true -> sizeRejects o info = false.
Proof.
  intros Hdir. unfold sizeRejects. rewrite Hdir, andb_false_r. reflexivity.
Qed.

Lemma sizeRejects_off o info : SizeFilter o <= 0 -> sizeRejects o info = false.
Proof.
  intros Hoff. unfold sizeRejects.
  replace (SizeFilter o >? 0) with false by (symmetry; rewrite Z.gtb_ltb; apply Z.ltb_ge; lia).
  reflexivity.
Qed.

(** C6, as the code has it.  For a size filter [(threshold, "+")]: when the
    threshold is positive, a regular file of size exactly [threshold] is
    rejected by [Match], whatever else is configured, and a regular file
    of size [threshold + 1] passes the size check (and is admitted when
    nothing else is configured).  A threshold of 0 or less switches the
    size check off, whatever the direction: the check rejects no entry, of
    no size, and [Match] admits every entry when nothing else is
    configured.  A directory passes the size check of every filter,
    whatever its direction and threshold. *)
Theorem size_filter_strict o threshold path :
  SizeFilter o = threshold -> SizeOp o = "+" ->
  (threshold > 0 ->
   (forall info, Os.IsDir info = false -> Os.Size info = threshold ->
      sizeRejects o info = true /\ Match (Some o) path info = false)
   /\ (forall info, Os.IsDir info = false -> Os.Size info = threshold + 1 ->
         sizeRejects o info = false
         /\ Filter.Match filepath_Match (Some (sizeOnly threshold "+")) path info = true))
  /\ (forall o' info,
        SizeFilter o' <= 0 ->
        sizeRejects o' info = false
        /\ Filter.Match filepath_Match (Some (sizeOnly (SizeFilter o') (SizeOp o'))) path info
           = true)
  /\ (forall o' dir, Os.IsDir dir = true -> sizeRejects o' dir = false).
Proof.
  intros Hthr Hop. split; [|split].
  - intros Hpos. split.
    + intros info Hdir Hsize.
      assert (Hrej : sizeRejects o info = true).
      { rewrite sizeRejects_plus by (rewrite ?Hthr; auto; lia).
        apply Z.leb_le. lia. }
      split; [exact Hrej | apply sizeRejects_Match, Hrej].
    + intros info Hdir Hsize. split.
      * rewrite sizeRejects_plus by (rewrite ?Hthr; auto; lia).
        apply Z.leb_gt. lia.
      * rewrite Match_all_checks.
        assert (Hs : sizeRejects (sizeOnly threshold "+") info = false).
        { rewrite sizeRejects_plus by (simpl; auto; lia).
          simpl. apply Z.leb_gt. lia. }
        rewrite Hs. reflexivity.
  - intros o' info Hoff. split; [apply sizeRejects_off, Hoff|].
    rewrite Match_all_checks.
    rewrite (sizeRejects_off (sizeOnly (SizeFilter o') (SizeOp o')) info) by exact Hoff.
    reflexivity.
  - intros o' dir Hdir. apply sizeRejects_dir, Hdir.
Qed.

(** C7.  With a newer-than cutoff [T], the check rejects exactly the
    entries modified strictly before [T]; [Match] rejects every such entry
    whatever else is configured; an entry modified at [T] exactly passes
    the check, and is admitted when nothing else is configured. *)
Theorem newer_than_cutoff o T path :
  NewerThan o = Some T ->
  (forall info, newerRejects o info = true <-> Os.ModTime info < T)
  /\ (forall info, Os.ModTime info < T -> Match (Some o) path info = false)
  /\ (forall info, Os.ModTime info = T ->
        newerRejects o info = false
        /\ Filter.Match filepath_Match (Some (newerOnly T)) path info = true).
Proof.
  intros HT.
  assert (Hiff : forall info, newerRejects o info = true <-> Os.ModTime info < T).
  { intros info. unfold newerRejects. rewrite HT. unfold Time.Before. apply Z.ltb_lt. }
  split; [exact Hiff|]. split.
  - intros info Hlt. apply newerRejects_Match, Hiff, Hlt.
  - intros info Heq. split.
    + unfold newerRejects. rewrite HT. unfold Time.Before.
      apply Z.ltb_ge. lia.
    + rewrite Match_all_checks. unfold newerRejects, newerOnly. simpl.
      unfold Time.Before. replace (Os.ModTime info <? T) with false
        by (symmetry; apply Z.ltb_ge; lia).
      reflexivity.
Qed.

End Glob.

(** The matcher the examples run with: no pattern matches. *)
Definition noGlob (pattern name : string) : bool := false.

(** C6 as the specification states it fails for the threshold [0]: the
    filter [(0, "+")] does not reject a regular file of size exactly [0];
    [Match] admits it. *)
Lemma size_filter_zero_threshold :
  SizeFilter (sizeOnly 0 "+") = 0
  /\ SizeOp (sizeOnly 0 "+") = "+"
  /\ Os.Size (regularFile 0 0) = SizeFilter (sizeOnly 0 "+")
  /\ Os.IsDir (regularFile 0 0) = false
  /\ sizeRejects (sizeOnly 0 "+") (regularFile 0 0) = false
  /\ Filter.Match noGlob (Some (sizeOnly 0 "+")) "/tmp/empty.log" (regularFile 0 0) = true.
Proof. repeat split. Qed.

Lemma size_filter_strict_witness :
  Filter.Match noGlob (Some (sizeOnly 100 "+")) "/tmp/a.log" (regularFile 100 0) = false
  /\ sizeRejects (sizeOnly 100 "+") (regularFile 101 0) = false
  /\ sizeRejects (sizeOnly 0 "-") (regularFile 5 0) = false
  /\ Filter.Match noGlob (Some (sizeOnly (-1) "+")) "/tmp/a.log" (regularFile 0 0) = true
  /\ sizeRejects (sizeOnly 100 "-") (Os.mkInfo 4096 493 0 true) = false.
Proof.
  destruct (size_filter_strict noGlob (sizeOnly 100 "+") 100 "/tmp/a.log"
              eq_refl eq_refl) as [Hpos [Hoff Hdir]].
  destruct (Hpos ltac:(lia)) as [Hexact Habove].
  split; [|split; [|split; [|split]]].
  - apply (Hexact (regularFile 100 0)); reflexivity.
  - apply (Habove (regularFile 101 0)); reflexivity.
  - apply (Hoff (sizeOnly 0 "-") (regularFile 5 0)). simpl. lia.
  - apply (Hoff (sizeOnly (-1) "+") (regularFile 0 0)). simpl. lia.
  - apply Hdir. reflexivity.
Defined.

Lemma newer_than_cutoff_witness :
  Filter.Match noGlob (Some (newerOnly 5000)) "/tmp/a.log" (regularFile 1 4999) = false
  /\ newerRejects (newerOnly 5000) (regularFile 1 5000) = false
  /\ Filter.Match noGlob (Some (newerOnly 5000)) "/tmp/a.log" (regularFile 1 5000) = true.
Proof.
  destruct (newer_than_cutoff noGlob (newerOnly 5000) 5000 "/tmp/a.log" eq_refl)
    as [_ [Hbefore Hat]].
  split.
  - apply (Hbefore (regularFile 1 4999)). simpl. lia.
  - apply (Hat (regularFile 1 5000)). reflexivity.
Defined.

End FilterFacts.

(* ----------------------------------------------------------------- *)
(** ** The order of strings *)

Module StringOrder.

Lemma ltb_lt a b : String.ltb a b = true <-> String_as_OT.lt a b.
Proof.
  unfold String.ltb. rewrite <- String_as_OT.cmp_lt. unfold String_as_OT.cmp.
  destruct (String.compare a b); split; intros H; congruence.
Qed.

Lemma ltb_irrefl a : String.ltb a a = false.
Proof.
  destruct (String.ltb a a) eqn:E; [|reflexivity].
  apply ltb_lt in E. exfalso. apply (String_as_OT.lt_not_eq _ _ E). reflexivity.
Qed.

Lemma ltb_trans a b c :
  String.ltb a b = true -> String.ltb b c = true -> String.ltb a c = true.
Proof.
  rewrite !ltb_lt. apply String_as_OT.lt_trans.
Qed.

Lemma ltb_asym a b : String.ltb a b = true -> String.ltb b a = false.
Proof.
  intros Hab. destruct (String.ltb b a) eqn:Hba; [|reflexivity].
  pose proof (ltb_trans _ _ _ Hab Hba) as Haa.
  rewrite ltb_irrefl in Haa. discriminate.
Qed.

(** Of two different strings one is less than the other. *)
Lemma ltb_total a b : String.ltb a b = false -> String.ltb b a = false -> a = b.
Proof.
  unfold String.ltb. intros Hab Hba.
  rewrite (String.compare_antisym b a) in Hba.
  destruct (String.compare a b) eqn:E; simpl in *; try discriminate.
  apply String.compare_eq_iff, E.
Qed.

(** Not being greater is transitive. *)
Lemma not_gt_trans a b c :
  String.ltb b a = false -> String.ltb c b = false -> String.ltb c a = false.
Proof.
  intros Hba Hcb.
  destruct (String.ltb c a) eqn:Hca; [|reflexivity].
  destruct (String.ltb a b) eqn:Hab.
  - rewrite (ltb_trans _ _ _ Hca Hab) in Hcb. discriminate.
  - pose proof (ltb_total _ _ Hab Hba) as ->. congruence.
Qed.

End StringOrder.

(* ----------------------------------------------------------------- *)
(** ** The bubble sort *)

Module BubbleFacts.

Import Bubble.

Section Sort.

Context {A : Type}.
Variable exchange : A -> A -> bool.

(** [a] may stand before [b]: the test leaves the two as they are. *)
Definition inOrder (a b : A) : Prop := exchange a b = false.

(** The test never exchanges two elements both ways, and what it leaves in
    place is transitive. *)
Hypothesis exchange_asym : forall a b, exchange a b = true -> exchange b a = false.
Hypothesis inOrder_trans : forall a b c, inOrder a b -> inOrder b c -> inOrder a c.

Lemma bubbleStep_cons x (l : list A) j :
  bubbleStep exchange (x :: l) (S j) = x :: bubbleStep exchange l j.
Proof.
  unfold bubbleStep. simpl.
  destruct (l !! j) as [a|]; [|reflexivity].
  destruct (l !! S j) as [b|]; [|reflexivity].
  destruct (exchange a b); reflexivity.
Qed.

Lemma fold_bubbleStep_cons n : forall a x (l : list A),
  fold_left (bubbleStep exchange) (seq (S a) n) (x :: l)
  = x :: fold_left (bubbleStep exchange) (seq a n) l.
Proof.
  induction n as [|n IH]; intros a x l; simpl; [reflexivity|].
  rewrite bubbleStep_cons. apply IH.
Qed.

Lemma bubblePass_nil n : bubblePass exchange n (@nil A) = [].
Proof.
  unfold bubblePass. generalize 0%nat.
  induction n as [|n IH]; intros a; simpl; [reflexivity|]. apply IH.
Qed.

Lemma bubblePass_one n x : bubblePass exchange n [x] = [x].
Proof.
  unfold bubblePass. destruct n as [|n]; [reflexivity|]. simpl.
  unfold bubbleStep at 2. simpl.
  rewrite fold_bubbleStep_cons. f_equal.
  apply (bubblePass_nil n).
Qed.

(** One pass, read along the list: the greater of two neighbours moves on. *)
Lemma bubblePass_two n x y (l : list A) :
  bubblePass exchange (S n) (x :: y :: l)
  = if exchange x y then y :: bubblePass exchange n (x :: l)
    else x :: bubblePass exchange n (y :: l).
Proof.
  unfold bubblePass. simpl. unfold bubbleStep at 2. simpl.
  destruct (exchange x y); simpl; apply fold_bubbleStep_cons.
Qed.

(** A pass over [S n] elements leaves the last of them in place [n], after
    everything that may stand before it. *)
Lemma bubblePass_last n : forall l : list A,
  length l = S n ->
  exists l' m, bubblePass exchange n l = l' ++ [m]
               /\ Permutation l (l' ++ [m])
               /\ Forall (fun x => inOrder x m) l'.
Proof.
  induction n as [|n IH]; intros l Hlen.
  - destruct l as [|x [|? ?]]; try discriminate.
    exists [], x. repeat split; [reflexivity | constructor].
  - destruct l as [|x [|y l]]; try discriminate.
    rewrite bubblePass_two.
    destruct (exchange x y) eqn:Exy.
    + destruct (IH (x :: l)) as (q & m & Hq & Hperm & Hall); [simpl in *; lia|].
      exists (y :: q), m. rewrite Hq. split; [reflexivity|]. split.
      * rewrite perm_swap. simpl. constructor. exact Hperm.
      * constructor; [|exact Hall].
        pose proof (exchange_asym _ _ Exy) as Hyx.
        assert (Hin : x ∈ q ++ [m]) by (rewrite <- Hperm; left).
        apply elem_of_app in Hin as [Hin | Hin].
        -- rewrite Forall_forall in Hall.
           apply (inOrder_trans y x m); [exact Hyx | apply Hall, Hin].
        -- apply list_elem_of_singleton in Hin. subst. exact Hyx.
    + destruct (IH (y :: l)) as (q & m & Hq & Hperm & Hall); [simpl in *; lia|].
      exists (x :: q), m. rewrite Hq. split; [reflexivity|]. split.
      * simpl. constructor. exact Hperm.
      * constructor; [|exact Hall].
        assert (Hin : y ∈ q ++ [m]) by (rewrite <- Hperm; left).
        apply elem_of_app in Hin as [Hin | Hin].
        -- rewrite Forall_forall in Hall.
           apply (inOrder_trans x y m); [exact Exy | apply Hall, Hin].
        -- apply list_elem_of_singleton in Hin. subst. exact Exy.
Qed.

(** A pass does not reach beyond its bound. *)
Lemma bubblePass_app n : forall p s : list A,
  length p = S n -> bubblePass exchange n (p ++ s) = bubblePass exchange n p ++ s.
Proof.
  induction n as [|n IH]; intros p s Hlen.
  - reflexivity.
  - destruct p as [|x [|y p]]; try discriminate.
    simpl. rewrite !bubblePass_two.
    destruct (exchange x y).
    + simpl. f_equal. apply (IH (x :: p) s). simpl in *; lia.
    + simpl. f_equal. apply (IH (y :: p) s). simpl in *; lia.
Qed.

(** The outer loop, from its turn [i] on: the elements beyond the bound of
    the pass are sorted and stand after all the others. *)
Lemma rounds_sorted n k : forall i (p s : list A),
  (i + k = n - 1)%nat ->
  length p = S k ->
  StronglySorted inOrder s ->
  (forall x y, x ∈ p -> y ∈ s -> inOrder x y) ->
  let r := fold_left (fun fs i => bubblePass exchange (n - i - 1) fs) (seq i k) (p ++ s) in
  StronglySorted inOrder r /\ Permutation (p ++ s) r.
Proof.
  induction k as [|k IH]; intros i p s Hik Hlen Hs Hps; simpl.
  - destruct p as [|x [|? ?]]; try discriminate. simpl. split; [|reflexivity].
    constructor; [exact Hs|].
    apply Forall_forall. intros y Hy. apply Hps; [left | exact Hy].
  - replace (n - i - 1)%nat with (S k) by lia.
    rewrite bubblePass_app by exact Hlen.
    destruct (bubblePass_last (S k) p Hlen) as (q & m & Hq & Hperm & Hall).
    rewrite Hq, <- app_assoc. simpl.
    assert (Hm : m ∈ p) by (rewrite Hperm; apply elem_of_app; right; left).
    assert (Hqp : forall x, x ∈ q -> x ∈ p).
    { intros x Hx. rewrite Hperm. apply elem_of_app. left. exact Hx. }
    destruct (IH (S i) q (m :: s)) as [Hsorted Hperm'].
    + lia.
    + apply Permutation_length in Hperm. rewrite length_app in Hperm.
      simpl in Hperm. lia.
    + constructor; [exact Hs|].
      apply Forall_forall. intros y Hy. apply Hps; [exact Hm | exact Hy].
    + intros x y Hx Hy. apply elem_of_cons in Hy as [-> | Hy].
      * rewrite Forall_forall in Hall. apply Hall, Hx.
      * apply Hps; [apply Hqp, Hx | exact Hy].
    + split; [exact Hsorted|].
      rewrite <- Hperm'. rewrite Hperm, <- app_assoc. reflexivity.
Qed.

(** The sort sorts, and keeps the elements. *)
Lemma bubbleSort_sorted (l : list A) :
  StronglySorted inOrder (bubbleSort exchange l) /\ Permutation l (bubbleSort exchange l).
Proof.
  unfold bubbleSort. destruct l as [|x l].
  - simpl. split; [constructor | reflexivity].
  - pose proof (rounds_sorted (length (x :: l)) (length l) 0 (x :: l) []) as H.
    rewrite app_nil_r in H. cbv zeta in *.
    replace (length (x :: l) - 1)%nat with (length l) by (simpl; lia).
    apply H.
    + simpl. lia.
    + reflexivity.
    + constructor.
    + intros a b _ Hb. inversion Hb.
Qed.

End Sort.

(** A list of one element or none is as the sort leaves it. *)
Lemma bubbleSort_short {A} (exchange : A -> A -> bool) (l : list A) :
  (length l <= 1)%nat -> bubbleSort exchange l = l.
Proof.
  destruct l as [|x [|y l]]; simpl; intros H; try reflexivity. lia.
Qed.

End BubbleFacts.

(* ----------------------------------------------------------------- *)
(** ** Paths *)

Module FilepathFacts.

Import Filepath.

Lemma append_cons x (a b : string) : String x a +:+ b = String x (a +:+ b).
Proof. reflexivity. Qed.

Lemma append_nil_l (b : string) : "" +:+ b = b.
Proof. reflexivity. Qed.

Lemma append_assoc (a b c : string) : (a +:+ b) +:+ c = a +:+ (b +:+ c).
Proof.
  induction a as [|x a IH]; [reflexivity|].
  rewrite !append_cons, IH. reflexivity.
Qed.

Lemma split_on_nonempty sep s : split_on sep s <> [].
Proof.
  destruct s as [|c s]; simpl; [discriminate|].
  destruct (Ascii.eqb c sep); [discriminate|].
  destruct (split_on sep s); discriminate.
Qed.

(** Splitting goes through a separator. *)
Lemma split_on_app sep a b :
  split_on sep (a +:+ String sep b) = split_on sep a ++ split_on sep b.
Proof.
  induction a as [|c a IH]; [rewrite append_nil_l | rewrite append_cons]; simpl.
  - rewrite Ascii.eqb_refl. reflexivity.
  - destruct (Ascii.eqb c sep); rewrite IH; [reflexivity|].
    pose proof (split_on_nonempty sep a) as Hne.
    destruct (split_on sep a); [contradiction | reflexivity].
Qed.

Lemma components_app a b : components (a +:+ "/" +:+ b) = components a ++ components b.
Proof.
  unfold components. change ("/" +:+ b) with (String Separator b).
  rewrite split_on_app. apply List.filter_app.
Qed.

Lemma components_nil : components "" = [].
Proof. reflexivity. Qed.

Lemma HasSuffix_inv s suf : HasSuffix s suf = true -> exists pre, s = pre +:+ suf.
Proof.
  induction s as [|c s IH]; cbn [HasSuffix].
  - rewrite orb_false_r. intros H. apply String.eqb_eq in H. subst. exists "". reflexivity.
  - intros H. apply orb_true_iff in H as [H | H].
    + apply String.eqb_eq in H. exists "". rewrite append_nil_l. exact H.
    + destruct (IH H) as [pre ->]. exists (String c pre). reflexivity.
Qed.

(** The elements of a joined path are the elements of its two parts. *)
Lemma components_Join d n : components (Join d n) = components d ++ components n.
Proof.
  unfold Join. destruct (String.eqb d "") eqn:Ed.
  - apply String.eqb_eq in Ed. subst. reflexivity.
  - destruct (HasSuffix d "/") eqn:Es.
    + destruct (HasSuffix_inv _ _ Es) as [pre ->].
      rewrite append_assoc.
      rewrite (components_app pre n).
      change (pre +:+ "/") with (pre +:+ "/" +:+ "").
      rewrite (components_app pre ""). rewrite components_nil, app_nil_r. reflexivity.
    + apply components_app.
Qed.

Lemma split_on_noSeparator s : noSeparator s = true -> split_on Separator s = [s].
Proof.
  induction s as [|c s IH]; simpl; [reflexivity|].
  intros H. apply andb_true_iff in H as [Hc Hs].
  apply negb_true_iff in Hc. rewrite Hc, (IH Hs). reflexivity.
Qed.

(** A simple name is a path of one element: itself. *)
Lemma components_simple n : simple_name n = true -> components n = [n].
Proof.
  unfold simple_name, components. intros H. apply andb_true_iff in H as [Hne Hno].
  rewrite split_on_noSeparator by exact Hno. simpl. rewrite Hne. reflexivity.
Qed.

Lemma noSeparator_app a b : noSeparator (a +:+ b) = noSeparator a && noSeparator b.
Proof.
  induction a as [|c a IH]; [reflexivity|].
  rewrite append_cons. simpl. rewrite IH, andb_assoc. reflexivity.
Qed.

Lemma simple_name_app a b :
  simple_name a = true -> noSeparator b = true -> simple_name (a +:+ b) = true.
Proof.
  unfold simple_name. intros H Hb. apply andb_true_iff in H as [Hne Hno].
  rewrite noSeparator_app, Hno, Hb, andb_true_r.
  destruct a as [|c a]; [discriminate | reflexivity].
Qed.

Lemma components_Join_simple d n :
  simple_name n = true -> components (Join d n) = components d ++ [n].
Proof. intros H. rewrite components_Join, (components_simple n H). reflexivity. Qed.

(** The base name of a path that ends in a simple name. *)
Lemma Base_Join_simple d n : simple_name n = true -> Base (Join d n) = n.
Proof.
  intros H. unfold Base. rewrite components_Join_simple by exact H.
  rewrite last_snoc.
  destruct (String.eqb (Join d n) "") eqn:E; [|reflexivity].
  apply String.eqb_eq in E.
  pose proof (components_Join_simple d n H) as Hc. rewrite E in Hc.
  destruct (components d); discriminate.
Qed.

Lemma length_append (a b : string) :
  String.length (a +:+ b) = (String.length a + String.length b)%nat.
Proof.
  induction a as [|x a IH]; [reflexivity|].
  rewrite append_cons. simpl. rewrite IH. reflexivity.
Qed.

(** What stands before a suffix is determined by the whole. *)
Lemma append_inj_r (a b s : string) : a +:+ s = b +:+ s -> a = b.
Proof.
  revert b. induction a as [|x a IH]; intros [|y b] H.
  - reflexivity.
  - apply (f_equal String.length) in H. rewrite !length_append in H.
    simpl in H. lia.
  - apply (f_equal String.length) in H. rewrite !length_append in H.
    simpl in H. lia.
  - rewrite !append_cons in H. injection H as -> H. f_equal. apply IH, H.
Qed.

Lemma Join_simple_inj d n n' :
  simple_name n = true -> simple_name n' = true -> Join d n = Join d n' -> n = n'.
Proof.
  intros Hn Hn' H. apply (f_equal Base) in H.
  rewrite !Base_Join_simple in H by assumption. exact H.
Qed.

(** *** [strings.HasPrefix] and [strings.Contains] *)

Lemma prefix_inv p : forall s, String.prefix p s = true -> exists rest, s = p +:+ rest.
Proof.
  induction p as [|c p IH]; intros s H; [exists s; reflexivity|].
  destruct s as [|d s]; [discriminate|]. cbn [String.prefix] in H.
  destruct (ascii_dec c d) as [<- | _]; [|discriminate].
  destruct (IH s H) as [rest ->]. exists rest. reflexivity.
Qed.

Lemma prefix_append p r : String.prefix p (p +:+ r) = true.
Proof.
  induction p as [|c p IH]; [destruct r; reflexivity|].
  change (String.prefix (String c p) (String c (p +:+ r)) = true).
  cbn [String.prefix]. destruct (ascii_dec c c); [exact IH | contradiction].
Qed.

Lemma Contains_cons c s sub :
  Contains (String c s) sub = String.prefix sub (String c s) || Contains s sub.
Proof. reflexivity. Qed.

(** [strings.Contains]: [sub] is in [s], with something before it and
    something after it. *)
Lemma Contains_iff s sub :
  Contains s sub = true <-> exists before after, s = before +:+ sub +:+ after.
Proof.
  split.
  - induction s as [|c s IH]; intros H.
    + cbn [Contains] in H. rewrite orb_false_r in H.
      apply prefix_inv in H as [rest ->]. exists "", rest. reflexivity.
    + rewrite Contains_cons in H. apply orb_true_iff in H as [H | H].
      * apply prefix_inv in H as [rest ->]. exists "", rest. reflexivity.
      * destruct (IH H) as (before & after & ->).
        exists (String c before), after. reflexivity.
  - intros (before & after & ->). induction before as [|c before IH].
    + rewrite append_nil_l.
      destruct (sub +:+ after) eqn:E.
      * cbn [Contains]. rewrite <- E, prefix_append. reflexivity.
      * rewrite Contains_cons, <- E, prefix_append. reflexivity.
    + rewrite append_cons, Contains_cons, IH. apply orb_true_r.
Qed.

End FilepathFacts.


(* ----------------------------------------------------------------- *)
(** ** The walker *)

Module ScannerFacts.

Import Scanner.

Definition depth (f : FileInfo) : Z := countSeparators (Path f).

(** The order [sortByDepth] establishes: deeper paths first, and among
    paths of one depth the lesser path first. *)
Definition deeperFirst (a b : FileInfo) : Prop :=
  depth a > depth b \/ (depth a = depth b /\ String.ltb (Path b) (Path a) = false).


Lemma inOrder_deeperFirst a b :
  BubbleFacts.inOrder outOfOrder a b <-> deeperFirst a b.
Proof.
  unfold BubbleFacts.inOrder, outOfOrder, deeperFirst, depth.
  rewrite orb_false_iff, andb_false_iff, Z.ltb_ge, Z.eqb_neq.
  destruct (String.ltb (Path b) (Path a)); split.
  - intros [Hge [Hne | Hf]]; [left; lia | discriminate].
  - intros [Hgt | [_ Hf]]; [split; [lia | left; lia] | discriminate].
  - intros [Hge _].
    destruct (Z.eq_dec (countSeparators (Path a)) (countSeparators (Path b)));
      [right; split; [assumption | reflexivity] | left; lia].
  - intros [Hgt | [Heq _]]; (split; [lia | right; reflexivity]).
Qed.

Lemma outOfOrder_asym a b : outOfOrder a b = true -> outOfOrder b a = false.
Proof.
  unfold outOfOrder.
  rewrite orb_true_iff, andb_true_iff, Z.ltb_lt, Z.eqb_eq.
  rewrite orb_false_iff, andb_false_iff, Z.ltb_ge, Z.eqb_neq.
  intros [Hlt | [Heq Hpath]]; [lia|].
  split; [lia|]. right. apply StringOrder.ltb_asym, Hpath.
Qed.

Lemma deeperFirst_trans a b c : deeperFirst a b -> deeperFirst b c -> deeperFirst a c.
Proof.
  unfold deeperFirst.
  intros [Hab | [Hab Hpab]] [Hbc | [Hbc Hpbc]]; try (left; lia).
  right. split; [lia|]. apply (StringOrder.not_gt_trans _ (Path b)); assumption.
Qed.

Lemma inOrder_outOfOrder_trans a b c :
  BubbleFacts.inOrder outOfOrder a b -> BubbleFacts.inOrder outOfOrder b c ->
  BubbleFacts.inOrder outOfOrder a c.
Proof. rewrite !inOrder_deeperFirst. apply deeperFirst_trans. Qed.

Lemma StronglySorted_impl {A} (R S : A -> A -> Prop) (l : list A) :
  (forall a b, R a b -> S a b) -> StronglySorted R l -> StronglySorted S l.
Proof.
  intros HRS. induction 1 as [|x l Hl IH Hx]; constructor; [exact IH|].
  eapply Forall_impl; [exact Hx | intros b; apply HRS].
Qed.

(** [sortByDepth] puts its argument into the order, and keeps the
    candidates. *)
Lemma sortByDepth_sorted files :
  StronglySorted deeperFirst (sortByDepth files) /\ Permutation files (sortByDepth files).
Proof.
  destruct (BubbleFacts.bubbleSort_sorted outOfOrder outOfOrder_asym
              inOrder_outOfOrder_trans files) as [Hsorted Hperm].
  split; [|exact Hperm].
  eapply StronglySorted_impl; [|exact Hsorted].
  intros a b. apply inOrder_deeperFirst.
Qed.

Section Glob.

Variable filepath_Match : string -> string -> bool.

Local Abbreviation Scan := (Scanner.Scan filepath_Match).
Local Abbreviation ScanWithCallback := (Scanner.ScanWithCallback filepath_Match).

(** Whatever [Scan] returns is in the order of [sortByDepth]. *)
Lemma Scan_sorted path recursive opts w files :
  Scan path recursive opts w = inr files -> StronglySorted deeperFirst files.
Proof.
  unfold Scanner.Scan.
  destruct (Os.filepath_Abs path w) as [err | absPath]; [discriminate|].
  destruct (Os.os_Lstat absPath w) as [err | info]; [discriminate|].
  destruct (negb (Os.IsDir info)); [|destruct (negb recursive)].
  - intros [= <-].
    destruct (Filter.Match _ _ _ _); repeat constructor.
  - intros [= <-].
    destruct (Filter.Match _ _ _ _); repeat constructor.
  - intros [= <-]. apply sortByDepth_sorted.
Qed.

(** The two visitors do the same to what they carry along. *)
Lemma scanVisit_callbackVisit opts :
  scanVisit filepath_Match opts = callbackVisit filepath_Match opts.
Proof. reflexivity. Qed.

(** C9.  [Scan] fails exactly when [ScanWithCallback] fails, with the same
    error and without a call of the callback; else it returns the entries
    the callback is called with, in the order of the calls, put through
    [sortByDepth]: the same candidates, in the deepest-first order. *)
Theorem Scan_is_sorted_ScanWithCallback path recursive opts w :
  Scan path recursive opts w
  = match ScanWithCallback path recursive opts w with
    | (Some err, _) => inl err
    | (None, calls) => inr (sortByDepth calls)
    end
  /\ match ScanWithCallback path recursive opts w with
     | (Some err, calls) => calls = []
     | (None, calls) =>
         exists files, Scan path recursive opts w = inr files
                       /\ Permutation calls files
                       /\ StronglySorted deeperFirst files
     end.
Proof.
  assert (Heq : Scan path recursive opts w
                = match ScanWithCallback path recursive opts w with
                  | (Some err, _) => inl err
                  | (None, calls) => inr (sortByDepth calls)
                  end).
  { unfold Scanner.Scan, Scanner.ScanWithCallback.
    destruct (Os.filepath_Abs path w) as [err | absPath]; [reflexivity|].
    destruct (Os.os_Lstat absPath w) as [err | info]; [reflexivity|].
    destruct (negb (Os.IsDir info)); [|destruct (negb recursive)].
    - destruct (Filter.Match _ _ _ _); reflexivity.
    - destruct (Filter.Match _ _ _ _); reflexivity.
    - rewrite scanVisit_callbackVisit. reflexivity. }
  split; [exact Heq|].
  rewrite Heq.
  destruct (ScanWithCallback path recursive opts w) as [[err|] calls] eqn:E.
  - unfold Scanner.ScanWithCallback in E.
    destruct (Os.filepath_Abs path w) as [err' | absPath]; [congruence|].
    destruct (Os.os_Lstat absPath w) as [err' | info]; [congruence|].
    destruct (negb (Os.IsDir info)); [|destruct (negb recursive)]; discriminate.
  - exists (sortByDepth calls). split; [reflexivity|].
    destruct (sortByDepth_sorted calls) as [Hs Hp]. split; assumption.
Qed.

End Glob.

(** *** The trees of the examples *)

Definition attr (size : Z) : Os.Attr := Os.mkAttr size 420 0.

Definition emptyFile : Os.Node := Os.File (attr 0) Os.Raw.

(** A world around the tree [t] in which no call fails. *)
Definition quiet (t : Os.Node) : Os.World :=
  Os.mkWorld t "/" "/home/user" 0 [] (fun _ _ => false).

(** The tree [a/b/c.txt]. *)
Definition treeABC : Os.Node :=
  Os.Dir (attr 0)
    [("a", Os.Dir (attr 0) [("b", Os.Dir (attr 0) [("c.txt", emptyFile)])])].


Definition noGlob (pattern name : string) : bool := false.




End ScannerFacts.

(* ----------------------------------------------------------------- *)
(** ** The file system *)

Module OsFacts.

Import Os.

(** *** Directory entries *)

Lemma assoc_es_remove_eq c es : assoc c (es_remove c es) = None.
Proof.
  induction es as [|[n x] es IH]; simpl; [reflexivity|].
  destruct (String.eqb n c) eqn:E; [exact IH|]. simpl. rewrite E. exact IH.
Qed.

Lemma assoc_es_remove_ne c d es : c <> d -> assoc d (es_remove c es) = assoc d es.
Proof.
  intros Hne. induction es as [|[n x] es IH]; simpl; [reflexivity|].
  destruct (String.eqb n c) eqn:E.
  - apply String.eqb_eq in E. subst n.
    replace (String.eqb c d) with false by (symmetry; apply String.eqb_neq, Hne).
    exact IH.
  - simpl. rewrite IH. reflexivity.
Qed.

Lemma assoc_es_put_eq c x es : assoc c (es_put c x es) = Some x.
Proof.
  induction es as [|[n y] es IH]; simpl.
  - rewrite String.eqb_refl. reflexivity.
  - destruct (String.eqb n c) eqn:E; simpl.
    + rewrite String.eqb_refl. reflexivity.
    + destruct (String.ltb c n); simpl.
      * rewrite String.eqb_refl. reflexivity.
      * rewrite E. exact IH.
Qed.

Lemma assoc_es_put_ne c d x es : c <> d -> assoc d (es_put c x es) = assoc d es.
Proof.
  intros Hne.
  assert (Hcd : String.eqb c d = false) by (apply String.eqb_neq, Hne).
  induction es as [|[n y] es IH]; simpl.
  - rewrite Hcd. reflexivity.
  - destruct (String.eqb n c) eqn:E; simpl.
    + apply String.eqb_eq in E. subst n. rewrite Hcd. reflexivity.
    + destruct (String.ltb c n); simpl.
      * rewrite Hcd. reflexivity.
      * rewrite IH. reflexivity.
Qed.

(** *** Removal *)

Lemma lookup_cons c q a es :
  lookup (c :: q) (Dir a es)
  = match assoc c es with Some x => lookup q x | None => None end.
Proof. reflexivity. Qed.

Lemma lookup_file c q a x : lookup (c :: q) (File a x) = None.
Proof. reflexivity. Qed.

(** What is removed is gone, with everything below it. *)
Lemma lookup_remove_at_below p : forall q t,
  p <> [] -> lookup (p ++ q) (remove_at p t) = None.
Proof.
  induction p as [|c p IH]; intros q t Hne; [congruence|].
  destruct t as [a x | a es]; [reflexivity|].
  destruct p as [|c' p].
  - simpl. rewrite assoc_es_remove_eq. reflexivity.
  - cbn [remove_at].
    destruct (assoc c es) as [x|] eqn:E.
    + rewrite <- app_comm_cons, lookup_cons, assoc_es_put_eq.
      apply IH. discriminate.
    + rewrite <- app_comm_cons, lookup_cons, E. reflexivity.
Qed.

Lemma lookup_remove_at_same p t : p <> [] -> lookup p (remove_at p t) = None.
Proof.
  intros Hne. rewrite <- (app_nil_r p) at 1. apply lookup_remove_at_below, Hne.
Qed.

(** *** Paths with a common beginning *)

(** Looking up goes step by step. *)
Lemma lookup_app p : forall r t,
  lookup (p ++ r) t = match lookup p t with Some x => lookup r x | None => None end.
Proof.
  induction p as [|c p IH]; intros r t; [reflexivity|].
  simpl. destruct t as [a x | a es]; [reflexivity|].
  destruct (assoc c es) as [y|]; [apply IH | reflexivity].
Qed.

Lemma remove_at_cons_cons c c' p a es :
  remove_at (c :: c' :: p) (Dir a es)
  = match assoc c es with
    | Some x => Dir a (es_put c (remove_at (c' :: p) x) es)
    | None => Dir a es
    end.
Proof. reflexivity. Qed.

(** A removal below [p] is a removal in what [p] names. *)
Lemma lookup_remove_at_above p : forall r t,
  r <> [] ->
  lookup p (remove_at (p ++ r) t) = option_map (remove_at r) (lookup p t).
Proof.
  induction p as [|c p IH]; intros r t Hr; [reflexivity|].
  destruct t as [a x | a es]; [reflexivity|].
  assert (Hpr : exists c' q, p ++ r = c' :: q).
  { destruct p as [|c' p]; simpl; [|eauto]. destruct r; [congruence | eauto]. }
  destruct Hpr as (c' & q & Hpr).
  rewrite <- app_comm_cons, Hpr, remove_at_cons_cons, <- Hpr.
  rewrite !lookup_cons.
  destruct (assoc c es) as [y|] eqn:E.
  - rewrite lookup_cons, assoc_es_put_eq. apply IH, Hr.
  - rewrite lookup_cons, E. reflexivity.
Qed.

(** What [mkdir_all] starts from at a path: what is there, or a new
    directory. *)
Definition orFresh (fresh : Attr) (x : option Node) : Node :=
  match x with Some y => y | None => Dir fresh [] end.

Lemma mkdir_all_dir fresh c p a es :
  mkdir_all fresh (c :: p) (Dir a es)
  = match mkdir_all fresh p (orFresh fresh (assoc c es)) with
    | Some x' => Some (Dir a (es_put c x' es))
    | None => None
    end.
Proof. reflexivity. Qed.

Lemma mkdir_all_file fresh p a x : mkdir_all fresh p (File a x) = None.
Proof. destruct p; reflexivity. Qed.

Lemma lookup_fresh fresh p : orFresh fresh (lookup p (Dir fresh [])) = Dir fresh [].
Proof. destruct p; reflexivity. Qed.

(** Making directories below [p] is making them in what [p] names, or in a
    new directory there. *)
Lemma mkdir_all_above fresh p : forall r t t',
  mkdir_all fresh (p ++ r) t = Some t' ->
  exists x', lookup p t' = Some x'
             /\ mkdir_all fresh r (orFresh fresh (lookup p t)) = Some x'.
Proof.
  induction p as [|c p IH]; intros r t t' H.
  - exists t'. split; [reflexivity | exact H].
  - destruct t as [a x | a es]; [rewrite mkdir_all_file in H; discriminate|].
    rewrite <- app_comm_cons, mkdir_all_dir in H.
    destruct (mkdir_all fresh (p ++ r) (orFresh fresh (assoc c es))) as [x''|] eqn:E;
      [|discriminate].
    injection H as <-.
    destruct (IH _ _ _ E) as (x' & Hx' & Hmk).
    exists x'. rewrite !lookup_cons, assoc_es_put_eq. split; [exact Hx'|].
    destruct (assoc c es) as [y|]; [exact Hmk|].
    simpl in Hmk. rewrite lookup_fresh in Hmk. exact Hmk.
Qed.

(** Where [p] names something, directories can be made below it when they
    can be made in it. *)
Lemma mkdir_all_below fresh p : forall r t x x',
  lookup p t = Some x ->
  mkdir_all fresh r x = Some x' ->
  exists t', mkdir_all fresh (p ++ r) t = Some t'.
Proof.
  induction p as [|c p IH]; intros r t x x' Hx Hmk.
  - injection Hx as ->. exists x'. exact Hmk.
  - destruct t as [a y | a es]; [discriminate|].
    rewrite lookup_cons in Hx.
    destruct (assoc c es) as [y|] eqn:E; [|discriminate].
    destruct (IH r y x x' Hx Hmk) as [y' Hy'].
    rewrite <- app_comm_cons, mkdir_all_dir, E. simpl. rewrite Hy'. eauto.
Qed.

(** *** Two entries of one directory, removed and made again *)

Section TwoEntries.

Variables (c1 c2 : string).
Hypothesis c1_c2 : c1 <> c2.

(** After [remove p/c1; remove p/c2; mkdir p/c1; mkdir p/c2] both are
    there, and empty. *)
Lemma remade_empty p fresh1 fresh2 t t3 t4 :
  mkdir_all fresh1 (p ++ [c1]) (remove_at (p ++ [c2]) (remove_at (p ++ [c1]) t)) = Some t3 ->
  mkdir_all fresh2 (p ++ [c2]) t3 = Some t4 ->
  lookup (p ++ [c1]) t4 = Some (Dir fresh1 [])
  /\ lookup (p ++ [c2]) t4 = Some (Dir fresh2 []).
Proof.
  intros H3 H4.
  apply mkdir_all_above in H3 as (x3 & Hx3 & Hmk3).
  apply mkdir_all_above in H4 as (x4 & Hx4 & Hmk4).
  rewrite !lookup_app, Hx4.
  rewrite Hx3 in Hmk4. cbn [orFresh] in Hmk4.
  rewrite !lookup_remove_at_above in Hmk3 by discriminate.
  assert (Hshape : exists a es,
             orFresh fresh1
               (option_map (remove_at [c2]) (option_map (remove_at [c1]) (lookup p t)))
             = Dir a es /\ assoc c1 es = None /\ assoc c2 es = None).
  { destruct (lookup p t) as [[a x | a es]|]; simpl in *.
    - discriminate.
    - exists a, (es_remove c2 (es_remove c1 es)). split; [reflexivity|]. split.
      + rewrite assoc_es_remove_ne by congruence. apply assoc_es_remove_eq.
      + apply assoc_es_remove_eq.
    - exists fresh1, []. repeat split. }
  destruct Hshape as (a & es & Hshape & Hc1 & Hc2).
  rewrite Hshape in Hmk3. rewrite mkdir_all_dir, Hc1 in Hmk3.
  cbn [orFresh mkdir_all] in Hmk3. injection Hmk3 as <-.
  rewrite mkdir_all_dir in Hmk4.
  rewrite assoc_es_put_ne, Hc2 in Hmk4 by exact c1_c2.
  cbn [orFresh mkdir_all] in Hmk4. injection Hmk4 as <-.
  rewrite !lookup_cons.
  rewrite assoc_es_put_ne, assoc_es_put_eq by congruence.
  rewrite assoc_es_put_eq. split; reflexivity.
Qed.

(** Where both are there the four steps go through. *)
Lemma remade_again p fresh1 fresh2 t x1 x2 :
  lookup (p ++ [c1]) t = Some x1 ->
  lookup (p ++ [c2]) t = Some x2 ->
  exists t3 t4,
    mkdir_all fresh1 (p ++ [c1]) (remove_at (p ++ [c2]) (remove_at (p ++ [c1]) t)) = Some t3
    /\ mkdir_all fresh2 (p ++ [c2]) t3 = Some t4.
Proof.
  intros H1 H2. rewrite lookup_app in H1.
  destruct (lookup p t) as [[a x | a es]|] eqn:Hp; try discriminate.
  set (es2 := es_remove c2 (es_remove c1 es)).
  assert (Hp2 : lookup p (remove_at (p ++ [c2]) (remove_at (p ++ [c1]) t)) = Some (Dir a es2)).
  { rewrite !lookup_remove_at_above by discriminate. rewrite Hp. reflexivity. }
  assert (Hc1 : assoc c1 es2 = None).
  { unfold es2. rewrite assoc_es_remove_ne by congruence. apply assoc_es_remove_eq. }
  assert (Hc2 : assoc c2 es2 = None) by apply assoc_es_remove_eq.
  destruct (mkdir_all_below fresh1 p [c1] _ _ (Dir a (es_put c1 (Dir fresh1 []) es2)) Hp2)
    as [t3 H3].
  { rewrite mkdir_all_dir, Hc1. reflexivity. }
  exists t3.
  pose proof (mkdir_all_above _ _ _ _ _ H3) as (x3 & Hx3 & Hmk3).
  rewrite Hp2 in Hmk3. cbn [orFresh] in Hmk3. rewrite mkdir_all_dir, Hc1 in Hmk3.
  cbn [orFresh mkdir_all] in Hmk3. injection Hmk3 as <-.
  destruct (mkdir_all_below fresh2 p [c2] t3 _
              (Dir a (es_put c2 (Dir fresh2 []) (es_put c1 (Dir fresh1 []) es2))) Hx3)
    as [t4 H4].
  { rewrite mkdir_all_dir, assoc_es_put_ne, Hc2 by exact c1_c2. reflexivity. }
  exists t4. split; [exact H3 | exact H4].
Qed.

End TwoEntries.

(** *** Entries next to each other *)

(** A removal leaves alone what is reached through another entry. *)
Lemma lookup_remove_at_sibling c c' r r' t :
  c <> c' -> lookup (c' :: r') (remove_at (c :: r) t) = lookup (c' :: r') t.
Proof.
  intros Hne. destruct t as [a x | a es]; [reflexivity|].
  destruct r as [|c0 r].
  - simpl. rewrite assoc_es_remove_ne by exact Hne. reflexivity.
  - rewrite remove_at_cons_cons. destruct (assoc c es) as [x|]; [|reflexivity].
    rewrite !lookup_cons, assoc_es_put_ne by exact Hne. reflexivity.
Qed.

Lemma lookup_remove_at_apart p c c' r r' t :
  c <> c' ->
  lookup (p ++ c' :: r') (remove_at (p ++ c :: r) t) = lookup (p ++ c' :: r') t.
Proof.
  intros Hne. rewrite !lookup_app.
  rewrite lookup_remove_at_above by discriminate.
  destruct (lookup p t) as [x|]; simpl; [|reflexivity].
  apply lookup_remove_at_sibling, Hne.
Qed.

(** The entries of a directory after one of them is removed. *)
Lemma lookup_remove_at_parent p c t :
  lookup p (remove_at (p ++ [c]) t)
  = match lookup p t with
    | Some (Dir a es) => Some (Dir a (es_remove c es))
    | other => other
    end.
Proof.
  rewrite lookup_remove_at_above by discriminate.
  destruct (lookup p t) as [[a x | a es]|]; reflexivity.
Qed.

(** *** Induction on trees *)

Fixpoint Node_induction (P : Node -> Prop)
    (HFile : forall a c, P (File a c))
    (HDir : forall a es, Forall (fun e => P (snd e)) es -> P (Dir a es))
    (n : Node) : P n :=
  match n with
  | File a c => HFile a c
  | Dir a es =>
      HDir a es
        ((fix all (es : list (string * Node)) : Forall (fun e => P (snd e)) es :=
            match es with
            | [] => List.Forall_nil _
            | (name, x) :: es' =>
                @List.Forall_cons _ (fun e => P (snd e)) (name, x) es'
                  (Node_induction P HFile HDir x) (all es')
            end) es)
  end.

(** The environment lets every call through that only reads. *)
Definition isRead (c : Syscall) : bool :=
  match c with
  | SysGetwd | SysLstat _ | SysStat _ | SysReadDir _ | SysReadFile _ => true
  | _ => false
  end.

Definition readsQuiet (w : World) : Prop :=
  forall h c, isRead c = true -> faulty w h c = false.

Lemma readsQuiet_fails w c : readsQuiet w -> isRead c = true -> fails w c = false.
Proof. intros H Hc. apply H, Hc. Qed.

(** A walk sees of the world the tree it walks, and the failures. *)
Lemma walk_readsQuiet {S} (fn : string -> option FileInfo -> option Errno -> S -> S) w w' n :
  readsQuiet w -> readsQuiet w' ->
  forall path s, walk fn w path n s = walk fn w' path n s.
Proof.
  intros Hq Hq'. induction n as [a c | a es IH] using Node_induction; intros path s.
  - reflexivity.
  - cbn [walk]. rewrite !readsQuiet_fails by (assumption || reflexivity).
    generalize (info_of (Dir a es)). intros info.
    generalize (fn path (Some info) None s). clear s.
    induction IH as [|[name x] es Hx _ IHes]; intros s; [reflexivity|].
    rewrite !readsQuiet_fails by (assumption || reflexivity).
    simpl in Hx. rewrite Hx. apply IHes.
Qed.

Lemma filepath_Walk_readsQuiet {S} (fn : string -> option FileInfo -> option Errno -> S -> S)
    w w' p s :
  readsQuiet w -> readsQuiet w' ->
  lookup (path_of p) (root w) = lookup (path_of p) (root w') ->
  filepath_Walk p fn w s = filepath_Walk p fn w' s.
Proof.
  intros Hq Hq' Hlook. unfold filepath_Walk.
  rewrite !readsQuiet_fails by (assumption || reflexivity).
  rewrite <- Hlook. destruct (lookup (path_of p) (root w)); [|reflexivity].
  apply walk_readsQuiet; assumption.
Qed.

Lemma os_Stat_readsQuiet p w :
  readsQuiet w ->
  os_Stat p w = match lookup (path_of p) (root w) with
                | Some n => inr (info_of n)
                | None => inl ENOENT
                end.
Proof.
  intros Hq. unfold os_Stat. rewrite readsQuiet_fails by (assumption || reflexivity).
  reflexivity.
Qed.

Lemma os_ReadFile_readsQuiet p w :
  readsQuiet w ->
  os_ReadFile p w = match lookup (path_of p) (root w) with
                    | Some (File a c) => inr (mkData (a_size a) c)
                    | Some (Dir _ _) => inl EISDIR
                    | None => inl ENOENT
                    end.
Proof.
  intros Hq. unfold os_ReadFile. rewrite readsQuiet_fails by (assumption || reflexivity).
  reflexivity.
Qed.

Lemma os_ReadDir_readsQuiet p w :
  readsQuiet w ->
  os_ReadDir p w = match lookup (path_of p) (root w) with
                   | Some (Dir _ es) => inr (List.map (fun e => (fst e, is_dir (snd e))) es)
                   | Some (File _ _) => inl ENOTDIR
                   | None => inl ENOENT
                   end.
Proof.
  intros Hq. unfold os_ReadDir. rewrite readsQuiet_fails by (assumption || reflexivity).
  reflexivity.
Qed.

Lemma fault_free_readsQuiet w : fault_free w -> readsQuiet w.
Proof. intros H h c _. apply H. Qed.

(** *** Worlds *)

(** The world after more effects were logged. *)
Definition extended (evs : list Event) (w : World) : World :=
  mkWorld (root w) (cwd w) (home w) (now w) (log w ++ evs) (faulty w).

Lemma extended_nil w : extended [] w = w.
Proof. destruct w. unfold extended. simpl. rewrite app_nil_r. reflexivity. Qed.

Lemma extended_app evs evs' w : extended evs' (extended evs w) = extended (evs ++ evs') w.
Proof. unfold extended. simpl. rewrite app_assoc. reflexivity. Qed.

Lemma fault_free_extended evs w : fault_free w -> fault_free (extended evs w).
Proof. intros H h c. apply H. Qed.

Lemma fault_free_with_root t w : fault_free w -> fault_free (with_root t w).
Proof. intros H h c. apply H. Qed.

Lemma fault_free_fails w c : fault_free w -> fails w c = false.
Proof. intros H. apply H. Qed.

(** A call on an open file, when the environment lets it through. *)
Lemma on_file_ok c w : fault_free w -> on_file c w = (extended [(c, None)] w, None).
Proof.
  intros H. unfold on_file, effect. rewrite fault_free_fails by exact H.
  reflexivity.
Qed.

(** *** The calls, when the environment lets them through *)

Lemma effect_fault_free c run w :
  fault_free w ->
  effect c run w
  = match run (root w) with
    | inr t => (with_root t (logged c None w), None)
    | inl e => (logged c (Some e) w, Some e)
    end.
Proof. intros H. unfold effect. rewrite fault_free_fails by exact H. reflexivity. Qed.

Lemma fault_free_logged c r w : fault_free w -> fault_free (logged c r w).
Proof. intros H h c'. apply H. Qed.

Lemma os_RemoveAll_ok p w :
  fault_free w -> path_of p <> [] ->
  os_RemoveAll p w
  = (with_root (remove_at (path_of p) (root w)) (logged (SysRemoveAll p) None w), None).
Proof.
  intros Hff Hne. unfold os_RemoveAll. rewrite effect_fault_free by exact Hff.
  destruct (path_of p); [congruence | reflexivity].
Qed.

Lemma os_MkdirAll_fault_free p perm w :
  fault_free w ->
  os_MkdirAll p perm w
  = match mkdir_all (mkAttr dir_size perm (now w)) (path_of p) (root w) with
    | Some t => (with_root t (logged (SysMkdirAll p) None w), None)
    | None => (logged (SysMkdirAll p) (Some ENOTDIR) w, Some ENOTDIR)
    end.
Proof.
  intros Hff. unfold os_MkdirAll. rewrite effect_fault_free by exact Hff.
  destruct (mkdir_all _ _ _); reflexivity.
Qed.

Lemma os_Remove_file p w a c :
  fails w (SysRemove p) = false ->
  path_of p <> [] ->
  lookup (path_of p) (root w) = Some (File a c) ->
  os_Remove p w
  = (with_root (remove_at (path_of p) (root w)) (logged (SysRemove p) None w), None).
Proof.
  intros Hf Hne Hlook. unfold os_Remove, effect. rewrite Hf, Hlook.
  destruct (path_of p); [congruence | reflexivity].
Qed.

Lemma map_fst_es_remove nm es :
  List.map fst (es_remove nm es)
  = List.filter (fun n => negb (String.eqb n nm)) (List.map fst es).
Proof.
  induction es as [|[n x] es IH]; simpl; [reflexivity|].
  destruct (String.eqb n nm); simpl; rewrite IH; reflexivity.
Qed.

Lemma elem_of_es_remove ne nm es : ne ∈ es_remove nm es -> ne ∈ es.
Proof.
  induction es as [|[n x] es IH]; simpl; [auto|].
  destruct (String.eqb n nm).
  - intros H. right. apply IH, H.
  - intros H. apply elem_of_cons in H as [-> | H]; [left | right; apply IH, H].
Qed.

(** *** Paths that part *)

(** Neither of the two paths names the other or something above it. *)
Definition apart (p q : list string) : bool :=
  negb (is_prefix p q) && negb (is_prefix q p).

Lemma apart_sym p q : apart p q = apart q p.
Proof. unfold apart. apply andb_comm. Qed.

(** Two such paths have a common beginning and part after it. *)
Lemma apart_spec : forall p q,
  apart p q = true ->
  exists r c c' s s', p = r ++ c :: s /\ q = r ++ c' :: s' /\ c <> c'.
Proof.
  unfold apart. induction p as [|c p IH]; intros [|c' q] H; try discriminate.
  cbn [is_prefix] in H. destruct (String.eqb_spec c c') as [<- | Hne].
  - rewrite String.eqb_refl in H. cbn [andb] in H.
    destruct (IH q H) as (r & d & d' & s & s' & -> & -> & Hd).
    exists (c :: r), d, d', s, s'. repeat split. exact Hd.
  - exists [], c, c', p, q. repeat split. exact Hne.
Qed.

Lemma is_prefix_app p : forall q r, is_prefix p q = true -> is_prefix p (q ++ r) = true.
Proof.
  induction p as [|c p IH]; intros [|d q] r H; try reflexivity; try discriminate.
  cbn [is_prefix app] in *. apply andb_true_iff in H as [-> H]. apply IH, H.
Qed.

Lemma is_prefix_nonempty p q : is_prefix p q = false -> p <> [].
Proof. intros H ->. discriminate. Qed.

Lemma lookup_empty_dir a c p : lookup (c :: p) (Dir a []) = None.
Proof. reflexivity. Qed.

(** *** [mkdir_all] and what is there already *)

(** A new directory is made only where nothing is: what is at a path
    stays, unless directories are made below it. *)
Lemma lookup_mkdir_all_kept fresh : forall p s t t' x,
  lookup s t = Some x -> is_prefix s p = false ->
  mkdir_all fresh p t = Some t' -> lookup s t' = Some x.
Proof.
  induction p as [|c p IH]; intros s t t' x Hx Hpre Hmk.
  - destruct t; [discriminate|]. injection Hmk as <-. exact Hx.
  - destruct t as [a y | a es]; [discriminate|].
    rewrite mkdir_all_dir in Hmk.
    destruct (mkdir_all fresh p (orFresh fresh (assoc c es))) as [x'|] eqn:E; [|discriminate].
    injection Hmk as <-.
    destruct s as [|c0 s]; [discriminate|].
    cbn [is_prefix] in Hpre. rewrite lookup_cons in *.
    destruct (String.eqb_spec c0 c) as [-> | Hne].
    + rewrite assoc_es_put_eq. cbn [andb] in Hpre.
      destruct (assoc c es) as [y|]; [|discriminate].
      apply (IH s y x' x Hx Hpre E).
    + rewrite assoc_es_put_ne by congruence. exact Hx.
Qed.

(** Below the directory it makes [mkdir_all] changes nothing. *)
Lemma lookup_mkdir_all_below fresh : forall p r t t',
  r <> [] -> mkdir_all fresh p t = Some t' -> lookup (p ++ r) t' = lookup (p ++ r) t.
Proof.
  induction p as [|c p IH]; intros r t t' Hr Hmk.
  - destruct t; [discriminate|]. injection Hmk as <-. reflexivity.
  - destruct t as [a y | a es]; [discriminate|].
    rewrite mkdir_all_dir in Hmk.
    destruct (mkdir_all fresh p (orFresh fresh (assoc c es))) as [x'|] eqn:E; [|discriminate].
    injection Hmk as <-.
    rewrite <- app_comm_cons, !lookup_cons, assoc_es_put_eq.
    rewrite (IH r _ x' Hr E).
    destruct (assoc c es) as [y|]; [reflexivity|]. simpl.
    destruct (p ++ r) eqn:Hpr; [|reflexivity].
    apply app_eq_nil in Hpr as [_ ->]. contradiction.
Qed.

(** What [mkdir_all] makes is a directory. *)
Lemma mkdir_all_made fresh p t t' :
  mkdir_all fresh p t = Some t' -> exists a es, lookup p t' = Some (Dir a es).
Proof.
  intros Hmk. rewrite <- (app_nil_r p) in Hmk.
  destruct (mkdir_all_above fresh p [] t t' Hmk) as (x' & Hx' & Hmk').
  destruct (orFresh fresh (lookup p t)) as [a y | a es]; [discriminate|].
  injection Hmk' as <-. eauto.
Qed.

(** *** [remove_at] and [put_at] *)

(** A directory stays a directory when something is removed that it is not
    in. *)
Lemma remove_at_keeps_dir : forall s p t a es,
  lookup p t = Some (Dir a es) -> is_prefix s p = false ->
  exists a' es', lookup p (remove_at s t) = Some (Dir a' es').
Proof.
  induction s as [|c s IH]; intros p t a es Hp Hpre; [discriminate|].
  destruct t as [a0 y | a0 es0]; [eauto|].
  destruct p as [|c0 p].
  - cbn [remove_at lookup]. destruct s; [eauto|]. destruct (assoc c es0); eauto.
  - cbn [is_prefix] in Hpre.
    destruct (String.eqb_spec c c0) as [<- | Hne].
    + cbn [andb] in Hpre. destruct s as [|c1 s]; [discriminate|].
      rewrite remove_at_cons_cons. rewrite lookup_cons in Hp.
      destruct (assoc c es0) as [y|] eqn:E; [|discriminate].
      rewrite lookup_cons, assoc_es_put_eq. apply (IH p y a es Hp Hpre).
    + rewrite lookup_remove_at_sibling by exact Hne. eauto.
Qed.

Lemma put_at_ok x b : forall p t a es,
  lookup p t = Some (Dir a es) -> exists t', put_at (p ++ [b]) x t = Some t'.
Proof.
  induction p as [|c p IH]; intros t a es Hp.
  - injection Hp as ->. simpl. eauto.
  - destruct t as [a0 y | a0 es0]; [discriminate|]. rewrite lookup_cons in Hp.
    destruct (assoc c es0) as [y|] eqn:E; [|discriminate].
    destruct (IH y a es Hp) as [y' Hy'].
    rewrite <- app_comm_cons. cbn [put_at]. rewrite E, Hy'.
    destruct (p ++ [b]) eqn:Hpb; [destruct p; discriminate|]. eauto.
Qed.

Lemma lookup_put_at_same x : forall p t t',
  put_at p x t = Some t' -> lookup p t' = Some x.
Proof.
  induction p as [|c p IH]; intros t t' H; [discriminate|].
  destruct t as [a y | a es]; [discriminate|]. cbn [put_at] in H.
  destruct p as [|c' p].
  - injection H as <-. rewrite lookup_cons, assoc_es_put_eq. reflexivity.
  - destruct (assoc c es) as [y|]; [|discriminate].
    destruct (put_at (c' :: p) x y) as [y'|] eqn:E; [|discriminate].
    injection H as <-. rewrite lookup_cons, assoc_es_put_eq. apply (IH y y' E).
Qed.

Lemma lookup_put_at_apart x c c' : forall p r r' t t',
  c <> c' -> put_at (p ++ c :: r) x t = Some t' ->
  lookup (p ++ c' :: r') t' = lookup (p ++ c' :: r') t.
Proof.
  induction p as [|c0 p IH]; intros r r' t t' Hne H.
  - destruct t as [a y | a es]; [discriminate|]. cbn [app put_at] in H.
    destruct r as [|c1 r].
    + injection H as <-. cbn [app]. rewrite !lookup_cons, assoc_es_put_ne by exact Hne.
      reflexivity.
    + destruct (assoc c es) as [y|]; [|discriminate].
      destruct (put_at (c1 :: r) x y) as [y'|]; [|discriminate].
      injection H as <-. cbn [app]. rewrite !lookup_cons, assoc_es_put_ne by exact Hne.
      reflexivity.
  - destruct t as [a y | a es]; [discriminate|].
    rewrite <- !app_comm_cons in *. cbn [put_at] in H.
    destruct (p ++ c :: r) eqn:Hpc; [destruct p; discriminate|]. rewrite <- Hpc in H.
    destruct (assoc c0 es) as [y|] eqn:E; [|discriminate].
    destruct (put_at (p ++ c :: r) x y) as [y'|] eqn:E'; [|discriminate].
    injection H as <-. rewrite !lookup_cons, assoc_es_put_eq, E.
    apply (IH r r' y y' Hne E').
Qed.

Lemma lookup_remove_at_parted p q t :
  apart p q = true -> lookup q (remove_at p t) = lookup q t.
Proof.
  intros H. destruct (apart_spec p q H) as (r & c & c' & s & s' & -> & -> & Hne).
  apply lookup_remove_at_apart, Hne.
Qed.

Lemma lookup_put_at_parted p q x t t' :
  apart p q = true -> put_at p x t = Some t' -> lookup q t' = lookup q t.
Proof.
  intros H. destruct (apart_spec p q H) as (r & c & c' & s & s' & -> & -> & Hne).
  apply lookup_put_at_apart, Hne.
Qed.

Lemma apart_parent p q b : apart p (q ++ [b]) = true -> is_prefix p q = false.
Proof.
  unfold apart. intros H. apply andb_true_iff in H as [H _]. apply negb_true_iff in H.
  destruct (is_prefix p q) eqn:E; [|reflexivity].
  rewrite (is_prefix_app p q [b] E) in H. discriminate.
Qed.

End OsFacts.

(* ----------------------------------------------------------------- *)
(** ** The file system: more on paths that part *)

Module OsMore.

Import Os OsFacts.

Lemma is_prefix_app_same p a b : is_prefix (p ++ a) (p ++ b) = is_prefix a b.
Proof.
  induction p as [|c p IH]; [reflexivity|].
  cbn [app is_prefix]. rewrite String.eqb_refl. exact IH.
Qed.

Lemma apart_intro r c c' s s' : c <> c' -> apart (r ++ c :: s) (r ++ c' :: s') = true.
Proof.
  intros Hne. unfold apart. rewrite !is_prefix_app_same. cbn [is_prefix].
  assert (H1 : String.eqb c c' = false) by (apply String.eqb_neq; exact Hne).
  assert (H2 : String.eqb c' c = false) by (apply String.eqb_neq; congruence).
  rewrite H1, H2. reflexivity.
Qed.

(** What parts from a path parts from everything below it. *)
Lemma apart_below p q r : apart p q = true -> apart p (q ++ r) = true.
Proof.
  intros H. destruct (apart_spec p q H) as (r0 & c & c' & s & s' & -> & -> & Hne).
  rewrite <- app_assoc. cbn [app]. apply apart_intro, Hne.
Qed.

Lemma apart_nonempty p q : apart p q = true -> p <> [] /\ q <> [].
Proof.
  intros H. destruct (apart_spec p q H) as (r0 & c & c' & s & s' & -> & -> & _).
  split; intros E; apply app_eq_nil in E as [_ E]; discriminate.
Qed.

Lemma apart_not_prefix p q : apart p q = true -> is_prefix p q = false.
Proof.
  unfold apart. intros H. apply andb_true_iff in H as [H _]. apply negb_true_iff, H.
Qed.

Lemma lookup_mkdir_all_apart fresh c c' : forall p r r' t t',
  c <> c' -> mkdir_all fresh (p ++ c :: r) t = Some t' ->
  lookup (p ++ c' :: r') t' = lookup (p ++ c' :: r') t.
Proof.
  induction p as [|c0 p IH]; intros r r' t t' Hne Hmk.
  - destruct t as [a y | a es]; [discriminate|]. cbn [app] in *.
    rewrite mkdir_all_dir in Hmk.
    destruct (mkdir_all fresh r (orFresh fresh (assoc c es))) as [x'|]; [|discriminate].
    injection Hmk as <-. rewrite !lookup_cons, assoc_es_put_ne by exact Hne. reflexivity.
  - destruct t as [a y | a es]; [discriminate|].
    rewrite <- !app_comm_cons in *. rewrite mkdir_all_dir in Hmk.
    destruct (mkdir_all fresh (p ++ c :: r) (orFresh fresh (assoc c0 es))) as [x'|] eqn:E;
      [|discriminate].
    injection Hmk as <-. rewrite !lookup_cons, assoc_es_put_eq.
    rewrite (IH r r' _ x' Hne E).
    destruct (assoc c0 es) as [y|]; [reflexivity|]. simpl.
    destruct (p ++ c' :: r') eqn:Hp; [destruct p; discriminate | reflexivity].
Qed.

Lemma lookup_mkdir_all_parted fresh p q t t' :
  apart p q = true -> mkdir_all fresh p t = Some t' -> lookup q t' = lookup q t.
Proof.
  intros H. destruct (apart_spec p q H) as (r & c & c' & s & s' & -> & -> & Hne).
  apply lookup_mkdir_all_apart, Hne.
Qed.

(** Directories that are there can be made again. *)
Lemma mkdir_all_existing fresh p t a es :
  lookup p t = Some (Dir a es) -> exists t', mkdir_all fresh p t = Some t'.
Proof.
  intros H. rewrite <- (app_nil_r p).
  apply (mkdir_all_below fresh p [] t (Dir a es) (Dir a es) H). reflexivity.
Qed.

Lemma put_at_dir q x t t' : put_at q x t = Some t' -> is_dir t' = true.
Proof.
  destruct q as [|c q]; [discriminate|]. destruct t as [a y | a es]; [discriminate|].
  cbn [put_at]. destruct q as [|c' q].
  - intros [= <-]. reflexivity.
  - destruct (assoc c es) as [y|]; [|discriminate].
    destruct (put_at (c' :: q) x y); [|discriminate]. intros [= <-]. reflexivity.
Qed.

(** A directory stays a directory when something is put where the
    directory is not. *)
Lemma put_at_keeps_dir x : forall q p t t' a es,
  lookup p t = Some (Dir a es) -> is_prefix q p = false ->
  put_at q x t = Some t' ->
  exists a' es', lookup p t' = Some (Dir a' es').
Proof.
  induction q as [|c q IH]; intros p t t' a es Hp Hpre Hput; [discriminate|].
  destruct p as [|c0 p].
  - pose proof (put_at_dir _ _ _ _ Hput) as Hd. destruct t'; [discriminate | simpl; eauto].
  - destruct t as [a0 y | a0 es0]; [discriminate|].
    cbn [is_prefix] in Hpre. rewrite lookup_cons in Hp. cbn [put_at] in Hput.
    destruct (String.eqb_spec c c0) as [<- | Hne].
    + cbn [andb] in Hpre. destruct q as [|c1 q]; [discriminate|].
      destruct (assoc c es0) as [y|] eqn:E; [|discriminate].
      destruct (put_at (c1 :: q) x y) as [y'|] eqn:E'; [|discriminate].
      injection Hput as <-. rewrite lookup_cons, assoc_es_put_eq.
      apply (IH p y y' a es Hp Hpre E').
    + assert (Hsame : lookup (c0 :: p) t' = lookup (c0 :: p) (Dir a0 es0)).
      { destruct q as [|c1 q].
        - injection Hput as <-. rewrite !lookup_cons, assoc_es_put_ne by exact Hne.
          reflexivity.
        - destruct (assoc c es0) as [y|]; [|discriminate].
          destruct (put_at (c1 :: q) x y) as [y'|]; [|discriminate].
          injection Hput as <-. rewrite !lookup_cons, assoc_es_put_ne by exact Hne.
          reflexivity. }
      rewrite Hsame, lookup_cons. eauto.
Qed.

(** The entries of a directory after something is put into it. *)
Lemma lookup_put_at_parent x c : forall p t t' a es,
  lookup p t = Some (Dir a es) -> put_at (p ++ [c]) x t = Some t' ->
  lookup p t' = Some (Dir a (es_put c x es)).
Proof.
  induction p as [|c0 p IH]; intros t t' a es Hp Hput.
  - injection Hp as ->. cbn [app put_at] in Hput. injection Hput as <-. reflexivity.
  - destruct t as [a0 y | a0 es0]; [discriminate|]. rewrite lookup_cons in Hp.
    rewrite <- app_comm_cons in Hput. cbn [put_at] in Hput.
    destruct (p ++ [c]) eqn:Hpc; [destruct p; discriminate|]. rewrite <- Hpc in Hput.
    destruct (assoc c0 es0) as [y|] eqn:E; [|discriminate].
    destruct (put_at (p ++ [c]) x y) as [y'|] eqn:E'; [|discriminate].
    injection Hput as <-. rewrite lookup_cons, assoc_es_put_eq.
    rewrite Hpc in E'. apply (IH y y' a es Hp E').
Qed.

(** *** Paths above and below *)

Lemma is_prefix_longer p (b : string) : is_prefix (p ++ [b]) p = false.
Proof.
  induction p as [|c p IH]; [reflexivity|].
  cbn [app is_prefix]. rewrite IH. apply andb_false_r.
Qed.

Lemma is_prefix_split : forall p q, is_prefix p q = true -> exists r, q = p ++ r.
Proof.
  induction p as [|c p IH]; intros q H; [exists q; reflexivity|].
  destruct q as [|c' q]; [discriminate|]. cbn [is_prefix] in H.
  apply andb_true_iff in H as [Hc H]. apply String.eqb_eq in Hc as <-.
  destruct (IH q H) as [r ->]. exists r. reflexivity.
Qed.

Lemma is_prefix_app_l : forall p r q, is_prefix (p ++ r) q = true -> is_prefix p q = true.
Proof.
  induction p as [|c p IH]; intros r q H; [reflexivity|].
  destruct q as [|c' q]; [discriminate|]. cbn [app is_prefix] in *.
  apply andb_true_iff in H as [-> H]. apply (IH r q H).
Qed.

Lemma is_prefix_below p r q : is_prefix p q = false -> is_prefix (p ++ r) q = false.
Proof.
  intros H. destruct (is_prefix (p ++ r) q) eqn:E; [|reflexivity].
  rewrite (is_prefix_app_l p r q E) in H. discriminate.
Qed.

(** A path that is not above [p] is below it or parts from it. *)
Lemma not_above p q :
  is_prefix q p = false -> (exists r, r <> [] /\ q = p ++ r) \/ apart p q = true.
Proof.
  intros H. destruct (is_prefix p q) eqn:E.
  - left. destruct (is_prefix_split p q E) as [r ->]. exists r. split; [|reflexivity].
    intros ->. rewrite app_nil_r in H.
    assert (Hrefl : is_prefix p p = true)
      by (rewrite <- (app_nil_r p) at 2; rewrite <- (app_nil_r p) at 1;
          rewrite is_prefix_app_same; reflexivity).
    rewrite Hrefl in H. discriminate.
  - right. unfold apart. rewrite E, H. reflexivity.
Qed.

(** *** What [mkdir_all] and [put_at] leave as it is *)

(** [mkdir_all] changes nothing but at the path it is given and above. *)
Lemma lookup_mkdir_all_off fresh p q t t' :
  is_prefix q p = false -> mkdir_all fresh p t = Some t' -> lookup q t' = lookup q t.
Proof.
  intros H Hmk. destruct (not_above p q H) as [(r & Hr & ->) | Hap].
  - apply (lookup_mkdir_all_below fresh p r t t' Hr Hmk).
  - apply (lookup_mkdir_all_parted fresh p q t t' Hap Hmk).
Qed.

(** Where nothing was, the directory it makes is new and empty. *)
Lemma lookup_mkdir_all_new fresh p t t' :
  lookup p t = None -> mkdir_all fresh p t = Some t' -> lookup p t' = Some (Dir fresh []).
Proof.
  intros Hnone Hmk. rewrite <- (app_nil_r p) in Hmk.
  destruct (mkdir_all_above fresh p [] t t' Hmk) as (x' & Hx' & Hmk').
  rewrite Hnone in Hmk'. injection Hmk' as <-. exact Hx'.
Qed.

(** A directory that is there keeps its attributes. *)
Lemma mkdir_all_keeps_attr fresh : forall p q t t' a es,
  lookup q t = Some (Dir a es) -> mkdir_all fresh p t = Some t' ->
  exists es', lookup q t' = Some (Dir a es').
Proof.
  induction p as [|c p IH]; intros q t t' a es Hq Hmk.
  - destruct t; [discriminate|]. injection Hmk as <-. eauto.
  - destruct t as [a0 y | a0 es0]; [discriminate|].
    rewrite mkdir_all_dir in Hmk.
    destruct (mkdir_all fresh p (orFresh fresh (assoc c es0))) as [x'|] eqn:E; [|discriminate].
    injection Hmk as <-.
    destruct q as [|c0 q].
    + injection Hq as <- <-. simpl. eauto.
    + rewrite lookup_cons in *.
      destruct (String.eqb_spec c c0) as [<- | Hne].
      * rewrite assoc_es_put_eq.
        destruct (assoc c es0) as [y|]; [|discriminate].
        apply (IH q y x' a es Hq E).
      * rewrite assoc_es_put_ne by exact Hne. eauto.
Qed.

(** A directory can be made in a directory that is there. *)
Lemma mkdir_all_child fresh p b t a es :
  lookup p t = Some (Dir a es) -> lookup (p ++ [b]) t = None ->
  exists t', mkdir_all fresh (p ++ [b]) t = Some t'.
Proof.
  intros Hp Hnone. rewrite lookup_app, Hp, lookup_cons in Hnone.
  apply (mkdir_all_below fresh p [b] t (Dir a es) (Dir a (es_put b (Dir fresh []) es)) Hp).
  rewrite mkdir_all_dir. destruct (assoc b es) as [y|]; [discriminate | reflexivity].
Qed.

(** A directory keeps its attributes when something is put where the
    directory is not. *)
Lemma put_at_keeps_attr x : forall q p t t' a es,
  lookup p t = Some (Dir a es) -> is_prefix q p = false ->
  put_at q x t = Some t' ->
  exists es', lookup p t' = Some (Dir a es').
Proof.
  induction q as [|c q IH]; intros p t t' a es Hp Hpre Hput; [discriminate|].
  destruct t as [a0 y | a0 es0]; [discriminate|].
  destruct p as [|c0 p].
  - injection Hp as <- <-. cbn [put_at] in Hput. destruct q as [|c1 q].
    + injection Hput as <-. simpl. eauto.
    + destruct (assoc c es0) as [y|]; [|discriminate].
      destruct (put_at (c1 :: q) x y) as [y'|]; [|discriminate].
      injection Hput as <-. simpl. eauto.
  - cbn [is_prefix] in Hpre. rewrite lookup_cons in Hp. cbn [put_at] in Hput.
    destruct (String.eqb_spec c c0) as [<- | Hne].
    + cbn [andb] in Hpre. destruct q as [|c1 q]; [discriminate|].
      destruct (assoc c es0) as [y|] eqn:E; [|discriminate].
      destruct (put_at (c1 :: q) x y) as [y'|] eqn:E'; [|discriminate].
      injection Hput as <-. rewrite lookup_cons, assoc_es_put_eq.
      apply (IH p y y' a es Hp Hpre E').
    + assert (Hsame : lookup (c0 :: p) t' = lookup (c0 :: p) (Dir a0 es0)).
      { destruct q as [|c1 q].
        - injection Hput as <-. rewrite !lookup_cons, assoc_es_put_ne by exact Hne.
          reflexivity.
        - destruct (assoc c es0) as [y|]; [|discriminate].
          destruct (put_at (c1 :: q) x y) as [y'|]; [|discriminate].
          injection Hput as <-. rewrite !lookup_cons, assoc_es_put_ne by exact Hne.
          reflexivity. }
      rewrite Hsame, lookup_cons. eauto.
Qed.

(** The names of a directory with distinct names find their nodes. *)
Lemma elem_of_assoc n x es :
  NoDup (List.map fst es) -> (n, x) ∈ es -> assoc n es = Some x.
Proof.
  induction es as [|[m y] es IH]; intros Hnd Hin; [inversion Hin|].
  cbn [List.map fst] in Hnd. apply NoDup_cons in Hnd as [Hm Hnd].
  cbn [assoc]. apply elem_of_cons in Hin as [[= -> ->] | Hin].
  - rewrite String.eqb_refl. reflexivity.
  - destruct (String.eqb_spec m n) as [-> | Hne]; [|apply IH; assumption].
    exfalso. apply Hm. apply (list_elem_of_fmap_2 fst es (n, x)), Hin.
Qed.

Lemma assoc_None_names n es : assoc n es = None -> n ∉ List.map fst es.
Proof.
  induction es as [|[m y] es IH]; intros H Hin; [inversion Hin|].
  cbn [assoc] in H. destruct (String.eqb_spec m n) as [-> | Hne]; [discriminate|].
  cbn [List.map fst] in Hin. apply elem_of_cons in Hin as [-> | Hin]; [congruence|].
  apply (IH H Hin).
Qed.

End OsMore.


(* ----------------------------------------------------------------- *)
(** ** The deletion engine: secure erase *)

Module ShredFacts.

Import Os OsFacts Deleter.

(** The sizes of the writes of one pass over [n] bytes: full buffers, and
    what is left after them. *)
Definition chunks (n : Z) : list Z :=
  if n <=? 0 then []
  else replicate (Z.to_nat (n / bufLen)) bufLen
       ++ (if n mod bufLen =? 0 then [] else [n mod bufLen]).

Definition total (sizes : list Z) : Z := fold_right Z.add 0 sizes.

Definition writes (path : string) (fill : Fill) (sizes : list Z) : list Event :=
  List.map (fun n => (SysWrite path fill n, None)) sizes.

(** The effects of one pass that goes well. *)
Definition passLog (path : string) (size : Z) (pass : nat) : list Event :=
  (SysSeek path 0, None)
  :: writes path (fillOf (Z.of_nat pass)) (chunks size) ++ [(SysSync path, None)].

(** The effects of a [shredFile] that goes well. *)
Definition shredLog (path : string) (size : Z) : list Event :=
  (SysOpen path, None)
  :: passLog path size 0 ++ passLog path size 1 ++ passLog path size 2
  ++ [(SysClose path, None); (SysRemove path, None)].

(** The calls that put something into a directory: the ones staging is
    made of. *)
Definition stages (c : Syscall) : bool :=
  match c with
  | SysRename _ _ | SysWriteFile _ | SysMkdirAll _ => true
  | _ => false
  end.

(** *** The chunks *)

Lemma chunks_nonpos n : n <= 0 -> chunks n = [].
Proof.
  intros H. unfold chunks.
  replace (n <=? 0) with true by (symmetry; apply Z.leb_le; lia). reflexivity.
Qed.

Lemma chunks_small n : 0 < n -> n < bufLen -> chunks n = [n].
Proof.
  intros Hpos Hlt. unfold chunks.
  replace (n <=? 0) with false by (symmetry; apply Z.leb_gt; lia).
  rewrite Z.div_small, Z.mod_small by lia. simpl.
  replace (n =? 0) with false by (symmetry; apply Z.eqb_neq; lia).
  reflexivity.
Qed.

Lemma chunks_full n : bufLen <= n -> chunks n = bufLen :: chunks (n - bufLen).
Proof.
  intros Hge. assert (Hbuf : 0 < bufLen) by (unfold bufLen; lia).
  unfold chunks at 1.
  replace (n <=? 0) with false by (symmetry; apply Z.leb_gt; lia).
  assert (Hdiv : n / bufLen = (n - bufLen) / bufLen + 1).
  { replace n with ((n - bufLen) + 1 * bufLen) at 1 by lia.
    rewrite Z.div_add by lia. reflexivity. }
  assert (Hmod : n mod bufLen = (n - bufLen) mod bufLen).
  { replace n with ((n - bufLen) + 1 * bufLen) at 1 by lia.
    rewrite Z.mod_add by lia. reflexivity. }
  rewrite Hdiv, Hmod.
  assert (Hq : 0 <= (n - bufLen) / bufLen) by (apply Z.div_pos; lia).
  rewrite Z2Nat.inj_add by lia.
  rewrite Nat.add_comm. simpl. f_equal.
  destruct (Z.eq_dec n bufLen) as [-> | Hne].
  - rewrite Z.sub_diag. rewrite Z.div_0_l, Z.mod_0_l by lia. reflexivity.
  - unfold chunks.
    replace (n - bufLen <=? 0) with false by (symmetry; apply Z.leb_gt; lia).
    reflexivity.
Qed.

(** Every write is of at least one byte and of at most the buffer, and the
    writes of a pass add up to the size. *)
Lemma chunks_bounds n : Forall (fun s => 0 < s <= bufLen) (chunks n).
Proof.
  assert (Hbuf : 0 < bufLen) by (unfold bufLen; lia).
  unfold chunks. destruct (n <=? 0) eqn:E; [constructor|].
  apply Forall_app. split.
  - apply Forall_forall. intros s Hs. apply elem_of_replicate in Hs as [-> _]. lia.
  - destruct (n mod bufLen =? 0) eqn:E'; constructor; [|constructor].
    apply Z.eqb_neq in E'. pose proof (Z.mod_pos_bound n bufLen Hbuf). lia.
Qed.

Lemma total_replicate k s : total (replicate k s) = Z.of_nat k * s.
Proof. induction k as [|k IH]; simpl; [reflexivity|]. rewrite IH. lia. Qed.

Lemma total_app l l' : total (l ++ l') = total l + total l'.
Proof. induction l as [|x l IH]; simpl; [reflexivity|]. rewrite IH. lia. Qed.

Lemma chunks_total n : 0 <= n -> total (chunks n) = n.
Proof.
  intros Hn. assert (Hbuf : 0 < bufLen) by (unfold bufLen; lia).
  unfold chunks. destruct (n <=? 0) eqn:E.
  - apply Z.leb_le in E. simpl. lia.
  - rewrite total_app, total_replicate.
    rewrite Z2Nat.id by (apply Z.div_pos; lia).
    pose proof (Z.div_mod n bufLen ltac:(lia)) as Hdm.
    destruct (n mod bufLen =? 0) eqn:E'; simpl.
    + apply Z.eqb_eq in E'. lia.
    + lia.
Qed.

(** *** The loops, when no call fails *)

(** One turn of the inner loop. *)
Lemma writeLoop_step path pass remaining w :
  writeLoop path pass remaining w
  = if remaining >? 0 then
      let toWrite := if bufLen >? remaining then remaining else bufLen in
      match on_file (SysWrite path (fillOf pass) toWrite) w with
      | (w, Some err) => (w, Some err)
      | (w, None) => writeLoop path pass (remaining - toWrite) w
      end
    else (w, None).
Proof.
  rewrite writeLoop_equation_1.
  destruct (Z_gt_dec remaining 0) as [Hgt | Hle]; simp writeLoop.
  - replace (remaining >? 0) with true by (symmetry; apply Z.gtb_lt; lia).
    reflexivity.
  - replace (remaining >? 0) with false
      by (symmetry; rewrite Z.gtb_ltb; apply Z.ltb_ge; lia).
    reflexivity.
Qed.

Lemma writeLoop_ok path pass : forall remaining w,
  fault_free w ->
  writeLoop path pass remaining w
  = (extended (writes path (fillOf pass) (chunks remaining)) w, None).
Proof.
  intros remaining. remember (Z.to_nat remaining) as k eqn:Hk.
  revert remaining Hk.
  induction k as [k IH] using lt_wf_ind. intros remaining Hk w Hff.
  rewrite writeLoop_step.
  destruct (remaining >? 0) eqn:Epos.
  - apply Z.gtb_lt in Epos. cbv zeta.
    rewrite on_file_ok by exact Hff.
    destruct (bufLen >? remaining) eqn:E.
    + apply Z.gtb_lt in E.
      rewrite Z.sub_diag, writeLoop_step. simpl.
      rewrite chunks_small by lia. reflexivity.
    + assert (Hge : bufLen <= remaining) by (rewrite Z.gtb_ltb in E; apply Z.ltb_ge in E; lia).
      assert (Hbuf : 0 < bufLen) by (unfold bufLen; lia).
      rewrite chunks_full by exact Hge.
      rewrite (IH (Z.to_nat (remaining - bufLen))); [| lia | reflexivity |].
      * rewrite extended_app. reflexivity.
      * apply fault_free_extended, Hff.
  - rewrite Z.gtb_ltb in Epos. apply Z.ltb_ge in Epos.
    rewrite chunks_nonpos by lia. simpl. rewrite extended_nil. reflexivity.
Qed.

Lemma passLoop_ok path size : forall todo w,
  fault_free w ->
  passLoop path size todo w
  = (extended (concat (List.map (passLog path size) todo)) w, None).
Proof.
  induction todo as [|pass todo IH]; intros w Hff; simpl.
  - rewrite extended_nil. reflexivity.
  - rewrite on_file_ok by exact Hff.
    rewrite writeLoop_ok by (apply fault_free_extended, Hff).
    rewrite on_file_ok by (do 2 apply fault_free_extended; exact Hff).
    rewrite IH by (do 3 apply fault_free_extended; exact Hff).
    rewrite !extended_app. unfold passLog. simpl.
    rewrite <- !app_assoc. reflexivity.
Qed.

(** [shredFile] on a regular file that is there, when no call fails. *)
Lemma shredFile_ok file w a c :
  fault_free w ->
  path_of (Scanner.Path file) <> [] ->
  lookup (path_of (Scanner.Path file)) (root w) = Some (File a c) ->
  shredFile file w
  = (with_root (remove_at (path_of (Scanner.Path file)) (root w))
       (extended (shredLog (Scanner.Path file) (Scanner.Size file)) w),
     None).
Proof.
  intros Hff Hne Hfile. unfold shredFile.
  assert (Hopen : os_OpenFile (Scanner.Path file) w
                  = (extended [(SysOpen (Scanner.Path file), None)] w, None)).
  { unfold os_OpenFile, effect. rewrite fault_free_fails by exact Hff.
    rewrite Hfile. reflexivity. }
  rewrite Hopen.
  rewrite passLoop_ok by (apply fault_free_extended, Hff).
  rewrite on_file_ok by (do 2 apply fault_free_extended; exact Hff).
  rewrite !extended_app.
  unfold os_Remove, effect.
  rewrite fault_free_fails by (apply fault_free_extended, Hff).
  simpl root. rewrite Hfile.
  destruct (path_of (Scanner.Path file)) as [|c0 q] eqn:Hq; [congruence|].
  unfold shredLog, with_root, logged, extended.
  cbn [root cwd home now log faulty fst snd].
  do 2 f_equal. unfold passes. cbn [seq List.map concat].
  rewrite app_nil_r, <- !app_assoc. reflexivity.
Qed.

(** *** The effects of [shredFile], whatever fails *)

(** The calls [shredFile] makes: the ones on the open file, and its
    removal. *)
Definition shredCall (path : string) (c : Syscall) : Prop :=
  match c with
  | SysOpen p | SysSeek p _ | SysWrite p _ _ | SysSync p | SysClose p | SysRemove p =>
      p = path
  | _ => False
  end.

(** From [w] to [w'] the log has grown by calls of [P] only. *)
Definition grown (P : Syscall -> Prop) (w w' : World) : Prop :=
  exists evs, log w' = log w ++ evs /\ Forall (fun ev => P (fst ev)) evs.

Lemma grown_refl P w : grown P w w.
Proof. exists []. rewrite app_nil_r. split; [reflexivity | constructor]. Qed.

Lemma grown_trans P w1 w2 w3 : grown P w1 w2 -> grown P w2 w3 -> grown P w1 w3.
Proof.
  intros (e1 & H1 & F1) (e2 & H2 & F2). exists (e1 ++ e2).
  rewrite H2, H1, app_assoc. split; [reflexivity | apply Forall_app; split; assumption].
Qed.

Lemma effect_grown (P : Syscall -> Prop) c run w :
  P c -> grown P w (fst (effect c run w)).
Proof.
  intros Hc. unfold effect.
  destruct (fails w c); [|destruct (run (root w))]; simpl;
    (eexists; split; [reflexivity | repeat constructor; exact Hc]).
Qed.

Lemma writeLoop_grown path pass : forall remaining w,
  grown (shredCall path) w (fst (writeLoop path pass remaining w)).
Proof.
  intros remaining. remember (Z.to_nat remaining) as k eqn:Hk.
  revert remaining Hk.
  induction k as [k IH] using lt_wf_ind. intros remaining Hk w.
  rewrite writeLoop_step.
  destruct (remaining >? 0) eqn:Epos; [|apply grown_refl].
  apply Z.gtb_lt in Epos. cbv zeta.
  set (toWrite := if bufLen >? remaining then remaining else bufLen).
  assert (Hw : 0 < toWrite).
  { subst toWrite. unfold bufLen. destruct (64 * 1024 >? remaining); lia. }
  pose proof (effect_grown (shredCall path) (SysWrite path (fillOf pass) toWrite)
                (fun t => inr t) w eq_refl) as Hstep.
  fold (on_file (SysWrite path (fillOf pass) toWrite) w) in Hstep.
  destruct (on_file (SysWrite path (fillOf pass) toWrite) w) as [w1 [err|]];
    [exact Hstep|].
  eapply grown_trans; [exact Hstep|].
  apply (IH (Z.to_nat (remaining - toWrite))); [lia | reflexivity].
Qed.

Lemma on_file_grown path c w :
  shredCall path c -> grown (shredCall path) w (fst (on_file c w)).
Proof. intros Hc. apply effect_grown, Hc. Qed.

Lemma passLoop_grown path size : forall todo w,
  grown (shredCall path) w (fst (passLoop path size todo w)).
Proof.
  induction todo as [|pass todo IH]; intros w; simpl; [apply grown_refl|].
  pose proof (on_file_grown path (SysSeek path 0) w eq_refl) as Hseek.
  destruct (on_file (SysSeek path 0) w) as [w1 [err|]].
  - pose proof (on_file_grown path (SysClose path) w1 eq_refl) as Hclose.
    destruct (on_file (SysClose path) w1) as [w2 ?].
    eapply grown_trans; eassumption.
  - pose proof (writeLoop_grown path (Z.of_nat pass) size w1) as Hwrite.
    destruct (writeLoop path (Z.of_nat pass) size w1) as [w2 [err|]].
    + pose proof (on_file_grown path (SysClose path) w2 eq_refl) as Hclose.
      destruct (on_file (SysClose path) w2) as [w3 ?].
      eapply grown_trans; [exact Hseek|]. eapply grown_trans; eassumption.
    + pose proof (on_file_grown path (SysSync path) w2 eq_refl) as Hsync.
      destruct (on_file (SysSync path) w2) as [w3 [err|]].
      * pose proof (on_file_grown path (SysClose path) w3 eq_refl) as Hclose.
        destruct (on_file (SysClose path) w3) as [w4 ?].
        eapply grown_trans; [exact Hseek|]. eapply grown_trans; [exact Hwrite|].
        eapply grown_trans; eassumption.
      * eapply grown_trans; [exact Hseek|]. eapply grown_trans; [exact Hwrite|].
        eapply grown_trans; [exact Hsync|]. apply IH.
Qed.

(** Whatever fails, [shredFile] makes no call but the ones on its file. *)
Lemma shredFile_grown file w :
  grown (shredCall (Scanner.Path file)) w (fst (shredFile file w)).
Proof.
  unfold shredFile. set (path := Scanner.Path file).
  pose proof (effect_grown (shredCall path) (SysOpen path)
                (fun t => match lookup (path_of path) t with
                          | Some (File _ _) => inr t
                          | Some (Dir _ _) => inl EISDIR
                          | None => inl ENOENT
                          end) w eq_refl) as Hopen.
  fold (os_OpenFile path w) in Hopen.
  destruct (os_OpenFile path w) as [w1 [err|]]; [exact Hopen|].
  pose proof (passLoop_grown path (Scanner.Size file) (seq 0 passes) w1) as Hpass.
  destruct (passLoop path (Scanner.Size file) (seq 0 passes) w1) as [w2 [err|]].
  - eapply grown_trans; eassumption.
  - pose proof (on_file_grown path (SysClose path) w2 eq_refl) as Hclose.
    destruct (on_file (SysClose path) w2) as [w3 ?].
    assert (Hrm : grown (shredCall path) w3 (fst (os_Remove path w3))).
    { apply effect_grown. reflexivity. }
    assert (H3 : grown (shredCall path) w w3).
    { eapply grown_trans; [exact Hopen|]. eapply grown_trans; eassumption. }
    destruct (os_Remove path w3) as [w4 [err|]]; simpl in *;
      eapply grown_trans; eassumption.
Qed.

Lemma shredCall_not_stages path c : shredCall path c -> stages c = false.
Proof. destruct c; simpl; intros H; try reflexivity; contradiction. Qed.

Section Json.

Variable json_length : Trash.TrashEntry -> Z.

(** C2.  For a regular-file candidate with the recorded size [n], in a
    world where the file is there and no call fails, secure erase opens the
    file and makes exactly three passes; each pass seeks to offset 0,
    writes [n] bytes (the recorded size, whatever the file's size is by
    then) in chunks of at most 64 KiB, and syncs; passes 0 and 2 write
    random bytes and pass 1 zeros; then the file is closed and unlinked.
    With or without failures, a worker in shred mode makes no call but the
    ones of [shredFile] on the file itself: it stages nothing, whatever
    trash manager is configured. *)
Theorem shred_three_passes file w a c :
  fault_free w ->
  path_of (Scanner.Path file) <> [] ->
  lookup (path_of (Scanner.Path file)) (root w) = Some (File a c) ->
  let path := Scanner.Path file in
  let n := Scanner.Size file in
  let w' := fst (shredFile file w) in
  snd (shredFile file w) = None
  /\ log w' = log w
       ++ (SysOpen path, None)
          :: passLog path n 0 ++ passLog path n 1 ++ passLog path n 2
          ++ [(SysClose path, None); (SysRemove path, None)]
  /\ (forall pass, passLog path n pass
        = (SysSeek path 0, None)
          :: writes path (fillOf (Z.of_nat pass)) (chunks n) ++ [(SysSync path, None)])
  /\ fillOf 0 = Random /\ fillOf 1 = Zeros /\ fillOf 2 = Random
  /\ Forall (fun s => 0 < s <= 64 * 1024) (chunks n)
  /\ total (chunks n) = Z.max 0 n
  /\ lookup (path_of path) (root w') = None
  /\ (forall d w0,
        shred d = true ->
        dispose json_length d file w0 = shredFile file w0
        /\ exists evs, log (fst (dispose json_length d file w0)) = log w0 ++ evs
                       /\ Forall (fun ev => shredCall path (fst ev)
                                            /\ stages (fst ev) = false) evs).
Proof.
  intros Hff Hne Hfile path n w'. subst w'.
  rewrite (shredFile_ok file w a c Hff Hne Hfile). simpl.
  split; [reflexivity|]. split; [reflexivity|]. split; [reflexivity|].
  split; [reflexivity|]. split; [reflexivity|]. split; [reflexivity|].
  split; [apply chunks_bounds|]. split.
  { destruct (Z.le_gt_cases 0 n).
    - rewrite chunks_total by assumption. lia.
    - rewrite chunks_nonpos by lia. simpl. lia. }
  split; [apply lookup_remove_at_same, Hne|].
  intros d w0 Hshred. unfold dispose. rewrite Hshred. split; [reflexivity|].
  destruct (shredFile_grown file w0) as (evs & Hlog & Hall).
  exists evs. split; [exact Hlog|].
  eapply Forall_impl; [exact Hall|].
  intros ev Hev. split; [exact Hev | eapply shredCall_not_stages, Hev].
Qed.

End Json.

(** *** An example: a file of 200000 bytes *)

Definition secretFile : Scanner.FileInfo :=
  Scanner.mkFileInfo "/tmp/secret.bin" 200000 420 0 false.

Definition secretWorld : World :=
  ScannerFacts.quiet
    (Dir (ScannerFacts.attr 0)
       [("tmp", Dir (ScannerFacts.attr 0)
                  [("secret.bin", File (ScannerFacts.attr 200000) Raw)])]).

Lemma shred_three_passes_witness :
  snd (shredFile secretFile secretWorld) = None
  /\ List.map (fun ev => fst ev)
       (List.filter (fun ev => match fst ev with SysWrite _ _ _ => false | _ => true end)
          (log (fst (shredFile secretFile secretWorld))))
     = [SysOpen "/tmp/secret.bin";
        SysSeek "/tmp/secret.bin" 0; SysSync "/tmp/secret.bin";
        SysSeek "/tmp/secret.bin" 0; SysSync "/tmp/secret.bin";
        SysSeek "/tmp/secret.bin" 0; SysSync "/tmp/secret.bin";
        SysClose "/tmp/secret.bin"; SysRemove "/tmp/secret.bin"]
  /\ chunks 200000 = [65536; 65536; 65536; 3392]
  /\ lookup (path_of "/tmp/secret.bin") (root (fst (shredFile secretFile secretWorld))) = None.
Proof.
  assert (Hff : fault_free secretWorld) by (intros h c; reflexivity).
  assert (Hne : path_of (Scanner.Path secretFile) <> []) by (vm_compute; discriminate).
  destruct (shred_three_passes (fun _ => 0) secretFile secretWorld
              (ScannerFacts.attr 200000) Raw Hff Hne eq_refl)
    as (Herr & Hlog & _ & _ & _ & _ & _ & _ & Hgone & _).
  split; [exact Herr|]. split; [|split; [|exact Hgone]].
  - rewrite Hlog. vm_compute. reflexivity.
  - vm_compute. reflexivity.
Defined.

End ShredFacts.

(* ----------------------------------------------------------------- *)
(** ** The deletion engine: files before directories *)

Module DeleteFacts.

Import Os Deleter.

(** What a trace holds: the candidates disposed of, and the paths
    reported. *)
Definition disposedItems (tr : list Notice) : list Scanner.FileInfo :=
  flat_map (fun n => match n with Disposed f _ => [f] | Progress _ _ => [] end) tr.

Definition progressPaths (tr : list Notice) : list string :=
  flat_map (fun n => match n with Progress p _ => [p] | Disposed _ _ => [] end) tr.

(** The trace of the loop over the directories, for the directories removed
    so far with the errors of their removal. *)
Definition dirNotices (onProgress : bool) (done : list (Scanner.FileInfo * option Trash.Error))
    : list Notice :=
  flat_map
    (fun de => Disposed (fst de) (snd de) :: report onProgress (Scanner.Path (fst de)) (snd de))
    done.

(** The part [ft] of a trace holds every regular file: each has been
    disposed of, and reported if there is a callback. *)
Definition complete (onProgress : bool) (files : list Scanner.FileInfo) (ft : list Notice) : Prop :=
  disposedItems ft ≡ₚ regularFiles files
  /\ (onProgress = true ->
      progressPaths ft ≡ₚ List.map Scanner.Path (regularFiles files)).

(** No longer path after a shorter one. *)
Definition longerFirst (a b : Scanner.FileInfo) : Prop :=
  Filepath.len (Scanner.Path a) >= Filepath.len (Scanner.Path b).

(** The files the workers hold, and the paths they are about to report. *)
Definition holding (ws : list Worker) : list Scanner.FileInfo :=
  flat_map (fun k => match k with Holding f => [f] | _ => [] end) ws.

Definition reporting (ws : list Worker) : list string :=
  flat_map (fun k => match k with Reporting f _ => [Scanner.Path f] | _ => [] end) ws.

(** The files the main goroutine has yet to send. *)
Definition unsent (files : list Scanner.FileInfo) (m : Main) : list Scanner.FileInfo :=
  match m with
  | Starting _ => regularFiles files
  | Sending rest => rest
  | _ => []
  end.

Definition filesPhase (m : Main) : bool :=
  match m with
  | Starting _ | Sending _ | Waiting => true
  | _ => false
  end.

(** *** Lists *)

Lemma flat_map_insert {A B} (g : A -> list B) (ws : list A) i y x :
  ws !! i = Some y ->
  exists rest, flat_map g ws ≡ₚ g y ++ rest /\ flat_map g (<[i := x]> ws) ≡ₚ g x ++ rest.
Proof.
  intros Hi. exists (flat_map g (take i ws) ++ flat_map g (drop (S i) ws)).
  assert (E2 : <[i := x]> ws = take i ws ++ x :: drop (S i) ws)
    by (apply insert_take_drop; eapply lookup_lt_Some, Hi).
  assert (E1 : take i ws ++ y :: drop (S i) ws = ws) by (apply take_drop_middle, Hi).
  rewrite E2. clear E2. revert E1.
  generalize (take i ws) (drop (S i) ws). intros pre post <-.
  rewrite !flat_map_app. simpl.
  split; apply Permutation_app_swap_app.
Qed.

Lemma disposedItems_app tr tr' :
  disposedItems (tr ++ tr') = disposedItems tr ++ disposedItems tr'.
Proof. apply flat_map_app. Qed.

Lemma progressPaths_app tr tr' :
  progressPaths (tr ++ tr') = progressPaths tr ++ progressPaths tr'.
Proof. apply flat_map_app. Qed.

Lemma dirNotices_app cb done done' :
  dirNotices cb (done ++ done') = dirNotices cb done ++ dirNotices cb done'.
Proof. apply flat_map_app. Qed.

Lemma disposedItems_report cb p err : disposedItems (report cb p err) = [].
Proof. destruct cb; reflexivity. Qed.

Lemma progressPaths_report p err : progressPaths (report true p err) = [p].
Proof. reflexivity. Qed.

Lemma regularFiles_not_dir files f : f ∈ regularFiles files -> Scanner.IsDir f = false.
Proof.
  unfold regularFiles. rewrite list_elem_of_In, filter_In. intros [_ H].
  destruct (Scanner.IsDir f); [discriminate | reflexivity].
Qed.

Lemma directories_is_dir files f : f ∈ directories files -> Scanner.IsDir f = true.
Proof.
  unfold directories. rewrite list_elem_of_In, filter_In. intros [_ H]. exact H.
Qed.

Lemma longer_longerFirst a b : longer b a = false <-> longerFirst a b.
Proof.
  unfold longer, longerFirst. rewrite Z.gtb_ltb, Z.ltb_ge. lia.
Qed.

Section Json.

Variable json_length : Trash.TrashEntry -> Z.

Local Abbreviation step := (Deleter.step json_length).
Local Abbreviation reachable := (Deleter.reachable json_length).

(** *** The invariant *)

(** While the files are processed: every regular file is disposed of, held
    by a worker, in the channel or yet to be sent; every file disposed of
    is reported or about to be; a worker has exited only after the channel
    was closed and emptied; the channel is closed only once everything is
    sent; and the workers are as many as [d] says. *)
Definition filesInv (d : Deleter) (cb : bool) (files : list Scanner.FileInfo) (s : State) : Prop :=
  regularFiles files
    ≡ₚ disposedItems (trace s) ++ holding (pool s) ++ workChan s ++ unsent files (main s)
  /\ (cb = true ->
      List.map Scanner.Path (disposedItems (trace s))
        ≡ₚ progressPaths (trace s) ++ reporting (pool s))
  /\ (forall i, pool s !! i = Some Exited -> closed s = true /\ workChan s = [])
  /\ (closed s = true -> main s = Waiting)
  /\ match main s with
     | Starting n => (length (pool s) + n = Z.to_nat (workers d))%nat
     | _ => length (pool s) = Z.to_nat (workers d)
     end.

(** While the directories are processed: no worker is left and the channel
    is empty; the trace is the one of the files, which is complete, and
    then the one of the directories removed so far, which with the ones
    yet to be removed are what [sort.Slice] returned. *)
Definition dirsInv (cb : bool) (files : list Scanner.FileInfo) (s : State) : Prop :=
  Forall (fun k => k = Exited) (pool s)
  /\ workChan s = []
  /\ exists ft done,
       trace s = ft ++ dirNotices cb done
       /\ complete cb files ft
       /\ match main s with
          | Sorting => done = []
          | Removing rest => sortedSlice (directories files) (List.map fst done ++ rest)
          | Returned => sortedSlice (directories files) (List.map fst done)
          | _ => False
          end.

Definition Inv (d : Deleter) (cb : bool) (files : list Scanner.FileInfo) (s : State) : Prop :=
  if filesPhase (main s) then filesInv d cb files s else dirsInv cb files s.

Lemma Inv_initial d cb files w : Inv d cb files (initial d files w).
Proof.
  unfold Inv, initial. destruct (regularFiles files) as [|f rf] eqn:Hrf; simpl.
  - split; [constructor|]. split; [reflexivity|].
    exists [], []. split; [reflexivity|]. split; [|reflexivity].
    split; [rewrite Hrf; reflexivity | intros _; rewrite Hrf; reflexivity].
  - unfold filesInv. simpl. rewrite Hrf.
    split; [reflexivity|]. split; [intros _; reflexivity|].
    split; [intros i Hi; rewrite lookup_nil in Hi; discriminate|].
    split; [discriminate | reflexivity].
Qed.

Lemma holding_exited ws : Forall (fun k => k = Exited) ws -> holding ws = [].
Proof.
  induction 1 as [|k ws Hk _ IH]; [reflexivity|]. subst k. simpl. exact IH.
Qed.

Lemma reporting_exited ws : Forall (fun k => k = Exited) ws -> reporting ws = [].
Proof.
  induction 1 as [|k ws Hk _ IH]; [reflexivity|]. subst k. simpl. exact IH.
Qed.

Lemma exited_lookup ws i k :
  Forall (fun k => k = Exited) ws -> ws !! i = Some k -> k = Exited.
Proof. intros Hall Hi. exact (Forall_lookup_1 _ _ _ _ Hall Hi). Qed.

(** A worker that changes its state has not exited unless it says so. *)
Lemma exits_insert (ws : list Worker) i k (P : Prop) :
  (forall j, ws !! j = Some Exited -> P) ->
  (k = Exited -> P) ->
  forall j, <[i := k]> ws !! j = Some Exited -> P.
Proof.
  intros Hold Hk j Hj.
  destruct (decide (i = j)) as [-> | Hne].
  - destruct (decide (j < length ws)%nat) as [Hlt | Hge].
    + rewrite list_lookup_insert_eq in Hj by exact Hlt. apply Hk. congruence.
    + rewrite list_insert_ge in Hj by lia. eapply Hold, Hj.
  - rewrite list_lookup_insert_ne in Hj by exact Hne. eapply Hold, Hj.
Qed.

Lemma Inv_step d cb files s s' :
  workers d > 0 -> Inv d cb files s -> step d cb files s s' -> Inv d cb files s'.
Proof.
  intros Hpos HInv Hstep. unfold Inv in *.
  destruct Hstep; unfold filesInv, dirsInv in *;
    cbn [world main workChan closed pool trace filesPhase unsent] in *.
  - (* a worker is started *)
    destruct HInv as (Hperm & Hprog & Hex & Hcl & Hlen).
    unfold filesInv, holding, reporting in *. simpl in *.
    rewrite !flat_map_app. simpl. rewrite !app_nil_r.
    split; [exact Hperm|]. split; [exact Hprog|]. split; [|split].
    + intros i Hi. apply lookup_app_Some in Hi as [Hi | [_ Hi]]; [eapply Hex, Hi|].
      destruct (i - length ws)%nat; simpl in Hi; [discriminate|].
      rewrite lookup_nil in Hi. discriminate.
    + intros Hc. specialize (Hcl Hc). discriminate.
    + rewrite length_app. simpl. lia.
  - (* all workers are started *)
    destruct HInv as (Hperm & Hprog & Hex & Hcl & Hlen).
    unfold filesInv. simpl.
    split; [exact Hperm|]. split; [exact Hprog|]. split; [exact Hex|]. split.
    + intros Hc. specialize (Hcl Hc). discriminate.
    + lia.
  - (* a file is sent *)
    destruct HInv as (Hperm & Hprog & Hex & Hcl & Hlen).
    unfold filesInv. simpl.
    split; [rewrite <- app_assoc; exact Hperm|]. split; [exact Hprog|]. split; [|split].
    + intros i Hi. destruct (Hex i Hi) as [Hc _]. specialize (Hcl Hc). discriminate.
    + intros Hc. specialize (Hcl Hc). discriminate.
    + exact Hlen.
  - (* the channel is closed *)
    destruct HInv as (Hperm & Hprog & Hex & Hcl & Hlen).
    unfold filesInv. simpl.
    split; [exact Hperm|]. split; [exact Hprog|]. split; [|split].
    + intros i Hi. destruct (Hex i Hi) as [Hc _]. specialize (Hcl Hc). discriminate.
    + reflexivity.
    + exact Hlen.
  - (* a worker receives *)
    destruct (filesPhase mn) eqn:Hph.
    + destruct HInv as (Hperm & Hprog & Hex & Hcl & Hlen).
      unfold filesInv. simpl in *.
      destruct (flat_map_insert (fun k => match k with Holding f => [f] | _ => [] end)
                  ws i Receiving (Holding f) H) as (rest & Hold & Hnew).
      destruct (flat_map_insert
                  (fun k => match k with Reporting f _ => [Scanner.Path f] | _ => [] end)
                  ws i Receiving (Holding f) H) as (rest' & Hold' & Hnew').
      fold (holding ws) in Hold. fold (holding (<[i := Holding f]> ws)) in Hnew.
      fold (reporting ws) in Hold'. fold (reporting (<[i := Holding f]> ws)) in Hnew'.
      simpl in *.
      split; [|split; [|split; [|split]]].
      * rewrite Hperm, Hold, Hnew. simpl.
        rewrite (Permutation_middle rest). reflexivity.
      * intros Hcb. rewrite (Hprog Hcb), Hold', Hnew'. reflexivity.
      * apply exits_insert; [|discriminate].
        intros j Hj. destruct (Hex j Hj) as [_ Hch]. discriminate.
      * exact Hcl.
      * rewrite length_insert. exact Hlen.
    + destruct HInv as (_ & Hch & _). discriminate.
  - (* a worker disposes of its file *)
    destruct (filesPhase mn) eqn:Hph.
    + destruct HInv as (Hperm & Hprog & Hex & Hcl & Hlen).
      unfold filesInv. simpl in *.
      destruct (flat_map_insert (fun k => match k with Holding f => [f] | _ => [] end)
                  ws i (Holding f) (Reporting f err) H) as (rest & Hold & Hnew).
      destruct (flat_map_insert
                  (fun k => match k with Reporting f _ => [Scanner.Path f] | _ => [] end)
                  ws i (Holding f) (Reporting f err) H) as (rest' & Hold' & Hnew').
      fold (holding ws) in Hold. fold (holding (<[i := Reporting f err]> ws)) in Hnew.
      fold (reporting ws) in Hold'. fold (reporting (<[i := Reporting f err]> ws)) in Hnew'.
      simpl in *.
      rewrite disposedItems_app, progressPaths_app. simpl. rewrite app_nil_r.
      split; [|split; [|split; [|split]]].
      * rewrite Hperm, Hold, Hnew. rewrite <- !app_assoc. simpl. reflexivity.
      * intros Hcb. rewrite map_app. simpl.
        rewrite (Hprog Hcb), Hold', Hnew'.
        rewrite <- app_assoc. apply Permutation_app_head.
        symmetry. apply Permutation_cons_append.
      * apply exits_insert; [exact Hex | discriminate].
      * exact Hcl.
      * rewrite length_insert. exact Hlen.
    + destruct HInv as (Hall & _). pose proof (exited_lookup _ _ _ Hall H). discriminate.
  - (* a worker reports *)
    destruct (filesPhase mn) eqn:Hph.
    + destruct HInv as (Hperm & Hprog & Hex & Hcl & Hlen).
      unfold filesInv. simpl in *.
      destruct (flat_map_insert (fun k => match k with Holding f => [f] | _ => [] end)
                  ws i (Reporting f err) Receiving H) as (rest & Hold & Hnew).
      destruct (flat_map_insert
                  (fun k => match k with Reporting f _ => [Scanner.Path f] | _ => [] end)
                  ws i (Reporting f err) Receiving H) as (rest' & Hold' & Hnew').
      fold (holding ws) in Hold. fold (holding (<[i := Receiving]> ws)) in Hnew.
      fold (reporting ws) in Hold'. fold (reporting (<[i := Receiving]> ws)) in Hnew'.
      simpl in *.
      rewrite disposedItems_app, progressPaths_app, disposedItems_report, app_nil_r.
      split; [|split; [|split; [|split]]].
      * rewrite Hperm, Hold, Hnew. reflexivity.
      * intros Hcb. subst cb. rewrite progressPaths_report.
        rewrite (Hprog eq_refl), Hold', Hnew'.
        rewrite <- app_assoc. reflexivity.
      * apply exits_insert; [exact Hex | discriminate].
      * exact Hcl.
      * rewrite length_insert. exact Hlen.
    + destruct HInv as (Hall & _). pose proof (exited_lookup _ _ _ Hall H). discriminate.
  - (* a worker exits *)
    destruct (filesPhase mn) eqn:Hph.
    + destruct HInv as (Hperm & Hprog & Hex & Hcl & Hlen).
      unfold filesInv. simpl in *.
      destruct (flat_map_insert (fun k => match k with Holding f => [f] | _ => [] end)
                  ws i Receiving Exited H) as (rest & Hold & Hnew).
      destruct (flat_map_insert
                  (fun k => match k with Reporting f _ => [Scanner.Path f] | _ => [] end)
                  ws i Receiving Exited H) as (rest' & Hold' & Hnew').
      fold (holding ws) in Hold. fold (holding (<[i := Exited]> ws)) in Hnew.
      fold (reporting ws) in Hold'. fold (reporting (<[i := Exited]> ws)) in Hnew'.
      simpl in *.
      split; [|split; [|split; [|split]]].
      * rewrite Hperm, Hold, Hnew. reflexivity.
      * intros Hcb. rewrite (Hprog Hcb), Hold', Hnew'. reflexivity.
      * intros j _. split; reflexivity.
      * exact Hcl.
      * rewrite length_insert. exact Hlen.
    + destruct HInv as (Hall & _). pose proof (exited_lookup _ _ _ Hall H). discriminate.
  - (* the wait is over *)
    destruct HInv as (Hperm & Hprog & Hex & Hcl & Hlen).
    unfold dirsInv. simpl in *.
    split; [exact H|]. split.
    + destruct ws as [|k ws]; [simpl in Hlen; lia|].
      assert (k = Exited) by (inversion H; assumption). subst k.
      destruct (Hex O eq_refl) as [_ Hch]. exact Hch.
    + exists tr, []. simpl. rewrite app_nil_r. split; [reflexivity|]. split; [|reflexivity].
      rewrite (holding_exited ws H) in Hperm.
      rewrite (reporting_exited ws H) in Hprog.
      destruct ws as [|k ws]; [simpl in Hlen; lia|].
      assert (k = Exited) by (inversion H; assumption). subst k.
      destruct (Hex O eq_refl) as [_ ->].
      simpl in Hperm. rewrite !app_nil_r in Hperm.
      split; [symmetry; exact Hperm|].
      intros Hcb. specialize (Hprog Hcb). rewrite app_nil_r in Hprog.
      rewrite <- Hprog. apply Permutation_map. symmetry. exact Hperm.
  - (* the directories are sorted *)
    destruct HInv as (Hall & Hch & ft & done & Htr & Hcomp & Hdone).
    unfold dirsInv. simpl in *. subst done.
    split; [exact Hall|]. split; [exact Hch|].
    exists ft, []. split; [exact Htr|]. split; [exact Hcomp|]. exact H.
  - (* a directory is removed *)
    destruct HInv as (Hall & Hch & ft & done & Htr & Hcomp & Hdone).
    unfold dirsInv. simpl in *.
    split; [exact Hall|]. split; [exact Hch|].
    exists ft, (done ++ [(dir, err)]). split; [|split; [exact Hcomp|]].
    + rewrite Htr, dirNotices_app, <- app_assoc. simpl. rewrite app_nil_r. reflexivity.
    + rewrite map_app, <- app_assoc. simpl. exact Hdone.
  - (* [Delete] returns *)
    destruct HInv as (Hall & Hch & ft & done & Htr & Hcomp & Hdone).
    unfold dirsInv. simpl in *.
    split; [exact Hall|]. split; [exact Hch|].
    exists ft, done. split; [exact Htr|]. split; [exact Hcomp|].
    rewrite app_nil_r in Hdone. exact Hdone.
Qed.

Lemma Inv_reachable d cb files w s :
  workers d > 0 -> reachable d cb files w s -> Inv d cb files s.
Proof.
  intros Hpos Hreach. unfold Deleter.reachable in Hreach.
  revert s Hreach. apply rtc_ind_r.
  - apply Inv_initial.
  - intros s1 s2 _ Hstep IH. eapply Inv_step; eassumption.
Qed.

Lemma New_workers n shred0 tm : workers (New n shred0 tm) > 0.
Proof.
  unfold New. simpl. destruct (n <=? 0) eqn:E; [lia|]. apply Z.leb_gt in E. lia.
Qed.

(** C5.  In every state an execution of [Delete] reaches, the trace is the
    one of the regular files followed by the one of the directories; a
    directory is disposed of only after every regular file has been
    disposed of and reported; the directories are removed in the order of
    [sort.Slice], no longer path after a shorter one, each with its report
    right behind it; and when [Delete] has returned every directory was
    removed. *)
Theorem Delete_files_before_directories n shred0 tm cb files w s :
  reachable (New n shred0 tm) cb files w s ->
  exists ft done rest,
    trace s = ft ++ dirNotices cb done
    /\ Forall (fun f => Scanner.IsDir f = false) (disposedItems ft)
    /\ Forall (fun de => Scanner.IsDir (fst de) = true) done
    /\ (done <> [] -> complete cb files ft)
    /\ directories files ≡ₚ List.map fst done ++ rest
    /\ StronglySorted longerFirst (List.map fst done)
    /\ (main s = Returned -> rest = [] /\ complete cb files ft).
Proof.
  intros Hreach.
  pose proof (Inv_reachable _ cb files w s (New_workers n shred0 tm) Hreach) as HInv.
  unfold Inv in HInv. destruct (filesPhase (main s)) eqn:Hph.
  - destruct HInv as (Hperm & _).
    exists (trace s), [], (directories files). simpl. rewrite app_nil_r.
    split; [reflexivity|]. split; [|split; [constructor|]].
    + apply Forall_forall. intros f Hf. apply (regularFiles_not_dir files).
      rewrite Hperm. apply elem_of_app. left. exact Hf.
    + split; [congruence|]. split; [reflexivity|]. split; [constructor|].
      intros Hret. rewrite Hret in Hph. discriminate.
  - destruct HInv as (_ & _ & ft & done & Htr & Hcomp & Hmain).
    assert (Hsorted : forall rest,
               sortedSlice (directories files) (List.map fst done ++ rest) ->
               Forall (fun de => Scanner.IsDir (fst de) = true) done
               /\ directories files ≡ₚ List.map fst done ++ rest
               /\ StronglySorted longerFirst (List.map fst done)).
    { intros rest [Hp Hs]. split; [|split; [exact Hp|]].
      - apply Forall_forall. intros de Hde. apply (directories_is_dir files).
        rewrite Hp. apply elem_of_app. left. apply list_elem_of_fmap_2. exact Hde.
      - apply StronglySorted_app_1_l in Hs.
        eapply ScannerFacts.StronglySorted_impl; [|exact Hs].
        intros a b. apply longer_longerFirst. }
    destruct (main s) eqn:Hm; try discriminate.
    + subst done. exists ft, [], (directories files).
      split; [exact Htr|]. split.
      { destruct Hcomp as [Hc _]. apply Forall_forall. intros f Hf.
        apply (regularFiles_not_dir files). rewrite <- Hc. exact Hf. }
      split; [constructor|]. split; [congruence|]. split; [reflexivity|].
      split; [constructor | discriminate].
    + destruct (Hsorted dirs Hmain) as (Hdirs & Hp & Hs).
      exists ft, done, dirs.
      split; [exact Htr|]. split.
      { destruct Hcomp as [Hc _]. apply Forall_forall. intros f Hf.
        apply (regularFiles_not_dir files). rewrite <- Hc. exact Hf. }
      split; [exact Hdirs|]. split; [intros _; exact Hcomp|].
      split; [exact Hp|]. split; [exact Hs | discriminate].
    + rewrite <- (app_nil_r (List.map fst done)) in Hmain.
      destruct (Hsorted [] Hmain) as (Hdirs & Hp & Hs).
      exists ft, done, [].
      split; [exact Htr|]. split.
      { destruct Hcomp as [Hc _]. apply Forall_forall. intros f Hf.
        apply (regularFiles_not_dir files). rewrite <- Hc. exact Hf. }
      split; [exact Hdirs|]. split; [intros _; exact Hcomp|].
      split; [exact Hp|]. split; [exact Hs|].
      intros _. split; [reflexivity | exact Hcomp].
Qed.

End Json.

(** *** An example: one file in one directory, one worker *)

Definition demoFile : Scanner.FileInfo := Scanner.mkFileInfo "/t/a/f" 0 420 0 false.
Definition demoDir : Scanner.FileInfo := Scanner.mkFileInfo "/t/a" 0 493 0 true.

Definition demoWorld : World :=
  ScannerFacts.quiet
    (Dir (ScannerFacts.attr 0)
       [("t", Dir (ScannerFacts.attr 0)
                [("a", Dir (ScannerFacts.attr 0) [("f", ScannerFacts.emptyFile)])])]).

Definition demoDeleter : Deleter := New 1 false None.

Definition noJson (e : Trash.TrashEntry) : Z := 0.

Definition demoTrace : list Notice :=
  [Disposed demoFile None; Progress "/t/a/f" None;
   Disposed demoDir None; Progress "/t/a" None].

(** The execution: the worker is started, the file is sent, received,
    removed and reported, the worker exits, and the directory is removed. *)
Lemma demo_run :
  exists w', Deleter.reachable noJson demoDeleter true [demoDir; demoFile] demoWorld
               (mkState w' Returned [] true [Exited] demoTrace)
             /\ lookup (path_of "/t/a") (root w') = None.
Proof.
  eexists. split.
  - unfold Deleter.reachable, initial. simpl.
    eapply rtc_l; [apply step_start|]. simpl.
    eapply rtc_l; [apply step_started|]. simpl.
    eapply rtc_l; [apply step_send|]. simpl.
    eapply rtc_l; [apply step_close|].
    eapply rtc_l; [eapply step_receive with (i := O); reflexivity|]. simpl.
    eapply rtc_l;
      [eapply step_dispose with (i := O); [reflexivity | vm_compute; reflexivity]|].
    simpl.
    eapply rtc_l; [eapply step_report with (i := O); reflexivity|]. simpl.
    eapply rtc_l; [eapply step_exit with (i := O); reflexivity|]. simpl.
    eapply rtc_l; [apply step_wait; repeat constructor|].
    eapply rtc_l; [eapply step_sort with (dirs := [demoDir]); split;
                   [reflexivity | repeat constructor]|].
    eapply rtc_l; [eapply step_remove; vm_compute; reflexivity|]. simpl.
    eapply rtc_l; [apply step_return|].
    apply rtc_refl.
  - vm_compute. reflexivity.
Qed.

Lemma Delete_files_before_directories_witness :
  exists w' ft done rest,
    Deleter.reachable noJson demoDeleter true [demoDir; demoFile] demoWorld
      (mkState w' Returned [] true [Exited] demoTrace)
    /\ demoTrace = ft ++ dirNotices true done
    /\ Forall (fun f => Scanner.IsDir f = false) (disposedItems ft)
    /\ Forall (fun de => Scanner.IsDir (fst de) = true) done
    /\ (done <> [] -> complete true [demoDir; demoFile] ft)
    /\ directories [demoDir; demoFile] ≡ₚ List.map fst done ++ rest
    /\ StronglySorted longerFirst (List.map fst done)
    /\ (Returned = Returned -> rest = [] /\ complete true [demoDir; demoFile] ft).
Proof.
  destruct demo_run as (w' & Hreach & _).
  destruct (Delete_files_before_directories noJson 1 false None true
              [demoDir; demoFile] demoWorld _ Hreach) as (ft & done & rest & H).
  exists w', ft, done, rest. split; [exact Hreach | exact H].
Defined.

End DeleteFacts.

(* ----------------------------------------------------------------- *)
(** ** The trash store *)

Module TrashFacts.

Import Os OsFacts Trash.

(** The manager [NewManager] makes for a home directory. *)
Definition managerAt (homeDir : string) : Manager :=
  mkManager (Filepath.Join (Filepath.Join homeDir ".nuke-trash") "files")
            (Filepath.Join (Filepath.Join homeDir ".nuke-trash") "meta").

(** The directory that holds the two directories of the store. *)
Definition storeAt (homeDir : string) : list string :=
  Filepath.components homeDir ++ [".nuke-trash"].

Lemma trashDir_path h : path_of (trashDir (managerAt h)) = storeAt h ++ ["files"].
Proof.
  unfold path_of, managerAt, storeAt. simpl.
  rewrite !FilepathFacts.components_Join. reflexivity.
Qed.

Lemma metaDir_path h : path_of (metaDir (managerAt h)) = storeAt h ++ ["meta"].
Proof.
  unfold path_of, managerAt, storeAt. simpl.
  rewrite !FilepathFacts.components_Join. reflexivity.
Qed.

Lemma trashDir_nonempty h : path_of (trashDir (managerAt h)) <> [].
Proof. rewrite trashDir_path. destruct (storeAt h); discriminate. Qed.

Lemma metaDir_nonempty h : path_of (metaDir (managerAt h)) <> [].
Proof. rewrite metaDir_path. destruct (storeAt h); discriminate. Qed.

(** The environment stays as quiet as it was. *)
Ltac quiet :=
  repeat first [ apply fault_free_with_root | apply fault_free_logged ];
  first [ assumption | apply trashDir_nonempty | apply metaDir_nonempty ].

Lemma NewManager_managerAt w w' m : NewManager w = (w', inr m) -> m = managerAt (home w).
Proof.
  unfold NewManager, os_UserHomeDir.
  destruct (String.eqb (home w) ""); [discriminate|].
  destruct (os_MkdirAll _ _ w) as [w1 [e|]]; [discriminate|].
  destruct (os_MkdirAll _ _ w1) as [w2 [e|]]; [discriminate|].
  intros [= _ <-]. reflexivity.
Qed.

(** *** [Empty] *)

(** There is a directory at [p], and nothing in it. *)
Definition emptyDirAt (p : string) (w : World) : Prop :=
  exists a, lookup (path_of p) (root w) = Some (Dir a []).

Definition freshDir (w : World) : Attr := mkAttr dir_size perm_dir (now w).

(** What a call of [Empty] without error has done to the tree. *)
Lemma Empty_inv h w w1 :
  fault_free w ->
  Empty (managerAt h) w = (w1, None) ->
  exists t3,
    mkdir_all (freshDir w) (storeAt h ++ ["files"])
      (remove_at (storeAt h ++ ["meta"]) (remove_at (storeAt h ++ ["files"]) (root w)))
    = Some t3
    /\ mkdir_all (freshDir w) (storeAt h ++ ["meta"]) t3 = Some (root w1)
    /\ fault_free w1 /\ now w1 = now w.
Proof.
  intros Hff. unfold Empty.
  rewrite os_RemoveAll_ok by quiet.
  rewrite os_RemoveAll_ok by quiet.
  rewrite os_MkdirAll_fault_free by quiet.
  rewrite trashDir_path, metaDir_path. cbn [root with_root logged now].
  fold (freshDir w).
  destruct (mkdir_all (freshDir w) (storeAt h ++ ["files"]) _) as [t3|] eqn:H3; [|discriminate].
  rewrite os_MkdirAll_fault_free by quiet.
  rewrite metaDir_path. cbn [root with_root logged now]. fold (freshDir w).
  destruct (mkdir_all (freshDir w) (storeAt h ++ ["meta"]) t3) as [t4|] eqn:H4; [|discriminate].
  intros [= <-]. exists t3. split; [reflexivity|]. split; [exact H4|]. split.
  - quiet.
  - reflexivity.
Qed.

(** [Empty] goes through when the tree lets it. *)
Lemma Empty_ok h w t3 t4 :
  fault_free w ->
  mkdir_all (freshDir w) (storeAt h ++ ["files"])
    (remove_at (storeAt h ++ ["meta"]) (remove_at (storeAt h ++ ["files"]) (root w)))
  = Some t3 ->
  mkdir_all (freshDir w) (storeAt h ++ ["meta"]) t3 = Some t4 ->
  exists w1, Empty (managerAt h) w = (w1, None).
Proof.
  intros Hff H3 H4. unfold Empty.
  rewrite os_RemoveAll_ok by quiet.
  rewrite os_RemoveAll_ok by quiet.
  rewrite os_MkdirAll_fault_free by quiet.
  rewrite trashDir_path, metaDir_path. cbn [root with_root logged now].
  fold (freshDir w). rewrite H3.
  rewrite os_MkdirAll_fault_free by quiet.
  rewrite metaDir_path. cbn [root with_root logged now]. fold (freshDir w). rewrite H4.
  eauto.
Qed.

(** After a call of [Empty] without error the two directories are there,
    and empty. *)
Lemma Empty_leaves_empty h w w1 :
  fault_free w ->
  Empty (managerAt h) w = (w1, None) ->
  emptyDirAt (trashDir (managerAt h)) w1 /\ emptyDirAt (metaDir (managerAt h)) w1.
Proof.
  intros Hff HE. destruct (Empty_inv h w w1 Hff HE) as (t3 & H3 & H4 & _ & _).
  destruct (remade_empty "files" "meta" ltac:(discriminate) _ _ _ _ _ _ H3 H4) as [Hf Hm].
  unfold emptyDirAt. rewrite trashDir_path, metaDir_path. eauto.
Qed.

(** C8.  For a manager made by [NewManager], in a world where no call
    fails: when a call of [Empty] returns no error, the staging directory
    and the metadata directory are there and empty after it, a second call
    right after it returns no error either, and the two directories are
    there and empty after that one too. *)
Theorem Empty_idempotent w0 w0' m w w1 :
  NewManager w0 = (w0', inr m) ->
  fault_free w ->
  Empty m w = (w1, None) ->
  emptyDirAt (trashDir m) w1 /\ emptyDirAt (metaDir m) w1
  /\ exists w2, Empty m w1 = (w2, None)
                /\ emptyDirAt (trashDir m) w2 /\ emptyDirAt (metaDir m) w2.
Proof.
  intros Hnew Hff HE. apply NewManager_managerAt in Hnew. subst m.
  set (h := home w0) in *.
  destruct (Empty_leaves_empty h w w1 Hff HE) as [Hf Hm].
  split; [exact Hf|]. split; [exact Hm|].
  destruct (Empty_inv h w w1 Hff HE) as (_ & _ & _ & Hff1 & _).
  destruct Hf as [a1 Hf]. destruct Hm as [a2 Hm].
  rewrite trashDir_path in Hf. rewrite metaDir_path in Hm.
  destruct (remade_again "files" "meta" ltac:(discriminate) (storeAt h)
              (freshDir w1) (freshDir w1) (root w1) _ _ Hf Hm) as (t3 & t4 & H3 & H4).
  destruct (Empty_ok h w1 t3 t4 Hff1 H3 H4) as [w2 HE2].
  exists w2. split; [exact HE2|].
  apply (Empty_leaves_empty h w1 w2 Hff1 HE2).
Qed.


(** *** [List], entry by entry *)

(** What one turn of the loop of [List] adds to the entries. *)
Definition listOne (m : Manager) (name : string) (w : World) : option TrashEntry :=
  if negb (Filepath.HasSuffix name ".json") then None
  else
    match os_ReadFile (Filepath.Join (metaDir m) name) w with
    | inl _ => None
    | inr data =>
        match json_Unmarshal data with
        | None => None
        | Some trashEntry =>
            match os_Stat (TrashPath trashEntry) w with
            | inr info =>
                Some (if Os.IsDir info then
                        withSize trashEntry
                          (filepath_Walk (TrashPath trashEntry) sizeVisit w 0)
                      else trashEntry)
            | inl _ => None
            end
        end
    end.

Definition listItems (m : Manager) (names : list string) (w : World) : list TrashEntry :=
  omap (fun name => listOne m name w) names.

(** The sum [List] and [AutoCleanup] compute of the sizes of entries. *)
Definition sum64 (from : Z) (items : list TrashEntry) : Z :=
  fold_left (fun total e => Int64.add total (Size e)) items from.

Lemma sum64_app from items items' :
  sum64 from (items ++ items') = sum64 (sum64 from items) items'.
Proof. apply fold_left_app. Qed.

Lemma listLoop_listItems m w : forall entries trashEntries totalSize,
  listLoop m entries w trashEntries totalSize
  = (trashEntries ++ listItems m (List.map fst entries) w,
     sum64 totalSize (listItems m (List.map fst entries) w)).
Proof.
  induction entries as [|[name isDir] entries IH]; intros acc total.
  - simpl. rewrite app_nil_r. reflexivity.
  - cbn [listLoop List.map fst]. unfold listItems. cbn [omap list_omap].
    fold (listItems m (List.map fst entries) w). unfold listOne.
    destruct (negb (Filepath.HasSuffix name ".json")); [apply IH|].
    destruct (os_ReadFile (Filepath.Join (metaDir m) name) w) as [err | data]; [apply IH|].
    destruct (json_Unmarshal data) as [e|]; [|apply IH].
    destruct (os_Stat (TrashPath e) w) as [err | info]; [apply IH|].
    rewrite IH. cbn [sum64 fold_left]. rewrite <- app_assoc. reflexivity.
Qed.

(** [List] where the reads go through: the entries of the records of the
    metadata directory, in directory order, with the sum of their sizes. *)
Lemma List_readsQuiet m w :
  readsQuiet w ->
  List m w = match lookup (path_of (metaDir m)) (root w) with
             | Some (Dir _ es) =>
                 inr (listItems m (List.map fst es) w,
                      sum64 0 (listItems m (List.map fst es) w))
             | Some (File _ _) => inl ENOTDIR
             | None => inl ENOENT
             end.
Proof.
  intros Hq. unfold List. rewrite os_ReadDir_readsQuiet by exact Hq.
  destruct (lookup (path_of (metaDir m)) (root w)) as [[a c | a es]|]; try reflexivity.
  rewrite listLoop_listItems, map_map. reflexivity.
Qed.

(** Two worlds that read the same at a record and at what it names list the
    same for it. *)
Lemma listOne_agree m name w w' :
  readsQuiet w -> readsQuiet w' ->
  lookup (path_of (Filepath.Join (metaDir m) name)) (root w)
  = lookup (path_of (Filepath.Join (metaDir m) name)) (root w') ->
  (forall a c e,
     Filepath.HasSuffix name ".json" = true ->
     lookup (path_of (Filepath.Join (metaDir m) name)) (root w) = Some (File a c) ->
     json_Unmarshal (mkData (a_size a) c) = Some e ->
     lookup (path_of (TrashPath e)) (root w) = lookup (path_of (TrashPath e)) (root w')) ->
  listOne m name w = listOne m name w'.
Proof.
  intros Hq Hq' Hrec Hdat. unfold listOne.
  destruct (negb (Filepath.HasSuffix name ".json")) eqn:Hsuf; [reflexivity|].
  apply negb_false_iff in Hsuf.
  rewrite !os_ReadFile_readsQuiet by assumption.
  rewrite <- Hrec.
  destruct (lookup (path_of (Filepath.Join (metaDir m) name)) (root w))
    as [[a c | a es]|] eqn:Er; try reflexivity.
  destruct (json_Unmarshal (mkData (a_size a) c)) as [e|] eqn:Ej; [|reflexivity].
  rewrite !os_Stat_readsQuiet by assumption.
  pose proof (Hdat a c e Hsuf eq_refl Ej) as Hlook.
  rewrite <- Hlook.
  destruct (lookup (path_of (TrashPath e)) (root w)) as [n|] eqn:El; [|reflexivity].
  rewrite (filepath_Walk_readsQuiet sizeVisit w w' (TrashPath e) 0 Hq Hq')
    by congruence.
  reflexivity.
Qed.


(** *** The store of a manager made by [NewManager] *)

Section Store.

Variable h : string.

Local Abbreviation m := (managerAt h).
Local Abbreviation filesAt := (storeAt h ++ ["files"]).
Local Abbreviation metaAt := (storeAt h ++ ["meta"]).

(** The metadata directory is as [MoveToTrash] leaves it: the names in it
    are names, each once, and the record named [name.json] is the one of
    the item staged as [name]. *)
Definition wf_store (w : World) : Prop :=
  exists a es,
    lookup metaAt (root w) = Some (Dir a es)
    /\ NoDup (List.map fst es)
    /\ Forall (fun ne => Filepath.simple_name (fst ne) = true) es
    /\ forall nm a' o tp d sz dir,
         (nm, File a' (Doc o tp d sz dir)) ∈ es ->
         Filepath.HasSuffix nm ".json" = true ->
         exists name, Filepath.simple_name name = true
                      /\ nm = name +:+ ".json"
                      /\ tp = Filepath.Join (trashDir m) name.

(** The environment fails the removal of staged data at the paths [stuck]
    says, and nothing else. *)
Definition removalFaults (stuck : string -> bool) (w : World) : Prop :=
  forall hst c, faulty w hst c = match c with SysRemoveAll p => stuck p | _ => false end.

Lemma removalFaults_readsQuiet stuck w : removalFaults stuck w -> readsQuiet w.
Proof. intros H hst c Hc. rewrite H. destruct c; try discriminate; reflexivity. Qed.

Lemma removalFaults_none w : fault_free w <-> removalFaults (fun _ => false) w.
Proof.
  split; intros H hst c.
  - rewrite H. destruct c; reflexivity.
  - rewrite H. destruct c; reflexivity.
Qed.

Lemma path_record nm :
  Filepath.simple_name nm = true ->
  path_of (Filepath.Join (metaDir m) nm) = metaAt ++ [nm].
Proof.
  intros H. unfold path_of. rewrite FilepathFacts.components_Join_simple by exact H.
  fold (path_of (metaDir m)). rewrite metaDir_path. reflexivity.
Qed.

Lemma path_staged name :
  Filepath.simple_name name = true ->
  path_of (Filepath.Join (trashDir m) name) = filesAt ++ [name].
Proof.
  intros H. unfold path_of. rewrite FilepathFacts.components_Join_simple by exact H.
  fold (path_of (trashDir m)). rewrite trashDir_path. reflexivity.
Qed.

Lemma simple_json name :
  Filepath.simple_name name = true -> Filepath.simple_name (name +:+ ".json") = true.
Proof. intros H. apply FilepathFacts.simple_name_app; [exact H | reflexivity]. Qed.

(** The path [AutoCleanup] removes the record at is the path of the
    record. *)
Lemma metaPathOf_record e name :
  Filepath.simple_name name = true ->
  TrashPath e = Filepath.Join (trashDir m) name ->
  metaPathOf m e = Filepath.Join (metaDir m) (name +:+ ".json").
Proof.
  intros Hs Htp. unfold metaPathOf. rewrite Htp.
  rewrite FilepathFacts.Base_Join_simple by exact Hs. reflexivity.
Qed.

Lemma assoc_elem_of nm x es : assoc nm es = Some x -> (nm, x) ∈ es.
Proof.
  induction es as [|[n y] es IH]; simpl; [discriminate|].
  destruct (String.eqb n nm) eqn:E.
  - apply String.eqb_eq in E. intros [= ->]. subst. left.
  - intros H. right. apply IH, H.
Qed.

Lemma lookup_child p c t :
  lookup (p ++ [c]) t
  = match lookup p t with
    | Some (Dir _ es) => assoc c es
    | _ => None
    end.
Proof.
  rewrite lookup_app. destruct (lookup p t) as [[a x | a es]|]; try reflexivity.
  rewrite lookup_cons. destruct (assoc c es); reflexivity.
Qed.

(** What stands behind an entry [List] returns for the name [nm]. *)
Lemma listOne_record w nm e :
  readsQuiet w -> wf_store w -> Filepath.simple_name nm = true ->
  listOne m nm w = Some e ->
  exists name,
    Filepath.simple_name name = true
    /\ nm = name +:+ ".json"
    /\ TrashPath e = Filepath.Join (trashDir m) name
    /\ (exists a c, lookup (metaAt ++ [nm]) (root w) = Some (File a c))
    /\ (exists n, lookup (filesAt ++ [name]) (root w) = Some n).
Proof.
  intros Hq (a & es & Hmeta & Hnd & Hnames & Hrec) Hnm. unfold listOne.
  destruct (negb (Filepath.HasSuffix nm ".json")) eqn:Hsuf; [discriminate|].
  apply negb_false_iff in Hsuf.
  rewrite os_ReadFile_readsQuiet by exact Hq.
  rewrite path_record by exact Hnm.
  destruct (lookup (metaAt ++ [nm]) (root w)) as [[a' c | a' es']|] eqn:Hlook;
    try discriminate.
  unfold json_Unmarshal. simpl.
  destruct c as [|o tp d sz dir]; [discriminate|].
  rewrite lookup_child, Hmeta in Hlook. apply assoc_elem_of in Hlook.
  destruct (Hrec _ _ _ _ _ _ _ Hlook Hsuf) as (name & Hname & -> & ->).
  rewrite os_Stat_readsQuiet by exact Hq. simpl.
  rewrite path_staged by exact Hname.
  destruct (lookup (filesAt ++ [name]) (root w)) as [n|] eqn:Hdata; [|discriminate].
  intros [= <-]. exists name. split; [exact Hname|]. split; [reflexivity|].
  split; [destruct (Os.IsDir (info_of n)); reflexivity|].
  split; eauto.
Qed.

(** *** One entry purged *)

(** The tree after the body the two loops of [AutoCleanup] share: the
    staged item [name] is removed unless its removal fails, and then its
    record. *)
Definition purged (stuck : string -> bool) (name : string) (t : Node) : Node :=
  remove_at (metaAt ++ [name +:+ ".json"])
    (if stuck (Filepath.Join (trashDir m) name) then t
     else remove_at (filesAt ++ [name]) t).

Lemma files_meta_apart r r' t :
  lookup (metaAt ++ r') (remove_at (filesAt ++ r) t) = lookup (metaAt ++ r') t.
Proof.
  rewrite <- !app_assoc. simpl. apply lookup_remove_at_apart. discriminate.
Qed.

Lemma meta_files_apart r r' t :
  lookup (filesAt ++ r') (remove_at (metaAt ++ r) t) = lookup (filesAt ++ r') t.
Proof.
  rewrite <- !app_assoc. simpl. apply lookup_remove_at_apart. discriminate.
Qed.

Lemma purged_meta stuck name t :
  lookup metaAt (purged stuck name t)
  = match lookup metaAt t with
    | Some (Dir a es) => Some (Dir a (es_remove (name +:+ ".json") es))
    | other => other
    end.
Proof.
  unfold purged. rewrite lookup_remove_at_parent.
  destruct (stuck _); [reflexivity|].
  pose proof (files_meta_apart [name] [] t) as H. rewrite app_nil_r in H.
  rewrite H. reflexivity.
Qed.

Lemma purged_record_other stuck name nm t :
  nm <> name +:+ ".json" ->
  lookup (metaAt ++ [nm]) (purged stuck name t) = lookup (metaAt ++ [nm]) t.
Proof.
  intros Hne. unfold purged.
  rewrite lookup_remove_at_apart by congruence.
  destruct (stuck _); [reflexivity|]. apply files_meta_apart.
Qed.

Lemma purged_record stuck name t :
  lookup (metaAt ++ [name +:+ ".json"]) (purged stuck name t) = None.
Proof. unfold purged. apply lookup_remove_at_same. destruct metaAt; discriminate. Qed.

Lemma purged_staged_other stuck name name' r t :
  name' <> name ->
  lookup (filesAt ++ name' :: r) (purged stuck name t) = lookup (filesAt ++ name' :: r) t.
Proof.
  intros Hne. unfold purged. rewrite meta_files_apart.
  destruct (stuck _); [reflexivity|].
  apply lookup_remove_at_apart. congruence.
Qed.

Lemma purged_staged stuck name t :
  lookup (filesAt ++ [name]) (purged stuck name t)
  = if stuck (Filepath.Join (trashDir m) name) then lookup (filesAt ++ [name]) t else None.
Proof.
  unfold purged. rewrite meta_files_apart.
  destruct (stuck _); [reflexivity|].
  apply lookup_remove_at_same. destruct filesAt; discriminate.
Qed.


(** *** The step of the two loops of [AutoCleanup] *)

(** The body the two loops share. *)
Definition purgeStep (e : TrashEntry) (w : World) : World * option Errno :=
  let (w, err) := os_RemoveAll (TrashPath e) w in
  let (w, _) := os_Remove (metaPathOf m e) w in
  (w, err).

Lemma firstPass_cons cutoffTime entry entries s :
  firstPass m cutoffTime (entry :: entries) s
  = if Time.Before (DeletedAt entry) cutoffTime then
      firstPass m cutoffTime entries
        match snd (purgeStep entry (world s)) with
        | None => mkSweep (fst (purgeStep entry (world s))) (itemsRemoved s + 1)
                    (Int64.add (bytesFreed s) (Size entry)) (newTotalSize s)
        | Some _ => mkSweep (fst (purgeStep entry (world s))) (itemsRemoved s)
                      (bytesFreed s) (newTotalSize s)
        end
    else firstPass m cutoffTime entries s.
Proof.
  cbn [firstPass]. unfold purgeStep.
  destruct (os_RemoveAll (TrashPath entry) (world s)) as [w1 err].
  destruct (os_Remove (metaPathOf m entry) w1) as [w2 err'].
  destruct err; reflexivity.
Qed.

Lemma secondPass_cons maxSizeBytes entry remaining s :
  secondPass m maxSizeBytes (entry :: remaining) s
  = if newTotalSize s <=? maxSizeBytes then s
    else
      secondPass m maxSizeBytes remaining
        match snd (purgeStep entry (world s)) with
        | None => mkSweep (fst (purgeStep entry (world s))) (itemsRemoved s + 1)
                    (Int64.add (bytesFreed s) (Size entry))
                    (Int64.sub (newTotalSize s) (Size entry))
        | Some _ => mkSweep (fst (purgeStep entry (world s))) (itemsRemoved s)
                      (bytesFreed s) (newTotalSize s)
        end.
Proof.
  cbn [secondPass]. unfold purgeStep.
  destruct (os_RemoveAll (TrashPath entry) (world s)) as [w1 err].
  destruct (os_Remove (metaPathOf m entry) w1) as [w2 err'].
  destruct err; reflexivity.
Qed.

Lemma removalFaults_logged stuck c r w :
  removalFaults stuck w -> removalFaults stuck (logged c r w).
Proof. intros H hst c'. apply H. Qed.

Lemma removalFaults_with_root stuck t w :
  removalFaults stuck w -> removalFaults stuck (with_root t w).
Proof. intros H hst c'. apply H. Qed.

(** The step, for an item staged as [name] whose record is there. *)
Lemma purgeStep_spec stuck w e name a c :
  removalFaults stuck w ->
  Filepath.simple_name name = true ->
  TrashPath e = Filepath.Join (trashDir m) name ->
  lookup (metaAt ++ [name +:+ ".json"]) (root w) = Some (File a c) ->
  exists w',
    purgeStep e w = (w', if stuck (TrashPath e) then Some EIO else None)
    /\ root w' = purged stuck name (root w)
    /\ removalFaults stuck w'
    /\ now w' = now w.
Proof.
  intros Hf Hname Htp Hrec. unfold purgeStep, purged.
  assert (Hpath : path_of (TrashPath e) = filesAt ++ [name])
    by (rewrite Htp; apply path_staged, Hname).
  assert (Hmeta : path_of (metaPathOf m e) = metaAt ++ [name +:+ ".json"]).
  { rewrite (metaPathOf_record e name Hname Htp). apply path_record, simple_json, Hname. }
  unfold os_RemoveAll, effect. unfold fails. rewrite Hf, Hpath, <- Htp.
  destruct (stuck (TrashPath e)) eqn:Hstuck.
  - erewrite os_Remove_file; cycle 1.
    + unfold fails. simpl. exact (Hf _ _).
    + rewrite Hmeta. destruct metaAt; discriminate.
    + rewrite Hmeta. exact Hrec.
    + eexists. split; [reflexivity|]. rewrite Hmeta. simpl.
      split; [reflexivity|]. split; [|reflexivity].
      apply removalFaults_with_root. do 2 apply removalFaults_logged. exact Hf.
  - destruct (filesAt ++ [name]) as [|c0 q] eqn:Hq; [destruct filesAt; discriminate|].
    rewrite <- Hq.
    erewrite os_Remove_file; cycle 1.
    + unfold fails. simpl. exact (Hf _ _).
    + rewrite Hmeta. destruct metaAt; discriminate.
    + rewrite Hmeta. simpl. rewrite files_meta_apart. exact Hrec.
    + eexists. split; [reflexivity|]. rewrite Hmeta. simpl.
      split; [reflexivity|]. split; [|reflexivity].
      apply removalFaults_with_root, removalFaults_logged.
      apply removalFaults_with_root, removalFaults_logged. exact Hf.
Qed.

(** *** The entries before and after a step *)

(** The entries [List] returns. *)
Definition entriesOf (w : World) : list TrashEntry :=
  match lookup metaAt (root w) with
  | Some (Dir _ es) => listItems m (List.map fst es) w
  | _ => []
  end.

Lemma List_entriesOf w :
  readsQuiet w -> wf_store w ->
  List m w = inr (entriesOf w, sum64 0 (entriesOf w)).
Proof.
  intros Hq (a & es & Hmeta & _). rewrite List_readsQuiet by exact Hq.
  unfold entriesOf. rewrite metaDir_path, Hmeta. reflexivity.
Qed.

Lemma wf_store_purged stuck name w w' :
  wf_store w -> root w' = purged stuck name (root w) -> wf_store w'.
Proof.
  intros (a & es & Hmeta & Hnd & Hnames & Hrec) Hroot.
  exists a, (es_remove (name +:+ ".json") es).
  rewrite Hroot, purged_meta, Hmeta. split; [reflexivity|]. split; [|split].
  - rewrite map_fst_es_remove. apply NoDup_ListNoDup, List.NoDup_filter.
    apply NoDup_ListNoDup, Hnd.
  - apply Forall_forall. intros ne Hne. rewrite Forall_forall in Hnames.
    apply Hnames. eapply elem_of_es_remove, Hne.
  - intros nm a' o tp d sz dir Hin. apply (Hrec nm a' o tp d sz dir).
    eapply elem_of_es_remove, Hin.
Qed.

(** The filter that drops the entry staged as [name]. *)
Definition notStagedAs (name : string) (x : TrashEntry) : bool :=
  negb (String.eqb (TrashPath x) (Filepath.Join (trashDir m) name)).

Lemma listItems_purged stuck name w w' :
  readsQuiet w -> readsQuiet w' -> wf_store w ->
  Filepath.simple_name name = true ->
  root w' = purged stuck name (root w) ->
  forall names,
    Forall (fun n => Filepath.simple_name n = true) names ->
    listItems m (List.filter (fun n => negb (String.eqb n (name +:+ ".json"))) names) w'
    = List.filter (notStagedAs name) (listItems m names w).
Proof.
  intros Hq Hq' Hwf Hname Hroot names Hnames.
  induction Hnames as [|n0 names Hn0 _ IH]; [reflexivity|].
  cbn [List.filter]. unfold listItems at 2. cbn [omap list_omap].
  fold (listItems m names w).
  destruct (String.eqb n0 (name +:+ ".json")) eqn:E; cbn [negb].
  - apply String.eqb_eq in E. subst n0. rewrite IH.
    destruct (listOne m (name +:+ ".json") w) as [x|] eqn:Hx; [|reflexivity].
    destruct (listOne_record w _ x Hq Hwf Hn0 Hx) as (name1 & Hname1 & Heq & Htp & _).
    apply FilepathFacts.append_inj_r in Heq. subst name1.
    assert (Hx0 : notStagedAs name x = false)
      by (unfold notStagedAs; rewrite Htp, String.eqb_refl; reflexivity).
    cbn [List.filter]. rewrite Hx0. reflexivity.
  - apply String.eqb_neq in E.
    unfold listItems at 1. cbn [omap list_omap].
    fold (listItems m (List.filter (fun n => negb (String.eqb n (name +:+ ".json"))) names) w').
    rewrite IH.
    assert (Hsame : listOne m n0 w' = listOne m n0 w).
    { symmetry. apply listOne_agree; try assumption.
      - rewrite path_record, Hroot by exact Hn0.
        symmetry. apply purged_record_other, E.
      - intros a c e Hsuf Hlook He.
        rewrite path_record in Hlook by exact Hn0.
        destruct Hwf as (a0 & es & Hmeta & _ & _ & Hrec).
        rewrite lookup_child, Hmeta in Hlook. apply assoc_elem_of in Hlook.
        destruct c as [|o tp d sz dir]; [discriminate|].
        injection He as <-. simpl.
        destruct (Hrec _ _ _ _ _ _ _ Hlook Hsuf) as (name0 & Hname0 & -> & ->).
        rewrite path_staged, Hroot by exact Hname0.
        symmetry. apply (purged_staged_other stuck name name0 []). congruence. }
    rewrite Hsame.
    destruct (listOne m n0 w) as [x|] eqn:Hx; [|reflexivity].
    destruct (listOne_record w _ x Hq Hwf Hn0 Hx) as (name0 & Hname0 & Heq & Htp & _).
    assert (Hx0 : notStagedAs name x = true).
    { unfold notStagedAs. rewrite Htp. apply negb_true_iff, String.eqb_neq. intros Hj.
      apply FilepathFacts.Join_simple_inj in Hj; [|assumption..]. congruence. }
    cbn [List.filter]. rewrite Hx0. reflexivity.
Qed.

(** After the step for the item staged as [name], [List] returns what it
    returned before, without the entry of that item. *)
Lemma entriesOf_purged stuck name w w' :
  readsQuiet w -> readsQuiet w' -> wf_store w ->
  Filepath.simple_name name = true ->
  root w' = purged stuck name (root w) ->
  entriesOf w' = List.filter (notStagedAs name) (entriesOf w).
Proof.
  intros Hq Hq' Hwf Hname Hroot. unfold entriesOf.
  pose proof Hwf as (a & es & Hmeta & _ & Hnames & _).
  rewrite Hroot, purged_meta, Hmeta, map_fst_es_remove.
  apply (listItems_purged stuck name w w'); try assumption.
  apply Forall_forall. intros n Hn. apply list_elem_of_fmap in Hn as (ne & -> & Hne).
  rewrite Forall_forall in Hnames. apply Hnames, Hne.
Qed.

(** *** The entries of a store *)

(** The entry [x] is staged under the name [name]. *)
Definition stagedAs (name : string) (x : TrashEntry) : Prop :=
  Filepath.simple_name name = true /\ TrashPath x = Filepath.Join (trashDir m) name.

(** Two entries of the same staged item. *)
Definition sameItem (x e : TrashEntry) : bool := String.eqb (TrashPath x) (TrashPath e).

Lemma sameItem_refl x : sameItem x x = true.
Proof. apply String.eqb_refl. Qed.

Lemma sameItem_staged nx ne x e :
  stagedAs nx x -> stagedAs ne e -> sameItem x e = String.eqb nx ne.
Proof.
  intros [Hx Hxp] [He Hep]. unfold sameItem. rewrite Hxp, Hep.
  destruct (String.eqb_spec nx ne) as [-> | Hne].
  - apply String.eqb_refl.
  - apply String.eqb_neq. intros Hj.
    apply FilepathFacts.Join_simple_inj in Hj; [|assumption..]. contradiction.
Qed.

Lemma listed_listOne w x :
  wf_store w -> x ∈ entriesOf w ->
  exists nm, Filepath.simple_name nm = true /\ listOne m nm w = Some x.
Proof.
  intros (a & es & Hmeta & _ & Hnames & _). unfold entriesOf. rewrite Hmeta.
  unfold listItems. rewrite list_elem_of_omap. intros (nm & Hnm & Hone).
  exists nm. split; [|exact Hone].
  apply list_elem_of_fmap in Hnm as (ne & -> & Hne).
  rewrite Forall_forall in Hnames. apply Hnames, Hne.
Qed.

(** An entry [List] returns is staged under a name, and its record and its
    data are there. *)
Lemma listed_staged w x :
  readsQuiet w -> wf_store w -> x ∈ entriesOf w ->
  exists name,
    stagedAs name x
    /\ (exists a c, lookup (metaAt ++ [name +:+ ".json"]) (root w) = Some (File a c))
    /\ (exists n, lookup (filesAt ++ [name]) (root w) = Some n).
Proof.
  intros Hq Hwf Hx. destruct (listed_listOne w x Hwf Hx) as (nm & Hnm & Hone).
  destruct (listOne_record w nm x Hq Hwf Hnm Hone) as (name & Hname & -> & Htp & Hrec & Hdat).
  exists name. repeat split; assumption.
Qed.

Lemma listItems_NoDup w names :
  readsQuiet w -> wf_store w ->
  NoDup names -> Forall (fun n => Filepath.simple_name n = true) names ->
  NoDup (List.map TrashPath (listItems m names w)).
Proof.
  intros Hq Hwf Hnd Hnames. induction Hnd as [|n ns Hn Hnd IH].
  - constructor.
  - apply Forall_cons in Hnames as [Hsn Hnames]. specialize (IH Hnames).
    unfold listItems. cbn [omap list_omap]. fold (listItems m ns w).
    destruct (listOne m n w) as [x|] eqn:Hx; [|exact IH].
    cbn [List.map]. apply NoDup_cons. split; [|exact IH].
    intros Hin. apply list_elem_of_fmap in Hin as (y & Hy & Hin).
    unfold listItems in Hin. apply list_elem_of_omap in Hin as (n' & Hn' & Hone).
    assert (Hsn' : Filepath.simple_name n' = true)
      by (rewrite Forall_forall in Hnames; apply Hnames, Hn').
    destruct (listOne_record w n x Hq Hwf Hsn Hx) as (name & Hname & -> & Htp & _).
    destruct (listOne_record w n' y Hq Hwf Hsn' Hone) as (name' & Hname' & -> & Htp' & _).
    rewrite Htp, Htp' in Hy.
    apply FilepathFacts.Join_simple_inj in Hy; [|assumption..]. subst name'.
    contradiction.
Qed.

(** No two entries [List] returns are of the same staged item. *)
Lemma entriesOf_NoDup w :
  readsQuiet w -> wf_store w -> NoDup (List.map TrashPath (entriesOf w)).
Proof.
  intros Hq Hwf. pose proof Hwf as (a & es & Hmeta & Hnd & Hnames & _).
  unfold entriesOf. rewrite Hmeta. apply listItems_NoDup; try assumption.
  apply Forall_forall. intros n Hn. apply list_elem_of_fmap in Hn as (ne & -> & Hne).
  rewrite Forall_forall in Hnames. apply Hnames, Hne.
Qed.

Lemma sameItem_eq (l : list TrashEntry) x e :
  NoDup (List.map TrashPath l) -> x ∈ l -> e ∈ l -> sameItem x e = true -> x = e.
Proof.
  intros Hnd Hx He Hs. apply String.eqb_eq in Hs.
  induction l as [|y l IH]; [inversion Hx|].
  cbn [List.map] in Hnd. apply NoDup_cons in Hnd as [Hy Hnd].
  apply elem_of_cons in Hx as [-> | Hx]; apply elem_of_cons in He as [-> | He].
  - reflexivity.
  - exfalso. apply Hy. rewrite Hs. apply (list_elem_of_fmap_2 TrashPath _ _ He).
  - exfalso. apply Hy. rewrite <- Hs. apply (list_elem_of_fmap_2 TrashPath _ _ Hx).
  - apply IH; assumption.
Qed.

(** *** One turn of a loop of [AutoCleanup] *)

Lemma purgeStep_listed stuck w e :
  removalFaults stuck w -> wf_store w -> e ∈ entriesOf w ->
  exists w',
    purgeStep e w = (w', if stuck (TrashPath e) then Some EIO else None)
    /\ removalFaults stuck w' /\ wf_store w' /\ now w' = now w
    /\ entriesOf w' = List.filter (fun x => negb (sameItem x e)) (entriesOf w)
    /\ (forall x name, stagedAs name x ->
          lookup (path_of (metaPathOf m x)) (root w')
          = if sameItem x e then None else lookup (path_of (metaPathOf m x)) (root w))
    /\ (forall x name, stagedAs name x ->
          lookup (path_of (TrashPath x)) (root w')
          = if sameItem x e && negb (stuck (TrashPath e)) then None
            else lookup (path_of (TrashPath x)) (root w)).
Proof.
  intros Hf Hwf He.
  pose proof (removalFaults_readsQuiet stuck w Hf) as Hq.
  destruct (listed_staged w e Hq Hwf He) as (name & Hst & (a & c & Hrec) & _).
  pose proof Hst as [Hname Htp].
  destruct (purgeStep_spec stuck w e name a c Hf Hname Htp Hrec)
    as (w' & Hstep & Hroot & Hf' & Hnow).
  exists w'. split; [exact Hstep|]. split; [exact Hf'|].
  split; [eapply wf_store_purged; eassumption|]. split; [exact Hnow|].
  split; [|split].
  - rewrite (entriesOf_purged stuck name w w'); try assumption.
    + apply List.filter_ext. intros x. unfold notStagedAs, sameItem. rewrite Htp. reflexivity.
    + eapply removalFaults_readsQuiet, Hf'.
  - intros x nx Hx. rewrite (sameItem_staged nx name x e Hx Hst).
    destruct Hx as [Hnx Hxp].
    rewrite (metaPathOf_record x nx Hnx Hxp), path_record, Hroot by apply simple_json, Hnx.
    destruct (String.eqb_spec nx name) as [-> | Hne].
    + apply purged_record.
    + apply purged_record_other. intros Heq.
      apply FilepathFacts.append_inj_r in Heq. contradiction.
  - intros x nx Hx. rewrite (sameItem_staged nx name x e Hx Hst).
    destruct Hx as [Hnx Hxp]. rewrite Hxp, path_staged, Hroot by exact Hnx.
    destruct (String.eqb_spec nx name) as [-> | Hne].
    + rewrite purged_staged, Htp.
      destruct (stuck (Filepath.Join (trashDir m) name)); reflexivity.
    + apply (purged_staged_other stuck name nx []). exact Hne.
Qed.

(** *** A run of turns *)

(** [x] is of one of the staged items of [ps]. *)
Definition among (ps : list TrashEntry) (x : TrashEntry) : bool :=
  existsb (sameItem x) ps.

(** The entries of [ps] whose staged data the environment lets go. *)
Definition freed (stuck : string -> bool) (ps : list TrashEntry) : list TrashEntry :=
  List.filter (fun e => negb (stuck (TrashPath e))) ps.

Lemma freed_cons stuck e ps :
  freed stuck (e :: ps)
  = if stuck (TrashPath e) then freed stuck ps else e :: freed stuck ps.
Proof. unfold freed. cbn [List.filter]. destruct (stuck (TrashPath e)); reflexivity. Qed.

(** What the turns for the entries [ps] have made of the world [w]: the
    entries of [ps] are no longer listed, their records are gone, and so
    is the staged data of those that are not stuck; the rest is as it
    was. *)
Record swept (stuck : string -> bool) (ps : list TrashEntry) (w w' : World) : Prop :=
  mkSwept {
    swept_faults : removalFaults stuck w';
    swept_wf : wf_store w';
    swept_now : now w' = now w;
    swept_entries :
      entriesOf w' = List.filter (fun x => negb (among ps x)) (entriesOf w);
    swept_record : forall x name, stagedAs name x ->
      lookup (path_of (metaPathOf m x)) (root w')
      = if among ps x then None else lookup (path_of (metaPathOf m x)) (root w);
    swept_data : forall x name, stagedAs name x ->
      lookup (path_of (TrashPath x)) (root w')
      = if among (freed stuck ps) x then None else lookup (path_of (TrashPath x)) (root w)
  }.

Lemma filter_all {A} (l : list A) : List.filter (fun _ => true) l = l.
Proof. induction l as [|x l IH]; simpl; congruence. Qed.

Lemma filter_twice {A} (f g : A -> bool) (l : list A) :
  List.filter f (List.filter g l) = List.filter (fun x => g x && f x) l.
Proof.
  induction l as [|x l IH]; simpl; [reflexivity|].
  destruct (g x); simpl; [destruct (f x)|]; rewrite IH; reflexivity.
Qed.

Lemma swept_nil stuck w : removalFaults stuck w -> wf_store w -> swept stuck [] w w.
Proof.
  intros Hf Hwf. split; try assumption; try reflexivity.
  simpl. symmetry. apply filter_all.
Qed.

Lemma swept_cons stuck e ps w w1 w' r :
  removalFaults stuck w -> wf_store w -> e ∈ entriesOf w ->
  purgeStep e w = (w1, r) -> swept stuck ps w1 w' -> swept stuck (e :: ps) w w'.
Proof.
  intros Hf Hwf He Hstep [Hf' Hwf' Hnow' Hent' Hrec' Hdat'].
  destruct (purgeStep_listed stuck w e Hf Hwf He)
    as (w1' & Hstep' & _ & _ & Hnow & Hent & Hrec & Hdat).
  rewrite Hstep in Hstep'. injection Hstep' as <- _.
  split; try assumption.
  - congruence.
  - rewrite Hent', Hent, filter_twice. apply List.filter_ext. intros x.
    unfold among. cbn [existsb]. rewrite negb_orb. reflexivity.
  - intros x name Hx. rewrite (Hrec' x name Hx), (Hrec x name Hx).
    unfold among. cbn [existsb].
    destruct (sameItem x e), (existsb (sameItem x) ps); reflexivity.
  - intros x name Hx. rewrite (Hdat' x name Hx), (Hdat x name Hx).
    unfold freed, among. cbn [List.filter].
    destruct (stuck (TrashPath e)); cbn [negb existsb].
    + rewrite andb_false_r. reflexivity.
    + rewrite andb_true_r.
      destruct (sameItem x e), (existsb (sameItem x) _); reflexivity.
Qed.

(** *** One turn and the counters *)

(** The turn for [entry], with the counters: the size that is left is
    brought down only in the second loop. *)
Definition tally (shrink : bool) (entry : TrashEntry) (s : Sweep) : Sweep :=
  match snd (purgeStep entry (world s)) with
  | None => mkSweep (fst (purgeStep entry (world s))) (itemsRemoved s + 1)
              (Int64.add (bytesFreed s) (Size entry))
              (if shrink then Int64.sub (newTotalSize s) (Size entry) else newTotalSize s)
  | Some _ => mkSweep (fst (purgeStep entry (world s))) (itemsRemoved s)
                (bytesFreed s) (newTotalSize s)
  end.

Lemma firstPass_tally cutoffTime entry entries s :
  firstPass m cutoffTime (entry :: entries) s
  = if Time.Before (DeletedAt entry) cutoffTime then
      firstPass m cutoffTime entries (tally false entry s)
    else firstPass m cutoffTime entries s.
Proof. rewrite firstPass_cons. unfold tally. reflexivity. Qed.

Lemma secondPass_tally maxSizeBytes entry remaining s :
  secondPass m maxSizeBytes (entry :: remaining) s
  = if newTotalSize s <=? maxSizeBytes then s
    else secondPass m maxSizeBytes remaining (tally true entry s).
Proof. rewrite secondPass_cons. unfold tally. reflexivity. Qed.

Lemma tally_listed stuck shrink e s :
  removalFaults stuck (world s) -> wf_store (world s) -> e ∈ entriesOf (world s) ->
  exists w1,
    purgeStep e (world s) = (w1, if stuck (TrashPath e) then Some EIO else None)
    /\ removalFaults stuck w1 /\ wf_store w1
    /\ entriesOf w1 = List.filter (fun x => negb (sameItem x e)) (entriesOf (world s))
    /\ tally shrink e s
       = if stuck (TrashPath e)
         then mkSweep w1 (itemsRemoved s) (bytesFreed s) (newTotalSize s)
         else mkSweep w1 (itemsRemoved s + 1) (Int64.add (bytesFreed s) (Size e))
                (if shrink then Int64.sub (newTotalSize s) (Size e) else newTotalSize s).
Proof.
  intros Hf Hwf He.
  destruct (purgeStep_listed stuck (world s) e Hf Hwf He)
    as (w1 & Hstep & Hf1 & Hwf1 & _ & Hent & _).
  exists w1. split; [exact Hstep|]. split; [exact Hf1|]. split; [exact Hwf1|].
  split; [exact Hent|]. unfold tally. rewrite Hstep. cbn [fst snd].
  destruct (stuck (TrashPath e)); reflexivity.
Qed.

(** The entries still to come are still listed after a turn. *)
Lemma listed_after (e : TrashEntry) (es l l' : list TrashEntry) :
  NoDup (List.map TrashPath (e :: es)) ->
  (forall x, x ∈ e :: es -> x ∈ l) ->
  l' = List.filter (fun x => negb (sameItem x e)) l ->
  forall x, x ∈ es -> x ∈ l'.
Proof.
  intros Hnd Hl -> x Hx. apply list_elem_of_In, List.filter_In. split.
  - apply list_elem_of_In, Hl. right. exact Hx.
  - apply negb_true_iff. destruct (sameItem x e) eqn:Hs; [|reflexivity].
    apply String.eqb_eq in Hs. cbn [List.map] in Hnd.
    apply NoDup_cons in Hnd as [Hne _]. exfalso. apply Hne.
    rewrite <- Hs. apply (list_elem_of_fmap_2 TrashPath _ _ Hx).
Qed.

(** *** The first loop *)

(** The entry is older than the cutoff. *)
Definition expired (cutoffTime : Z) (e : TrashEntry) : bool :=
  Time.Before (DeletedAt e) cutoffTime.

Lemma firstPass_spec stuck cutoffTime : forall es s,
  removalFaults stuck (world s) -> wf_store (world s) ->
  NoDup (List.map TrashPath es) ->
  (forall e, e ∈ es -> e ∈ entriesOf (world s)) ->
  swept stuck (List.filter (expired cutoffTime) es) (world s)
    (world (firstPass m cutoffTime es s))
  /\ itemsRemoved (firstPass m cutoffTime es s)
     = itemsRemoved s
       + Z.of_nat (length (freed stuck (List.filter (expired cutoffTime) es)))
  /\ bytesFreed (firstPass m cutoffTime es s)
     = sum64 (bytesFreed s) (freed stuck (List.filter (expired cutoffTime) es))
  /\ newTotalSize (firstPass m cutoffTime es s) = newTotalSize s.
Proof.
  induction es as [|e es IH]; intros s Hf Hwf Hnd Hl.
  - simpl. split; [apply swept_nil; assumption|]. repeat split. lia.
  - rewrite firstPass_tally. cbn [List.filter]. fold (expired cutoffTime e).
    assert (Hnd' : NoDup (List.map TrashPath es))
      by (cbn [List.map] in Hnd; apply NoDup_cons in Hnd as [_ Hnd]; exact Hnd).
    destruct (expired cutoffTime e) eqn:Hexp.
    + assert (He : e ∈ entriesOf (world s)) by (apply Hl; left).
      destruct (tally_listed stuck false e s Hf Hwf He)
        as (w1 & Hstep & Hf1 & Hwf1 & Hent & Htally).
      assert (Hw1 : world (tally false e s) = w1)
        by (rewrite Htally; destruct (stuck (TrashPath e)); reflexivity).
      destruct (IH (tally false e s)) as (Hsw & Hitems & Hbytes & Hsize).
      * rewrite Hw1. exact Hf1.
      * rewrite Hw1. exact Hwf1.
      * exact Hnd'.
      * rewrite Hw1. eapply listed_after; eassumption.
      * rewrite Hw1 in Hsw. split; [eapply swept_cons; eassumption|].
        rewrite Hitems, Hbytes, Hsize, Htally, freed_cons.
        destruct (stuck (TrashPath e)); cbn [itemsRemoved bytesFreed newTotalSize].
        -- repeat split.
        -- cbn [length sum64 fold_left]. repeat split. lia.
    + apply IH; try assumption. intros x Hx. apply Hl. right. exact Hx.
Qed.

(** *** The second loop *)

(** The entries the second loop has a turn for: those at the head of
    [remaining], up to the first that finds the size within the limit.  A
    turn brings the size down by the size of its entry, unless the data of
    that one is stuck. *)
Fixpoint evicted (stuck : string -> bool) (maxSizeBytes size : Z) (remaining : list TrashEntry)
    : list TrashEntry :=
  match remaining with
  | [] => []
  | e :: remaining' =>
      if size <=? maxSizeBytes then []
      else e :: evicted stuck maxSizeBytes
                  (if stuck (TrashPath e) then size else Int64.sub size (Size e)) remaining'
  end.

(** The size that is left after the data of [ps] is gone. *)
Definition sizeAfter (size : Z) (ps : list TrashEntry) : Z :=
  fold_left (fun sz e => Int64.sub sz (Size e)) ps size.

Lemma secondPass_spec stuck maxSizeBytes : forall rs s,
  removalFaults stuck (world s) -> wf_store (world s) ->
  NoDup (List.map TrashPath rs) ->
  (forall e, e ∈ rs -> e ∈ entriesOf (world s)) ->
  swept stuck (evicted stuck maxSizeBytes (newTotalSize s) rs) (world s)
    (world (secondPass m maxSizeBytes rs s))
  /\ itemsRemoved (secondPass m maxSizeBytes rs s)
     = itemsRemoved s
       + Z.of_nat (length (freed stuck (evicted stuck maxSizeBytes (newTotalSize s) rs)))
  /\ bytesFreed (secondPass m maxSizeBytes rs s)
     = sum64 (bytesFreed s) (freed stuck (evicted stuck maxSizeBytes (newTotalSize s) rs))
  /\ newTotalSize (secondPass m maxSizeBytes rs s)
     = sizeAfter (newTotalSize s)
         (freed stuck (evicted stuck maxSizeBytes (newTotalSize s) rs)).
Proof.
  induction rs as [|e rs IH]; intros s Hf Hwf Hnd Hl.
  - simpl. split; [apply swept_nil; assumption|]. repeat split. lia.
  - rewrite secondPass_tally. cbn [evicted].
    destruct (newTotalSize s <=? maxSizeBytes) eqn:Hcap.
    { simpl. split; [apply swept_nil; assumption|]. repeat split. lia. }
    assert (Hnd' : NoDup (List.map TrashPath rs))
      by (cbn [List.map] in Hnd; apply NoDup_cons in Hnd as [_ Hnd]; exact Hnd).
    assert (He : e ∈ entriesOf (world s)) by (apply Hl; left).
    destruct (tally_listed stuck true e s Hf Hwf He)
      as (w1 & Hstep & Hf1 & Hwf1 & Hent & Htally).
    assert (Hw1 : world (tally true e s) = w1)
      by (rewrite Htally; destruct (stuck (TrashPath e)); reflexivity).
    assert (Hsz : newTotalSize (tally true e s)
                  = if stuck (TrashPath e) then newTotalSize s
                    else Int64.sub (newTotalSize s) (Size e))
      by (rewrite Htally; destruct (stuck (TrashPath e)); reflexivity).
    destruct (IH (tally true e s)) as (Hsw & Hitems & Hbytes & Hsize).
    + rewrite Hw1. exact Hf1.
    + rewrite Hw1. exact Hwf1.
    + exact Hnd'.
    + rewrite Hw1. eapply listed_after; eassumption.
    + rewrite Hw1, Hsz in Hsw. rewrite Hsz in Hitems, Hbytes, Hsize.
      split; [eapply swept_cons; eassumption|].
      rewrite Hitems, Hbytes, Hsize, Htally, freed_cons.
      destruct (stuck (TrashPath e)); cbn [itemsRemoved bytesFreed newTotalSize].
      * repeat split.
      * cbn [length sum64 sizeAfter fold_left]. repeat split. lia.
Qed.

(** *** The order of the second loop *)

(** [a] was deleted no later than [b]. *)
Definition oldestFirst (a b : TrashEntry) : Prop := DeletedAt a <= DeletedAt b.

Lemma deletedLater_asym a b : deletedLater a b = true -> deletedLater b a = false.
Proof. unfold deletedLater, Time.After. rewrite Z.ltb_lt, Z.ltb_ge. lia. Qed.

Lemma inOrder_deletedLater_trans a b c :
  BubbleFacts.inOrder deletedLater a b -> BubbleFacts.inOrder deletedLater b c ->
  BubbleFacts.inOrder deletedLater a c.
Proof.
  unfold BubbleFacts.inOrder, deletedLater, Time.After. rewrite !Z.ltb_ge. lia.
Qed.

Lemma remainingOf_entriesOf w :
  readsQuiet w -> wf_store w ->
  remainingOf m w = Bubble.bubbleSort deletedLater (entriesOf w).
Proof. intros Hq Hwf. unfold remainingOf. rewrite List_entriesOf by assumption. reflexivity. Qed.

(** The second loop goes through the entries that are listed, the oldest
    first. *)
Lemma remainingOf_sorted w :
  readsQuiet w -> wf_store w ->
  StronglySorted oldestFirst (remainingOf m w)
  /\ Permutation (entriesOf w) (remainingOf m w).
Proof.
  intros Hq Hwf. rewrite remainingOf_entriesOf by assumption.
  destruct (BubbleFacts.bubbleSort_sorted deletedLater deletedLater_asym
              inOrder_deletedLater_trans (entriesOf w)) as [Hs Hp].
  split; [|exact Hp].
  eapply ScannerFacts.StronglySorted_impl; [|exact Hs].
  intros a b. unfold BubbleFacts.inOrder, deletedLater, Time.After, oldestFirst.
  rewrite Z.ltb_ge. auto.
Qed.

(** *** What the second loop takes *)

Lemma evicted_within stuck maxSizeBytes size rs :
  size <= maxSizeBytes -> evicted stuck maxSizeBytes size rs = [].
Proof.
  intros H. destruct rs as [|e rs]; [reflexivity|]. cbn [evicted].
  apply Z.leb_le in H. rewrite H. reflexivity.
Qed.

Lemma evicted_prefix stuck maxSizeBytes : forall rs size,
  exists rest, rs = evicted stuck maxSizeBytes size rs ++ rest.
Proof.
  induction rs as [|e rs IH]; intros size.
  - exists []. reflexivity.
  - cbn [evicted]. destruct (size <=? maxSizeBytes).
    + exists (e :: rs). reflexivity.
    + destruct (IH (if stuck (TrashPath e) then size else Int64.sub size (Size e)))
        as [rest Hrest].
      exists rest. cbn [app]. rewrite <- Hrest. reflexivity.
Qed.

Lemma freed_none ps : freed (fun _ => false) ps = ps.
Proof. unfold freed. apply filter_all. Qed.

(** Where no removal fails the second loop takes the entries at the head
    of [rs] for as long as the size is over the limit, and no more. *)
Lemma evicted_spec maxSizeBytes : forall rs size,
  exists rest,
    rs = evicted (fun _ => false) maxSizeBytes size rs ++ rest
    /\ (forall p q, evicted (fun _ => false) maxSizeBytes size rs = p ++ q -> q <> [] ->
          maxSizeBytes < sizeAfter size p)
    /\ (rest <> [] ->
          sizeAfter size (evicted (fun _ => false) maxSizeBytes size rs) <= maxSizeBytes).
Proof.
  induction rs as [|e rs IH]; intros size.
  - exists []. split; [reflexivity|]. split.
    + intros p q Hpq Hq. simpl in Hpq. symmetry in Hpq.
      apply app_eq_nil in Hpq as [_ ->]. contradiction.
    + intros H. contradiction.
  - cbn [evicted]. destruct (size <=? maxSizeBytes) eqn:Hcap.
    + exists (e :: rs). split; [reflexivity|]. split.
      * intros p q Hpq Hq. symmetry in Hpq.
        apply app_eq_nil in Hpq as [_ ->]. contradiction.
      * intros _. simpl. apply Z.leb_le, Hcap.
    + apply Z.leb_gt in Hcap.
      destruct (IH (Int64.sub size (Size e))) as (rest & Hrest & Hpre & Hend).
      exists rest. split; [cbn [app]; rewrite <- Hrest; reflexivity|]. split.
      * intros [|x p] q Hpq Hq.
        -- simpl. exact Hcap.
        -- cbn [app] in Hpq. injection Hpq as <- Hpq. cbn [sizeAfter fold_left].
           apply (Hpre p q Hpq Hq).
      * intros Hne. cbn [sizeAfter fold_left]. apply Hend, Hne.
Qed.

(** *** The two loops, one after the other *)

(** The cutoff and the limit of a call. *)
Definition cutoffOf (w : World) (retentionDays : Z) : Z :=
  Time.AddDays (now w) (- retentionDays).

Definition limitOf (maxSizeMB : Z) : Z := Int64.mul (Int64.mul maxSizeMB 1024) 1024.

(** The counters of [AutoCleanup] at its end. *)
Definition sweepOf (retentionDays maxSizeMB : Z) (w : World) : Sweep :=
  let s := afterFirstPass m retentionDays (entriesOf w) (sum64 0 (entriesOf w)) w in
  if newTotalSize s >? limitOf maxSizeMB then
    secondPass m (limitOf maxSizeMB) (remainingOf m (world s)) s
  else s.

Lemma AutoCleanup_sweepOf retentionDays maxSizeMB w :
  readsQuiet w -> wf_store w ->
  AutoCleanup m retentionDays maxSizeMB w
  = (world (sweepOf retentionDays maxSizeMB w),
     inr (itemsRemoved (sweepOf retentionDays maxSizeMB w),
          bytesFreed (sweepOf retentionDays maxSizeMB w))).
Proof.
  intros Hq Hwf. unfold AutoCleanup, sweepOf.
  rewrite List_entriesOf by assumption.
  destruct (entriesOf w) as [|e0 es0] eqn:Hents; [|reflexivity].
  unfold afterFirstPass. cbn [firstPass world itemsRemoved bytesFreed newTotalSize].
  rewrite remainingOf_entriesOf, Hents by assumption.
  destruct (_ >? _); reflexivity.
Qed.

(** The entries the first loop has a turn for, and the size the first loop
    leaves. *)
Definition oldOf (retentionDays : Z) (w : World) : list TrashEntry :=
  List.filter (expired (cutoffOf w retentionDays)) (entriesOf w).

Definition leftOf (stuck : string -> bool) (retentionDays : Z) (w : World) : Z :=
  Int64.sub (sum64 0 (entriesOf w)) (sum64 0 (freed stuck (oldOf retentionDays w))).

Lemma sweepOf_spec stuck retentionDays maxSizeMB w :
  removalFaults stuck w -> wf_store w ->
  exists w1,
    swept stuck (oldOf retentionDays w) w w1
    /\ swept stuck
         (evicted stuck (limitOf maxSizeMB) (leftOf stuck retentionDays w) (remainingOf m w1))
         w1 (world (sweepOf retentionDays maxSizeMB w))
    /\ itemsRemoved (sweepOf retentionDays maxSizeMB w)
       = Z.of_nat (length (freed stuck (oldOf retentionDays w)))
         + Z.of_nat (length (freed stuck
             (evicted stuck (limitOf maxSizeMB) (leftOf stuck retentionDays w)
                (remainingOf m w1))))
    /\ bytesFreed (sweepOf retentionDays maxSizeMB w)
       = sum64 (sum64 0 (freed stuck (oldOf retentionDays w)))
           (freed stuck
              (evicted stuck (limitOf maxSizeMB) (leftOf stuck retentionDays w)
                 (remainingOf m w1)))
    /\ (leftOf stuck retentionDays w <= limitOf maxSizeMB ->
        world (sweepOf retentionDays maxSizeMB w) = w1)
    /\ w1 = world (afterFirstPass m retentionDays (entriesOf w) (sum64 0 (entriesOf w)) w).
Proof.
  intros Hf Hwf. pose proof (removalFaults_readsQuiet stuck w Hf) as Hq.
  destruct (firstPass_spec stuck (cutoffOf w retentionDays) (entriesOf w) (mkSweep w 0 0 0))
    as (Hsw & Hitems & Hbytes & _); try assumption.
  { apply entriesOf_NoDup; assumption. }
  { auto. }
  cbn [world itemsRemoved bytesFreed] in Hsw, Hitems, Hbytes.
  fold (oldOf retentionDays w) in Hsw, Hitems, Hbytes.
  unfold sweepOf, afterFirstPass. fold (cutoffOf w retentionDays).
  set (fp := firstPass m (cutoffOf w retentionDays) (entriesOf w) (mkSweep w 0 0 0)) in *.
  cbn [world itemsRemoved bytesFreed newTotalSize].
  assert (Hleft : Int64.sub (sum64 0 (entriesOf w)) (bytesFreed fp)
                  = leftOf stuck retentionDays w)
    by (unfold leftOf; rewrite Hbytes; reflexivity).
  rewrite Hleft. exists (world fp). split; [exact Hsw|].
  pose proof (swept_faults _ _ _ _ Hsw) as Hf1.
  pose proof (swept_wf _ _ _ _ Hsw) as Hwf1.
  pose proof (removalFaults_readsQuiet stuck _ Hf1) as Hq1.
  destruct (leftOf stuck retentionDays w >? limitOf maxSizeMB) eqn:Hover.
  - destruct (remainingOf_sorted (world fp) Hq1 Hwf1) as [_ Hperm].
    destruct (secondPass_spec stuck (limitOf maxSizeMB) (remainingOf m (world fp))
                (mkSweep (world fp) (itemsRemoved fp) (bytesFreed fp)
                   (leftOf stuck retentionDays w)))
      as (Hsw2 & Hitems2 & Hbytes2 & _); try assumption.
    + apply NoDup_ListNoDup.
      eapply Permutation_NoDup; [apply Permutation_map, Hperm|].
      apply NoDup_ListNoDup, entriesOf_NoDup; assumption.
    + intros e He. cbn [world]. rewrite Hperm. exact He.
    + cbn [world itemsRemoved bytesFreed newTotalSize] in Hsw2, Hitems2, Hbytes2.
      split; [exact Hsw2|]. rewrite Hitems2, Hbytes2, Hitems, Hbytes.
      split; [lia|]. split; [reflexivity|]. split; [|reflexivity].
      intros Hle. apply Z.gtb_lt in Hover. lia.
  - assert (Hle : leftOf stuck retentionDays w <= limitOf maxSizeMB).
    { rewrite Z.gtb_ltb in Hover. apply Z.ltb_ge, Hover. }
    rewrite evicted_within by exact Hle. cbn [world itemsRemoved bytesFreed].
    split; [apply swept_nil; assumption|].
    rewrite Hitems, Hbytes. simpl. split; [lia|]. repeat split; reflexivity.
Qed.

(** *** [AutoCleanup] as a whole *)

Lemma among_true ps x e : e ∈ ps -> sameItem x e = true -> among ps x = true.
Proof.
  intros He Hs. apply existsb_exists. exists e. split; [apply list_elem_of_In, He | exact Hs].
Qed.

Lemma among_false ps x e : among ps x = false -> e ∈ ps -> sameItem x e = false.
Proof.
  intros Ha He. destruct (sameItem x e) eqn:Hs; [|reflexivity].
  rewrite (among_true ps x e He Hs) in Ha. discriminate.
Qed.

(** Among listed entries, to be of one of the items of [ps] is to be in
    [ps]. *)
Lemma among_listed (l ps : list TrashEntry) x :
  NoDup (List.map TrashPath l) -> (forall e, e ∈ ps -> e ∈ l) -> x ∈ l ->
  among ps x = true -> x ∈ ps.
Proof.
  intros Hnd Hps Hx Ha. apply existsb_exists in Ha as (e & He & Hs).
  apply list_elem_of_In in He.
  rewrite (sameItem_eq l x e Hnd Hx (Hps e He) Hs). exact He.
Qed.

Lemma elem_of_List_filter {A} (f : A -> bool) (l : list A) x :
  x ∈ List.filter f l <-> x ∈ l /\ f x = true.
Proof. rewrite !list_elem_of_In. apply List.filter_In. Qed.

Lemma NoDup_map_filter {A B} (f : A -> B) (g : A -> bool) (l : list A) :
  NoDup (List.map f l) -> NoDup (List.map f (List.filter g l)).
Proof.
  induction l as [|x l IH]; [auto|]. cbn [List.map List.filter]. intros Hnd.
  apply NoDup_cons in Hnd as [Hx Hnd]. destruct (g x); [|auto].
  cbn [List.map]. apply NoDup_cons. split; [|auto].
  intros Hin. apply Hx. apply list_elem_of_fmap in Hin as (y & -> & Hy).
  apply elem_of_List_filter in Hy as [Hy _].
  apply (list_elem_of_fmap_2 f _ _ Hy).
Qed.

Lemma freed_app stuck ps qs : freed stuck (ps ++ qs) = freed stuck ps ++ freed stuck qs.
Proof. apply List.filter_app. Qed.

(** The entries the second loop has a turn for, after a first loop that
    left the world [w1]. *)
Definition evictedOf (stuck : string -> bool) (retentionDays maxSizeMB : Z) (w w1 : World)
    : list TrashEntry :=
  evicted stuck (limitOf maxSizeMB) (leftOf stuck retentionDays w) (remainingOf m w1).

Lemma AutoCleanup_spec stuck retentionDays maxSizeMB w :
  removalFaults stuck w -> wf_store w ->
  exists w1 w2,
    AutoCleanup m retentionDays maxSizeMB w
    = (w2, inr (Z.of_nat (length (freed stuck
                   (oldOf retentionDays w ++ evictedOf stuck retentionDays maxSizeMB w w1))),
                sum64 0 (freed stuck
                   (oldOf retentionDays w ++ evictedOf stuck retentionDays maxSizeMB w w1))))
    /\ swept stuck (oldOf retentionDays w) w w1
    /\ swept stuck (evictedOf stuck retentionDays maxSizeMB w w1) w1 w2
    /\ NoDup (List.map TrashPath
                (oldOf retentionDays w ++ evictedOf stuck retentionDays maxSizeMB w w1))
    /\ (forall x, x ∈ evictedOf stuck retentionDays maxSizeMB w w1 -> x ∈ entriesOf w1)
    /\ (leftOf stuck retentionDays w <= limitOf maxSizeMB -> w2 = w1)
    /\ w1 = world (afterFirstPass m retentionDays (entriesOf w) (sum64 0 (entriesOf w)) w).
Proof.
  intros Hf Hwf. pose proof (removalFaults_readsQuiet stuck w Hf) as Hq.
  destruct (sweepOf_spec stuck retentionDays maxSizeMB w Hf Hwf)
    as (w1 & Hsw1 & Hsw2 & Hitems & Hbytes & Hskip & Hw1).
  fold (evictedOf stuck retentionDays maxSizeMB w w1) in Hsw2, Hitems, Hbytes.
  exists w1, (world (sweepOf retentionDays maxSizeMB w)).
  pose proof (swept_faults _ _ _ _ Hsw1) as Hf1.
  pose proof (swept_wf _ _ _ _ Hsw1) as Hwf1.
  pose proof (removalFaults_readsQuiet stuck _ Hf1) as Hq1.
  destruct (remainingOf_sorted w1 Hq1 Hwf1) as [_ Hperm].
  destruct (evicted_prefix stuck (limitOf maxSizeMB) (remainingOf m w1)
              (leftOf stuck retentionDays w)) as [rest Hrest].
  fold (evictedOf stuck retentionDays maxSizeMB w w1) in Hrest.
  assert (Hev : forall x, x ∈ evictedOf stuck retentionDays maxSizeMB w w1 -> x ∈ entriesOf w1).
  { intros x Hx. rewrite Hperm, Hrest. apply elem_of_app. left. exact Hx. }
  split; [|split; [exact Hsw1|split; [exact Hsw2|split; [|split; [exact Hev|split; [exact Hskip|exact Hw1]]]]]].
  - rewrite AutoCleanup_sweepOf by assumption.
    rewrite Hitems, Hbytes, freed_app, length_app, sum64_app, Nat2Z.inj_add. reflexivity.
  - rewrite map_app. apply NoDup_app. split; [|split].
    + apply NoDup_map_filter, entriesOf_NoDup; assumption.
    + intros p Hp Hp'.
      apply list_elem_of_fmap in Hp as (x & -> & Hx).
      apply list_elem_of_fmap in Hp' as (y & Hxy & Hy).
      apply Hev in Hy. rewrite (swept_entries _ _ _ _ Hsw1) in Hy.
      apply elem_of_List_filter in Hy as [_ Hy]. apply negb_true_iff in Hy.
      pose proof (among_false _ y x Hy Hx) as Hs.
      apply String.eqb_neq in Hs. congruence.
    + assert (Hnd : NoDup (List.map TrashPath (remainingOf m w1))).
      { apply NoDup_ListNoDup.
        eapply Permutation_NoDup; [apply Permutation_map, Hperm|].
        apply NoDup_ListNoDup, entriesOf_NoDup; assumption. }
      rewrite Hrest, map_app in Hnd. apply NoDup_app in Hnd as [Hnd _]. exact Hnd.
Qed.


Lemma Permutation_List_filter {A} (f : A -> bool) (l l' : list A) :
  Permutation l l' -> Permutation (List.filter f l) (List.filter f l').
Proof.
  induction 1 as [|x l l' _ IH|x y l|l l' l'' _ IH1 _ IH2]; cbn [List.filter].
  - constructor.
  - destruct (f x); [constructor|]; exact IH.
  - destruct (f x), (f y); try reflexivity. constructor.
  - etransitivity; eassumption.
Qed.

Lemma filter_nothing {A} (f : A -> bool) (l : list A) :
  (forall x, x ∈ l -> f x = false) -> List.filter f l = [].
Proof.
  induction l as [|x l IH]; intros H; [reflexivity|]. cbn [List.filter].
  rewrite (H x) by left. apply IH. intros y Hy. apply H. right. exact Hy.
Qed.

Lemma filter_everything {A} (f : A -> bool) (l : list A) :
  (forall x, x ∈ l -> f x = true) -> List.filter f l = l.
Proof.
  induction l as [|x l IH]; intros H; [reflexivity|]. cbn [List.filter].
  rewrite (H x) by left. f_equal. apply IH. intros y Hy. apply H. right. exact Hy.
Qed.

(** Without the items at its head, a list of entries of items of their own
    is its tail. *)
Lemma filter_among_prefix (ev rest : list TrashEntry) :
  NoDup (List.map TrashPath (ev ++ rest)) ->
  List.filter (fun x => negb (among ev x)) (ev ++ rest) = rest.
Proof.
  intros Hnd. rewrite map_app in Hnd. apply NoDup_app in Hnd as (_ & Hdis & _).
  rewrite List.filter_app, filter_nothing, filter_everything; [reflexivity| |].
  - intros x Hx. apply negb_true_iff. destruct (among ev x) eqn:Ha; [|reflexivity].
    apply existsb_exists in Ha as (y & Hy & Hs). apply list_elem_of_In in Hy.
    apply String.eqb_eq in Hs. exfalso.
    apply (Hdis (TrashPath y)).
    + apply (list_elem_of_fmap_2 TrashPath _ _ Hy).
    + rewrite <- Hs. apply (list_elem_of_fmap_2 TrashPath _ _ Hx).
  - intros x Hx. apply negb_false_iff. apply (among_true ev x x Hx (sameItem_refl x)).
Qed.

(** Without the items a test picks, a list of entries of items of their
    own is the list of those the test does not pick. *)
Lemma filter_among_filter (f : TrashEntry -> bool) (l : list TrashEntry) :
  NoDup (List.map TrashPath l) ->
  List.filter (fun x => negb (among (List.filter f l) x)) l
  = List.filter (fun x => negb (f x)) l.
Proof.
  intros Hnd. apply List.filter_ext_in. intros x Hx. apply list_elem_of_In in Hx. f_equal.
  destruct (f x) eqn:Hfx.
  - apply (among_true _ x x); [|apply sameItem_refl].
    apply elem_of_List_filter. split; assumption.
  - destruct (among (List.filter f l) x) eqn:Ha; [|reflexivity].
    apply (among_listed l) in Ha; try assumption.
    + apply elem_of_List_filter in Ha as [_ Ha]. congruence.
    + intros e He. apply elem_of_List_filter in He as [He _]. exact He.
Qed.

(** C10.  In a store as [MoveToTrash] fills it, where the environment
    fails the removal of staged data at the paths [stuck] says and nothing
    else: for every entry [e] that [List] returns and that is older than
    the cutoff, [AutoCleanup] returns without error, and after it the
    record of [e] is gone, whether or not the removal of its data failed.
    The count and the bytes it returns are the number and the sizes of a
    duplicate-free list of listed entries whose data was not stuck; [e] is
    in that list exactly when its data was not stuck.  The data of [e] is
    still there when it was stuck, and gone else.  A call of [List] right
    after returns no entry for the staged item of [e]. *)
Theorem AutoCleanup_drops_expired_record stuck w retentionDays maxSizeMB entries total e :
  removalFaults stuck w -> wf_store w ->
  List m w = inr (entries, total) -> e ∈ entries ->
  Time.Before (DeletedAt e) (Time.AddDays (now w) (- retentionDays)) = true ->
  exists w' counted entries' total',
    AutoCleanup m retentionDays maxSizeMB w
    = (w', inr (Z.of_nat (length counted), sum64 0 counted))
    /\ NoDup (List.map TrashPath counted)
    /\ (forall x, x ∈ counted -> x ∈ entries /\ stuck (TrashPath x) = false)
    /\ (e ∈ counted <-> stuck (TrashPath e) = false)
    /\ lookup (path_of (metaPathOf m e)) (root w') = None
    /\ (exists n, lookup (path_of (TrashPath e)) (root w) = Some n
          /\ lookup (path_of (TrashPath e)) (root w')
             = if stuck (TrashPath e) then Some n else None)
    /\ List m w' = inr (entries', total')
    /\ (forall x, x ∈ entries' -> TrashPath x <> TrashPath e).
Proof.
  intros Hf Hwf Hlist He Hexp.
  pose proof (removalFaults_readsQuiet stuck w Hf) as Hq.
  rewrite List_entriesOf in Hlist by assumption. injection Hlist as <- <-.
  destruct (AutoCleanup_spec stuck retentionDays maxSizeMB w Hf Hwf)
    as (w1 & w2 & Hrun & Hsw1 & Hsw2 & Hnd & Hev & _).
  set (old := oldOf retentionDays w) in *.
  set (ev := evictedOf stuck retentionDays maxSizeMB w w1) in *.
  assert (Hold : e ∈ old) by (apply elem_of_List_filter; split; assumption).
  destruct (listed_staged w e Hq Hwf He) as (name & Hst & _ & (n & Hdat)).
  assert (Hpath : path_of (TrashPath e) = filesAt ++ [name]).
  { destruct Hst as [Hname ->]. apply path_staged, Hname. }
  assert (Hsub : forall x, x ∈ freed stuck (old ++ ev) ->
                   x ∈ entriesOf w /\ stuck (TrashPath x) = false).
  { intros x Hx. apply elem_of_List_filter in Hx as [Hx Hfree].
    apply negb_true_iff in Hfree. split; [|exact Hfree].
    apply elem_of_app in Hx as [Hx | Hx].
    - apply elem_of_List_filter in Hx as [Hx _]. exact Hx.
    - apply Hev in Hx. rewrite (swept_entries _ _ _ _ Hsw1) in Hx.
      apply elem_of_List_filter in Hx as [Hx _]. exact Hx. }
  assert (Hstuck : forall ps, (forall x, x ∈ ps -> x ∈ old ++ ev) ->
                     stuck (TrashPath e) = true -> among (freed stuck ps) e = false).
  { intros ps Hps Hse. destruct (among (freed stuck ps) e) eqn:Ha; [|reflexivity].
    apply existsb_exists in Ha as (y & Hy & Hs). apply List.filter_In in Hy as [_ Hfree].
    apply String.eqb_eq in Hs. rewrite <- Hs, Hse in Hfree. discriminate. }
  pose proof (swept_faults _ _ _ _ Hsw2) as Hf2.
  pose proof (swept_wf _ _ _ _ Hsw2) as Hwf2.
  exists w2, (freed stuck (old ++ ev)), (entriesOf w2), (sum64 0 (entriesOf w2)).
  split; [exact Hrun|]. split; [apply NoDup_map_filter, Hnd|]. split; [exact Hsub|].
  split; [|split; [|split; [|split]]].
  - split; [intros Hin; apply (Hsub e Hin)|].
    intros Hfree. apply elem_of_List_filter. split.
    + apply elem_of_app. left. exact Hold.
    + rewrite Hfree. reflexivity.
  - rewrite (swept_record _ _ _ _ Hsw2 e name Hst), (swept_record _ _ _ _ Hsw1 e name Hst).
    rewrite (among_true old e e Hold (sameItem_refl e)).
    destruct (among ev e); reflexivity.
  - exists n. rewrite Hpath in *. split; [exact Hdat|].
    pose proof (swept_data _ _ _ _ Hsw2 e name Hst) as H2.
    pose proof (swept_data _ _ _ _ Hsw1 e name Hst) as H1.
    rewrite Hpath in H1, H2. rewrite H2, H1, Hdat.
    destruct (stuck (TrashPath e)) eqn:Hse.
    + rewrite (Hstuck ev), (Hstuck old); auto; intros x Hx; apply elem_of_app; auto.
    + assert (Hin : e ∈ freed stuck old).
      { apply elem_of_List_filter. split; [exact Hold|]. rewrite Hse. reflexivity. }
      rewrite (among_true (freed stuck old) e e Hin (sameItem_refl e)).
      destruct (among (freed stuck ev) e); reflexivity.
  - apply List_entriesOf; [eapply removalFaults_readsQuiet, Hf2 | exact Hwf2].
  - intros x Hx Heq. rewrite (swept_entries _ _ _ _ Hsw2) in Hx.
    apply elem_of_List_filter in Hx as [Hx _].
    rewrite (swept_entries _ _ _ _ Hsw1) in Hx.
    apply elem_of_List_filter in Hx as [_ Hx]. apply negb_true_iff in Hx.
    pose proof (among_false old x e Hx Hold) as Hs.
    apply String.eqb_neq in Hs. contradiction.
Qed.

(** *** The store of the example: two items of 10 KB *)

Definition tenKB : Z := 10 * 1024.

(** The clock of the example, and a time [n] days before it. *)
Definition today : Z := 100 * Time.day.

Definition daysAgo (n : Z) : Z := today - n * Time.day.

Definition item (size : Z) : Node := File (mkAttr size perm_file 0) Raw.

Definition dir (es : list (string * Node)) : Node := Dir (mkAttr dir_size perm_dir 0) es.

(** The home directory [/home/user] with two files of 10 KB, at the time
    [t]. *)
Definition atHome (t : Z) : World :=
  mkWorld
    (dir [("home", dir [("user", dir [("new.txt", item tenKB); ("old.txt", item tenKB)])])])
    "/" "/home/user" t [] (fun _ _ => false).

(** The world [w] when the clock shows [t]. *)
Definition at_time (t : Z) (w : World) : World :=
  mkWorld (root w) (cwd w) (home w) t (log w) (faulty w).

(** The world after [MoveToTrash] of [path] at the time [t]. *)
Definition trashed (path : string) (t : Z) (w : World) : World :=
  fst (MoveToTrash (fun _ => 200) (managerAt "/home/user") path (at_time t w)).

(** The store after the two files were moved to the trash, one 40 days ago
    and one a day ago. *)
Definition twoItems : World :=
  at_time today
    (trashed "/home/user/new.txt" (daysAgo 1)
       (trashed "/home/user/old.txt" (daysAgo 40)
          (fst (NewManager (atHome (daysAgo 40)))))).

Definition oldEntry : TrashEntry :=
  mkEntry "/home/user/old.txt" "/home/user/.nuke-trash/files/5184000000000000_old.txt"
    (daysAgo 40) tenKB false.

Definition newEntry : TrashEntry :=
  mkEntry "/home/user/new.txt" "/home/user/.nuke-trash/files/8553600000000000_new.txt"
    (daysAgo 1) tenKB false.

(** C3.  In a store as [MoveToTrash] fills it, where no call fails, with
    [entries] and [total] what [List] returns.  The first loop: after it
    [List] returns the entries that are not older than the cutoff, and the
    data and the record of every entry older than the cutoff are gone.
    The second loop: the entries that are left, put in the order of their
    deletion times, the oldest first, are [taken ++ rest]; the loop has
    removed the data and the records of [taken] and of no other, so that
    [List] returns [rest] after it; before each entry it took the size
    that was left was over the limit, and if it left an entry, the size is
    within the limit at the end; when the first loop leaves a size within
    the limit, nothing at all is done after it.  The call returns the
    number and the sizes of the entries of the two loops.

    The example: in the store of two items of 10 KB, deleted a day and 40
    days ago, with 30 days and a limit of 0 the first loop removes the old
    item alone, and the call returns 2 items and leaves the two
    directories of the store empty. *)
Theorem AutoCleanup_two_phases retentionDays maxSizeMB :
  (forall w entries total,
     fault_free w -> wf_store w -> List m w = inr (entries, total) ->
     let old := List.filter (expired (cutoffOf w retentionDays)) entries in
     let kept := List.filter (fun e => negb (expired (cutoffOf w retentionDays) e)) entries in
     let left := Int64.sub total (sum64 0 old) in
     exists w1 w2 taken rest,
       w1 = world (afterFirstPass m retentionDays entries total w)
       /\ List m w1 = inr (kept, sum64 0 kept)
       /\ (forall e, e ∈ old ->
             lookup (path_of (TrashPath e)) (root w1) = None
             /\ lookup (path_of (metaPathOf m e)) (root w1) = None)
       /\ Permutation kept (taken ++ rest)
       /\ StronglySorted oldestFirst (taken ++ rest)
       /\ (forall p q, taken = p ++ q -> q <> [] -> limitOf maxSizeMB < sizeAfter left p)
       /\ (rest <> [] -> sizeAfter left taken <= limitOf maxSizeMB)
       /\ (left <= limitOf maxSizeMB -> w2 = w1)
       /\ (forall e, e ∈ taken ->
             lookup (path_of (TrashPath e)) (root w2) = None
             /\ lookup (path_of (metaPathOf m e)) (root w2) = None)
       /\ (exists entries2, List m w2 = inr (entries2, sum64 0 entries2)
                            /\ Permutation rest entries2)
       /\ AutoCleanup m retentionDays maxSizeMB w
          = (w2, inr (Z.of_nat (length (old ++ taken)), sum64 0 (old ++ taken))))
  /\ (exists w0 m0,
        NewManager twoItems = (w0, inr m0)
        /\ List m0 w0 = inr ([oldEntry; newEntry], 2 * tenKB)
        /\ itemsRemoved (afterFirstPass m0 30 [oldEntry; newEntry] (2 * tenKB) w0) = 1
        /\ List m0 (world (afterFirstPass m0 30 [oldEntry; newEntry] (2 * tenKB) w0))
           = inr ([newEntry], tenKB)
        /\ snd (AutoCleanup m0 30 0 w0) = inr (2, 2 * tenKB)
        /\ List m0 (fst (AutoCleanup m0 30 0 w0)) = inr ([], 0)
        /\ emptyDirAt (trashDir m0) (fst (AutoCleanup m0 30 0 w0))
        /\ emptyDirAt (metaDir m0) (fst (AutoCleanup m0 30 0 w0))).
Proof.
  split.
  - intros w entries total Hff Hwf Hlist. cbv zeta.
    apply removalFaults_none in Hff.
    pose proof (removalFaults_readsQuiet _ w Hff) as Hq.
    rewrite List_entriesOf in Hlist by assumption. injection Hlist as <- <-.
    destruct (AutoCleanup_spec _ retentionDays maxSizeMB w Hff Hwf)
      as (w1 & w2 & Hrun & Hsw1 & Hsw2 & Hnd & Hev & Hskip & Hw1).
    unfold evictedOf, leftOf, oldOf in *. rewrite !freed_none in *.
    set (old := List.filter (expired (cutoffOf w retentionDays)) (entriesOf w)) in *.
    set (kept := List.filter (fun e => negb (expired (cutoffOf w retentionDays) e))
                   (entriesOf w)).
    set (left := Int64.sub (sum64 0 (entriesOf w)) (sum64 0 old)) in *.
    pose proof (swept_faults _ _ _ _ Hsw1) as Hf1.
    pose proof (swept_wf _ _ _ _ Hsw1) as Hwf1.
    pose proof (removalFaults_readsQuiet _ _ Hf1) as Hq1.
    pose proof (swept_faults _ _ _ _ Hsw2) as Hf2.
    pose proof (swept_wf _ _ _ _ Hsw2) as Hwf2.
    pose proof (removalFaults_readsQuiet _ _ Hf2) as Hq2.
    destruct (remainingOf_sorted w1 Hq1 Hwf1) as [Hsorted Hperm].
    destruct (evicted_spec (limitOf maxSizeMB) (remainingOf m w1) left)
      as (rest & Hrest & Hpre & Hend).
    set (taken := evicted (fun _ => false) (limitOf maxSizeMB) left (remainingOf m w1)) in *.
    assert (Hkept : entriesOf w1 = kept).
    { rewrite (swept_entries _ _ _ _ Hsw1). apply filter_among_filter.
      apply entriesOf_NoDup; assumption. }
    exists w1, w2, taken, rest.
    split; [exact Hw1|]. split; [rewrite List_entriesOf, Hkept by assumption; reflexivity|].
    split; [|split; [|split; [|split; [|split; [|split; [|split; [|split]]]]]]].
    + intros e He.
      assert (Hin : e ∈ entriesOf w)
        by (apply elem_of_List_filter in He as [He _]; exact He).
      destruct (listed_staged w e Hq Hwf Hin) as (name & Hst & _).
      rewrite (swept_data _ _ _ _ Hsw1 e name Hst), (swept_record _ _ _ _ Hsw1 e name Hst).
      rewrite freed_none, (among_true old e e He (sameItem_refl e)). split; reflexivity.
    + rewrite <- Hkept, <- Hrest. exact Hperm.
    + rewrite <- Hrest. exact Hsorted.
    + exact Hpre.
    + exact Hend.
    + exact Hskip.
    + intros e He.
      destruct (listed_staged w1 e Hq1 Hwf1 (Hev e He)) as (name & Hst & _).
      rewrite (swept_data _ _ _ _ Hsw2 e name Hst), (swept_record _ _ _ _ Hsw2 e name Hst).
      rewrite freed_none, (among_true taken e e He (sameItem_refl e)). split; reflexivity.
    + exists (entriesOf w2). split; [apply List_entriesOf; assumption|].
      rewrite (swept_entries _ _ _ _ Hsw2).
      rewrite <- (filter_among_prefix taken rest) at 1.
      * apply Permutation_List_filter. rewrite <- Hrest. symmetry. exact Hperm.
      * rewrite <- Hrest. apply NoDup_ListNoDup.
        eapply Permutation_NoDup; [apply Permutation_map, Hperm|].
        apply NoDup_ListNoDup, entriesOf_NoDup; assumption.
    + exact Hrun.
  - eexists _, _. split; [vm_compute; reflexivity|].
    repeat split; try (vm_compute; reflexivity); eexists; vm_compute; reflexivity.
Qed.

End Store.

(** *** [Restore]: the record it goes for *)

(** What one turn of the loop of [Restore] reads before its test: the path
    of a record and the record, for a name that ends in [.json] and names a
    file that can be read and parsed. *)
Definition readRecord (m : Manager) (name : string) (w : World)
    : option (string * TrashEntry) :=
  if negb (Filepath.HasSuffix name ".json") then None
  else
    match os_ReadFile (Filepath.Join (metaDir m) name) w with
    | inl _ => None
    | inr data =>
        match json_Unmarshal data with
        | None => None
        | Some trashEntry => Some (Filepath.Join (metaDir m) name, trashEntry)
        end
    end.

(** The records of the metadata directory, in directory order. *)
Definition records (m : Manager) (entries : list (string * bool)) (w : World)
    : list (string * TrashEntry) :=
  omap (fun entry => readRecord m (fst entry) w) entries.

(** The first record the test of [Restore] accepts. *)
Definition selected (m : Manager) (filename : string) (entries : list (string * bool))
    (w : World) : option (string * TrashEntry) :=
  List.find (fun r => wanted filename (snd r)) (records m entries w).

(** The loop stops at the first record the test accepts. *)
Lemma restoreLoop_selected m filename w : forall entries,
  restoreLoop m filename entries w
  = match selected m filename entries w with
    | Some (metaPath, trashEntry) => restoreEntry metaPath trashEntry w
    | None => (w, Some (NotInTrash filename))
    end.
Proof.
  induction entries as [|[name isDir] entries IH]; [reflexivity|].
  cbn [restoreLoop]. unfold selected, records. cbn [omap list_omap fst].
  fold (records m entries w). unfold readRecord.
  destruct (negb (Filepath.HasSuffix name ".json")); [exact IH|].
  destruct (os_ReadFile (Filepath.Join (metaDir m) name) w) as [err | data]; [exact IH|].
  destruct (json_Unmarshal data) as [e|]; [|exact IH].
  cbn [List.find snd]. destruct (wanted filename e); [reflexivity | exact IH].
Qed.

(** *** [Restore]: the calls it makes *)

Lemma effect_log c run w :
  log (fst (effect c run w)) = log w ++ [(c, snd (effect c run w))].
Proof. unfold effect. destruct (fails w c); [|destruct (run (root w))]; reflexivity. Qed.

(** A call of [copyPath] writes files and makes directories. *)
Definition copyCall (ev : Event) : Prop :=
  match fst ev with
  | SysWriteFile _ | SysMkdirAll _ => True
  | _ => False
  end.

(** From [w] to [w'] the log has grown by calls of a copy, none of which
    failed when the copy returned [r] and that is no error. *)
Definition copied (w w' : World) (r : option Error) : Prop :=
  exists evs, log w' = log w ++ evs
              /\ Forall copyCall evs
              /\ (r = None -> Forall (fun ev => snd ev = None) evs).

Lemma copied_refl w r : copied w w r.
Proof. exists []. rewrite app_nil_r. repeat split; constructor. Qed.

Lemma copied_trans w w1 w2 r : copied w w1 None -> copied w1 w2 r -> copied w w2 r.
Proof.
  intros (e1 & H1 & F1 & O1) (e2 & H2 & F2 & O2). exists (e1 ++ e2).
  rewrite H2, H1, app_assoc. split; [reflexivity|]. split.
  - apply Forall_app. split; assumption.
  - intros Hr. apply Forall_app. split; [apply O1; reflexivity | apply O2, Hr].
Qed.

Lemma effect_copied c run w r :
  copyCall (c, None) ->
  copied w (fst (effect c run w))
    (match snd (effect c run w) with Some err => Some (r err) | None => None end).
Proof.
  intros Hc. exists [(c, snd (effect c run w))]. split; [apply effect_log|]. split.
  - repeat constructor. exact Hc.
  - intros Hr. repeat constructor. simpl. destruct (snd (effect c run w)); [discriminate|].
    reflexivity.
Qed.

Lemma copyFile_copied src dst w :
  copied w (fst (copyFile src dst w)) (snd (copyFile src dst w)).
Proof.
  unfold copyFile.
  destruct (os_ReadFile src w) as [err | data]; [apply copied_refl|].
  destruct (os_Stat src w) as [err | srcInfo]; [apply copied_refl|].
  unfold os_WriteFile.
  match goal with
  | |- context [effect ?c ?run w] =>
      pose proof (effect_copied c run w OsError I) as H;
      destruct (effect c run w) as [w1 [err|]]; exact H
  end.
Qed.

Lemma copyDir_copied : forall depth src dst w,
  copied w (fst (copyDir depth src dst w)) (snd (copyDir depth src dst w)).
Proof.
  induction depth as [|depth IH]; intros src dst w; [apply copied_refl|].
  cbn [copyDir].
  destruct (os_Stat src w) as [err | srcInfo]; [apply copied_refl|].
  unfold os_MkdirAll.
  match goal with
  | |- context [effect ?c ?run w] =>
      pose proof (effect_copied c run w OsError I) as Hmk;
      destruct (effect c run w) as [w1 [err|]]; [exact Hmk|]
  end.
  cbn [fst snd] in Hmk.
  destruct (os_ReadDir src w1) as [err | entries]; [eapply copied_trans, copied_refl; exact Hmk|].
  eapply copied_trans; [exact Hmk|]. clear Hmk. revert w1.
  induction entries as [|[name isDir] entries IHe]; intros w1; [apply copied_refl|].
  assert (Hone : copied w1
            (fst (if isDir then copyDir depth (Filepath.Join src name) (Filepath.Join dst name) w1
                  else copyFile (Filepath.Join src name) (Filepath.Join dst name) w1))
            (snd (if isDir then copyDir depth (Filepath.Join src name) (Filepath.Join dst name) w1
                  else copyFile (Filepath.Join src name) (Filepath.Join dst name) w1)))
    by (destruct isDir; [apply IH | apply copyFile_copied]).
  destruct (if isDir then copyDir depth (Filepath.Join src name) (Filepath.Join dst name) w1
            else copyFile (Filepath.Join src name) (Filepath.Join dst name) w1)
    as [w2 [err|]]; [exact Hone|].
  eapply copied_trans; [exact Hone | apply IHe].
Qed.

Lemma copyPath_copied src dst w :
  copied w (fst (copyPath src dst w)) (snd (copyPath src dst w)).
Proof.
  unfold copyPath. destruct (os_Lstat src w) as [err | info]; [apply copied_refl|].
  destruct (Os.IsDir info); [apply copyDir_copied | apply copyFile_copied].
Qed.

(** The calls [Restore] makes for the record at [metaPath] once its two
    checks are passed, with what it returns: the parent directory is made
    first; the record is removed last, and only after a rename that went
    through, or after a copy that went through and the removal of the
    staged data. *)
Inductive restoreTrace (metaPath : string) (e : TrashEntry)
    : list Event -> option Error -> Prop :=
| trace_no_parent err :
    restoreTrace metaPath e
      [(SysMkdirAll (Filepath.Dir (OriginalPath e)), Some err)]
      (Some (CreateParentError err))
| trace_renamed r :
    restoreTrace metaPath e
      [(SysMkdirAll (Filepath.Dir (OriginalPath e)), None);
       (SysRename (TrashPath e) (OriginalPath e), None);
       (SysRemove metaPath, r)]
      None
| trace_copy_failed err0 copies err :
    Forall copyCall copies ->
    restoreTrace metaPath e
      ((SysMkdirAll (Filepath.Dir (OriginalPath e)), None)
       :: (SysRename (TrashPath e) (OriginalPath e), Some err0) :: copies)
      (Some (RestoreFileError err))
| trace_copied err0 copies r r' :
    Forall copyCall copies ->
    Forall (fun ev => snd ev = None) copies ->
    restoreTrace metaPath e
      ((SysMkdirAll (Filepath.Dir (OriginalPath e)), None)
       :: (SysRename (TrashPath e) (OriginalPath e), Some err0)
       :: copies ++ [(SysRemoveAll (TrashPath e), r); (SysRemove metaPath, r')])
      None.

Lemma effect_step c run w :
  exists w1 r, effect c run w = (w1, r) /\ log w1 = log w ++ [(c, r)].
Proof.
  exists (fst (effect c run w)), (snd (effect c run w)).
  split; [apply surjective_pairing | apply effect_log].
Qed.

Lemma restoreEntry_trace metaPath e w w' r :
  IsNotExist (os_Stat (TrashPath e) w) = false ->
  is_ok (os_Stat (OriginalPath e) w) = false ->
  restoreEntry metaPath e w = (w', r) ->
  exists evs, log w' = log w ++ evs /\ restoreTrace metaPath e evs r.
Proof.
  intros Hstale Hfree. unfold restoreEntry. rewrite Hstale, Hfree.
  unfold os_MkdirAll, os_Rename, os_RemoveAll, os_Remove.
  match goal with
  | |- context [effect ?c ?run w] =>
      destruct (effect_step c run w) as (w1 & r1 & -> & Hlog1)
  end.
  destruct r1 as [err|].
  { intros [= <- <-]. eexists. split; [exact Hlog1 | constructor]. }
  match goal with
  | |- context [effect ?c ?run w1] =>
      destruct (effect_step c run w1) as (w2 & r2 & -> & Hlog2)
  end.
  rewrite Hlog1, <- app_assoc in Hlog2. cbn [app] in Hlog2.
  destruct r2 as [err0|].
  - destruct (copyPath_copied (TrashPath e) (OriginalPath e) w2) as (copies & Hlog3 & Hc & Hok).
    destruct (copyPath (TrashPath e) (OriginalPath e) w2) as [w3 [err|]];
      cbn [fst snd] in Hlog3, Hok.
    + intros [= <- <-].
      exists ([(SysMkdirAll (Filepath.Dir (OriginalPath e)), None);
               (SysRename (TrashPath e) (OriginalPath e), Some err0)] ++ copies).
      rewrite Hlog3, Hlog2, <- app_assoc. split; [reflexivity|].
      apply trace_copy_failed, Hc.
    + match goal with
      | |- context [effect ?c ?run w3] =>
          destruct (effect_step c run w3) as (w4 & r4 & -> & Hlog4)
      end.
      match goal with
      | |- context [effect ?c ?run w4] =>
          destruct (effect_step c run w4) as (w5 & r5 & -> & Hlog5)
      end.
      intros [= <- <-].
      exists ((SysMkdirAll (Filepath.Dir (OriginalPath e)), None)
              :: (SysRename (TrashPath e) (OriginalPath e), Some err0)
              :: copies ++ [(SysRemoveAll (TrashPath e), r4); (SysRemove metaPath, r5)]).
      split.
      * rewrite Hlog5, Hlog4, Hlog3, Hlog2, <- !app_assoc. reflexivity.
      * apply trace_copied; [exact Hc | apply Hok; reflexivity].
  - match goal with
    | |- context [effect ?c ?run w2] =>
        destruct (effect_step c run w2) as (w3 & r3 & -> & Hlog3)
    end.
    intros [= <- <-]. eexists. split.
    + rewrite Hlog3, Hlog2, <- app_assoc. reflexivity.
    + apply trace_renamed.
Qed.

(** *** [Restore]: what it does to the tree *)

(** Where no call fails and the two checks of [os.Stat] are passed: the
    staged data is there and the original path is free, the three paths
    part from each other, and the parent directory can be made.  Then the
    data is at the original path after the call,
    the staged path is free, the record is gone, and the calls were the
    three of the short way. *)
Lemma restoreEntry_moves metaPath e w x a c b t1 :
  fault_free w ->
  IsNotExist (os_Stat (TrashPath e) w) = false ->
  is_ok (os_Stat (OriginalPath e) w) = false ->
  lookup (path_of (TrashPath e)) (root w) = Some x ->
  lookup (path_of (OriginalPath e)) (root w) = None ->
  lookup (path_of metaPath) (root w) = Some (File a c) ->
  path_of (OriginalPath e) = path_of (Filepath.Dir (OriginalPath e)) ++ [b] ->
  apart (path_of (TrashPath e)) (path_of (OriginalPath e)) = true ->
  apart (path_of metaPath) (path_of (OriginalPath e)) = true ->
  apart (path_of (TrashPath e)) (path_of metaPath) = true ->
  mkdir_all (mkAttr dir_size perm_dir (now w)) (path_of (Filepath.Dir (OriginalPath e)))
    (root w) = Some t1 ->
  exists w',
    restoreEntry metaPath e w = (w', None)
    /\ log w' = log w ++ [(SysMkdirAll (Filepath.Dir (OriginalPath e)), None);
                          (SysRename (TrashPath e) (OriginalPath e), None);
                          (SysRemove metaPath, None)]
    /\ lookup (path_of (OriginalPath e)) (root w') = Some x
    /\ lookup (path_of (TrashPath e)) (root w') = None
    /\ lookup (path_of metaPath) (root w') = None.
Proof.
  intros Hff Hstale Hfree Hx Hd Hrec Hparent Hsd Hmd Hsm Hmk.
  set (s := path_of (TrashPath e)) in *.
  set (d := path_of (OriginalPath e)) in *.
  set (mp := path_of metaPath) in *.
  set (parent := path_of (Filepath.Dir (OriginalPath e))) in *.
  assert (Hsp : is_prefix s parent = false)
    by (apply (apart_parent s parent b); rewrite <- Hparent; exact Hsd).
  assert (Hmp : is_prefix mp parent = false)
    by (apply (apart_parent mp parent b); rewrite <- Hparent; exact Hmd).
  assert (Hs_d : is_prefix s d = false).
  { unfold apart in Hsd. apply andb_true_iff in Hsd as [H _]. apply negb_true_iff, H. }
  assert (Hs1 : lookup s t1 = Some x)
    by (apply (lookup_mkdir_all_kept _ parent s (root w) t1 x Hx Hsp Hmk)).
  assert (Hd1 : lookup d t1 = None).
  { rewrite Hparent.
    erewrite (lookup_mkdir_all_below _ parent [b] (root w) t1); [|discriminate|exact Hmk].
    rewrite <- Hparent. exact Hd. }
  assert (Hm1 : lookup mp t1 = Some (File a c))
    by (apply (lookup_mkdir_all_kept _ parent mp (root w) t1 _ Hrec Hmp Hmk)).
  destruct (mkdir_all_made _ _ _ _ Hmk) as (a1 & es1 & Hp1).
  destruct (remove_at_keeps_dir s parent t1 a1 es1 Hp1 Hsp) as (a2 & es2 & Hp2).
  destruct (put_at_ok x b parent (remove_at s t1) a2 es2 Hp2) as [t2 Hput].
  rewrite <- Hparent in Hput.
  assert (Hdm : apart d mp = true) by (rewrite apart_sym; exact Hmd).
  assert (Hds : apart d s = true) by (rewrite apart_sym; exact Hsd).
  assert (Hms : apart mp s = true) by (rewrite apart_sym; exact Hsm).
  assert (Hm2 : lookup mp t2 = Some (File a c)).
  { rewrite (lookup_put_at_parted d mp x _ t2 Hdm Hput).
    rewrite lookup_remove_at_parted by exact Hsm. exact Hm1. }
  assert (Hmne : mp <> []) by (eapply is_prefix_nonempty, Hmp).
  assert (Hsne : s <> []) by (eapply is_prefix_nonempty, Hsp).
  unfold restoreEntry. rewrite Hstale, Hfree. cbv zeta.
  rewrite os_MkdirAll_fault_free by exact Hff. fold parent. rewrite Hmk.
  set (w1 := with_root t1 (logged (SysMkdirAll (Filepath.Dir (OriginalPath e))) None w)).
  assert (Hff1 : fault_free w1) by (apply fault_free_with_root, fault_free_logged, Hff).
  unfold os_Rename. rewrite effect_fault_free by exact Hff1.
  cbv zeta. fold s d. change (root w1) with t1. rewrite Hs1, Hs_d, Hd1, Hput.
  set (w2 := with_root t2 (logged (SysRename (TrashPath e) (OriginalPath e)) None w1)).
  assert (Hff2 : fault_free w2) by (apply fault_free_with_root, fault_free_logged, Hff1).
  rewrite (os_Remove_file metaPath w2 a c); [|apply fault_free_fails, Hff2|exact Hmne|exact Hm2].
  eexists. split; [reflexivity|]. subst w2 w1. cbn [root log with_root logged]. fold mp.
  split; [rewrite <- !app_assoc; reflexivity|].
  split; [|split].
  - rewrite lookup_remove_at_parted by exact Hmd. apply (lookup_put_at_same x d _ t2 Hput).
  - rewrite lookup_remove_at_parted by exact Hms.
    rewrite (lookup_put_at_parted d s x _ t2 Hds Hput).
    apply lookup_remove_at_same, Hsne.
  - apply lookup_remove_at_same, Hmne.
Qed.

Lemma find_first {A} (f : A -> bool) (l : list A) :
  match List.find f l with
  | Some x => exists before after,
                l = before ++ x :: after
                /\ Forall (fun y => f y = false) before /\ f x = true
  | None => Forall (fun y => f y = false) l
  end.
Proof.
  induction l as [|y l IH]; [constructor|]. cbn [List.find].
  destruct (f y) eqn:Hy.
  - exists [], l. repeat split; [constructor | exact Hy].
  - destruct (List.find f l) as [x|].
    + destruct IH as (before & after & -> & Hb & Hx).
      exists (y :: before), after. repeat split; [constructor; assumption | exact Hx].
    + constructor; assumption.
Qed.

Lemma find_skip {A} (f : A -> bool) before x after :
  Forall (fun y => f y = false) before -> f x = true ->
  List.find f (before ++ x :: after) = Some x.
Proof.
  induction 1 as [|y before Hy _ IH]; intros Hx; cbn [app List.find].
  - rewrite Hx. reflexivity.
  - rewrite Hy. apply IH, Hx.
Qed.

(** *** [Restore]: the record that is asked for *)

(** The record is the one [fragment] asks for: [fragment] is the base name
    of its original path, or it is in the original path, with something
    before it and something after it. *)
Definition accepts (fragment : string) (e : TrashEntry) : Prop :=
  Filepath.Base (OriginalPath e) = fragment
  \/ exists before after, OriginalPath e = before +:+ fragment +:+ after.

(** The test of [Restore] decides it. *)
Lemma wanted_accepts fragment e : wanted fragment e = true <-> accepts fragment e.
Proof.
  unfold wanted, accepts.
  rewrite orb_true_iff, String.eqb_eq, FilepathFacts.Contains_iff. reflexivity.
Qed.

Lemma wanted_rejects fragment e : wanted fragment e = false <-> ~ accepts fragment e.
Proof.
  rewrite <- wanted_accepts. destruct (wanted fragment e); split; congruence.
Qed.

(** *** [copyPath]: what it does to the tree *)

Import OsMore.

(** Every rename fails, as it does from one volume to another, and no
    other call does. *)
Definition renameFaults (w : World) : Prop :=
  forall hst c, faulty w hst c = match c with SysRename _ _ => true | _ => false end.

Lemma renameFaults_logged c r w : renameFaults w -> renameFaults (logged c r w).
Proof. intros H hst c'. apply H. Qed.

Lemma renameFaults_with_root t w : renameFaults w -> renameFaults (with_root t w).
Proof. intros H hst c'. apply H. Qed.

Lemma renameFaults_readsQuiet w : renameFaults w -> readsQuiet w.
Proof. intros H hst c Hc. rewrite H. destruct c; try reflexivity; discriminate. Qed.

Lemma effect_runs c run w :
  fails w c = false ->
  effect c run w
  = match run (root w) with
    | inr t => (with_root t (logged c None w), None)
    | inl e => (logged c (Some e) w, Some e)
    end.
Proof. intros H. unfold effect. rewrite H. reflexivity. Qed.

(** A tree as the kernel keeps it: in a directory a name is one path
    element and occurs once. *)
Fixpoint distinct (names : list string) : bool :=
  match names with
  | [] => true
  | n :: names' => negb (existsb (String.eqb n) names') && distinct names'
  end.

Fixpoint wellNamed (n : Node) : bool :=
  match n with
  | File _ _ => true
  | Dir _ es =>
      distinct (List.map fst es)
      && (fix all (es : list (string * Node)) : bool :=
            match es with
            | [] => true
            | (name, x) :: es' => Filepath.simple_name name && wellNamed x && all es'
            end) es
  end.

Lemma distinct_NoDup names : distinct names = true -> NoDup names.
Proof.
  induction names as [|n names IH]; intros H; [constructor|].
  cbn [distinct] in H. apply andb_true_iff in H as [Hn H].
  apply NoDup_cons. split; [|apply IH, H].
  intros Hin. apply negb_true_iff in Hn.
  assert (Hex : existsb (String.eqb n) names = true).
  { apply existsb_exists. exists n. split; [|apply String.eqb_refl].
    apply list_elem_of_In, Hin. }
  congruence.
Qed.

Lemma wellNamed_dir a es :
  wellNamed (Dir a es) = true ->
  NoDup (List.map fst es)
  /\ Forall (fun e => Filepath.simple_name (fst e) = true /\ wellNamed (snd e) = true) es.
Proof.
  cbn [wellNamed]. intros H. apply andb_true_iff in H as [Hd H].
  split; [apply distinct_NoDup, Hd|]. clear Hd.
  induction es as [|[n y] es IH]; [constructor|].
  apply andb_true_iff in H as [H Hes]. apply andb_true_iff in H as [Hn Hy].
  constructor; [split; assumption | apply IH, Hes].
Qed.

(** The height of what a directory holds. *)
Lemma height_assoc a es n y :
  assoc n es = Some y -> (S (height y) <= height (Dir a es))%nat.
Proof.
  induction es as [|[m z] es IH]; [discriminate|].
  cbn [assoc]. destruct (String.eqb m n).
  - intros [= ->]. cbn [height]. lia.
  - intros H. specialize (IH H). cbn [height] in *. lia.
Qed.

Lemma lookup_height : forall p t x, lookup p t = Some x -> (height x <= height t)%nat.
Proof.
  induction p as [|c p IH]; intros t x H.
  - injection H as <-. reflexivity.
  - destruct t as [a y | a es]; [discriminate|]. rewrite lookup_cons in H.
    destruct (assoc c es) as [y|] eqn:E; [|discriminate].
    pose proof (height_assoc a es c y E). pose proof (IH y x H). lia.
Qed.

(** What is at a path after a copy made at time [t], for what was at the
    path it was copied from: nothing for nothing; a file with the same
    contents, size and mode for a file; a directory with the same mode for
    a directory. *)
Definition copyOf (t : Z) (x y : option Node) : Prop :=
  match x, y with
  | None, None => True
  | Some (File a c), Some (File a' c') => a' = mkAttr (a_size a) (a_mode a) t /\ c' = c
  | Some (Dir a _), Some (Dir a' _) => a' = mkAttr dir_size (a_mode a) t
  | _, _ => False
  end.

(** From [w] to [w'] what is at [s] and below has been copied to [d]: what
    parts from [d] is as it was, the directories above [d] have their
    attributes, and every path below [d] holds the copy of what the same
    path holds below [s]. *)
Definition Copied (s d : list string) (w w' : World) : Prop :=
  renameFaults w'
  /\ now w' = now w
  /\ (forall q, apart d q = true -> lookup q (root w') = lookup q (root w))
  /\ (forall q a es, is_prefix d q = false -> lookup q (root w) = Some (Dir a es) ->
        exists es', lookup q (root w') = Some (Dir a es'))
  /\ (forall r, copyOf (now w) (lookup (s ++ r) (root w)) (lookup (d ++ r) (root w'))).

(** [os.WriteFile] where nothing is, in a directory that is there. *)
Lemma os_WriteFile_new p data perm w parent b pa pes :
  fails w (SysWriteFile p) = false ->
  path_of p = parent ++ [b] ->
  lookup parent (root w) = Some (Dir pa pes) ->
  lookup (path_of p) (root w) = None ->
  exists t',
    put_at (path_of p) (File (mkAttr (d_len data) perm (now w)) (d_content data)) (root w)
    = Some t'
    /\ os_WriteFile p data perm w = (with_root t' (logged (SysWriteFile p) None w), None).
Proof.
  intros Hf Hp Hparent Hnone.
  destruct (put_at_ok (File (mkAttr (d_len data) perm (now w)) (d_content data)) b parent
              (root w) pa pes Hparent) as [t' Hput].
  rewrite <- Hp in Hput. exists t'. split; [exact Hput|].
  unfold os_WriteFile. rewrite effect_runs by exact Hf. rewrite Hnone, Hput. reflexivity.
Qed.

(** [os.MkdirAll] where nothing is, in a directory that is there. *)
Lemma os_MkdirAll_new p perm w parent b pa pes :
  fails w (SysMkdirAll p) = false ->
  path_of p = parent ++ [b] ->
  lookup parent (root w) = Some (Dir pa pes) ->
  lookup (path_of p) (root w) = None ->
  exists t',
    mkdir_all (mkAttr dir_size perm (now w)) (path_of p) (root w) = Some t'
    /\ os_MkdirAll p perm w = (with_root t' (logged (SysMkdirAll p) None w), None).
Proof.
  intros Hf Hp Hparent Hnone. rewrite Hp in Hnone.
  destruct (mkdir_all_child (mkAttr dir_size perm (now w)) parent b (root w) pa pes
              Hparent Hnone) as [t' Hmk].
  rewrite <- Hp in Hmk. exists t'. split; [exact Hmk|].
  unfold os_MkdirAll. rewrite effect_runs by exact Hf. rewrite Hmk. reflexivity.
Qed.

Lemma lookup_below_file p r c t a x :
  lookup p t = Some (File a x) -> lookup (p ++ c :: r) t = None.
Proof. intros H. rewrite lookup_app, H. reflexivity. Qed.

(** [copyFile] of a file to a free name in a directory that is there. *)
Lemma copyFile_ok src dst w a c parent b pa pes :
  renameFaults w ->
  lookup (path_of src) (root w) = Some (File a c) ->
  path_of dst = parent ++ [b] ->
  lookup parent (root w) = Some (Dir pa pes) ->
  lookup (path_of dst) (root w) = None ->
  exists w', copyFile src dst w = (w', None) /\ Copied (path_of src) (path_of dst) w w'.
Proof.
  intros Hrf Hsrc Hdst Hparent Hnone.
  pose proof (renameFaults_readsQuiet w Hrf) as Hq.
  unfold copyFile.
  rewrite os_ReadFile_readsQuiet, Hsrc by exact Hq.
  rewrite os_Stat_readsQuiet, Hsrc by exact Hq.
  cbn [info_of Os.Mode].
  destruct (os_WriteFile_new dst (mkData (a_size a) c) (a_mode a) w parent b pa pes
              (Hrf _ _) Hdst Hparent Hnone) as (t' & Hput & ->).
  cbn [d_len d_content] in Hput.
  eexists. split; [reflexivity|].
  unfold Copied. cbn [root now with_root logged].
  split; [apply renameFaults_with_root, renameFaults_logged, Hrf|].
  split; [reflexivity|].
  split; [intros q Hq'; apply (lookup_put_at_parted _ q _ _ t' Hq' Hput)|].
  split; [intros q a0 es0 Hpre Hdir; apply (put_at_keeps_attr _ _ q _ t' a0 es0 Hdir Hpre Hput)|].
  intros [|n r].
  - rewrite !app_nil_r, Hsrc, (lookup_put_at_same _ _ _ t' Hput). split; reflexivity.
  - rewrite (lookup_below_file _ r n _ _ _ Hsrc).
    rewrite (lookup_below_file _ r n _ _ _ (lookup_put_at_same _ _ _ t' Hput)). exact I.
Qed.

(** The loop of [copyDir] over the entries of the directory. *)
Definition copyEach (depth : nat) (src dst : string)
    : list (string * bool) -> World -> World * option Error :=
  fix each (entries : list (string * bool)) (w : World) : World * option Error :=
    match entries with
    | [] => (w, None)
    | (name, isDir) :: entries' =>
        let srcPath := Filepath.Join src name in
        let dstPath := Filepath.Join dst name in
        match (if isDir then copyDir depth srcPath dstPath w
               else copyFile srcPath dstPath w) with
        | (w, Some err) => (w, Some err)
        | (w, None) => each entries' w
        end
    end.

Lemma copyDir_S depth src dst w :
  copyDir (S depth) src dst w
  = match os_Stat src w with
    | inl err => (w, Some (OsError err))
    | inr srcInfo =>
        match os_MkdirAll dst (Os.Mode srcInfo) w with
        | (w, Some err) => (w, Some (OsError err))
        | (w, None) =>
            match os_ReadDir src w with
            | inl err => (w, Some (OsError err))
            | inr entries => copyEach depth src dst entries w
            end
        end
    end.
Proof. reflexivity. Qed.

(** [copyDir] with [depth] to go copies the directories that are no higher:
    to a free name in a directory that is there. *)
Definition copiesDirs (depth : nat) : Prop :=
  forall src dst w a es parent b pa pes,
    renameFaults w ->
    lookup (path_of src) (root w) = Some (Dir a es) ->
    wellNamed (Dir a es) = true ->
    (height (Dir a es) <= depth)%nat ->
    apart (path_of src) (path_of dst) = true ->
    path_of dst = parent ++ [b] ->
    lookup parent (root w) = Some (Dir pa pes) ->
    lookup (path_of dst) (root w) = None ->
    exists w', copyDir depth src dst w = (w', None)
               /\ Copied (path_of src) (path_of dst) w w'.

(** The loop on its way, with the entries [todo] of [es] still to copy from
    [s] to the new directory at [d]: the entries it has been through are
    copied, and the names of the others are free. *)
Definition copying (s d : list string) (es todo : list (string * Node)) (fresh : Attr)
    (w0 w : World) : Prop :=
  renameFaults w
  /\ now w = now w0
  /\ (forall q, apart d q = true -> lookup q (root w) = lookup q (root w0))
  /\ (forall q a es0, is_prefix d q = false -> lookup q (root w0) = Some (Dir a es0) ->
        exists es', lookup q (root w) = Some (Dir a es'))
  /\ (exists es', lookup d (root w) = Some (Dir fresh es'))
  /\ (forall n y r, assoc n es = Some y -> n ∉ List.map fst todo ->
        copyOf (now w0) (lookup (s ++ n :: r) (root w0)) (lookup (d ++ n :: r) (root w)))
  /\ (forall n r, n ∈ List.map fst todo \/ assoc n es = None ->
        lookup (d ++ n :: r) (root w) = None).

Lemma apart_children s d (n : string) :
  apart s d = true -> apart (s ++ [n]) (d ++ [n]) = true.
Proof.
  intros H. apply apart_below. rewrite apart_sym. apply apart_below.
  rewrite apart_sym. exact H.
Qed.

Lemma apart_sibling d (n n' : string) r : n <> n' -> apart (d ++ [n]) (d ++ n' :: r) = true.
Proof. intros H. apply (apart_intro d n n' [] r H). Qed.

Lemma copyEach_ok depth src dst a es fresh w0 :
  copiesDirs depth ->
  lookup (path_of src) (root w0) = Some (Dir a es) ->
  apart (path_of src) (path_of dst) = true ->
  forall todo w,
    NoDup (List.map fst todo) ->
    Forall (fun e => assoc (fst e) es = Some (snd e)
                     /\ Filepath.simple_name (fst e) = true
                     /\ wellNamed (snd e) = true
                     /\ (height (snd e) <= depth)%nat) todo ->
    copying (path_of src) (path_of dst) es todo fresh w0 w ->
    exists w',
      copyEach depth src dst (List.map (fun e => (fst e, is_dir (snd e))) todo) w = (w', None)
      /\ copying (path_of src) (path_of dst) es [] fresh w0 w'.
Proof.
  intros Hdepth Hsrc Hsd.
  set (s := path_of src) in *. set (d := path_of dst) in *.
  induction todo as [|[n y] todo IH]; intros w Hnd Hall Hinv.
  - exists w. split; [reflexivity | exact Hinv].
  - cbn [List.map fst snd] in Hnd. apply NoDup_cons in Hnd as [Hn Hnd].
    apply Forall_cons in Hall as [(Hy & Hsimple & Hwn & Hh) Hall]. cbn [fst snd] in *.
    destruct Hinv as (Hrf & Hnow & Hframe & Hdirs & (es' & Hd) & Hdone & Hfree).
    assert (Hps : path_of (Filepath.Join src n) = s ++ [n])
      by (apply FilepathFacts.components_Join_simple, Hsimple).
    assert (Hpd : path_of (Filepath.Join dst n) = d ++ [n])
      by (apply FilepathFacts.components_Join_simple, Hsimple).
    assert (Hds : forall r, apart d (s ++ r) = true)
      by (intros r; apply apart_below; rewrite apart_sym; exact Hsd).
    assert (Hy0 : lookup (s ++ [n]) (root w0) = Some y)
      by (rewrite lookup_app, Hsrc, lookup_cons, Hy; reflexivity).
    assert (Hyw : lookup (s ++ [n]) (root w) = Some y)
      by (rewrite (Hframe _ (Hds [n])); exact Hy0).
    assert (Hnone : lookup (d ++ [n]) (root w) = None)
      by (apply Hfree; left; cbn [List.map fst]; apply list_elem_of_here).
    assert (Hstep : exists w1,
               (if is_dir y
                then copyDir depth (Filepath.Join src n) (Filepath.Join dst n) w
                else copyFile (Filepath.Join src n) (Filepath.Join dst n) w) = (w1, None)
               /\ Copied (s ++ [n]) (d ++ [n]) w w1).
    { rewrite <- Hps, <- Hpd. destruct y as [ay cy | ay esy]; cbn [is_dir].
      - apply (copyFile_ok _ _ w ay cy d n fresh es' Hrf); rewrite ?Hps, ?Hpd;
          assumption || reflexivity.
      - apply (Hdepth _ _ w ay esy d n fresh es' Hrf); rewrite ?Hps, ?Hpd;
          try (assumption || reflexivity). apply apart_children, Hsd. }
    destruct Hstep as (w1 & Hrun & Hrf1 & Hnow1 & Hframe1 & Hdirs1 & Hcopy1).
    cbn [List.map copyEach fst snd]. cbv zeta. rewrite Hrun.
    apply (IH w1 Hnd Hall).
    split; [exact Hrf1|]. split; [congruence|].
    split.
    { intros q Hq. rewrite (Hframe1 q); [apply Hframe, Hq|].
      rewrite apart_sym. apply apart_below. rewrite apart_sym. exact Hq. }
    split.
    { intros q a0 es0 Hpre Hq. destruct (Hdirs q a0 es0 Hpre Hq) as [es1 Hq1].
      apply (Hdirs1 q a0 es1); [apply is_prefix_below, Hpre | exact Hq1]. }
    split.
    { apply (Hdirs1 d fresh es'); [apply is_prefix_longer | exact Hd]. }
    split.
    { intros n' y' r Hy' Hn'.
      destruct (String.eqb_spec n n') as [<- | Hne].
      - rewrite Hy in Hy'. injection Hy' as <-.
        specialize (Hcopy1 r). rewrite <- !app_assoc in Hcopy1. cbn [app] in Hcopy1.
        rewrite (Hframe _ (Hds (n :: r))), Hnow in Hcopy1. exact Hcopy1.
      - rewrite (Hframe1 _ (apart_sibling d n n' r Hne)).
        apply (Hdone n' y' r Hy'). cbn [List.map fst].
        intros Hin. apply elem_of_cons in Hin as [-> | Hin]; [congruence | exact (Hn' Hin)]. }
    intros n' r Hn'.
    assert (Hne : n <> n').
    { intros <-. destruct Hn' as [Hin | Hnone']; [exact (Hn Hin) | congruence]. }
    rewrite (Hframe1 _ (apart_sibling d n n' r Hne)).
    apply Hfree. destruct Hn' as [Hin | Hnone']; [left | right; exact Hnone'].
    cbn [List.map fst]. apply list_elem_of_further, Hin.
Qed.

Lemma copyDir_ok : forall depth, copiesDirs depth.
Proof.
  induction depth as [|depth IH];
    intros src dst w a es parent b pa pes Hrf Hsrc Hwn Hh Hsd Hdst Hparent Hnone.
  { cbn [height] in Hh. lia. }
  pose proof (renameFaults_readsQuiet w Hrf) as Hq.
  rewrite copyDir_S, os_Stat_readsQuiet, Hsrc by exact Hq.
  cbn [info_of Os.Mode].
  destruct (os_MkdirAll_new dst (a_mode a) w parent b pa pes (Hrf _ _) Hdst Hparent Hnone)
    as (t1 & Hmk & ->).
  set (fresh := mkAttr dir_size (a_mode a) (now w)) in *.
  set (w1 := with_root t1 (logged (SysMkdirAll dst) None w)).
  assert (Hrf1 : renameFaults w1) by (apply renameFaults_with_root, renameFaults_logged, Hrf).
  assert (Hds : apart (path_of dst) (path_of src) = true) by (rewrite apart_sym; exact Hsd).
  assert (Hd1 : lookup (path_of dst) t1 = Some (Dir fresh []))
    by (apply (lookup_mkdir_all_new fresh _ (root w) t1 Hnone Hmk)).
  rewrite os_ReadDir_readsQuiet by (apply renameFaults_readsQuiet, Hrf1).
  change (root w1) with t1.
  rewrite (lookup_mkdir_all_parted fresh _ _ (root w) t1 Hds Hmk), Hsrc.
  destruct (wellNamed_dir a es Hwn) as [Hnd Hall].
  destruct (copyEach_ok depth src dst a es fresh w IH Hsrc Hsd es w1 Hnd) as (w' & Hrun & Hinv).
  - apply Forall_forall. intros [n y] Hin. cbn [fst snd].
    rewrite Forall_forall in Hall. destruct (Hall _ Hin) as [Hs Hw]. cbn [fst snd] in Hs, Hw.
    pose proof (elem_of_assoc n y es Hnd Hin) as Hy.
    pose proof (height_assoc a es n y Hy).
    repeat split; try assumption. lia.
  - split; [exact Hrf1|]. split; [reflexivity|].
    split; [intros q Hq'; apply (lookup_mkdir_all_parted fresh _ q (root w) t1 Hq' Hmk)|].
    split; [intros q a0 es0 _ Hq'; apply (mkdir_all_keeps_attr fresh _ q (root w) t1 a0 es0 Hq' Hmk)|].
    split; [exists []; exact Hd1|].
    split.
    + intros n y r Hy Hn. exfalso. apply Hn.
      apply (list_elem_of_fmap_2 fst es (n, y)), assoc_elem_of, Hy.
    + intros n r _. change (root w1) with t1. rewrite lookup_app, Hd1. reflexivity.
  - exists w'. split; [exact Hrun|].
    destruct Hinv as (Hrf' & Hnow' & Hframe' & Hdirs' & (es' & Hd') & Hdone & Hfree).
    split; [exact Hrf'|]. split; [exact Hnow'|]. split; [exact Hframe'|].
    split; [exact Hdirs'|].
    intros [|n r].
    + rewrite !app_nil_r, Hsrc, Hd'. reflexivity.
    + destruct (assoc n es) as [y|] eqn:E.
      * apply (Hdone n y r E). intros Hin. inversion Hin.
      * rewrite (Hfree n r (or_intror E)), lookup_app, Hsrc, lookup_cons, E. exact I.
Qed.

(** [copyPath] of a file or a directory to a free name in a directory that
    is there. *)
Lemma copyPath_ok src dst w x parent b pa pes :
  renameFaults w ->
  lookup (path_of src) (root w) = Some x ->
  wellNamed x = true ->
  apart (path_of src) (path_of dst) = true ->
  path_of dst = parent ++ [b] ->
  lookup parent (root w) = Some (Dir pa pes) ->
  lookup (path_of dst) (root w) = None ->
  exists w', copyPath src dst w = (w', None) /\ Copied (path_of src) (path_of dst) w w'.
Proof.
  intros Hrf Hsrc Hwn Hsd Hdst Hparent Hnone.
  unfold copyPath, os_Lstat.
  rewrite (readsQuiet_fails w (SysLstat src) (renameFaults_readsQuiet w Hrf) eq_refl), Hsrc.
  destruct x as [a c | a es]; cbn [info_of Os.IsDir].
  - apply (copyFile_ok src dst w a c parent b pa pes); assumption.
  - apply (copyDir_ok _ src dst w a es parent b pa pes); try assumption.
    pose proof (lookup_height _ _ _ Hsrc). lia.
Qed.

(** *** [Restore]: the way through the copy *)

Lemma os_RemoveAll_runs p w :
  fails w (SysRemoveAll p) = false -> path_of p <> [] ->
  os_RemoveAll p w
  = (with_root (remove_at (path_of p) (root w)) (logged (SysRemoveAll p) None w), None).
Proof.
  intros Hf Hne. unfold os_RemoveAll. rewrite effect_runs by exact Hf.
  destruct (path_of p); [congruence | reflexivity].
Qed.

(** Where every rename fails and no other call does, and the two checks of
    [os.Stat] are passed: the staged data is there, a tree of files and
    directories with proper names, the original path is free, the three
    paths part from each other, and the parent directory can be made.  Then
    every path below the original path holds the copy of what the same path
    held below the staged path, the staged path is free and the record is
    gone. *)
Lemma restoreEntry_copies metaPath e w x a c b t1 :
  renameFaults w ->
  IsNotExist (os_Stat (TrashPath e) w) = false ->
  is_ok (os_Stat (OriginalPath e) w) = false ->
  lookup (path_of (TrashPath e)) (root w) = Some x ->
  wellNamed x = true ->
  lookup (path_of (OriginalPath e)) (root w) = None ->
  lookup (path_of metaPath) (root w) = Some (File a c) ->
  path_of (OriginalPath e) = path_of (Filepath.Dir (OriginalPath e)) ++ [b] ->
  apart (path_of (TrashPath e)) (path_of (OriginalPath e)) = true ->
  apart (path_of metaPath) (path_of (OriginalPath e)) = true ->
  apart (path_of (TrashPath e)) (path_of metaPath) = true ->
  mkdir_all (mkAttr dir_size perm_dir (now w)) (path_of (Filepath.Dir (OriginalPath e)))
    (root w) = Some t1 ->
  exists w',
    restoreEntry metaPath e w = (w', None)
    /\ (forall r, copyOf (now w) (lookup (path_of (TrashPath e) ++ r) (root w))
                    (lookup (path_of (OriginalPath e) ++ r) (root w')))
    /\ lookup (path_of (TrashPath e)) (root w') = None
    /\ lookup (path_of metaPath) (root w') = None.
Proof.
  intros Hrf Hstale Hfree Hx Hwn Hd Hrec Hparent Hsd Hmd Hsm Hmk.
  set (s := path_of (TrashPath e)) in *.
  set (d := path_of (OriginalPath e)) in *.
  set (mp := path_of metaPath) in *.
  set (parent := path_of (Filepath.Dir (OriginalPath e))) in *.
  assert (Hsp : is_prefix s parent = false)
    by (apply (apart_parent s parent b); rewrite <- Hparent; exact Hsd).
  assert (Hmp : is_prefix mp parent = false)
    by (apply (apart_parent mp parent b); rewrite <- Hparent; exact Hmd).
  assert (Hdp : is_prefix d parent = false) by (rewrite Hparent; apply is_prefix_longer).
  assert (Hds : apart d s = true) by (rewrite apart_sym; exact Hsd).
  assert (Hdm : apart d mp = true) by (rewrite apart_sym; exact Hmd).
  assert (Hms : apart mp s = true) by (rewrite apart_sym; exact Hsm).
  assert (Hsne : s <> []) by (eapply is_prefix_nonempty, Hsp).
  assert (Hmne : mp <> []) by (eapply is_prefix_nonempty, Hmp).
  pose proof (fun q H => lookup_mkdir_all_off _ parent q (root w) t1 H Hmk) as Hoff.
  destruct (mkdir_all_made _ _ _ _ Hmk) as (a1 & es1 & Hp1).
  unfold restoreEntry. rewrite Hstale, Hfree. cbv zeta.
  unfold os_MkdirAll. rewrite effect_runs by apply Hrf. fold parent. rewrite Hmk.
  set (w1 := with_root t1 (logged (SysMkdirAll (Filepath.Dir (OriginalPath e))) None w)).
  assert (Hrf1 : renameFaults w1) by (apply renameFaults_with_root, renameFaults_logged, Hrf).
  assert (Hfail : fails w1 (SysRename (TrashPath e) (OriginalPath e)) = true) by apply Hrf1.
  unfold os_Rename, effect. rewrite Hfail.
  set (w2 := logged (SysRename (TrashPath e) (OriginalPath e)) (Some EIO) w1).
  assert (Hrf2 : renameFaults w2) by (apply renameFaults_logged, Hrf1).
  destruct (copyPath_ok (TrashPath e) (OriginalPath e) w2 x parent b a1 es1 Hrf2)
    as (w3 & -> & Hrf3 & Hnow3 & Hframe3 & _ & Hcopy3).
  { change (root w2) with t1. fold s. rewrite (Hoff s Hsp). exact Hx. }
  { exact Hwn. }
  { exact Hsd. }
  { exact Hparent. }
  { exact Hp1. }
  { change (root w2) with t1. fold d. rewrite (Hoff d Hdp). exact Hd. }
  fold s d in Hframe3, Hcopy3. change (root w2) with t1 in Hframe3, Hcopy3.
  change (now w2) with (now w) in Hcopy3.
  rewrite os_RemoveAll_runs by (apply Hrf3 || exact Hsne). fold s.
  set (w4 := with_root (remove_at s (root w3)) (logged (SysRemoveAll (TrashPath e)) None w3)).
  assert (Hrf4 : renameFaults w4) by (apply renameFaults_with_root, renameFaults_logged, Hrf3).
  rewrite (os_Remove_file metaPath w4 a c); [|apply Hrf4|exact Hmne|].
  2:{ change (root w4) with (remove_at s (root w3)). fold mp.
      rewrite lookup_remove_at_parted by exact Hsm.
      rewrite (Hframe3 mp Hdm), (Hoff mp Hmp). exact Hrec. }
  eexists. split; [reflexivity|]. cbn [root with_root logged]. fold mp.
  change (root w4) with (remove_at s (root w3)).
  split; [|split].
  - intros r.
    rewrite lookup_remove_at_parted by (apply apart_below, Hmd).
    rewrite lookup_remove_at_parted by (apply apart_below, Hsd).
    rewrite <- (Hoff (s ++ r) (is_prefix_below s r parent Hsp)). apply Hcopy3.
  - rewrite lookup_remove_at_parted by exact Hms. apply lookup_remove_at_same, Hsne.
  - apply lookup_remove_at_same, Hmne.
Qed.

(** The record at [metaPath] can be restored in [w]: the staged data [x]
    is there and the original path is free; the record is a file; the
    original path is the path of its directory and one more name; the
    staged path, the original path and the path of the record part from
    each other; and the directory of the original path is there or can be
    made. *)
Definition restorable (metaPath : string) (e : TrashEntry) (w : World) (x : Node) : Prop :=
  lookup (path_of (TrashPath e)) (root w) = Some x
  /\ lookup (path_of (OriginalPath e)) (root w) = None
  /\ (exists a c, lookup (path_of metaPath) (root w) = Some (File a c))
  /\ (exists b, path_of (OriginalPath e) = path_of (Filepath.Dir (OriginalPath e)) ++ [b])
  /\ apart (path_of (TrashPath e)) (path_of (OriginalPath e)) = true
  /\ apart (path_of metaPath) (path_of (OriginalPath e)) = true
  /\ apart (path_of (TrashPath e)) (path_of metaPath) = true
  /\ (exists t1, mkdir_all (mkAttr dir_size perm_dir (now w))
                   (path_of (Filepath.Dir (OriginalPath e))) (root w) = Some t1).

(** The records none of which is asked for. *)
Definition noneAccepted (fragment : string) (rs : list (string * TrashEntry)) : Prop :=
  Forall (fun r => ~ accepts fragment (snd r)) rs.

Lemma noneAccepted_wanted fragment rs :
  noneAccepted fragment rs <-> Forall (fun r => wanted fragment (snd r) = false) rs.
Proof.
  unfold noneAccepted. rewrite !Forall_forall. split; intros H r Hr.
  - apply wanted_rejects, H, Hr.
  - apply wanted_rejects, H, Hr.
Qed.

(** C4.  [Restore] returns the error of [os.ReadDir] when the metadata
    directory cannot be read.  Else it goes through the records of the
    directory in directory order, and a record is the one asked for when
    the base name of its original path is [fragment] or its original path
    contains [fragment].  Either no record is asked for: the error is that
    the file is not in the trash, and the world is as it was.  Or there is
    a first record that is asked for, and the outcome is as follows.  When
    [os.Stat] finds nothing at the staged path, the error is that the
    staged data is gone; else when [os.Stat] finds something at the
    original path, the error is that the original location exists; in both
    cases the world is as it was.  Else the calls are those of
    [restoreTrace]: the parent directory is made, the staged data is
    renamed, or copied and removed when the rename fails, and the record is
    removed last, and only when the rename or the copy went through.  For
    a record that can be restored: where no call fails, the staged data is
    at the original path after the call; where every rename fails and no
    other call does, every path below the original path holds the copy of
    what the same path held below the staged path, for staged data that is
    a tree of files and directories; in both cases [Restore] returns no
    error, the staged path is free and the record is gone. *)
Theorem Restore_outcomes m fragment w :
  (forall err,
     os_ReadDir (metaDir m) w = inl err ->
     Restore m fragment w = (w, Some (OsError err)))
  /\ (forall entries,
        os_ReadDir (metaDir m) w = inr entries ->
        (noneAccepted fragment (records m entries w)
         \/ exists before metaPath e after,
              records m entries w = before ++ (metaPath, e) :: after
              /\ noneAccepted fragment before /\ accepts fragment e)
        /\ (noneAccepted fragment (records m entries w) ->
            Restore m fragment w = (w, Some (NotInTrash fragment)))
        /\ (forall before metaPath e after,
              records m entries w = before ++ (metaPath, e) :: after ->
              noneAccepted fragment before ->
              accepts fragment e ->
              (IsNotExist (os_Stat (TrashPath e) w) = true ->
               Restore m fragment w = (w, Some (TrashFileGone (TrashPath e))))
              /\ (IsNotExist (os_Stat (TrashPath e) w) = false ->
                  is_ok (os_Stat (OriginalPath e) w) = true ->
                  Restore m fragment w = (w, Some (OriginalExists (OriginalPath e))))
              /\ (IsNotExist (os_Stat (TrashPath e) w) = false ->
                  is_ok (os_Stat (OriginalPath e) w) = false ->
                  (exists w' r evs,
                     Restore m fragment w = (w', r)
                     /\ log w' = log w ++ evs
                     /\ restoreTrace metaPath e evs r)
                  /\ (forall x,
                        fault_free w ->
                        restorable metaPath e w x ->
                        exists w',
                          Restore m fragment w = (w', None)
                          /\ log w'
                             = log w ++ [(SysMkdirAll (Filepath.Dir (OriginalPath e)), None);
                                         (SysRename (TrashPath e) (OriginalPath e), None);
                                         (SysRemove metaPath, None)]
                          /\ lookup (path_of (OriginalPath e)) (root w') = Some x
                          /\ lookup (path_of (TrashPath e)) (root w') = None
                          /\ lookup (path_of metaPath) (root w') = None)
                  /\ (forall x,
                        renameFaults w ->
                        wellNamed x = true ->
                        restorable metaPath e w x ->
                        exists w',
                          Restore m fragment w = (w', None)
                          /\ (forall r,
                                copyOf (now w)
                                  (lookup (path_of (TrashPath e) ++ r) (root w))
                                  (lookup (path_of (OriginalPath e) ++ r) (root w')))
                          /\ lookup (path_of (TrashPath e)) (root w') = None
                          /\ lookup (path_of metaPath) (root w') = None)))).
Proof.
  split.
  - intros err Hdir. unfold Restore. rewrite Hdir. reflexivity.
  - intros entries Hdir.
    assert (Hrun : Restore m fragment w
                   = match selected m fragment entries w with
                     | Some (metaPath, trashEntry) => restoreEntry metaPath trashEntry w
                     | None => (w, Some (NotInTrash fragment))
                     end)
      by (unfold Restore; rewrite Hdir; apply restoreLoop_selected).
    split; [|split].
    + pose proof (find_first (fun r => wanted fragment (snd r)) (records m entries w))
        as Hfirst.
      destruct (List.find _ _) as [[metaPath e]|].
      * right. destruct Hfirst as (before & after & Hrs & Hbefore & He).
        exists before, metaPath, e, after. split; [exact Hrs|].
        split; [apply noneAccepted_wanted, Hbefore | apply wanted_accepts, He].
      * left. apply noneAccepted_wanted, Hfirst.
    + intros Hnone. rewrite Hrun. unfold selected.
      apply noneAccepted_wanted in Hnone.
      destruct (List.find _ _) as [[metaPath e]|] eqn:Hfind; [|reflexivity].
      apply find_some in Hfind as [Hin He]. cbn [snd] in He.
      rewrite List.Forall_forall in Hnone. specialize (Hnone _ Hin). cbn [snd] in Hnone.
      congruence.
    + intros before metaPath e after Hrs Hbefore He.
      assert (Hsel : selected m fragment entries w = Some (metaPath, e)).
      { unfold selected. rewrite Hrs. apply find_skip.
        - apply noneAccepted_wanted, Hbefore.
        - apply wanted_accepts, He. }
      rewrite Hsel in Hrun. rewrite Hrun.
      split; [|split].
      * intros Hstale. unfold restoreEntry. rewrite Hstale. reflexivity.
      * intros Hstale Hocc. unfold restoreEntry. rewrite Hstale, Hocc. reflexivity.
      * intros Hstale Hocc. split; [|split].
        -- exists (fst (restoreEntry metaPath e w)), (snd (restoreEntry metaPath e w)).
           destruct (restoreEntry_trace metaPath e w _ _ Hstale Hocc
                       (surjective_pairing (restoreEntry metaPath e w)))
             as (evs & Hlog & Htrace).
           exists evs. split; [apply surjective_pairing|]. split; assumption.
        -- intros x Hff (Hx & Hd & (a & c & Hrec) & (b & Hparent) & Hsd & Hmd & Hsm
                         & (t1 & Hmk)).
           apply (restoreEntry_moves metaPath e w x a c b t1); assumption.
        -- intros x Hrf Hwn (Hx & Hd & (a & c & Hrec) & (b & Hparent) & Hsd & Hmd & Hsm
                             & (t1 & Hmk)).
           apply (restoreEntry_copies metaPath e w x a c b t1); assumption.
Qed.

(** *** The examples *)

(** A world whose tree is the one of the example has a store as
    [MoveToTrash] fills it. *)
Lemma twoItems_wf w : root w = root twoItems -> wf_store "/home/user" w.
Proof.
  intros Hroot. unfold wf_store. rewrite Hroot.
  eexists _, _. split; [vm_compute; reflexivity|]. split; [|split].
  - apply (bool_decide_unpack _). vm_compute. reflexivity.
  - repeat constructor.
  - intros nm a' o tp d sz isDir Hin _.
    apply elem_of_cons in Hin as [Heq | Hin].
    { injection Heq as -> _ _ -> _ _ _. exists "5184000000000000_old.txt". repeat split. }
    apply elem_of_cons in Hin as [Heq | Hin].
    { injection Heq as -> _ _ -> _ _ _. exists "8553600000000000_new.txt". repeat split. }
    inversion Hin.
Qed.

Lemma twoItems_fault_free : fault_free twoItems.
Proof. intros hst c. reflexivity. Qed.

(** The example with an environment that does not let go of the data of
    the old item. *)
Definition stuckOld (p : string) : bool := String.eqb p (TrashPath oldEntry).

Definition stuckItems : World :=
  mkWorld (root twoItems) "/" "/home/user" today (log twoItems)
    (fun _ c => match c with SysRemoveAll p => stuckOld p | _ => false end).

Lemma Empty_idempotent_witness :
  let m0 := managerAt "/home/user" in
  let w1 := fst (Empty m0 (fst (NewManager twoItems))) in
  emptyDirAt (trashDir m0) w1 /\ emptyDirAt (metaDir m0) w1
  /\ exists w2, Empty m0 w1 = (w2, None)
                /\ emptyDirAt (trashDir m0) w2 /\ emptyDirAt (metaDir m0) w2.
Proof.
  intros m0 w1.
  apply (Empty_idempotent twoItems (fst (NewManager twoItems)) m0
           (fst (NewManager twoItems)) w1).
  - vm_compute. reflexivity.
  - intros hst c. reflexivity.
  - vm_compute. reflexivity.
Defined.

Lemma AutoCleanup_two_phases_witness :
  let m0 := managerAt "/home/user" in
  exists w1 w2 n b,
    List m0 w1 = inr ([newEntry], tenKB)
    /\ lookup (path_of (TrashPath oldEntry)) (root w1) = None
    /\ AutoCleanup m0 30 0 twoItems = (w2, inr (n, b)).
Proof.
  intros m0.
  destruct (proj1 (AutoCleanup_two_phases "/home/user" 30 0) twoItems
              [oldEntry; newEntry] (2 * tenKB)
              twoItems_fault_free (twoItems_wf twoItems eq_refl) eq_refl)
    as (w1 & w2 & taken & rest & _ & Hlist & Hold & _ & _ & _ & _ & _ & _ & _ & Hrun).
  exists w1, w2. eexists _, _. split; [exact Hlist|]. split; [|exact Hrun].
  apply (Hold oldEntry). left.
Defined.

Lemma AutoCleanup_drops_expired_record_witness :
  let m0 := managerAt "/home/user" in
  exists w' r,
    AutoCleanup m0 30 1 stuckItems = (w', inr r)
    /\ lookup (path_of (metaPathOf m0 oldEntry)) (root w') = None
    /\ lookup (path_of (TrashPath oldEntry)) (root w') = Some (item tenKB).
Proof.
  intros m0.
  destruct (AutoCleanup_drops_expired_record "/home/user" stuckOld stuckItems 30 1
              [oldEntry; newEntry] (2 * tenKB) oldEntry)
    as (w' & counted & entries' & total' & Hrun & _ & _ & _ & Hrec & (n & Hn & Hdat) & _).
  - intros hst c. reflexivity.
  - apply twoItems_wf. reflexivity.
  - vm_compute. reflexivity.
  - left.
  - reflexivity.
  - exists w'. eexists. split; [exact Hrun|]. split; [exact Hrec|].
    rewrite Hdat. vm_compute in Hn. injection Hn as <-. reflexivity.
Defined.

(** A store on another volume than the home directory: every rename fails.
    It holds the directory [proj], with a file and a directory with a file
    in it. *)
Definition projEntry : TrashEntry :=
  mkEntry "/home/user/proj" "/home/user/.nuke-trash/files/7_proj" (daysAgo 2) 12 true.

Definition proj : Node :=
  dir [("a.txt", item 5); ("sub", dir [("b.txt", item 7)])].

Definition otherVolume : World :=
  mkWorld
    (dir [("home",
           dir [("user",
                 dir [(".nuke-trash",
                       dir [("files", dir [("7_proj", proj)]);
                            ("meta",
                             dir [("7_proj.json",
                                   File (mkAttr 200 perm_file 0)
                                     (Doc (OriginalPath projEntry) (TrashPath projEntry)
                                        (daysAgo 2) 12 true))])])])])])
    "/" "/home/user" today []
    (fun _ c => match c with SysRename _ _ => true | _ => false end).

Lemma Restore_outcomes_witness :
  let m0 := managerAt "/home/user" in
  (exists w',
     Restore m0 "old.txt" twoItems = (w', None)
     /\ lookup (path_of "/home/user/old.txt") (root w') = Some (item tenKB)
     /\ lookup (path_of (TrashPath oldEntry)) (root w') = None
     /\ lookup (path_of (metaPathOf m0 oldEntry)) (root w') = None)
  /\ (exists w',
        Restore m0 "user/pro" otherVolume = (w', None)
        /\ copyOf today (Some (item 7))
             (lookup (path_of (OriginalPath projEntry) ++ ["sub"; "b.txt"]) (root w'))
        /\ copyOf today (Some proj) (lookup (path_of (OriginalPath projEntry)) (root w'))
        /\ lookup (path_of (TrashPath projEntry)) (root w') = None
        /\ lookup (path_of (metaPathOf m0 projEntry)) (root w') = None).
Proof.
  intros m0. split.
  - assert (Hdir : os_ReadDir (metaDir m0) twoItems
                   = inr [("5184000000000000_old.txt.json", false);
                          ("8553600000000000_new.txt.json", false)])
      by (vm_compute; reflexivity).
    destruct (proj2 (Restore_outcomes m0 "old.txt" twoItems) _ Hdir) as (_ & _ & Hsome).
    destruct (Hsome [] (metaPathOf m0 oldEntry) oldEntry [(metaPathOf m0 newEntry, newEntry)])
      as (_ & _ & Hgo).
    + vm_compute. reflexivity.
    + constructor.
    + left. vm_compute. reflexivity.
    + destruct Hgo as (_ & Hmove & _); [vm_compute; reflexivity ..|].
      destruct (Hmove (item tenKB) twoItems_fault_free)
        as (w' & Hrun & _ & Hd & Hs & Hm).
      { split; [vm_compute; reflexivity|]. split; [vm_compute; reflexivity|].
        split; [eexists _, _; vm_compute; reflexivity|].
        split; [exists "old.txt"; vm_compute; reflexivity|].
        split; [vm_compute; reflexivity|]. split; [vm_compute; reflexivity|].
        split; [vm_compute; reflexivity|].
        exists (root twoItems). vm_compute. reflexivity. }
      exists w'. repeat split; assumption.
  - assert (Hdir : os_ReadDir (metaDir m0) otherVolume = inr [("7_proj.json", false)])
      by (vm_compute; reflexivity).
    destruct (proj2 (Restore_outcomes m0 "user/pro" otherVolume) _ Hdir) as (_ & _ & Hsome).
    destruct (Hsome [] (metaPathOf m0 projEntry) projEntry []) as (_ & _ & Hgo).
    + vm_compute. reflexivity.
    + constructor.
    + right. exists "/home/", "j". reflexivity.
    + destruct Hgo as (_ & _ & Hcopy); [vm_compute; reflexivity ..|].
      destruct (Hcopy proj) as (w' & Hrun & Hd & Hs & Hm).
      { intros hst c. reflexivity. }
      { reflexivity. }
      { split; [vm_compute; reflexivity|]. split; [vm_compute; reflexivity|].
        split; [eexists _, _; vm_compute; reflexivity|].
        split; [exists "proj"; vm_compute; reflexivity|].
        split; [vm_compute; reflexivity|]. split; [vm_compute; reflexivity|].
        split; [vm_compute; reflexivity|].
        exists (root otherVolume). vm_compute. reflexivity. }
      exists w'. split; [exact Hrun|].
      split; [exact (Hd ["sub"; "b.txt"])|].
      split; [|split; assumption].
      pose proof (Hd []) as Hd0. rewrite app_nil_r in Hd0. exact Hd0.
Defined.

End TrashFacts.

(* ================================================================= *)
(** * Part III: more of the code *)
(* ================================================================= *)

(* ----------------------------------------------------------------- *)
(** ** The selector: the other checks of [Match] *)

Module FilterMore.

Import Filter.

(** The criteria that hold the two cutoffs and nothing else. *)
Definition timeOnly (older newer : option Z) : Options :=
  mkOptions older newer 0 "" [] [] None false.

(** The criteria that hold patterns and nothing else. *)
Definition globOnly (exclude include : list string) : Options :=
  mkOptions None None 0 "" exclude include None false.

(** The criteria that skip hidden entries and nothing else. *)
Definition hiddenOnly : Options := mkOptions None None 0 "" [] [] None true.

(** The modification time is within the two cutoffs, both included. *)
Definition withinWindow (older newer : option Z) (mtime : Z) : Prop :=
  (forall t, older = Some t -> mtime <= t) /\ (forall t, newer = Some t -> t <= mtime).

(** A matcher for the examples: a pattern matches the name it spells. *)
Definition literalGlob (pattern name : string) : bool := String.eqb pattern name.

Section Glob.

Variable filepath_Match : string -> string -> bool.

Local Abbreviation Match := (Filter.Match filepath_Match).

Lemma olderRejects_iff o info :
  olderRejects o info = false <-> (forall t, OlderThan o = Some t -> Os.ModTime info <= t).
Proof.
  unfold olderRejects, Time.After. destruct (OlderThan o) as [t|].
  - rewrite Z.ltb_ge. split; [intros H t' [= <-]; exact H | intros H; apply H; reflexivity].
  - split; [intros _ t' H; discriminate | reflexivity].
Qed.

Lemma newerRejects_iff o info :
  newerRejects o info = false <-> (forall t, NewerThan o = Some t -> t <= Os.ModTime info).
Proof.
  unfold newerRejects, Time.Before. destruct (NewerThan o) as [t|].
  - rewrite Z.ltb_ge. split; [intros H t' [= <-]; exact H | intros H; apply H; reflexivity].
  - split; [intros _ t' H; discriminate | reflexivity].
Qed.

(** What [Match] admits has passed every check. *)
Lemma Match_true o path info :
  Match (Some o) path info = true ->
  (SkipHidden o && isHidden path) = false
  /\ olderRejects o info = false /\ newerRejects o info = false
  /\ sizeRejects o info = false
  /\ includeRejects filepath_Match o path = false
  /\ excludeRejects filepath_Match o path = false
  /\ regexRejects o path = false.
Proof.
  rewrite FilterFacts.Match_all_checks, !andb_true_iff, !negb_true_iff. tauto.
Qed.

(** X1.  The two time filters bound the modification time from both
    sides, the cutoffs included: whatever [Match] admits was modified no
    later than the older-than cutoff and no earlier than the newer-than
    cutoff; and with nothing else configured [Match] admits exactly the
    entries within the two cutoffs (none, when the newer-than cutoff is
    the later one). *)
Theorem Match_time_window path info :
  (forall o, Match (Some o) path info = true ->
             withinWindow (OlderThan o) (NewerThan o) (Os.ModTime info))
  /\ (forall older newer,
        Match (Some (timeOnly older newer)) path info = true
        <-> withinWindow older newer (Os.ModTime info))
  /\ (forall older newer,
        older < newer -> Match (Some (timeOnly (Some older) (Some newer))) path info = false).
Proof.
  assert (Hexact : forall older newer,
             Match (Some (timeOnly older newer)) path info = true
             <-> withinWindow older newer (Os.ModTime info)).
  { intros older newer. rewrite FilterFacts.Match_all_checks.
    unfold withinWindow.
    rewrite <- (olderRejects_iff (timeOnly older newer) info).
    rewrite <- (newerRejects_iff (timeOnly older newer) info).
    cbn [SkipHidden timeOnly andb negb sizeRejects SizeFilter Z.gtb Z.compare
         includeRejects Include excludeRejects Exclude regexRejects Regex].
    rewrite !andb_true_r, andb_true_iff, !negb_true_iff. reflexivity. }
  split; [|split; [exact Hexact|]].
  - intros o H. apply Match_true in H as (_ & Ho & Hn & _). split.
    + apply olderRejects_iff, Ho.
    + apply newerRejects_iff, Hn.
  - intros older newer Hlt.
    destruct (Match (Some (timeOnly (Some older) (Some newer))) path info) eqn:E;
      [|reflexivity].
    apply Hexact in E as [Ho Hn].
    specialize (Ho older eq_refl). specialize (Hn newer eq_refl). lia.
Qed.

(** X2.  A size filter [(threshold, "-")] with a positive threshold admits
    the regular files that are smaller than the threshold, and no regular
    file of the threshold's size or more, whatever else is configured; with
    an operator that is neither ["+"] nor ["-"] the size filter rejects
    nothing. *)
Theorem size_filter_less_than threshold path info :
  threshold > 0 -> Os.IsDir info = false ->
  (Match (Some (FilterFacts.sizeOnly threshold "-")) path info = true
   <-> Os.Size info < threshold)
  /\ (forall o, SizeFilter o = threshold -> SizeOp o = "-" ->
                threshold <= Os.Size info -> Match (Some o) path info = false)
  /\ (forall o, SizeOp o <> "+" -> SizeOp o <> "-" -> sizeRejects o info = false).
Proof.
  intros Hpos Hdir.
  assert (Hminus : forall o, SizeFilter o = threshold -> SizeOp o = "-" ->
                     sizeRejects o info = (Os.Size info >=? threshold)).
  { intros o Hthr Hop. unfold sizeRejects. rewrite Hthr, Hop, Hdir.
    replace (threshold >? 0) with true by (symmetry; apply Z.gtb_lt; lia).
    reflexivity. }
  split; [|split].
  - rewrite FilterFacts.Match_all_checks.
    rewrite (Hminus (FilterFacts.sizeOnly threshold "-") eq_refl eq_refl). simpl.
    rewrite !andb_true_r, negb_true_iff, Z.geb_leb, Z.leb_gt. reflexivity.
  - intros o Hthr Hop Hge. apply FilterFacts.sizeRejects_Match.
    rewrite (Hminus o Hthr Hop). apply Z.geb_le. exact Hge.
  - intros o Hplus Hminus'. unfold sizeRejects.
    apply String.eqb_neq in Hplus, Hminus'. rewrite Hplus, Hminus'.
    destruct (_ && _); reflexivity.
Qed.

Lemma excludeRejects_existsb o path :
  excludeRejects filepath_Match o path
  = existsb (fun pattern =>
               filepath_Match pattern (Filepath.Base path) || filepath_Match pattern path)
      (Exclude o).
Proof. unfold excludeRejects. destruct (Exclude o); reflexivity. Qed.

(** X3.  An exclude pattern that matches the base name or the path
    rejects the entry, whatever else is configured, the same pattern among
    the include patterns too; an empty include list admits every entry,
    and one that is not empty admits only what [MatchesGlob] accepts of
    it. *)
Theorem exclude_overrides_include path info :
  (forall o pattern,
     In pattern (Exclude o) ->
     filepath_Match pattern (Filepath.Base path) || filepath_Match pattern path = true ->
     Match (Some o) path info = false)
  /\ (forall exclude,
        Match (Some (globOnly exclude [])) path info
        = negb (MatchesGlob filepath_Match path exclude))
  /\ (forall pattern include,
        Match (Some (globOnly [] (pattern :: include))) path info
        = MatchesGlob filepath_Match path (pattern :: include)).
Proof.
  split; [|split].
  - intros o pattern Hin Hmatch. rewrite FilterFacts.Match_all_checks.
    assert (Hrej : excludeRejects filepath_Match o path = true).
    { rewrite excludeRejects_existsb. apply existsb_exists. exists pattern. split; assumption. }
    rewrite Hrej. simpl. rewrite andb_false_r. reflexivity.
  - intros exclude. rewrite FilterFacts.Match_all_checks, excludeRejects_existsb.
    unfold MatchesGlob. simpl. rewrite andb_true_r. reflexivity.
  - intros pattern include. rewrite FilterFacts.Match_all_checks.
    unfold MatchesGlob, includeRejects. simpl.
    rewrite !andb_true_r, negb_involutive. reflexivity.
Qed.

(** X4.  [isHidden] looks at the last element of the path only: an entry
    [name] of a directory [dir] is hidden exactly when [name] begins with a
    dot, so that with [SkipHidden] alone [Match] admits an entry that does
    not begin with a dot, in a hidden directory too. *)
Theorem hidden_by_base_name dir name info :
  Filepath.simple_name name = true ->
  isHidden (Filepath.Join dir name) = String.prefix "." name
  /\ Match (Some hiddenOnly) (Filepath.Join dir name) info = negb (String.prefix "." name).
Proof.
  intros Hname.
  assert (Hhid : isHidden (Filepath.Join dir name) = String.prefix "." name).
  { unfold isHidden. rewrite FilepathFacts.Base_Join_simple by exact Hname.
    destruct name as [|c name]; [reflexivity|]. cbn [String.prefix].
    destruct (ascii_dec "." c) as [<- | Hne]; [destruct name; reflexivity|].
    apply Ascii.eqb_neq. congruence. }
  split; [exact Hhid|]. rewrite FilterFacts.Match_all_checks, Hhid. simpl.
  rewrite !andb_true_r. reflexivity.
Qed.

End Glob.

Lemma exclude_overrides_include_witness :
  Filter.Match literalGlob (Some (globOnly ["a.log"] ["a.log"])) "/tmp/a.log"
    (FilterFacts.regularFile 1 0) = false.
Proof.
  apply (proj1 (exclude_overrides_include literalGlob "/tmp/a.log"
                  (FilterFacts.regularFile 1 0)) _ "a.log").
  - left. reflexivity.
  - reflexivity.
Defined.

Lemma size_filter_less_than_witness :
  Filter.Match FilterFacts.noGlob (Some (FilterFacts.sizeOnly 100 "-")) "/tmp/a.log"
    (FilterFacts.regularFile 100 0) = false
  /\ sizeRejects (FilterFacts.sizeOnly 100 "<") (FilterFacts.regularFile 100 0) = false.
Proof.
  destruct (size_filter_less_than FilterFacts.noGlob 100 "/tmp/a.log"
              (FilterFacts.regularFile 100 0) ltac:(lia) eq_refl) as (_ & Hmin & Hoth).
  split.
  - apply Hmin; [reflexivity | reflexivity | simpl; lia].
  - apply Hoth; discriminate.
Defined.

Lemma hidden_by_base_name_witness :
  isHidden "/home/user/.git/config" = false
  /\ Filter.Match literalGlob (Some hiddenOnly) "/home/user/.git/config"
       (FilterFacts.regularFile 1 0) = true
  /\ isHidden "/home/user/.git" = true.
Proof.
  destruct (hidden_by_base_name literalGlob "/home/user/.git" "config"
              (FilterFacts.regularFile 1 0) eq_refl) as [H1 H2].
  destruct (hidden_by_base_name literalGlob "/home/user" ".git"
              (FilterFacts.regularFile 1 0) eq_refl) as [H3 _].
  split; [exact H1|]. split; [exact H2 | exact H3].
Defined.

End FilterMore.

(* ----------------------------------------------------------------- *)
(** ** The walker: what a scan returns, and in which order *)

Module ScannerMore.

Import Os OsFacts Scanner ScannerFacts.

(** *** The sort, on a list that is in order *)

Lemma StronglySorted_lookup {A} (R : A -> A -> Prop) (l : list A) :
  StronglySorted R l ->
  forall i j x y, l !! i = Some x -> l !! j = Some y -> (i < j)%nat -> R x y.
Proof.
  induction 1 as [|a l _ IH Ha]; intros i j x y Hi Hj Hlt.
  - rewrite lookup_nil in Hi. discriminate.
  - destruct j as [|j]; [lia|]. destruct i as [|i].
    + injection Hi as <-. rewrite Forall_forall in Ha. apply Ha.
      eapply list_elem_of_lookup_2, Hj.
    + apply (IH i j); [exact Hi | exact Hj | lia].
Qed.

Section Sorted.

Context {A : Type}.
Variable exchange : A -> A -> bool.

Lemma bubbleStep_in_order (l : list A) j :
  StronglySorted (BubbleFacts.inOrder exchange) l -> Bubble.bubbleStep exchange l j = l.
Proof.
  intros Hs. unfold Bubble.bubbleStep.
  destruct (l !! j) as [a|] eqn:Ha; [|reflexivity].
  destruct (l !! S j) as [b|] eqn:Hb; [|reflexivity].
  rewrite (StronglySorted_lookup _ l Hs j (S j) a b Ha Hb); [reflexivity | lia].
Qed.

Lemma bubblePass_in_order (l : list A) n :
  StronglySorted (BubbleFacts.inOrder exchange) l -> Bubble.bubblePass exchange n l = l.
Proof.
  intros Hs. unfold Bubble.bubblePass. generalize 0%nat.
  induction n as [|n IH]; intros a; [reflexivity|].
  cbn [seq fold_left]. rewrite bubbleStep_in_order by exact Hs. apply IH.
Qed.

(** The sort leaves a list that is in order as it is. *)
Lemma bubbleSort_in_order (l : list A) :
  StronglySorted (BubbleFacts.inOrder exchange) l -> Bubble.bubbleSort exchange l = l.
Proof.
  intros Hs. unfold Bubble.bubbleSort. cbv zeta.
  generalize (length l) at 1. intros n.
  generalize (seq 0 (length l - 1)). intros rounds.
  induction rounds as [|i rounds IH]; [reflexivity|].
  cbn [fold_left]. rewrite bubblePass_in_order by exact Hs. exact IH.
Qed.

End Sorted.

(** X5.  [sortByDepth] returns a list that is in its order as it is, so
    that sorting a second time changes nothing. *)
Theorem sortByDepth_idempotent :
  (forall files, StronglySorted deeperFirst files -> sortByDepth files = files)
  /\ (forall files, sortByDepth (sortByDepth files) = sortByDepth files).
Proof.
  assert (Hid : forall files, StronglySorted deeperFirst files -> sortByDepth files = files).
  { intros files Hs. apply bubbleSort_in_order.
    eapply StronglySorted_impl; [|exact Hs].
    intros a b. apply inOrder_deeperFirst. }
  split; [exact Hid|].
  intros files. apply Hid, sortByDepth_sorted.
Qed.

(** *** Below a directory *)

Lemma countSeparators_app a b :
  countSeparators (a +:+ b) = countSeparators a + countSeparators b.
Proof.
  induction a as [|c a IH]; [reflexivity|].
  rewrite FilepathFacts.append_cons. cbn [countSeparators]. rewrite IH. lia.
Qed.

Lemma countSeparators_nonneg a : 0 <= countSeparators a.
Proof.
  induction a as [|c a IH]; [simpl; lia|]. cbn [countSeparators].
  destruct (Ascii.eqb c Filepath.Separator); lia.
Qed.

(** X6.  In the list [Scan] returns, an entry whose path lies below the
    path of another one comes before it: what is in a directory is deleted
    before the directory. *)
Theorem Scan_children_first filepath_Match path recursive opts w files i j a b rest :
  Scan filepath_Match path recursive opts w = inr files ->
  files !! i = Some a -> files !! j = Some b ->
  Path a = Path b +:+ "/" +:+ rest ->
  (i < j)%nat.
Proof.
  intros Hscan Ha Hb Hpath.
  pose proof (Scan_sorted filepath_Match path recursive opts w files Hscan) as Hs.
  assert (Hdepth : depth a > depth b).
  { unfold depth. rewrite Hpath, !countSeparators_app.
    pose proof (countSeparators_nonneg rest). simpl. lia. }
  destruct (lt_eq_lt_dec i j) as [[Hlt | Heq] | Hgt]; [exact Hlt | |].
  - subst j. rewrite Ha in Hb. injection Hb as ->. lia.
  - pose proof (StronglySorted_lookup _ files Hs j i b a Hb Ha Hgt) as [Hd | [Hd _]]; lia.
Qed.

Lemma Scan_children_first_witness :
  exists files a b,
    Scan noGlob "/a" true None (quiet treeABC) = inr files
    /\ files !! 0%nat = Some a /\ files !! 1%nat = Some b
    /\ Path a = "/a/b/c.txt" /\ Path b = "/a/b" /\ (0 < 1)%nat.
Proof.
  eexists _, _, _. split; [vm_compute; reflexivity|].
  split; [reflexivity|]. split; [reflexivity|]. split; [reflexivity|].
  split; [reflexivity|].
  eapply (Scan_children_first noGlob "/a" true None (quiet treeABC) _ 0 1 _ _ "c.txt").
  - vm_compute. reflexivity.
  - reflexivity.
  - reflexivity.
  - reflexivity.
Defined.

(** *** What a recursive scan finds *)

(** [n'] is in the tree [n], at the names [r] from it. *)
Inductive reaches : Node -> list string -> Node -> Prop :=
| reaches_here n : reaches n [] n
| reaches_below a es c x r n' :
    (c, x) ∈ es -> reaches x r n' -> reaches (Dir a es) (c :: r) n'.

(** The path of what is at the names [r] from [path], as the walk joins
    it. *)
Definition below (path : string) (r : list string) : string :=
  fold_left Filepath.Join r path.

Section Glob.

Variable filepath_Match : string -> string -> bool.

(** The entry of the result for the node [n'] at the names [r] from
    [path], when the filter admits it. *)
Definition found (opts : option Filter.Options) (path : string) (n : Node) (f : FileInfo)
    : Prop :=
  exists r n',
    reaches n r n'
    /\ Filter.Match filepath_Match opts (below path r) (info_of n') = true
    /\ f = candidate (below path r) (info_of n') (is_dir n').

Lemma is_dir_info n : Os.IsDir (info_of n) = is_dir n.
Proof. destruct n; reflexivity. Qed.

Lemma scanVisit_elem opts path n acc f :
  f ∈ scanVisit filepath_Match opts path (Some (info_of n)) None acc
  <-> f ∈ acc
      \/ (Filter.Match filepath_Match opts path (info_of n) = true
          /\ f = candidate path (info_of n) (is_dir n)).
Proof.
  unfold scanVisit. rewrite is_dir_info.
  destruct (Filter.Match filepath_Match opts path (info_of n)); cbn [negb].
  - rewrite elem_of_app, list_elem_of_singleton. tauto.
  - split; [tauto | intros [H | [H _]]; [exact H | discriminate]].
Qed.

(** The walk of a tree adds the entries of the nodes of the tree the
    filter admits, and nothing else. *)
Lemma walk_found opts w n :
  readsQuiet w ->
  forall path acc f,
    f ∈ walk (scanVisit filepath_Match opts) w path n acc
    <-> f ∈ acc \/ found opts path n f.
Proof.
  intros Hq. induction n as [a c | a es IH] using Node_induction; intros path acc f.
  - cbn [walk]. rewrite scanVisit_elem. apply or_iff_compat_l. split.
    + intros [Hm ->]. exists [], (File a c). repeat split; [constructor | exact Hm].
    + intros (r & n' & Hr & Hm & ->). inversion Hr; subst. split; [exact Hm | reflexivity].
  - cbn [walk]. rewrite readsQuiet_fails by (assumption || reflexivity).
    set (here := scanVisit filepath_Match opts path (Some (info_of (Dir a es))) None acc).
    assert (Heach : forall es' s,
              Forall (fun e => forall path acc f,
                        f ∈ walk (scanVisit filepath_Match opts) w path (snd e) acc
                        <-> f ∈ acc \/ found opts path (snd e) f) es' ->
              f ∈ (fix each (es : list (string * Node)) (s : list FileInfo) : list FileInfo :=
                     match es with
                     | [] => s
                     | (name, x) :: es0 =>
                         each es0
                           (if fails w (SysLstat (Filepath.Join path name))
                            then scanVisit filepath_Match opts (Filepath.Join path name)
                                   None (Some EIO) s
                            else walk (scanVisit filepath_Match opts) w
                                   (Filepath.Join path name) x s)
                     end) es' s
              <-> f ∈ s
                  \/ exists c x, (c, x) ∈ es' /\ found opts (Filepath.Join path c) x f).
    { induction es' as [|[name x] es' IHes]; intros s Hall.
      - split; [tauto | intros [H | (c & x & Hin & _)]; [exact H | inversion Hin]].
      - apply Forall_cons in Hall as [Hx Hall].
        rewrite readsQuiet_fails by (assumption || reflexivity).
        rewrite (IHes _ Hall). cbn [snd] in Hx. rewrite Hx. split.
        + intros [[H | H] | (c & y & Hin & H)].
          * left. exact H.
          * right. exists name, x. split; [left | exact H].
          * right. exists c, y. split; [right; exact Hin | exact H].
        + intros [H | (c & y & Hin & H)]; [left; left; exact H|].
          apply elem_of_cons in Hin as [[= -> ->] | Hin].
          * left. right. exact H.
          * right. exists c, y. split; assumption. }
    rewrite (Heach es here IH). unfold here. rewrite scanVisit_elem. split.
    + intros [[H | [Hm ->]] | (c & x & Hin & r & n' & Hr & Hm & ->)].
      * left. exact H.
      * right. exists [], (Dir a es). repeat split; [constructor | exact Hm].
      * right. exists (c :: r), n'. split; [econstructor; eassumption|].
        split; [exact Hm | reflexivity].
    + intros [H | (r & n' & Hr & Hm & ->)]; [left; left; exact H|].
      inversion Hr as [|a' es' c x r' n'' Hin Hr']; subst.
      * left. right. split; [exact Hm | reflexivity].
      * right. exists c, x. split; [exact Hin|]. exists r', n'. repeat split; assumption.
Qed.

(** X7.  Where every read goes through, the recursive [Scan] of a
    directory returns the entries of the nodes at and below the directory
    that [Match] admits, each with its path, size, mode, time and kind,
    and no other entry. *)
Theorem Scan_finds_what_matches path opts w absPath n0 :
  readsQuiet w ->
  filepath_Abs path w = inr absPath ->
  lookup (path_of absPath) (root w) = Some n0 ->
  is_dir n0 = true ->
  exists files,
    Scan filepath_Match path true opts w = inr files
    /\ forall f, f ∈ files <-> found opts absPath n0 f.
Proof.
  intros Hq Habs Hlook Hdir. unfold Scan. rewrite Habs.
  unfold os_Lstat. rewrite readsQuiet_fails by (assumption || reflexivity).
  rewrite Hlook, is_dir_info, Hdir. cbn [negb].
  eexists. split; [reflexivity|]. intros f.
  destruct (sortByDepth_sorted
              (filepath_Walk absPath (scanVisit filepath_Match opts) w [])) as [_ Hperm].
  rewrite <- Hperm. unfold filepath_Walk.
  rewrite readsQuiet_fails by (assumption || reflexivity). rewrite Hlook.
  rewrite (walk_found opts w n0 Hq). split; [intros [H | H]; [inversion H | exact H] | auto].
Qed.

End Glob.

Lemma Scan_finds_what_matches_witness :
  exists files,
    Scan noGlob "/a" true None (quiet treeABC) = inr files
    /\ candidate "/a/b/c.txt" (info_of emptyFile) false ∈ files.
Proof.
  destruct (Scan_finds_what_matches noGlob "/a" None (quiet treeABC) "/a"
              (Dir (attr 0) [("b", Dir (attr 0) [("c.txt", emptyFile)])]))
    as (files & Hscan & Hfiles).
  - intros hst c _. reflexivity.
  - reflexivity.
  - reflexivity.
  - reflexivity.
  - exists files. split; [exact Hscan|]. apply Hfiles.
    exists ["b"; "c.txt"], emptyFile. split; [|split; reflexivity].
    econstructor; [left|]. econstructor; [left|]. constructor.
Defined.

End ScannerMore.

(* ----------------------------------------------------------------- *)
(** ** Machine integers: sums that wrap around *)

Module Int64Facts.

Import Int64.

Lemma modulus_pos : 0 < modulus.
Proof. reflexivity. Qed.

Lemma modulus_half : modulus = 2 * half.
Proof. reflexivity. Qed.

Lemma wrap_in_range z : in_range (wrap z).
Proof.
  unfold in_range, wrap, min, max.
  pose proof (Z.mod_pos_bound (z + half) modulus modulus_pos).
  rewrite modulus_half in *. lia.
Qed.

Lemma wrap_id z : in_range z -> wrap z = z.
Proof.
  unfold in_range, wrap, min, max. intros H.
  rewrite Z.mod_small; [lia|]. rewrite modulus_half. lia.
Qed.

(** Wrapping changes a number by a multiple of the modulus. *)
Lemma wrap_shift z : exists k, wrap z = z + k * modulus.
Proof.
  exists (- ((z + half) / modulus)). unfold wrap.
  pose proof (Z.div_mod (z + half) modulus) as H.
  specialize (H ltac:(pose proof modulus_pos; lia)). lia.
Qed.

Lemma wrap_add_multiple z k : wrap (z + k * modulus) = wrap z.
Proof.
  unfold wrap. replace (z + k * modulus + half) with (z + half + k * modulus) by lia.
  rewrite Z.mod_add by (pose proof modulus_pos; lia). reflexivity.
Qed.

Lemma wrap_add_l a b : wrap (wrap a + b) = wrap (a + b).
Proof.
  destruct (wrap_shift a) as [k ->].
  replace (a + k * modulus + b) with (a + b + k * modulus) by lia.
  apply wrap_add_multiple.
Qed.

Lemma wrap_sub_l a b : wrap (wrap a - b) = wrap (a - b).
Proof.
  destruct (wrap_shift a) as [k ->].
  replace (a + k * modulus - b) with (a - b + k * modulus) by lia.
  apply wrap_add_multiple.
Qed.

Lemma add_in_range a b : in_range (add a b).
Proof. apply wrap_in_range. Qed.

Lemma add_comm a b : add a b = add b a.
Proof. unfold add. f_equal. lia. Qed.

Lemma add_assoc a b c : add (add a b) c = add a (add b c).
Proof.
  unfold add. rewrite wrap_add_l.
  replace (a + wrap (b + c)) with (wrap (b + c) + a) by lia.
  rewrite wrap_add_l. f_equal. lia.
Qed.

Lemma add_0_r a : in_range a -> add a 0 = a.
Proof. intros H. unfold add. rewrite Z.add_0_r. apply wrap_id, H. Qed.

Lemma sub_0_r a : in_range a -> sub a 0 = a.
Proof. intros H. unfold sub. rewrite Z.sub_0_r. apply wrap_id, H. Qed.

End Int64Facts.

(* ----------------------------------------------------------------- *)
(** ** The trash store: the manager, the listing and the sweep *)

Module TrashMore.

Import Os OsFacts OsMore Trash TrashFacts.

Lemma files_apart_meta h r :
  apart (storeAt h ++ ["files"]) ((storeAt h ++ ["meta"]) ++ r) = true.
Proof.
  apply apart_below. apply apart_intro. discriminate.
Qed.

Lemma meta_apart_files h r :
  apart (storeAt h ++ ["meta"]) ((storeAt h ++ ["files"]) ++ r) = true.
Proof.
  apply apart_below. apply apart_intro. discriminate.
Qed.

(** What a call of [NewManager] without error has done to the tree. *)
Lemma NewManager_inv w w' m :
  fault_free w -> NewManager w = (w', inr m) ->
  exists t1,
    m = managerAt (home w)
    /\ mkdir_all (mkAttr dir_size perm_dir (now w)) (storeAt (home w) ++ ["files"]) (root w)
       = Some t1
    /\ mkdir_all (mkAttr dir_size perm_dir (now w)) (storeAt (home w) ++ ["meta"]) t1
       = Some (root w')
    /\ fault_free w' /\ home w' = home w.
Proof.
  intros Hff Hnew. pose proof (NewManager_managerAt w w' m Hnew) as Hm.
  unfold NewManager, os_UserHomeDir in Hnew.
  destruct (String.eqb (home w) ""); [discriminate|].
  change (Filepath.Join (Filepath.Join (home w) ".nuke-trash") "files")
    with (trashDir (managerAt (home w))) in Hnew.
  change (Filepath.Join (Filepath.Join (home w) ".nuke-trash") "meta")
    with (metaDir (managerAt (home w))) in Hnew.
  rewrite os_MkdirAll_fault_free, trashDir_path in Hnew by exact Hff.
  destruct (mkdir_all _ (storeAt (home w) ++ ["files"]) (root w)) as [t1|] eqn:H1;
    [|discriminate].
  rewrite os_MkdirAll_fault_free, metaDir_path in Hnew
    by (apply fault_free_with_root, fault_free_logged, Hff).
  cbn [root with_root logged now] in Hnew.
  destruct (mkdir_all _ (storeAt (home w) ++ ["meta"]) t1) as [t2|] eqn:H2; [|discriminate].
  injection Hnew as <- _. exists t1. split; [exact Hm|]. split; [reflexivity|].
  split; [exact H2|]. split; [|reflexivity].
  do 2 apply fault_free_with_root, fault_free_logged. exact Hff.
Qed.

(** [NewManager] goes through where the two directories are there. *)
Lemma NewManager_again w a1 es1 a2 es2 :
  fault_free w -> home w <> "" ->
  lookup (storeAt (home w) ++ ["files"]) (root w) = Some (Dir a1 es1) ->
  lookup (storeAt (home w) ++ ["meta"]) (root w) = Some (Dir a2 es2) ->
  exists w', NewManager w = (w', inr (managerAt (home w))).
Proof.
  intros Hff Hhome Hf Hm. unfold NewManager, os_UserHomeDir.
  apply String.eqb_neq in Hhome. rewrite Hhome.
  change (Filepath.Join (Filepath.Join (home w) ".nuke-trash") "files")
    with (trashDir (managerAt (home w))).
  change (Filepath.Join (Filepath.Join (home w) ".nuke-trash") "meta")
    with (metaDir (managerAt (home w))).
  rewrite os_MkdirAll_fault_free, trashDir_path by exact Hff.
  destruct (mkdir_all_existing (mkAttr dir_size perm_dir (now w)) _ _ _ _ Hf) as [t1 H1].
  rewrite H1.
  rewrite os_MkdirAll_fault_free, metaDir_path
    by (apply fault_free_with_root, fault_free_logged, Hff).
  cbn [root with_root logged now].
  assert (Hm1 : lookup (storeAt (home w) ++ ["meta"]) t1 = Some (Dir a2 es2)).
  { pose proof (files_apart_meta (home w) []) as Hap. rewrite app_nil_r in Hap.
    rewrite (lookup_mkdir_all_parted _ _ _ _ _ Hap H1). exact Hm. }
  destruct (mkdir_all_existing (mkAttr dir_size perm_dir (now w)) _ _ _ _ Hm1) as [t2 H2].
  rewrite H2. eauto.
Qed.

(** X8.  Where no call fails, after a call of [NewManager] without error
    the staging directory and the metadata directory are there; what was
    below them before is below them as it was; and a second call goes
    through as well and returns the same manager. *)
Theorem NewManager_store w w' m :
  fault_free w -> NewManager w = (w', inr m) ->
  (exists a es, lookup (path_of (trashDir m)) (root w') = Some (Dir a es))
  /\ (exists a es, lookup (path_of (metaDir m)) (root w') = Some (Dir a es))
  /\ (forall r, r <> [] ->
        lookup (path_of (trashDir m) ++ r) (root w')
        = lookup (path_of (trashDir m) ++ r) (root w))
  /\ (forall r, r <> [] ->
        lookup (path_of (metaDir m) ++ r) (root w')
        = lookup (path_of (metaDir m) ++ r) (root w))
  /\ exists w'', NewManager w' = (w'', inr m).
Proof.
  intros Hff Hnew.
  destruct (NewManager_inv w w' m Hff Hnew) as (t1 & -> & H1 & H2 & Hff' & Hhome).
  set (h := home w) in *. rewrite trashDir_path, metaDir_path.
  pose proof (files_apart_meta h []) as Hfm. rewrite app_nil_r in Hfm.
  pose proof (meta_apart_files h []) as Hmf. rewrite app_nil_r in Hmf.
  destruct (mkdir_all_made _ _ _ _ H1) as (a1 & es1 & Hf1).
  destruct (mkdir_all_made _ _ _ _ H2) as (a2 & es2 & Hm2).
  assert (Hf2 : lookup (storeAt h ++ ["files"]) (root w') = Some (Dir a1 es1))
    by (rewrite (lookup_mkdir_all_parted _ _ _ _ _ Hmf H2); exact Hf1).
  split; [eauto|]. split; [eauto|]. split; [|split].
  - intros r Hr.
    rewrite (lookup_mkdir_all_parted _ _ _ _ _ (meta_apart_files h r) H2).
    apply (lookup_mkdir_all_below _ _ _ _ _ Hr H1).
  - intros r Hr.
    rewrite (lookup_mkdir_all_below _ _ _ _ _ Hr H2).
    apply (lookup_mkdir_all_parted _ _ _ _ _ (files_apart_meta h r) H1).
  - assert (Hne : home w' <> "").
    { rewrite Hhome. unfold NewManager, os_UserHomeDir in Hnew. fold h in Hnew.
      destruct (String.eqb_spec h ""); [discriminate | assumption]. }
    rewrite <- Hhome in Hf2, Hm2 |- *.
    apply (NewManager_again w' a1 es1 a2 es2 Hff' Hne Hf2 Hm2).
Qed.

(** *** The listing *)

Lemma sum64_in_range from items :
  Int64.in_range from -> Int64.in_range (sum64 from items).
Proof.
  revert from. induction items as [|e items IH]; intros from H; [exact H|].
  cbn [sum64 fold_left]. apply IH, Int64Facts.add_in_range.
Qed.

Lemma listOne_present m name w e :
  listOne m name w = Some e -> is_ok (os_Stat (TrashPath e) w) = true.
Proof.
  unfold listOne. destruct (negb _); [discriminate|].
  destruct (os_ReadFile _ w) as [err | data]; [discriminate|].
  destruct (json_Unmarshal data) as [e0|]; [|discriminate].
  destruct (os_Stat (TrashPath e0) w) as [err | info] eqn:Hstat; [discriminate|].
  intros [= <-]. destruct (Os.IsDir info); cbn [withSize TrashPath]; rewrite Hstat; reflexivity.
Qed.

(** X9.  [List] fails only when the metadata directory cannot be read.
    The total it returns is the sum of the sizes of the entries it returns
    (a sum that wraps around, and is within the range of [int64]); and it
    returns an entry only for a record whose staged data [os.Stat] finds:
    a record without its data is passed over, and is no error. *)
Theorem List_total_and_presence m w :
  match List m w with
  | inl err => os_ReadDir (metaDir m) w = inl err
  | inr (entries, total) =>
      total = sum64 0 entries
      /\ Int64.in_range total
      /\ Forall (fun e => is_ok (os_Stat (TrashPath e) w) = true) entries
  end.
Proof.
  unfold List. destruct (os_ReadDir (metaDir m) w) as [err | names]; [reflexivity|].
  rewrite listLoop_listItems. cbn [app]. split; [reflexivity|]. split.
  - apply sum64_in_range. unfold Int64.in_range, Int64.min, Int64.max, Int64.half. lia.
  - apply Forall_forall. intros e He. unfold listItems in He.
    apply list_elem_of_omap in He as (name & _ & He). eapply listOne_present, He.
Qed.

(** *** [Empty], and what comes after it *)

(** X10.  Where no call fails, after a call of [Empty] without error
    [List] returns no entry and the total 0, and [AutoCleanup] finds
    nothing to do: it returns 0 items and 0 bytes and leaves the world as
    it is. *)
Theorem Empty_then_List w0 w0' m w w1 retentionDays maxSizeMB :
  NewManager w0 = (w0', inr m) ->
  fault_free w ->
  Empty m w = (w1, None) ->
  List m w1 = inr ([], 0)
  /\ AutoCleanup m retentionDays maxSizeMB w1 = (w1, inr (0, 0)).
Proof.
  intros Hnew Hff HE. apply NewManager_managerAt in Hnew. subst m.
  destruct (Empty_leaves_empty _ w w1 Hff HE) as [_ [a Hm]].
  destruct (Empty_inv _ w w1 Hff HE) as (_ & _ & _ & Hff1 & _).
  assert (Hlist : List (managerAt (home w0)) w1 = inr ([], 0)).
  { rewrite List_readsQuiet by (apply fault_free_readsQuiet, Hff1). rewrite Hm. reflexivity. }
  split; [exact Hlist|]. unfold AutoCleanup. rewrite Hlist. reflexivity.
Qed.

(** *** [AutoCleanup] with nothing to do *)

Lemma firstPass_none m cutoffTime : forall entries s,
  Forall (fun e => expired cutoffTime e = false) entries ->
  firstPass m cutoffTime entries s = s.
Proof.
  induction entries as [|e entries IH]; intros s Hall; [reflexivity|].
  apply Forall_cons in Hall as [He Hall]. cbn [firstPass].
  unfold expired in He. rewrite He. apply IH, Hall.
Qed.

(** X11.  When no entry [List] returns is older than the cutoff and the
    total is within the limit, [AutoCleanup] makes no call that changes
    anything: it returns 0 items and 0 bytes, and the world is as it
    was. *)
Theorem AutoCleanup_nothing_to_do m retentionDays maxSizeMB w entries total :
  List m w = inr (entries, total) ->
  Forall (fun e => expired (cutoffOf w retentionDays) e = false) entries ->
  total <= limitOf maxSizeMB ->
  AutoCleanup m retentionDays maxSizeMB w = (w, inr (0, 0)).
Proof.
  intros Hlist Hnone Hcap. unfold AutoCleanup. rewrite Hlist.
  destruct entries as [|e entries]; [reflexivity|].
  pose proof (List_total_and_presence m w) as Hfacts. rewrite Hlist in Hfacts.
  destruct Hfacts as (_ & Hrange & _).
  unfold afterFirstPass. fold (cutoffOf w retentionDays).
  rewrite firstPass_none by exact Hnone.
  cbn [world itemsRemoved bytesFreed newTotalSize].
  rewrite Int64Facts.sub_0_r by exact Hrange. fold (limitOf maxSizeMB).
  replace (total >? limitOf maxSizeMB) with false; [reflexivity|].
  symmetry. rewrite Z.gtb_ltb. apply Z.ltb_ge. exact Hcap.
Qed.

(** *** [copyPath] *)

(** X12.  A call of [copyPath] writes files and makes directories, and
    makes no other call that changes the file system: it removes nothing
    and renames nothing; and when it returns no error, none of its calls
    has failed. *)
Theorem copyPath_only_writes src dst w :
  exists evs,
    log (fst (copyPath src dst w)) = log w ++ evs
    /\ Forall (fun ev => match fst ev with
                         | SysWriteFile _ | SysMkdirAll _ => True
                         | _ => False
                         end) evs
    /\ (snd (copyPath src dst w) = None -> Forall (fun ev => snd ev = None) evs).
Proof. apply copyPath_copied. Qed.

(** *** [MoveToTrash] *)

(** The environment fails the writing of files at the paths [bad] says,
    and nothing else. *)
Definition writeFaults (bad : string -> bool) (w : World) : Prop :=
  forall hst c, faulty w hst c = match c with SysWriteFile p => bad p | _ => false end.

Lemma writeFaults_none w : fault_free w <-> writeFaults (fun _ => false) w.
Proof.
  split; intros H hst c.
  - rewrite H. destruct c; reflexivity.
  - rewrite H. destruct c; reflexivity.
Qed.

Lemma writeFaults_readsQuiet bad w : writeFaults bad w -> readsQuiet w.
Proof. intros H hst c Hc. rewrite H. destruct c; try discriminate; reflexivity. Qed.

Lemma writeFaults_moved bad t c r w :
  writeFaults bad w -> writeFaults bad (with_root t (logged c r w)).
Proof. intros H hst c'. apply H. Qed.

Lemma writeFaults_logged bad c r w : writeFaults bad w -> writeFaults bad (logged c r w).
Proof. intros H hst c'. apply H. Qed.

(** The name [MoveToTrash] stages [absPath] under at the time [t]. *)
Definition trashNameOf (t : Z) (absPath : string) : string :=
  decimal t +:+ "_" +:+ Filepath.Base absPath.

Section Json.

Variable json_length : TrashEntry -> Z.

(** The record [MoveToTrash] writes for the node [x] found at [absPath]. *)
Definition recordFor (h : string) (w : World) (absPath : string) (x : Node) : TrashEntry :=
  mkEntry absPath
    (Filepath.Join (trashDir (managerAt h)) (trashNameOf (now w) absPath))
    (now w) (Os.Size (info_of x)) (Os.IsDir (info_of x)).

Definition recordFile (h : string) (w : World) (absPath : string) (x : Node) : Node :=
  File (mkAttr (json_length (recordFor h w absPath x)) perm_file (now w))
    (Doc absPath
       (Filepath.Join (trashDir (managerAt h)) (trashNameOf (now w) absPath))
       (now w) (Os.Size (info_of x)) (Os.IsDir (info_of x))).

(** [MoveToTrash] of something outside the store, where the rename goes
    through and nothing is staged under the name yet: the original path is
    free afterwards and the data is staged; the record is in the metadata
    directory, unless the environment fails the writing of it. *)
Lemma MoveToTrash_moves bad h path w absPath x a1 es1 a2 es2 :
  let name := trashNameOf (now w) absPath in
  let metaPath := Filepath.Join (metaDir (managerAt h)) (name +:+ ".json") in
  writeFaults bad w ->
  filepath_Abs path w = inr absPath ->
  lookup (path_of absPath) (root w) = Some x ->
  Filepath.simple_name name = true ->
  apart (path_of absPath) (storeAt h) = true ->
  lookup (storeAt h ++ ["files"]) (root w) = Some (Dir a1 es1) ->
  lookup (storeAt h ++ ["meta"]) (root w) = Some (Dir a2 es2) ->
  lookup ((storeAt h ++ ["files"]) ++ [name]) (root w) = None ->
  assoc (name +:+ ".json") es2 = None ->
  exists w',
    MoveToTrash json_length (managerAt h) path w
    = (w', if bad metaPath then Some (SaveMetadataError EIO) else None)
    /\ lookup (path_of absPath) (root w') = None
    /\ lookup ((storeAt h ++ ["files"]) ++ [name]) (root w') = Some x
    /\ lookup (storeAt h ++ ["meta"]) (root w')
       = Some (Dir a2 (if bad metaPath then es2
                       else es_put (name +:+ ".json") (recordFile h w absPath x) es2))
    /\ writeFaults bad w' /\ now w' = now w
    /\ forall p a es,
         lookup p (root w) = Some (Dir a es) ->
         is_prefix (path_of absPath) p = false ->
         is_prefix ((storeAt h ++ ["files"]) ++ [name]) p = false ->
         is_prefix ((storeAt h ++ ["meta"]) ++ [name +:+ ".json"]) p = false ->
         exists a' es', lookup p (root w') = Some (Dir a' es').
Proof.
  intros name metaPath Hf Habs Hx Hname Hout Hfiles Hmeta Hfree Hnorec.
  pose proof (writeFaults_readsQuiet bad w Hf) as Hq.
  set (s := path_of absPath) in *.
  set (filesAt := storeAt h ++ ["files"]) in *.
  set (metaAt := storeAt h ++ ["meta"]) in *.
  assert (Hd : path_of (Filepath.Join (trashDir (managerAt h)) name) = filesAt ++ [name])
    by (apply path_staged, Hname).
  assert (Hmp : path_of metaPath = metaAt ++ [name +:+ ".json"])
    by (apply path_record, simple_json, Hname).
  assert (Hs_f : apart s filesAt = true) by (apply apart_below, Hout).
  assert (Hs_m : apart s metaAt = true) by (apply apart_below, Hout).
  assert (Hs_d : apart s (filesAt ++ [name]) = true) by (apply apart_below, Hs_f).
  assert (Hs_mp : apart s (metaAt ++ [name +:+ ".json"]) = true) by (apply apart_below, Hs_m).
  assert (Hd_m : apart (filesAt ++ [name]) metaAt = true)
    by (rewrite apart_sym; apply (meta_apart_files h [name])).
  assert (Hd_mp : apart (filesAt ++ [name]) (metaAt ++ [name +:+ ".json"]) = true)
    by (apply apart_below, Hd_m).
  destruct (remove_at_keeps_dir s filesAt (root w) a1 es1 Hfiles (apart_not_prefix _ _ Hs_f))
    as (a1' & es1' & Hfiles1).
  destruct (put_at_ok x name filesAt (remove_at s (root w)) a1' es1' Hfiles1) as [t1 Hput1].
  assert (Hmeta1 : lookup metaAt t1 = Some (Dir a2 es2)).
  { rewrite (lookup_put_at_parted _ _ _ _ _ Hd_m Hput1).
    rewrite lookup_remove_at_parted by exact Hs_m. exact Hmeta. }
  unfold MoveToTrash. rewrite Habs.
  unfold os_Lstat. rewrite readsQuiet_fails by (assumption || reflexivity).
  fold s. rewrite Hx. cbv zeta.
  fold (trashNameOf (now w) absPath). fold name.
  unfold os_Rename, effect at 1. unfold fails. rewrite Hf. cbv zeta.
  rewrite Hd. fold s. rewrite Hx, (apart_not_prefix _ _ Hs_d), Hfree, Hput1.
  set (w1 := with_root t1 _).
  assert (Hf1 : writeFaults bad w1) by (apply writeFaults_moved, Hf).
  fold metaPath. unfold os_WriteFile, effect. unfold fails. rewrite Hf1.
  destruct (bad metaPath) eqn:Hbad.
  - eexists. split; [reflexivity|]. cbn [root logged with_root now].
    subst w1. cbn [root with_root].
    split; [|split; [|split; [exact Hmeta1|split; [|split; [reflexivity|]]]]].
    + rewrite (lookup_put_at_parted _ _ _ _ _ (eq_trans (apart_sym _ _) Hs_d) Hput1).
      apply lookup_remove_at_same. apply (apart_nonempty _ _ Hs_f).
    + apply (lookup_put_at_same _ _ _ _ Hput1).
    + apply writeFaults_logged, Hf1.
    + intros p a es Hp Hsp Hdp _.
      destruct (remove_at_keeps_dir s p (root w) a es Hp Hsp) as (a' & es' & Hp1).
      apply (put_at_keeps_dir x _ p _ t1 a' es' Hp1 Hdp Hput1).
  - change (root w1) with t1. rewrite Hmp, lookup_child, Hmeta1, Hnorec.
    destruct (put_at_ok
                (File (mkAttr (d_len (json_MarshalIndent json_length
                                        (mkEntry absPath
                                           (Filepath.Join (trashDir (managerAt h)) name)
                                           (now w1) (Os.Size (info_of x))
                                           (Os.IsDir (info_of x)))))
                         perm_file (now w1))
                   (d_content (json_MarshalIndent json_length
                                 (mkEntry absPath
                                    (Filepath.Join (trashDir (managerAt h)) name)
                                    (now w1) (Os.Size (info_of x))
                                    (Os.IsDir (info_of x))))))
                (name +:+ ".json") metaAt t1 a2 es2 Hmeta1) as [t2 Hput2].
    rewrite Hput2. eexists. split; [reflexivity|]. cbn [root logged with_root now].
    split; [|split; [|split; [|split; [|split; [reflexivity|]]]]].
    + rewrite (lookup_put_at_parted _ _ _ _ _ (eq_trans (apart_sym _ _) Hs_mp) Hput2).
      rewrite (lookup_put_at_parted _ _ _ _ _ (eq_trans (apart_sym _ _) Hs_d) Hput1).
      apply lookup_remove_at_same. apply (apart_nonempty _ _ Hs_f).
    + rewrite (lookup_put_at_parted _ _ _ _ _ (eq_trans (apart_sym _ _) Hd_mp) Hput2).
      apply (lookup_put_at_same _ _ _ _ Hput1).
    + apply (lookup_put_at_parent _ _ _ _ _ _ _ Hmeta1 Hput2).
    + apply writeFaults_moved, Hf1.
    + intros p a es Hp Hsp Hdp Hmpp.
      destruct (remove_at_keeps_dir s p (root w) a es Hp Hsp) as (a' & es' & Hp1).
      destruct (put_at_keeps_dir x _ p _ t1 a' es' Hp1 Hdp Hput1) as (a3 & es3 & Hp2).
      apply (put_at_keeps_dir _ _ p _ t2 a3 es3 Hp2 Hmpp Hput2).
Qed.

End Json.

(** The places [MoveToTrash] stages [absPath] at and writes its record
    at. *)
Definition stagedAt (h : string) (w : World) (absPath : string) : list string :=
  (storeAt h ++ ["files"]) ++ [trashNameOf (now w) absPath].

Definition recordAt (h : string) (w : World) (absPath : string) : list string :=
  (storeAt h ++ ["meta"]) ++ [trashNameOf (now w) absPath +:+ ".json"].

(** [absPath] names [x], outside the store of the manager; the two
    directories of the store are there, and the two names [MoveToTrash]
    will use in them are free. *)
Definition stageable (h : string) (w : World) (absPath : string) (x : Node) : Prop :=
  lookup (path_of absPath) (root w) = Some x
  /\ Filepath.simple_name (trashNameOf (now w) absPath) = true
  /\ apart (path_of absPath) (storeAt h) = true
  /\ (exists a es, lookup (storeAt h ++ ["files"]) (root w) = Some (Dir a es))
  /\ (exists a es, lookup (storeAt h ++ ["meta"]) (root w) = Some (Dir a es))
  /\ lookup (stagedAt h w absPath) (root w) = None
  /\ lookup (recordAt h w absPath) (root w) = None.

Lemma HasSuffix_append s suf : Filepath.HasSuffix (s +:+ suf) suf = true.
Proof.
  induction s as [|c s IH].
  - change (Filepath.HasSuffix suf suf = true). destruct suf as [|c suf]; [reflexivity|].
    change ((String.eqb (String c suf) (String c suf)
             || Filepath.HasSuffix suf (String c suf)) = true).
    rewrite String.eqb_refl. reflexivity.
  - change ((String.eqb (String c (s +:+ suf)) suf || Filepath.HasSuffix (s +:+ suf) suf)
            = true).
    rewrite IH. apply orb_true_r.
Qed.

Lemma assoc_None_ne nm es :
  assoc nm es = None -> Forall (fun ne : string * Node => fst ne <> nm) es.
Proof.
  induction es as [|[n y] es IH]; intros H; [constructor|].
  cbn [assoc] in H. destruct (String.eqb n nm) eqn:E; [discriminate|].
  constructor; [apply String.eqb_neq, E | apply IH, H].
Qed.

(** A new name is put between the entries that were there. *)
Lemma es_put_split nm x es :
  assoc nm es = None ->
  exists before after, es = before ++ after /\ es_put nm x es = before ++ (nm, x) :: after.
Proof.
  induction es as [|[n y] es IH]; intros H.
  - exists [], []. split; reflexivity.
  - cbn [assoc] in H. cbn [es_put]. destruct (String.eqb n nm); [discriminate|].
    destruct (String.ltb nm n).
    + exists [], ((n, y) :: es). split; reflexivity.
    + destruct (IH H) as (before & after & -> & ->).
      exists ((n, y) :: before), after. split; reflexivity.
Qed.

(** What [Restore] does when it finds the record is never the answer that
    there is none. *)
Lemma restoreEntry_found metaPath e w filename :
  snd (restoreEntry metaPath e w) <> Some (NotInTrash filename).
Proof.
  unfold restoreEntry.
  destruct (IsNotExist (os_Stat (TrashPath e) w)); [discriminate|].
  destruct (is_ok (os_Stat (OriginalPath e) w)); [discriminate|]. cbv zeta.
  destruct (os_MkdirAll (Filepath.Dir (OriginalPath e)) perm_dir w) as [w1 [err|]];
    [discriminate|].
  destruct (os_Rename (TrashPath e) (OriginalPath e) w1) as [w2 [err|]].
  - destruct (copyPath (TrashPath e) (OriginalPath e) w2) as [w3 [err'|]]; [discriminate|].
    destruct (os_RemoveAll (TrashPath e) w3) as [w4 r4].
    destruct (os_Remove metaPath w4) as [w5 r5]. discriminate.
  - destruct (os_Remove metaPath w2) as [w3 r3]. discriminate.
Qed.

(** When [Restore] answers that nothing is there, no record passes its
    test. *)
Lemma Restore_none_wanted m filename w a es :
  readsQuiet w ->
  lookup (path_of (metaDir m)) (root w) = Some (Dir a es) ->
  snd (Restore m filename w) = Some (NotInTrash filename) ->
  Forall (fun r => wanted filename (snd r) = false)
    (records m (List.map (fun e => (fst e, is_dir (snd e))) es) w).
Proof.
  intros Hq Hm. unfold Restore. rewrite os_ReadDir_readsQuiet, Hm by exact Hq.
  rewrite restoreLoop_selected. unfold selected.
  pose proof (find_first (fun r => wanted filename (snd r))
                (records m (List.map (fun e => (fst e, is_dir (snd e))) es) w)) as Hfind.
  destruct (List.find _ _) as [[metaPath e]|]; [|intros _; exact Hfind].
  intros H. destruct (restoreEntry_found _ _ _ _ H).
Qed.

Lemma records_app m es es' w :
  records m (es ++ es') w = records m es w ++ records m es' w.
Proof. unfold records. apply omap_app. Qed.

Lemma records_agree m w w' entries :
  Forall (fun e : string * bool => readRecord m (fst e) w' = readRecord m (fst e) w) entries ->
  records m entries w' = records m entries w.
Proof.
  induction 1 as [|e entries He _ IH]; [reflexivity|].
  unfold records. cbn [omap list_omap]. fold (records m entries w') (records m entries w).
  rewrite He, IH. reflexivity.
Qed.

(** A record reads the same in two worlds where the metadata directory has
    the same under its name. *)
Lemma readRecord_sibling h n w w' a es a' es' :
  readsQuiet w -> readsQuiet w' ->
  Filepath.simple_name n = true ->
  lookup (storeAt h ++ ["meta"]) (root w) = Some (Dir a es) ->
  lookup (storeAt h ++ ["meta"]) (root w') = Some (Dir a' es') ->
  assoc n es' = assoc n es ->
  readRecord (managerAt h) n w' = readRecord (managerAt h) n w.
Proof.
  intros Hq Hq' Hn Hm Hm' Hassoc. unfold readRecord.
  destruct (negb (Filepath.HasSuffix n ".json")); [reflexivity|].
  rewrite !os_ReadFile_readsQuiet by assumption.
  rewrite (path_record h n Hn).
  rewrite (lookup_child _ n (root w)), (lookup_child _ n (root w')), Hm, Hm', Hassoc.
  reflexivity.
Qed.

Section Json.

Variable json_length : TrashEntry -> Z.

(** X13.  [MoveToTrash] of a regular file or a directory outside the store,
    when no call fails and the two names it uses in the store are free: it
    returns no error, nothing is at the original path afterwards, the same
    node is under [<trashDir>/<UnixNano>_<base name>], and the record is
    under the same name with [.json] in the metadata directory.  [List]
    asks [os.Stat] for the staged path and passes over the record when that
    fails: where [os.Stat] finds the staged path, [List] returns an entry
    with the original path, the staged path and the time of the call. *)
Theorem MoveToTrash_stages h path w absPath x :
  fault_free w ->
  filepath_Abs path w = inr absPath ->
  stageable h w absPath x ->
  exists w',
    MoveToTrash json_length (managerAt h) path w = (w', None)
    /\ lookup (path_of absPath) (root w') = None
    /\ lookup (stagedAt h w absPath) (root w') = Some x
    /\ lookup (recordAt h w absPath) (root w')
       = Some (recordFile json_length h w absPath x)
    /\ (is_ok (os_Stat (Filepath.Join (trashDir (managerAt h))
                          (trashNameOf (now w) absPath)) w') = true ->
        exists entries total e,
          List (managerAt h) w' = inr (entries, total)
          /\ e ∈ entries
          /\ OriginalPath e = absPath
          /\ TrashPath e
             = Filepath.Join (trashDir (managerAt h)) (trashNameOf (now w) absPath)
          /\ DeletedAt e = now w).
Proof.
  intros Hff Habs (Hx & Hname & Hout & (a1 & es1 & Hfiles) & (a2 & es2 & Hmeta)
                   & Hfree & Hnorec).
  unfold recordAt in Hnorec. rewrite lookup_child, Hmeta in Hnorec.
  destruct (MoveToTrash_moves json_length (fun _ => false) h path w absPath x a1 es1 a2 es2
              (proj1 (writeFaults_none w) Hff) Habs Hx Hname Hout Hfiles Hmeta Hfree Hnorec)
    as (w' & Hrun & Hgone & Hstaged & Hmeta' & Hf' & Hnow & _).
  cbv beta iota in Hrun, Hmeta'.
  apply writeFaults_none in Hf'. pose proof (fault_free_readsQuiet w' Hf') as Hq'.
  assert (Hrec : lookup (recordAt h w absPath) (root w')
                 = Some (recordFile json_length h w absPath x))
    by (unfold recordAt; rewrite lookup_child, Hmeta'; apply assoc_es_put_eq).
  exists w'. split; [exact Hrun|]. split; [exact Hgone|]. split; [exact Hstaged|].
  split; [exact Hrec|]. intros Hstat.
  rewrite (List_readsQuiet _ _ Hq'), metaDir_path, Hmeta'.
  assert (Hone : exists e,
             listOne (managerAt h) (trashNameOf (now w) absPath +:+ ".json") w' = Some e
             /\ OriginalPath e = absPath
             /\ TrashPath e
                = Filepath.Join (trashDir (managerAt h)) (trashNameOf (now w) absPath)
             /\ DeletedAt e = now w).
  { unfold listOne. rewrite HasSuffix_append. cbn [negb].
    rewrite os_ReadFile_readsQuiet by exact Hq'.
    rewrite (path_record h _ (simple_json _ Hname)).
    fold (recordAt h w absPath). rewrite Hrec. unfold recordFile.
    unfold json_Unmarshal. cbn [d_content TrashPath].
    destruct (os_Stat (Filepath.Join (trashDir (managerAt h)) (trashNameOf (now w) absPath))
                w') as [err | info]; [discriminate|].
    destruct (Os.IsDir info); eexists; (split; [reflexivity|]);
      repeat split; reflexivity. }
  destruct Hone as (e & He & Ho & Ht & Hd).
  eexists _, _, e. split; [reflexivity|]. split; [|repeat split; assumption].
  unfold listItems. apply list_elem_of_omap.
  exists (trashNameOf (now w) absPath +:+ ".json"). split; [|exact He].
  apply (list_elem_of_fmap_2 fst _
           (trashNameOf (now w) absPath +:+ ".json", recordFile json_length h w absPath x)).
  apply assoc_elem_of, assoc_es_put_eq.
Qed.

(** X14.  When the environment fails the writing of the record,
    [MoveToTrash] returns the error of saving the metadata and rolls
    nothing back: the original path is free, the node is staged in the
    files directory, and the metadata directory is as it was, with no
    record of the move. *)
Theorem MoveToTrash_no_rollback bad h path w absPath x :
  writeFaults bad w ->
  filepath_Abs path w = inr absPath ->
  stageable h w absPath x ->
  bad (Filepath.Join (metaDir (managerAt h)) (trashNameOf (now w) absPath +:+ ".json"))
  = true ->
  exists w',
    MoveToTrash json_length (managerAt h) path w = (w', Some (SaveMetadataError EIO))
    /\ lookup (path_of absPath) (root w') = None
    /\ lookup (stagedAt h w absPath) (root w') = Some x
    /\ lookup (storeAt h ++ ["meta"]) (root w') = lookup (storeAt h ++ ["meta"]) (root w)
    /\ lookup (recordAt h w absPath) (root w') = None.
Proof.
  intros Hf Habs (Hx & Hname & Hout & (a1 & es1 & Hfiles) & (a2 & es2 & Hmeta)
                  & Hfree & Hnorec) Hbad.
  pose proof Hnorec as Hnorec'.
  unfold recordAt in Hnorec. rewrite lookup_child, Hmeta in Hnorec.
  destruct (MoveToTrash_moves json_length bad h path w absPath x a1 es1 a2 es2
              Hf Habs Hx Hname Hout Hfiles Hmeta Hfree Hnorec)
    as (w' & Hrun & Hgone & Hstaged & Hmeta' & _).
  cbv zeta in Hrun, Hmeta'. rewrite Hbad in Hrun, Hmeta'.
  exists w'. split; [exact Hrun|]. split; [exact Hgone|]. split; [exact Hstaged|].
  split; [rewrite Hmeta', Hmeta; reflexivity|].
  unfold recordAt. rewrite lookup_child, Hmeta'. exact Hnorec.
Qed.

(** X15.  [MoveToTrash] of a regular file or a directory and then [Restore]
    of the base name, when no call fails, the original path is its
    directory's path and one more name, and [Restore] found no record for
    the name before the move.  [MoveToTrash] returns no error.  [Restore]
    asks [os.Stat] for the staged path and gives up when that reports
    nothing there: where it does not, [Restore] returns no error, the same
    node is back at the original path, and the staged data and the record
    are gone. *)
Theorem MoveToTrash_then_Restore h path w absPath x b a es :
  fault_free w ->
  filepath_Abs path w = inr absPath ->
  stageable h w absPath x ->
  path_of absPath = path_of (Filepath.Dir absPath) ++ [b] ->
  lookup (storeAt h ++ ["meta"]) (root w) = Some (Dir a es) ->
  Forall (fun ne => Filepath.simple_name (fst ne) = true) es ->
  Restore (managerAt h) (Filepath.Base absPath) w
  = (w, Some (NotInTrash (Filepath.Base absPath))) ->
  let staged := Filepath.Join (trashDir (managerAt h)) (trashNameOf (now w) absPath) in
  exists w1,
    MoveToTrash json_length (managerAt h) path w = (w1, None)
    /\ (IsNotExist (os_Stat staged w1) = false ->
        exists w2,
          Restore (managerAt h) (Filepath.Base absPath) w1 = (w2, None)
          /\ lookup (path_of absPath) (root w2) = Some x
          /\ lookup (stagedAt h w absPath) (root w2) = None
          /\ lookup (recordAt h w absPath) (root w2) = None).
Proof.
  intros Hff Habs (Hx & Hname & Hout & (a1 & es1 & Hfiles) & (a2 & es2 & Hmeta)
                   & Hfree & Hnorec) Hparent Hmeta0 Hsimple Hnone staged.
  rewrite Hmeta in Hmeta0. injection Hmeta0 as <- <-.
  pose proof (fault_free_readsQuiet w Hff) as Hq.
  unfold recordAt in Hnorec. rewrite lookup_child, Hmeta in Hnorec.
  destruct (MoveToTrash_moves json_length (fun _ => false) h path w absPath x a1 es1 a2 es2
              (proj1 (writeFaults_none w) Hff) Habs Hx Hname Hout Hfiles Hmeta Hfree Hnorec)
    as (w1 & Hrun & Hgone & Hstaged & Hmeta1 & Hf1 & Hnow & Hkeep).
  cbv beta iota zeta in Hrun, Hmeta1, Hkeep.
  apply writeFaults_none in Hf1. pose proof (fault_free_readsQuiet w1 Hf1) as Hq1.
  set (name := trashNameOf (now w) absPath) in *.
  set (e := recordFor h w absPath x).
  set (metaPath := Filepath.Join (metaDir (managerAt h)) (name +:+ ".json")).
  assert (Hd : path_of (TrashPath e) = stagedAt h w absPath)
    by (apply path_staged, Hname).
  assert (Hmp : path_of metaPath = recordAt h w absPath)
    by (apply path_record, simple_json, Hname).
  assert (Hrec : lookup (recordAt h w absPath) (root w1)
                 = Some (recordFile json_length h w absPath x))
    by (unfold recordAt; rewrite lookup_child, Hmeta1; apply assoc_es_put_eq).
  (* the record [Restore] selects *)
  assert (Hsel : selected (managerAt h) (Filepath.Base absPath)
                   (List.map (fun ne => (fst ne, is_dir (snd ne)))
                      (es_put (name +:+ ".json") (recordFile json_length h w absPath x) es2))
                   w1
                 = Some (metaPath, e)).
  { pose proof (Restore_none_wanted (managerAt h) (Filepath.Base absPath) w a2 es2 Hq
                  (eq_trans (f_equal (fun p => lookup p (root w)) (metaDir_path h)) Hmeta)
                  (f_equal snd Hnone)) as Hold.
    pose proof (assoc_None_ne _ _ Hnorec) as Hne.
    destruct (es_put_split (name +:+ ".json") (recordFile json_length h w absPath x) es2 Hnorec)
      as (before & after & Hes & Hput).
    rewrite Hput. unfold selected. rewrite map_app, records_app.
    cbn [List.map fst snd]. unfold records at 2. cbn [omap list_omap fst].
    assert (Hnew : readRecord (managerAt h) (name +:+ ".json") w1 = Some (metaPath, e)).
    { unfold readRecord. rewrite HasSuffix_append. cbn [negb].
      rewrite os_ReadFile_readsQuiet by exact Hq1. fold metaPath.
      rewrite Hmp, Hrec. reflexivity. }
    rewrite Hnew. apply find_skip.
    - rewrite Hes, map_app, records_app in Hold. apply Forall_app in Hold as [Hold _].
      rewrite (records_agree (managerAt h) w w1); [exact Hold|].
      rewrite Hes in Hne, Hsimple.
      apply Forall_app in Hne as [Hne _]. apply Forall_app in Hsimple as [Hsimple _].
      apply Forall_forall. intros [n isd] Hin.
      apply list_elem_of_fmap in Hin as ([n' y] & [= -> ->] & Hin).
      rewrite Forall_forall in Hne, Hsimple.
      apply (readRecord_sibling h n' w w1 a2 es2 _ _ Hq Hq1 (Hsimple _ Hin) Hmeta Hmeta1).
      apply assoc_es_put_ne. intros Heq. apply (Hne _ Hin). symmetry. exact Heq.
    - unfold wanted. cbn [snd]. unfold e, recordFor. cbn [OriginalPath].
      rewrite String.eqb_refl. reflexivity. }
  assert (Hrun2 : Restore (managerAt h) (Filepath.Base absPath) w1
                  = restoreEntry metaPath e w1).
  { unfold Restore. rewrite os_ReadDir_readsQuiet, metaDir_path, Hmeta1 by exact Hq1.
    rewrite restoreLoop_selected, Hsel. reflexivity. }
  exists w1. split; [exact Hrun|]. rewrite Hrun2. intros Hstale.
  (* the parent of the original path is still there *)
  assert (Hs_f : apart (path_of absPath) (storeAt h ++ ["files"]) = true)
    by (apply apart_below, Hout).
  assert (Hs_m : apart (path_of absPath) (storeAt h ++ ["meta"]) = true)
    by (apply apart_below, Hout).
  assert (Hs_d : apart (path_of absPath) (stagedAt h w absPath) = true)
    by (apply apart_below, Hs_f).
  assert (Hs_mp : apart (path_of absPath) (recordAt h w absPath) = true)
    by (apply apart_below, Hs_m).
  assert (Hd_mp : apart (stagedAt h w absPath) (recordAt h w absPath) = true).
  { apply apart_below. rewrite apart_sym. apply (meta_apart_files h [name]). }
  assert (Hpar : exists ap esp,
             lookup (path_of (Filepath.Dir absPath)) (root w) = Some (Dir ap esp)).
  { rewrite Hparent, lookup_child in Hx.
    destruct (lookup (path_of (Filepath.Dir absPath)) (root w)) as [[ap cp | ap esp]|];
      try discriminate.
    exists ap, esp. reflexivity. }
  destruct Hpar as (ap & esp & Hpar).
  destruct (Hkeep _ ap esp Hpar) as (ap' & esp' & Hpar1).
  { rewrite Hparent at 1. apply is_prefix_longer. }
  { apply (apart_parent _ _ b). rewrite <- Hparent, apart_sym. exact Hs_d. }
  { apply (apart_parent _ _ b). rewrite <- Hparent, apart_sym. exact Hs_mp. }
  destruct (mkdir_all_existing (mkAttr dir_size perm_dir (now w1)) _ _ _ _ Hpar1)
    as [t1 Hmk].
  destruct (restoreEntry_moves metaPath e w1 x
              (mkAttr (json_length e) perm_file (now w))
              (Doc absPath (TrashPath e) (now w) (Os.Size (info_of x)) (Os.IsDir (info_of x)))
              b t1 Hf1)
    as (w2 & Hres & _ & Hback & Hnostage & Hnorecord).
  - exact Hstale.
  - change (OriginalPath e) with absPath.
    rewrite os_Stat_readsQuiet, Hgone by exact Hq1. reflexivity.
  - rewrite Hd. exact Hstaged.
  - exact Hgone.
  - rewrite Hmp. exact Hrec.
  - exact Hparent.
  - rewrite Hd, apart_sym. exact Hs_d.
  - rewrite Hmp, apart_sym. exact Hs_mp.
  - rewrite Hd, Hmp. exact Hd_mp.
  - exact Hmk.
  - exists w2. split; [exact Hres|].
    rewrite Hd in Hnostage. rewrite Hmp in Hnorecord.
    split; [exact Hback|]. split; assumption.
Qed.

End Json.

(** *** The example store *)

(** The store right after [NewManager], with the two files still in the home
    directory. *)
Definition freshStore : World := fst (NewManager (atHome (daysAgo 40))).

(** The same with an environment that fails every writing of a file. *)
Definition readOnlyStore : World :=
  mkWorld (root freshStore) "/" "/home/user" (daysAgo 40) (log freshStore)
    (fun _ c => match c with SysWriteFile _ => true | _ => false end).

Lemma freshStore_stageable :
  stageable "/home/user" freshStore "/home/user/old.txt" (item tenKB).
Proof.
  unfold stageable.
  split; [vm_compute; reflexivity|]. split; [vm_compute; reflexivity|].
  split; [vm_compute; reflexivity|].
  split; [exists (mkAttr dir_size perm_dir (daysAgo 40)), []; vm_compute; reflexivity|].
  split; [exists (mkAttr dir_size perm_dir (daysAgo 40)), []; vm_compute; reflexivity|].
  split; vm_compute; reflexivity.
Qed.

Lemma NewManager_store_witness :
  let w := atHome (daysAgo 40) in
  let m0 := managerAt "/home/user" in
  (exists a es, lookup (path_of (trashDir m0)) (root freshStore) = Some (Dir a es))
  /\ exists w'', NewManager freshStore = (w'', inr m0).
Proof.
  intros w m0.
  destruct (NewManager_store w freshStore m0) as (H1 & _ & _ & _ & H5).
  - intros hst c. reflexivity.
  - vm_compute. reflexivity.
  - split; assumption.
Defined.

Lemma Empty_then_List_witness :
  let m0 := managerAt "/home/user" in
  let w := fst (NewManager twoItems) in
  let w1 := fst (Empty m0 w) in
  List m0 w1 = inr ([], 0) /\ AutoCleanup m0 30 1 w1 = (w1, inr (0, 0)).
Proof.
  intros m0 w w1.
  apply (Empty_then_List twoItems w m0 w w1 30 1).
  - vm_compute. reflexivity.
  - intros hst c. reflexivity.
  - vm_compute. reflexivity.
Defined.

Lemma AutoCleanup_nothing_to_do_witness :
  AutoCleanup (managerAt "/home/user") 50 1 twoItems = (twoItems, inr (0, 0)).
Proof.
  apply (AutoCleanup_nothing_to_do (managerAt "/home/user") 50 1 twoItems
           [oldEntry; newEntry] (2 * tenKB)).
  - vm_compute. reflexivity.
  - repeat constructor.
  - vm_compute. discriminate.
Defined.

Lemma MoveToTrash_stages_witness :
  exists w' entries total e,
    MoveToTrash (fun _ => 200) (managerAt "/home/user") "/home/user/old.txt" freshStore
    = (w', None)
    /\ lookup ["home"; "user"; "old.txt"] (root w') = None
    /\ lookup ["home"; "user"; ".nuke-trash"; "files"; "5184000000000000_old.txt"] (root w')
       = Some (item tenKB)
    /\ List (managerAt "/home/user") w' = inr (entries, total)
    /\ e ∈ entries
    /\ OriginalPath e = "/home/user/old.txt"
    /\ TrashPath e = "/home/user/.nuke-trash/files/5184000000000000_old.txt"
    /\ DeletedAt e = daysAgo 40.
Proof.
  destruct (MoveToTrash_stages (fun _ => 200) "/home/user" "/home/user/old.txt" freshStore
              "/home/user/old.txt" (item tenKB))
    as (w' & Hrun & Hgone & Hstaged & _ & Hlist).
  - intros hst c. reflexivity.
  - vm_compute. reflexivity.
  - exact freshStore_stageable.
  - destruct Hlist as (entries & total & e & Hl & Hin & Ho & Ht & Hd).
    { pose proof (f_equal fst Hrun) as Hw. cbn [fst] in Hw. rewrite <- Hw.
      vm_compute. reflexivity. }
    exists w', entries, total, e. split; [exact Hrun|]. split; [exact Hgone|].
    split; [exact Hstaged|]. split; [exact Hl|]. split; [exact Hin|].
    split; [exact Ho|]. split; [exact Ht | exact Hd].
Defined.

Lemma MoveToTrash_no_rollback_witness :
  exists w',
    MoveToTrash (fun _ => 200) (managerAt "/home/user") "/home/user/old.txt" readOnlyStore
    = (w', Some (SaveMetadataError EIO))
    /\ lookup ["home"; "user"; "old.txt"] (root w') = None
    /\ lookup ["home"; "user"; ".nuke-trash"; "files"; "5184000000000000_old.txt"] (root w')
       = Some (item tenKB)
    /\ lookup ["home"; "user"; ".nuke-trash"; "meta"; "5184000000000000_old.txt.json"]
         (root w') = None.
Proof.
  destruct (MoveToTrash_no_rollback (fun _ => 200) (fun _ => true) "/home/user"
              "/home/user/old.txt" readOnlyStore "/home/user/old.txt" (item tenKB))
    as (w' & Hrun & Hgone & Hstaged & _ & Hnorec).
  - intros hst c. reflexivity.
  - vm_compute. reflexivity.
  - exact freshStore_stageable.
  - reflexivity.
  - exists w'. split; [exact Hrun|]. split; [exact Hgone|]. split; [exact Hstaged|].
    exact Hnorec.
Defined.

Lemma MoveToTrash_then_Restore_witness :
  exists w1 w2,
    MoveToTrash (fun _ => 200) (managerAt "/home/user") "/home/user/old.txt" freshStore
    = (w1, None)
    /\ Restore (managerAt "/home/user") "old.txt" w1 = (w2, None)
    /\ lookup ["home"; "user"; "old.txt"] (root w2) = Some (item tenKB)
    /\ lookup ["home"; "user"; ".nuke-trash"; "files"; "5184000000000000_old.txt"] (root w2)
       = None.
Proof.
  pose proof (MoveToTrash_then_Restore (fun _ => 200) "/home/user" "/home/user/old.txt"
                freshStore "/home/user/old.txt" (item tenKB) "old.txt"
                (mkAttr dir_size perm_dir (daysAgo 40)) []) as H.
  cbv zeta in H. destruct H as (w1 & Hrun & Hround).
  - intros hst c. reflexivity.
  - vm_compute. reflexivity.
  - exact freshStore_stageable.
  - vm_compute. reflexivity.
  - vm_compute. reflexivity.
  - constructor.
  - vm_compute. reflexivity.
  - destruct Hround as (w2 & Hres & Hback & Hnostage & _).
    { pose proof (f_equal fst Hrun) as Hw. cbn [fst] in Hw. rewrite <- Hw.
      vm_compute. reflexivity. }
    exists w1, w2. split; [exact Hrun|]. split; [exact Hres|].
    split; [exact Hback | exact Hnostage].
Defined.

(** *** [MoveToTrash] keeps the store in order *)

Lemma es_put_names nm x es :
  assoc nm es = None ->
  NoDup (List.map fst es) -> NoDup (List.map fst (es_put nm x es)).
Proof.
  intros Hnone Hnd. pose proof (assoc_None_ne _ _ Hnone) as Hne.
  destruct (es_put_split nm x es Hnone) as (before & after & Hes & ->).
  rewrite Hes in Hnd, Hne. rewrite map_app in *. cbn [List.map fst].
  apply NoDup_app in Hnd as (Hb & Hba & Ha).
  apply Forall_app in Hne as [Hneb Hnea].
  apply NoDup_app. split; [exact Hb|]. split.
  - intros n Hin [-> | Hin']%elem_of_cons.
    + apply list_elem_of_fmap in Hin as (e & He & Hin).
      rewrite Forall_forall in Hneb. apply (Hneb e Hin). symmetry. exact He.
    + apply (Hba n Hin Hin').
  - constructor; [|exact Ha]. intros Hin.
    apply list_elem_of_fmap in Hin as (e & He & Hin).
    rewrite Forall_forall in Hnea. apply (Hnea e Hin). symmetry. exact He.
Qed.

Lemma es_put_elem nm x es n y :
  assoc nm es = None ->
  (n, y) ∈ es_put nm x es -> (n, y) = (nm, x) \/ (n, y) ∈ es.
Proof.
  intros Hnone Hin.
  destruct (es_put_split nm x es Hnone) as (before & after & -> & Hput).
  rewrite Hput in Hin. apply elem_of_app in Hin as [Hin | Hin].
  - right. apply elem_of_app. left. exact Hin.
  - apply elem_of_cons in Hin as [Hin | Hin]; [left; exact Hin|].
    right. apply elem_of_app. right. exact Hin.
Qed.

Section Json.

Variable json_length : TrashEntry -> Z.

(** X27.  [MoveToTrash] keeps the metadata directory as the results on
    [List] and [AutoCleanup] want it: when the names in it are plain and
    different, and every record [name.json] names the data staged as
    [name], the same holds after the move, whether the record could be
    written or not. *)
Theorem MoveToTrash_keeps_store bad h path w absPath x :
  writeFaults bad w ->
  filepath_Abs path w = inr absPath ->
  stageable h w absPath x ->
  wf_store h w ->
  wf_store h (fst (MoveToTrash json_length (managerAt h) path w)).
Proof.
  intros Hf Habs (Hx & Hname & Hout & (a1 & es1 & Hfiles) & (a2 & es2 & Hmeta)
                  & Hfree & Hnorec) (a & es & Hm & Hnd & Hsimple & Hrecs).
  rewrite Hmeta in Hm. injection Hm as <- <-.
  unfold recordAt in Hnorec. rewrite lookup_child, Hmeta in Hnorec.
  destruct (MoveToTrash_moves json_length bad h path w absPath x a1 es1 a2 es2
              Hf Habs Hx Hname Hout Hfiles Hmeta Hfree Hnorec)
    as (w' & Hrun & _ & _ & Hmeta' & _).
  cbv zeta in Hrun, Hmeta'. rewrite Hrun. cbn [fst].
  set (name := trashNameOf (now w) absPath) in *.
  destruct (bad (Filepath.Join (metaDir (managerAt h)) (name +:+ ".json"))).
  - exists a2, es2. split; [exact Hmeta'|]. split; [exact Hnd|]. split; assumption.
  - exists a2, (es_put (name +:+ ".json") (recordFile json_length h w absPath x) es2).
    split; [exact Hmeta'|]. split; [apply es_put_names; assumption|]. split.
    + apply Forall_forall. intros [n y] Hin.
      apply (es_put_elem _ _ _ _ _ Hnorec) in Hin as [[= -> ->] | Hin].
      * apply simple_json, Hname.
      * rewrite Forall_forall in Hsimple. apply (Hsimple _ Hin).
    + intros nm a' o tp d sz dir Hin Hsuf.
      apply (es_put_elem _ _ _ _ _ Hnorec) in Hin as [Heq | Hin];
        [|apply (Hrecs nm a' o tp d sz dir Hin Hsuf)].
      unfold recordFile in Heq. injection Heq as -> _ _ -> _ _ _.
      exists name. split; [exact Hname|]. split; reflexivity.
Qed.

End Json.

Lemma MoveToTrash_keeps_store_witness :
  wf_store "/home/user"
    (fst (MoveToTrash (fun _ => 200) (managerAt "/home/user") "/home/user/old.txt"
            freshStore)).
Proof.
  apply (MoveToTrash_keeps_store (fun _ => 200) (fun _ => false) "/home/user"
           "/home/user/old.txt" freshStore "/home/user/old.txt" (item tenKB)).
  - intros hst c. destruct c; reflexivity.
  - vm_compute. reflexivity.
  - exact freshStore_stageable.
  - exists (mkAttr dir_size perm_dir (daysAgo 40)), [].
    split; [vm_compute; reflexivity|]. split; [constructor|]. split; [constructor|].
    intros nm a' o tp d sz dir Hin. apply elem_of_nil in Hin. contradiction.
Defined.

(** *** [Empty] stays in the store *)

Lemma os_RemoveAll_keeps p q w :
  apart (path_of p) q = true ->
  lookup q (root (fst (os_RemoveAll p w))) = lookup q (root w).
Proof.
  intros H. unfold os_RemoveAll, effect.
  destruct (fails w (SysRemoveAll p)); [reflexivity|].
  destruct (path_of p) as [|c r] eqn:E; [reflexivity|].
  cbn [fst root with_root]. apply lookup_remove_at_parted, H.
Qed.

Lemma os_MkdirAll_keeps p perm q w :
  apart (path_of p) q = true ->
  lookup q (root (fst (os_MkdirAll p perm w))) = lookup q (root w).
Proof.
  intros H. unfold os_MkdirAll, effect.
  destruct (fails w (SysMkdirAll p)); [reflexivity|].
  destruct (mkdir_all _ (path_of p) (root w)) as [t'|] eqn:E; [|reflexivity].
  cbn [fst root with_root]. apply (lookup_mkdir_all_parted _ _ _ _ _ H E).
Qed.

(** X30.  Whatever fails, [Empty] changes nothing outside the two
    directories of the store: what is at a path that is neither in or above
    the staging directory nor in or above the metadata directory is there
    after the call as it was before. *)
Theorem Empty_only_store h w q :
  apart (storeAt h ++ ["files"]) q = true ->
  apart (storeAt h ++ ["meta"]) q = true ->
  lookup q (root (fst (Empty (managerAt h) w))) = lookup q (root w).
Proof.
  intros Hf Hm.
  rewrite <- (trashDir_path h) in Hf. rewrite <- (metaDir_path h) in Hm.
  unfold Empty.
  pose proof (os_RemoveAll_keeps (trashDir (managerAt h)) q w Hf) as H1.
  destruct (os_RemoveAll (trashDir (managerAt h)) w) as [w1 [err|]]; [exact H1|].
  pose proof (os_RemoveAll_keeps (metaDir (managerAt h)) q w1 Hm) as H2.
  destruct (os_RemoveAll (metaDir (managerAt h)) w1) as [w2 [err|]];
    cbn [fst] in *; [congruence|].
  pose proof (os_MkdirAll_keeps (trashDir (managerAt h)) perm_dir q w2 Hf) as H3.
  destruct (os_MkdirAll (trashDir (managerAt h)) perm_dir w2) as [w3 [err|]];
    cbn [fst] in *; [congruence|].
  pose proof (os_MkdirAll_keeps (metaDir (managerAt h)) perm_dir q w3 Hm) as H4.
  destruct (os_MkdirAll (metaDir (managerAt h)) perm_dir w3) as [w4 [err|]];
    cbn [fst] in *; congruence.
Qed.

Lemma Empty_only_store_witness :
  lookup ["home"; "user"; "new.txt"] (root (fst (Empty (managerAt "/home/user") twoItems)))
  = lookup ["home"; "user"; "new.txt"] (root twoItems)
  /\ lookup ["home"; "user"; "old.txt"]
       (root (fst (Empty (managerAt "/home/user") freshStore)))
     = Some (item tenKB).
Proof.
  split.
  - apply (Empty_only_store "/home/user" twoItems); vm_compute; reflexivity.
  - rewrite (Empty_only_store "/home/user" freshStore); vm_compute; reflexivity.
Defined.

End TrashMore.

(* ----------------------------------------------------------------- *)
(** ** More of the deletion engine *)

Module DeleterMore.

Import Os OsFacts Deleter ShredFacts DeleteFacts.

(** *** The goroutines of [Delete]: no deadlock, and an end *)

(** The order [sort.Slice] is asked for has a result for every slice. *)
Lemma sortedSlice_exists dirs : exists result, sortedSlice dirs result.
Proof.
  induction dirs as [|x dirs [result [Hperm Hsorted]]].
  - exists []. split; [reflexivity | constructor].
  - assert (Hins : forall l, StronglySorted (fun a b => longer b a = false) l ->
                     exists l', x :: l ≡ₚ l'
                                /\ StronglySorted (fun a b => longer b a = false) l').
    { induction l as [|y l IH]; intros Hl.
      - exists [x]. split; [reflexivity | repeat constructor].
      - apply StronglySorted_inv in Hl as [Hl Hy].
        destruct (longer y x) eqn:E.
        + destruct (IH Hl) as (l' & Hp & Hs). exists (y :: l'). split.
          * rewrite <- Hp. apply perm_swap.
          * constructor; [exact Hs|]. rewrite <- Hp. constructor; [|exact Hy].
            unfold longer in *. apply Z.gtb_lt in E.
            rewrite Z.gtb_ltb. apply Z.ltb_ge. lia.
        + exists (x :: y :: l). split; [reflexivity|].
          constructor; [constructor; assumption|].
          constructor; [exact E|].
          eapply Forall_impl; [exact Hy|]. intros z Hz. cbv beta in *.
          unfold longer in *. rewrite Z.gtb_ltb in *. apply Z.ltb_ge.
          apply Z.ltb_ge in E, Hz. lia. }
    destruct (Hins result Hsorted) as (l' & Hp & Hs).
    exists l'. split; [|exact Hs]. rewrite <- Hp. constructor. exact Hperm.
Qed.

(** A pool has a worker that has not exited, unless all have. *)
Lemma pool_cases (ws : list Worker) :
  Forall (fun k => k = Exited) ws
  \/ exists i k, ws !! i = Some k /\ k <> Exited.
Proof.
  induction ws as [|k ws IH]; [left; constructor|].
  destruct k as [|f|f err|];
    try (right; exists O; eexists; split; [reflexivity | discriminate]).
  destruct IH as [IH | (i & k & Hi & Hk)].
  - left. constructor; [reflexivity | exact IH].
  - right. exists (S i), k. split; assumption.
Qed.

(** What the steps cost: a measure that every step lowers by one. *)
Definition workerWeight (k : Worker) : nat :=
  match k with
  | Receiving => 1
  | Holding _ => 3
  | Reporting _ _ => 2
  | Exited => 0
  end.

Fixpoint poolWeight (ws : list Worker) : nat :=
  match ws with
  | [] => 0
  | k :: ws' => workerWeight k + poolWeight ws'
  end.

Definition mainWeight (files : list Scanner.FileInfo) (m : Main) : nat :=
  match m with
  | Starting n => 5 + length (directories files) + 4 * length (regularFiles files) + 2 * n
  | Sending rest => 4 + length (directories files) + 4 * length rest
  | Waiting => 3 + length (directories files)
  | Sorting => 2 + length (directories files)
  | Removing dirs => 1 + length dirs
  | Returned => 0
  end.

Definition weight (files : list Scanner.FileInfo) (s : State) : nat :=
  mainWeight files (main s) + 3 * length (workChan s) + poolWeight (pool s).

Lemma poolWeight_app ws ws' : poolWeight (ws ++ ws') = (poolWeight ws + poolWeight ws')%nat.
Proof. induction ws as [|k ws IH]; simpl; [reflexivity | rewrite IH; lia]. Qed.

Lemma poolWeight_insert ws i k k' :
  ws !! i = Some k ->
  (poolWeight (<[i := k']> ws) + workerWeight k = poolWeight ws + workerWeight k')%nat.
Proof.
  revert i. induction ws as [|x ws IH]; intros [|i] Hi; simpl in *; try discriminate.
  - injection Hi as ->. lia.
  - specialize (IH i Hi). lia.
Qed.

Section Json.

Variable json_length : Trash.TrashEntry -> Z.

Local Abbreviation step := (Deleter.step json_length).
Local Abbreviation reachable := (Deleter.reachable json_length).

(** The main goroutine waits only after it has closed the channel. *)
Lemma waiting_closed d cb files w s :
  reachable d cb files w s -> main s = Waiting -> closed s = true.
Proof.
  intros Hreach. unfold Deleter.reachable in Hreach.
  revert s Hreach.
  apply (rtc_ind_r (fun s => main s = Waiting -> closed s = true)).
  - unfold initial. simpl. destruct (regularFiles files); discriminate.
  - intros s1 s2 _ Hstep IH. destruct Hstep; simpl in *; try discriminate;
      try exact IH; intros; reflexivity.
Qed.

Lemma step_weight d cb files s s' :
  step d cb files s s' -> weight files s = S (weight files s').
Proof.
  intros Hstep. destruct Hstep; unfold weight; simpl;
    rewrite ?poolWeight_app, ?length_app; simpl; try lia.
  - pose proof (poolWeight_insert ws i Receiving (Holding f) H). simpl in *. lia.
  - pose proof (poolWeight_insert ws i (Holding f) (Reporting f err) H). simpl in *. lia.
  - pose proof (poolWeight_insert ws i (Reporting f err) Receiving H). simpl in *. lia.
  - pose proof (poolWeight_insert ws i Receiving Exited H). simpl in *. lia.
  - destruct H as [Hperm _]. rewrite (Permutation_length Hperm). lia.
Qed.

(** X16.  The goroutines of [Delete] never block one another for good: in
    every state an execution reaches before [Delete] has returned, one of
    them can take a step. *)
Theorem Delete_never_stuck d cb files w s :
  reachable d cb files w s ->
  main s <> Returned ->
  exists s', step d cb files s s'.
Proof.
  intros Hreach Hmain. pose proof (waiting_closed d cb files w s Hreach) as Hwait.
  destruct s as [w0 mn ch cl ws tr]. simpl in *.
  destruct mn as [n | rest | | | dirs |].
  - destruct n; eexists; [apply step_started | apply step_start].
  - destruct rest; eexists; [apply step_close | apply step_send].
  - destruct (pool_cases ws) as [Hall | (i & k & Hi & Hk)].
    + eexists. apply step_wait, Hall.
    + destruct k as [|f|f err|]; [| | |contradiction].
      * destruct ch as [|f ch].
        -- rewrite (Hwait eq_refl). eexists. eapply step_exit, Hi.
        -- eexists. eapply step_receive, Hi.
      * destruct (dispose json_length d f w0) as [w' err] eqn:Hd.
        eexists. eapply step_dispose; [exact Hi | exact Hd].
      * eexists. eapply step_report, Hi.
  - destruct (sortedSlice_exists (directories files)) as [dirs Hdirs].
    eexists. apply step_sort, Hdirs.
  - destruct dirs as [|dir dirs].
    + eexists. apply step_return.
    + destruct (deleteDirectory json_length d dir w0) as [w' err] eqn:Hd.
      eexists. apply step_remove, Hd.
  - contradiction.
Qed.

(** X17.  Every execution of [Delete] comes to an end: one of [n] steps
    has [n] no more than five, the number of directories, four times the
    number of regular files and twice the number of workers together; and
    the execution that reaches the return with a pool of at least one
    worker has taken exactly that many steps when there is a file, and two
    and the number of directories when there is none. *)
Theorem Delete_terminates d cb files w n s :
  nsteps (step d cb files) n (initial d files w) s ->
  (n <= 5 + length (directories files) + 4 * length (regularFiles files)
        + 2 * Z.to_nat (workers d))%nat
  /\ (workers d > 0 -> main s = Returned ->
      n = match regularFiles files with
          | [] => 2 + length (directories files)
          | _ :: _ => 5 + length (directories files) + 4 * length (regularFiles files)
                      + 2 * Z.to_nat (workers d)
          end%nat).
Proof.
  intros Hrun.
  assert (Hsum : forall k s1 s2, nsteps (step d cb files) k s1 s2 ->
                   weight files s1 = (k + weight files s2)%nat).
  { induction 1 as [|k s1 s2 s3 Hstep _ IH]; [reflexivity|].
    rewrite (step_weight _ _ _ _ _ Hstep), IH. reflexivity. }
  pose proof (Hsum _ _ _ Hrun) as Hw.
  assert (Hinit : weight files (initial d files w)
                  = match regularFiles files with
                    | [] => 2 + length (directories files)
                    | _ :: _ => 5 + length (directories files)
                                + 4 * length (regularFiles files)
                                + 2 * Z.to_nat (workers d)
                    end%nat).
  { unfold weight, initial. cbn [main workChan pool length poolWeight].
    destruct (regularFiles files) eqn:E; unfold mainWeight; rewrite ?E; lia. }
  split.
  - rewrite Hinit in Hw. destruct (regularFiles files); simpl in *; lia.
  - intros Hpos Hret.
    pose proof (Inv_reachable json_length d cb files w s Hpos
                  (rtc_nsteps_2 _ _ _ Hrun)) as HInv.
    unfold Inv in HInv. rewrite Hret in HInv. simpl in HInv.
    destruct HInv as (Hall & Hch & _).
    assert (Hzero : weight files s = O).
    { unfold weight. rewrite Hret, Hch. simpl.
      clear -Hall. induction Hall as [|k ws -> _ IH]; simpl; [reflexivity | exact IH]. }
    rewrite Hinit, Hzero in Hw. destruct (regularFiles files); lia.
Qed.

End Json.

Lemma Delete_never_stuck_witness :
  exists s', Deleter.step noJson demoDeleter true [demoDir; demoFile]
               (initial demoDeleter [demoDir; demoFile] demoWorld) s'.
Proof.
  apply (Delete_never_stuck noJson demoDeleter true [demoDir; demoFile] demoWorld).
  - apply rtc_refl.
  - vm_compute. discriminate.
Defined.

Lemma Delete_terminates_witness :
  exists n w',
    nsteps (Deleter.step noJson demoDeleter true [demoDir; demoFile]) n
      (initial demoDeleter [demoDir; demoFile] demoWorld)
      (mkState w' Returned [] true [Exited] demoTrace)
    /\ n = 12%nat.
Proof.
  destruct demo_run as (w' & Hreach & _).
  apply rtc_nsteps_1 in Hreach as [n Hn].
  exists n, w'. split; [exact Hn|].
  apply (Delete_terminates noJson demoDeleter true [demoDir; demoFile] demoWorld n _ Hn).
  - vm_compute. reflexivity.
  - reflexivity.
Defined.

(** *** [shredFile]: the file is closed, and kept when something fails *)














Section Json.

Variable json_length : Trash.TrashEntry -> Z.

(** X19.  Without a trash manager, and in shred mode, [deleteDirectory]
    does not remove a directory that still has an entry: it returns the
    error of [os.Remove], which is the one of a directory that is not empty
    unless the environment fails the call or the path is the root, and the
    tree stays as it was. *)
Theorem deleteDirectory_keeps_nonempty d dir w a e es :
  trashMgr d = None \/ shred d = true ->
  lookup (path_of (Scanner.Path dir)) (root w) = Some (Dir a (e :: es)) ->
  exists err,
    deleteDirectory json_length d dir w
    = (logged (SysRemove (Scanner.Path dir)) (Some err) w, Some (Trash.OsError err))
    /\ (fails w (SysRemove (Scanner.Path dir)) = false ->
        path_of (Scanner.Path dir) <> [] -> err = ENOTEMPTY).
Proof.
  intros Hhard Hdir.
  assert (Hrm : exists err,
             os_Remove (Scanner.Path dir) w
             = (logged (SysRemove (Scanner.Path dir)) (Some err) w, Some err)
             /\ (fails w (SysRemove (Scanner.Path dir)) = false ->
                 path_of (Scanner.Path dir) <> [] -> err = ENOTEMPTY)).
  { unfold os_Remove, effect. destruct (fails w (SysRemove (Scanner.Path dir))).
    - exists EIO. split; [reflexivity | discriminate].
    - rewrite Hdir. destruct (path_of (Scanner.Path dir)) as [|c q].
      + exists EINVAL. split; [reflexivity|]. intros _ H. contradiction.
      + exists ENOTEMPTY. split; reflexivity. }
  destruct Hrm as (err & Hrm & Herr). exists err. split; [|exact Herr].
  unfold deleteDirectory.
  destruct (trashMgr d) as [m|]; [|rewrite Hrm; reflexivity].
  destruct Hhard as [Hnone | Hshred]; [discriminate|].
  rewrite Hshred, Hrm. reflexivity.
Qed.

End Json.

Lemma deleteDirectory_keeps_nonempty_witness :
  exists err,
    deleteDirectory noJson (New 1 true None) demoDir demoWorld
    = (logged (SysRemove "/t/a") (Some err) demoWorld, Some (Trash.OsError err))
    /\ err = ENOTEMPTY.
Proof.
  destruct (deleteDirectory_keeps_nonempty noJson (New 1 true None) demoDir demoWorld
              (ScannerFacts.attr 0) ("f", ScannerFacts.emptyFile) [])
    as (err & Hrun & Herr).
  - left. reflexivity.
  - vm_compute. reflexivity.
  - exists err. split; [exact Hrun|]. apply Herr; [reflexivity | vm_compute; discriminate].
Defined.

End DeleterMore.

(* ----------------------------------------------------------------- *)
(** ** The protected paths *)

Module ConfigFacts.

Import Config.

(** A string that begins with [a ++ b] begins with [a]. *)
Lemma prefix_app_l a b : forall s,
  String.prefix (a +:+ b) s = true -> String.prefix a s = true.
Proof.
  induction a as [|c a IH]; intros s H; [destruct s; reflexivity|].
  destruct s as [|d s]; [discriminate|].
  change (String.prefix (String c (a +:+ b)) (String d s) = true) in H.
  cbn [String.prefix] in *.
  destruct (ascii_dec c d); [apply IH, H | discriminate].
Qed.

Section Library.

Variable filepath_Abs : string -> option string.
Variable filepath_Clean : string -> string.
Variable filepath_Join : string -> string -> string.
Variable os_UserHomeDir : option string.

Local Abbreviation protects := (Config.protects filepath_Clean).
Local Abbreviation IsProtected := (Config.IsProtected filepath_Abs filepath_Clean).
Local Abbreviation AddProtectedPath :=
  (Config.AddProtectedPath filepath_Join os_UserHomeDir).

(** The path [IsProtected] compares the entries with. *)
Definition target (path : string) : string :=
  filepath_Clean (match filepath_Abs path with
                  | Some absPath => absPath
                  | None => path
                  end).

(** What makes an entry protect a path: the path is the entry; the entry is
    not rooted and is an element of the path or its end; or the path
    begins with the entry and one of the four critical names. *)
Definition covers (absPath protected : string) : Prop :=
  absPath = protected
  \/ (Filepath.HasPrefix protected "/" = false
      /\ (Filepath.Contains absPath ("/" +:+ protected +:+ "/") = true
          \/ Filepath.HasSuffix absPath ("/" +:+ protected) = true
          \/ Filepath.Base absPath = protected))
  \/ exists critical,
       In critical ["/bin"; "/sbin"; "/lib"; "/etc"]
       /\ Filepath.HasPrefix absPath (protected +:+ critical) = true.

Lemma critical_below absPath protected critical :
  In critical criticalSubdirs ->
  Filepath.HasPrefix absPath (protected +:+ critical) = true ->
  Filepath.HasPrefix absPath (protected +:+ "/") = true.
Proof.
  intros Hin H. unfold Filepath.HasPrefix in *.
  assert (Hc : exists rest, critical = "/" +:+ rest).
  { simpl in Hin. destruct Hin as [<- | [<- | [<- | [<- | []]]]]; eexists; reflexivity. }
  destruct Hc as [rest ->]. rewrite <- FilepathFacts.append_assoc in H.
  apply (prefix_app_l _ _ _ H).
Qed.

Lemma protects_covers absPath protected :
  protects absPath protected = true <-> covers absPath (filepath_Clean protected).
Proof.
  unfold Config.protects, covers. cbv zeta.
  set (q := filepath_Clean protected).
  destruct (String.eqb absPath q) eqn:Eeq.
  { apply String.eqb_eq in Eeq. split; [intros _; left; exact Eeq | reflexivity]. }
  apply String.eqb_neq in Eeq.
  destruct (Filepath.HasPrefix q "/") eqn:Eabs; cbn [negb andb].
  - destruct (Filepath.HasPrefix absPath (q +:+ "/")) eqn:Epre; cbn [andb].
    + destruct (existsb _ criticalSubdirs) eqn:Ecrit.
      * split; [intros _|reflexivity]. right. right.
        apply existsb_exists in Ecrit as (critical & Hin & Hc).
        exists critical. split; assumption.
      * split; [discriminate|]. intros [H | [[H _] | (critical & Hin & Hc)]];
          [contradiction | discriminate |].
        assert (existsb (fun critical => Filepath.HasPrefix absPath (q +:+ critical))
                  criticalSubdirs = true)
          by (apply existsb_exists; exists critical; split; assumption).
        congruence.
    + split; [discriminate|]. intros [H | [[H _] | (critical & Hin & Hc)]];
        [contradiction | discriminate |].
      rewrite (critical_below _ _ _ Hin Hc) in Epre. discriminate.
  - destruct (Filepath.Contains absPath ("/" +:+ q +:+ "/")
              || Filepath.HasSuffix absPath ("/" +:+ q)) eqn:Eel.
    { split; [intros _|reflexivity]. right. left. split; [reflexivity|].
      apply orb_true_iff in Eel as [H | H]; [left | right; left]; exact H. }
    apply orb_false_iff in Eel as [Econ Esuf].
    destruct (String.eqb (Filepath.Base absPath) q) eqn:Ebase.
    { split; [intros _|reflexivity]. right. left. split; [reflexivity|].
      right. right. apply String.eqb_eq, Ebase. }
    apply String.eqb_neq in Ebase.
    destruct (Filepath.HasPrefix absPath (q +:+ "/")) eqn:Epre; cbn [andb].
    + destruct (existsb _ criticalSubdirs) eqn:Ecrit.
      * split; [intros _|reflexivity]. right. right.
        apply existsb_exists in Ecrit as (critical & Hin & Hc).
        exists critical. split; assumption.
      * split; [discriminate|].
        intros [H | [[_ [H | [H | H]]] | (critical & Hin & Hc)]];
          try contradiction; try congruence.
        assert (existsb (fun critical => Filepath.HasPrefix absPath (q +:+ critical))
                  criticalSubdirs = true)
          by (apply existsb_exists; exists critical; split; assumption).
        congruence.
    + split; [discriminate|].
      intros [H | [[_ [H | [H | H]]] | (critical & Hin & Hc)]];
        try contradiction; try congruence.
      rewrite (critical_below _ _ _ Hin Hc) in Epre. discriminate.
Qed.

Lemma protectedLoop_exists absPath paths :
  protectedLoop filepath_Clean absPath paths = true
  <-> exists protected, In protected paths /\ protects absPath protected = true.
Proof.
  induction paths as [|p paths IH]; cbn [protectedLoop].
  - split; [discriminate | intros (p & [] & _)].
  - destruct (protects absPath p) eqn:E.
    + split; [intros _; exists p; split; [left; reflexivity | exact E] | reflexivity].
    + rewrite IH. split.
      * intros (q & Hin & Hq). exists q. split; [right; exact Hin | exact Hq].
      * intros (q & [<- | Hin] & Hq); [congruence|]. exists q. split; assumption.
Qed.

(** X20.  [IsProtected] answers [true] exactly when some entry of the list,
    cleaned, covers the cleaned absolute path: the path is the entry; or
    the entry is not rooted and is an element in the path, its end or its
    base name; or the path begins with the entry followed by [/bin],
    [/sbin], [/lib] or [/etc].  Nothing else below a protected directory
    is protected. *)
Theorem IsProtected_iff c path :
  IsProtected c path = true
  <-> exists protected,
        In protected (ProtectedPaths c)
        /\ covers (target path) (filepath_Clean protected).
Proof.
  unfold Config.IsProtected. cbv zeta. fold (target path).
  rewrite protectedLoop_exists. split.
  - intros (p & Hin & Hp). exists p. split; [exact Hin | apply protects_covers, Hp].
  - intros (p & Hin & Hp). exists p. split; [exact Hin | apply protects_covers, Hp].
Qed.

(** The entry [AddProtectedPath] appends for [path]. *)
Definition expanded (path : string) : string :=
  if Filepath.HasPrefix path "~/" then
    match os_UserHomeDir with
    | Some homeDir => filepath_Join homeDir (from 2 path)
    | None => path
    end
  else path.

(** X21.  [AddProtectedPath] takes no protection away and protects the
    path it adds: what was protected stays protected; a path whose cleaned
    absolute form is the cleaned new entry is protected afterwards, where
    the new entry is the path itself, or the home directory joined with
    what follows [~/] when the path begins with it and the home directory
    is known; and a path that becomes protected by the call is covered by
    the new entry. *)
Theorem AddProtectedPath_protects c new path :
  (IsProtected c path = true -> IsProtected (AddProtectedPath c new) path = true)
  /\ (target path = filepath_Clean (expanded new) ->
      IsProtected (AddProtectedPath c new) path = true)
  /\ (IsProtected c path = false ->
      IsProtected (AddProtectedPath c new) path = true ->
      covers (target path) (filepath_Clean (expanded new))).
Proof.
  assert (Hpaths : ProtectedPaths (AddProtectedPath c new) = ProtectedPaths c ++ [expanded new])
    by reflexivity.
  split; [|split].
  - rewrite !IsProtected_iff, Hpaths. intros (p & Hin & Hp).
    exists p. split; [apply in_or_app; left; exact Hin | exact Hp].
  - intros Heq. rewrite IsProtected_iff, Hpaths. exists (expanded new).
    split; [apply in_or_app; right; left; reflexivity | left; exact Heq].
  - intros Hnot. rewrite IsProtected_iff, Hpaths. intros (p & Hin & Hp).
    apply in_app_or in Hin as [Hin | [<- | []]]; [|exact Hp].
    assert (IsProtected c path = true) by (apply IsProtected_iff; exists p; split; assumption).
    congruence.
Qed.

End Library.

End ConfigFacts.

(* ----------------------------------------------------------------- *)
(** ** The command line *)

Module CmdFacts.

Import Cmd FilepathFacts.

(** *** [parseArgs] *)

Lemma from_append p r : Config.from (String.length p) (p +:+ r) = r.
Proof. induction p as [|c p IH]; [destruct r; reflexivity | exact IH]. Qed.

(** [strings.TrimPrefix] takes the prefix off. *)
Lemma TrimPrefix_append p r : TrimPrefix (p +:+ r) p = r.
Proof.
  unfold TrimPrefix, Filepath.HasPrefix. rewrite prefix_append. apply from_append.
Qed.

(** An argument that is not an option. *)
Definition isTarget (arg : string) : bool := negb (Filepath.HasPrefix arg "-").

(** The values the arguments give for the option [pre], in their order. *)
Definition valuesOf (pre : string) (args : list string) : list string :=
  List.map (fun arg => TrimPrefix arg pre)
    (List.filter (fun arg => Filepath.HasPrefix arg pre) args).

(** What an end of the loop says of the arguments read, when the targets
    were [acc] and the variables [fl] before them. *)
Definition parsedOk (args acc : list string) (fl : Flags) (r : Parsed) : Prop :=
  match r with
  | Targets targets fl' =>
      targets = acc ++ List.filter isTarget args
      /\ exclude fl' = exclude fl ++ valuesOf "--exclude=" args
      /\ include fl' = include fl ++ valuesOf "--include=" args
  | UnknownOption arg _ => In arg args /\ Filepath.HasPrefix arg "-" = true
  | Help _ => In "-h" args \/ In "--help" args
  end.

Lemma parsedOk_skip arg args acc fl fl1 r :
  isTarget arg = false ->
  Filepath.HasPrefix arg "--exclude=" = false ->
  Filepath.HasPrefix arg "--include=" = false ->
  exclude fl1 = exclude fl -> include fl1 = include fl ->
  parsedOk args acc fl1 r -> parsedOk (arg :: args) acc fl r.
Proof.
  intros Ht He Hi Hex Hin. unfold parsedOk, valuesOf.
  destruct r as [fl' | a fl' | ts fl']; cbn [List.filter List.map].
  - intros [H | H]; [left | right]; right; exact H.
  - intros [H1 H2]. split; [right; exact H1 | exact H2].
  - rewrite Ht, He, Hi, Hex, Hin. tauto.
Qed.

Ltac known_option E :=
  first [ apply orb_true_iff in E as [E | E]; apply String.eqb_eq in E; subst
        | apply String.eqb_eq in E; subst
        | apply prefix_inv in E as [? ->] ].

Section Library.

Variable fmt_Sscanf_d : string -> Z -> Z.

Lemma parseLoop_ok : forall args acc fl,
  parsedOk args acc fl (parseLoop fmt_Sscanf_d args acc fl).
Proof.
  induction args as [|arg args IH]; intros acc fl.
  - cbn [parseLoop parsedOk valuesOf List.filter List.map].
    rewrite !app_nil_r. tauto.
  - cbn [parseLoop].
    destruct (String.eqb arg "-h" || String.eqb arg "--help") eqn:E0.
    { apply orb_true_iff in E0 as [E | E]; apply String.eqb_eq in E; subst;
        [left | right]; left; reflexivity. }
    repeat match goal with
           | |- parsedOk _ _ _ (if String.eqb arg ?o then _ else _) =>
               let E := fresh "E" in
               destruct (String.eqb arg o) eqn:E;
               [known_option E;
                eapply parsedOk_skip; [| | | | | apply IH]; reflexivity|]
           | |- parsedOk _ _ _ (if orb (String.eqb arg ?o) (String.eqb arg ?p) then _ else _) =>
               let E := fresh "E" in
               destruct (String.eqb arg o || String.eqb arg p) eqn:E;
               [apply orb_true_iff in E; destruct E as [E | E];
                apply String.eqb_eq in E; subst arg;
                (eapply parsedOk_skip; [| | | | | apply IH]; reflexivity)|]
           end.
    do 4 match goal with
         | |- parsedOk _ _ _ (if Filepath.HasPrefix arg ?o then _ else _) =>
             let E := fresh "E" in
             destruct (Filepath.HasPrefix arg o) eqn:E;
             [known_option E;
              eapply parsedOk_skip; [| | | | | apply IH]; reflexivity|]
         end.
    destruct (Filepath.HasPrefix arg "--exclude=") eqn:Eex.
    { apply prefix_inv in Eex as [value ->].
      pose proof (IH acc (set_exclude
                            (exclude fl ++ [TrimPrefix ("--exclude=" +:+ value) "--exclude="])
                            fl)) as Hrec.
      unfold parsedOk, valuesOf in *.
      destruct (parseLoop _ _ _ _) as [fl' | a fl' | ts fl'];
        cbn [List.filter List.map exclude include set_exclude] in *.
      - destruct Hrec as [H | H]; [left | right]; right; exact H.
      - destruct Hrec as [H1 H2]. split; [right; exact H1 | exact H2].
      - change (isTarget ("--exclude=" +:+ value)) with false.
        change (Filepath.HasPrefix ("--exclude=" +:+ value) "--include=") with false.
        rewrite (prefix_append "--exclude=" value : Filepath.HasPrefix _ _ = true).
        cbn [List.map]. destruct Hrec as (Ht & He & Hi).
        rewrite <- app_assoc in He. tauto. }
    destruct (Filepath.HasPrefix arg "--include=") eqn:Ein.
    { apply prefix_inv in Ein as [value ->].
      pose proof (IH acc (set_include
                            (include fl ++ [TrimPrefix ("--include=" +:+ value) "--include="])
                            fl)) as Hrec.
      unfold parsedOk, valuesOf in *.
      destruct (parseLoop _ _ _ _) as [fl' | a fl' | ts fl'];
        cbn [List.filter List.map exclude include set_include] in *.
      - destruct Hrec as [H | H]; [left | right]; right; exact H.
      - destruct Hrec as [H1 H2]. split; [right; exact H1 | exact H2].
      - change (isTarget ("--include=" +:+ value)) with false.
        change (Filepath.HasPrefix ("--include=" +:+ value) "--exclude=") with false.
        rewrite (prefix_append "--include=" value : Filepath.HasPrefix _ _ = true).
        cbn [List.map]. destruct Hrec as (Ht & He & Hi).
        rewrite <- app_assoc in Hi. tauto. }
    destruct (Filepath.HasPrefix arg "--regex=") eqn:Ere.
    { eapply parsedOk_skip; [| | | | | apply IH];
        [apply prefix_inv in Ere as [? ->]; reflexivity | exact Eex | exact Ein
        | reflexivity | reflexivity]. }
    destruct (Filepath.HasPrefix arg "--workers=") eqn:Ewo.
    { eapply parsedOk_skip; [| | | | | apply IH];
        [apply prefix_inv in Ewo as [? ->]; reflexivity | exact Eex | exact Ein
        | reflexivity | reflexivity]. }
    destruct (Filepath.HasPrefix arg "-") eqn:Edash.
    { split; [left; reflexivity | exact Edash]. }
    pose proof (IH (acc ++ [arg]) fl) as Hrec.
    unfold parsedOk, valuesOf in *.
    destruct (parseLoop _ _ _ _) as [fl' | a fl' | ts fl']; cbn [List.filter List.map].
    + destruct Hrec as [H | H]; [left | right]; right; exact H.
    + destruct Hrec as [H1 H2]. split; [right; exact H1 | exact H2].
    + unfold isTarget at 1. rewrite Edash, Eex, Ein. cbn [negb].
      rewrite <- app_assoc in Hrec. exact Hrec.
Qed.

(** X22.  [parseArgs], whatever the variables were before.  When it
    returns targets, they are the arguments that do not begin with [-], in
    their order, so that no target begins with [-]; and [workers] is
    positive.  The error of an unknown option names an argument that begins
    with [-].  The help is printed only for [-h] or [--help]. *)
Theorem parseArgs_targets args fl :
  match parseArgs fmt_Sscanf_d args fl with
  | Targets targets fl' =>
      targets = List.filter isTarget args
      /\ Forall (fun target => Filepath.HasPrefix target "-" = false) targets
      /\ 0 < workers fl'
  | UnknownOption arg _ => In arg args /\ Filepath.HasPrefix arg "-" = true
  | Help _ => In "-h" args \/ In "--help" args
  end.
Proof.
  unfold parseArgs. pose proof (parseLoop_ok args [] fl) as H. unfold parsedOk in H.
  destruct (parseLoop fmt_Sscanf_d args [] fl) as [fl' | a fl' | ts fl']; try exact H.
  destruct H as (Ht & _). cbn [app] in Ht. split; [exact Ht|]. split.
  - rewrite Ht. apply Forall_forall. intros t Hin.
    apply list_elem_of_In, filter_In in Hin as [_ Hin].
    unfold isTarget in Hin. apply negb_true_iff, Hin.
  - destruct (workers fl' <=? 0) eqn:E; [reflexivity|]. apply Z.leb_gt, E.
Qed.

(** X23.  The options [--exclude=] and [--include=] may be repeated: when
    [parseArgs] returns targets, each list has grown by the values of its
    option, in the order of the arguments, where the value is what follows
    the [=]. *)
Theorem parseArgs_patterns args fl targets fl' :
  parseArgs fmt_Sscanf_d args fl = Targets targets fl' ->
  exclude fl' = exclude fl ++ valuesOf "--exclude=" args
  /\ include fl' = include fl ++ valuesOf "--include=" args
  /\ forall pre value, valuesOf pre [pre +:+ value] = [value].
Proof.
  unfold parseArgs. pose proof (parseLoop_ok args [] fl) as H. unfold parsedOk in H.
  destruct (parseLoop fmt_Sscanf_d args [] fl) as [fl0 | a fl0 | ts fl0]; try discriminate.
  intros [= <- <-]. destruct H as (_ & He & Hi).
  split; [|split].
  - destruct (workers fl0 <=? 0); exact He.
  - destruct (workers fl0 <=? 0); exact Hi.
  - intros pre value. unfold valuesOf. cbn [List.filter].
    unfold Filepath.HasPrefix. rewrite prefix_append. cbn [List.map].
    rewrite TrimPrefix_append. reflexivity.
Qed.

End Library.

(** The variables before any argument is read. *)
Definition noFlags : Flags :=
  mkFlags false false false false false false false false "" false "" "" "" [] [] ""
    false 0.

Lemma parseArgs_patterns_witness :
  let fl' := set_workers 8
               (set_include ["*.go"]
                  (set_exclude ["*.log"; "*.tmp"] (set_recursive true noFlags))) in
  exclude fl' = ["*.log"; "*.tmp"] /\ include fl' = ["*.go"].
Proof.
  intros fl'.
  destruct (parseArgs_patterns (fun _ old => old)
              ["-r"; "--exclude=*.log"; "src"; "--include=*.go"; "--exclude=*.tmp"]
              noFlags ["src"] fl') as (He & Hi & _).
  - vm_compute. reflexivity.
  - split; [exact He | exact Hi].
Defined.

(** *** [checkDangerousPatterns] *)

(** The path is one of the system directories, or below one. *)
Definition inSystemDir (absPath : string) : Prop :=
  exists dir, In dir systemDirs
              /\ (absPath = dir \/ Filepath.HasPrefix absPath (dir +:+ "/") = true).

Lemma systemLoop_flagged absPath nfiles : forall dirs found,
  systemLoop absPath nfiles dirs found <> None
  <-> found <> None
      \/ (100 < Z.of_nat nfiles
          /\ exists dir, In dir dirs
                         /\ (absPath = dir
                             \/ Filepath.HasPrefix absPath (dir +:+ "/") = true)).
Proof.
  induction dirs as [|dir dirs IH]; intros found; cbn [systemLoop].
  - split; [intros H; left; exact H | intros [H | (_ & d & [] & _)]; exact H].
  - destruct ((String.eqb absPath dir || Filepath.HasPrefix absPath (dir +:+ "/"))
              && (100 <? Z.of_nat nfiles)) eqn:E.
    + apply andb_true_iff in E as [Ein En]. apply Z.ltb_lt in En.
      split; [intros _|discriminate]. right. split; [exact En|]. exists dir.
      split; [left; reflexivity|].
      apply orb_true_iff in Ein as [H | H]; [left; apply String.eqb_eq, H | right; exact H].
    + rewrite IH. split.
      * intros [H | (Hn & d & Hin & Hd)]; [left; exact H|]. right.
        split; [exact Hn|]. exists d. split; [right; exact Hin | exact Hd].
      * intros [H | (Hn & d & [<- | Hin] & Hd)]; [left; exact H | |].
        -- apply andb_false_iff in E as [E | E].
           ++ apply orb_false_iff in E as [E1 E2].
              destruct Hd as [Hd | Hd]; [apply String.eqb_neq in E1 |]; congruence.
           ++ apply Z.ltb_ge in E. lia.
        -- right. split; [exact Hn|]. exists d. split; assumption.
Qed.

Section Danger.

Variable filepath_Abs : string -> option string.

(** The absolute path the check looks at. *)
Definition absOf (target : string) : string :=
  match filepath_Abs target with
  | Some absPath => absPath
  | None => ""
  end.

(** What makes a target dangerous with [nfiles] files to delete. *)
Definition alarming (nfiles : nat) (target : string) : Prop :=
  absOf target = "/"
  \/ In target ["*"; "/*"; "./*"]
  \/ (100 < Z.of_nat nfiles /\ inSystemDir (absOf target)).

Lemma dangerLoop_flagged nfiles : forall targets found,
  dangerLoop filepath_Abs targets nfiles found <> None
  <-> found <> None \/ exists target, In target targets /\ alarming nfiles target.
Proof.
  induction targets as [|t targets IH]; intros found; cbn [dangerLoop].
  - split; [intros H; left; exact H | intros [H | (t & [] & _)]; exact H].
  - fold (absOf t). cbv zeta.
    destruct (String.eqb (absOf t) "/") eqn:Eroot.
    { apply String.eqb_eq in Eroot. split; [intros _|discriminate].
      right. exists t. split; [left; reflexivity | left; exact Eroot]. }
    apply String.eqb_neq in Eroot.
    destruct (String.eqb t "*" || String.eqb t "/*" || String.eqb t "./*") eqn:Ewild.
    { split; [intros _|discriminate]. right. exists t. split; [left; reflexivity|].
      right. left. simpl.
      apply orb_true_iff in Ewild as [Ewild | E3];
        [apply orb_true_iff in Ewild as [E1 | E2]|].
      - left. symmetry. apply String.eqb_eq, E1.
      - right. left. symmetry. apply String.eqb_eq, E2.
      - right. right. left. symmetry. apply String.eqb_eq, E3. }
    apply orb_false_iff in Ewild as [Ewild E3].
    apply orb_false_iff in Ewild as [E1 E2].
    apply String.eqb_neq in E1, E2, E3.
    rewrite IH, systemLoop_flagged. split.
    + intros [[H | (Hn & Hsys)] | (t' & Hin & Ht')].
      * left. exact H.
      * right. exists t. split; [left; reflexivity|]. right. right. split; assumption.
      * right. exists t'. split; [right; exact Hin | exact Ht'].
    + intros [H | (t' & [<- | Hin] & Ht')].
      * left. left. exact H.
      * destruct Ht' as [H | [H | H]]; [contradiction | |left; right; exact H].
        simpl in H. destruct H as [H | [H | [H | []]]]; congruence.
      * right. exists t'. split; assumption.
Qed.

(** X24.  [checkDangerousPatterns] returns its error exactly when some
    target is alarming and the line typed is not [yes I am sure].  A target
    is alarming when its absolute path is the root; when it is [*], [/*] or
    [./*]; or when more than 100 files are to be deleted, counted over all
    targets, and its absolute path is a system directory or below one.
    With 100 files or fewer the system directories raise no alarm. *)
Theorem checkDangerousPatterns_iff targets nfiles input :
  (checkDangerousPatterns filepath_Abs targets nfiles input <> None
   <-> input <> "yes I am sure"
       /\ exists target, In target targets /\ alarming nfiles target)
  /\ (Z.of_nat nfiles <= 100 ->
      Forall (fun target => absOf target <> "/" /\ ~ In target ["*"; "/*"; "./*"]) targets ->
      checkDangerousPatterns filepath_Abs targets nfiles input = None).
Proof.
  assert (Hiff : checkDangerousPatterns filepath_Abs targets nfiles input <> None
                 <-> input <> "yes I am sure"
                     /\ exists target, In target targets /\ alarming nfiles target).
  { unfold checkDangerousPatterns.
    pose proof (dangerLoop_flagged nfiles targets None) as H.
    destruct (dangerLoop filepath_Abs targets nfiles None) as [reason|].
    - assert (Hal : exists target, In target targets /\ alarming nfiles target).
      { apply proj1 in H. destruct H as [H | H]; [discriminate | contradiction | exact H]. }
      destruct (String.eqb input "yes I am sure") eqn:E; cbn [negb].
      + apply String.eqb_eq in E. split; [intros Hn; contradiction | intros [Hn _]].
        contradiction.
      + apply String.eqb_neq in E. split; [intros _; split; assumption | discriminate].
    - split; [intros Hn; contradiction|]. intros [_ Hal].
      exfalso. apply (proj2 H); [right; exact Hal | reflexivity]. }
  split; [exact Hiff|].
  intros Hfew Hall.
  destruct (checkDangerousPatterns filepath_Abs targets nfiles input) as [err|] eqn:E;
    [|reflexivity].
  assert (Hsome : Some err <> None) by discriminate.
  apply Hiff in Hsome as (_ & t & Hin & Ht).
  rewrite Forall_forall in Hall. destruct (Hall t (proj2 (list_elem_of_In _ _) Hin)) as [H1 H2].
  destruct Ht as [H | [H | [H _]]]; [contradiction | contradiction | lia].
Qed.

End Danger.

(** *** [handleInteractiveDelete] *)

(** The answers that mark a file. *)
Definition marks (answer : string) : bool :=
  isYes answer || String.eqb answer "a" || String.eqb answer "all".

Lemma readLine_marks answers :
  Forall (fun a => marks a = false) answers ->
  marks (fst (readLine answers)) = false
  /\ Forall (fun a => marks a = false) (snd (readLine answers)).
Proof.
  intros H. destruct H as [|a answers Ha H]; simpl; split;
    try reflexivity; try assumption; constructor.
Qed.

(** After the answer [all] every file is marked without a question. *)
Lemma interactiveLoop_all : forall files answers toDelete,
  toDelete ++ files <> [] ->
  interactiveLoop files answers true toDelete = Perform (toDelete ++ files).
Proof.
  induction files as [|f files IH]; intros answers toDelete Hne; cbn [interactiveLoop].
  - rewrite app_nil_r in *. destruct toDelete; [contradiction | reflexivity].
  - rewrite IH; rewrite <- app_assoc; [reflexivity | exact Hne].
Qed.

Lemma interactiveLoop_sublist : forall files answers deleteAll toDelete result,
  interactiveLoop files answers deleteAll toDelete = Perform result ->
  result <> []
  /\ exists chosen, result = toDelete ++ chosen /\ sublist chosen files.
Proof.
  induction files as [|f files IH]; intros answers deleteAll toDelete result;
    cbn [interactiveLoop].
  - destruct toDelete as [|x toDelete]; [discriminate|]. intros [= <-].
    split; [discriminate|]. exists []. rewrite app_nil_r. split; [reflexivity | constructor].
  - assert (Hmark : forall answers' deleteAll',
               interactiveLoop files answers' deleteAll' (toDelete ++ [f]) = Perform result ->
               result <> []
               /\ exists chosen, result = toDelete ++ chosen /\ sublist chosen (f :: files)).
    { intros answers' deleteAll' H. destruct (IH _ _ _ _ H) as (Hne & chosen & -> & Hsub).
      split; [exact Hne|]. exists (f :: chosen). rewrite <- app_assoc.
      split; [reflexivity | constructor; exact Hsub]. }
    destruct deleteAll; [apply Hmark|].
    destruct (readLine answers) as [input answers'].
    destruct (isYes input); [apply Hmark|].
    destruct (String.eqb input "a" || String.eqb input "all"); [apply Hmark|].
    destruct (String.eqb input "q" || String.eqb input "quit").
    + destruct toDelete as [|x toDelete]; [discriminate|].
      destruct (readLine answers') as [confirm ?].
      destruct (isYes confirm); [|discriminate]. intros [= <-].
      split; [discriminate|]. exists []. rewrite app_nil_r.
      split; [reflexivity | apply sublist_nil_l].
    + intros H. destruct (IH _ _ _ _ H) as (Hne & chosen & -> & Hsub).
      split; [exact Hne|]. exists chosen. split; [reflexivity | constructor; exact Hsub].
Qed.

Lemma interactiveLoop_unmarked : forall files answers result,
  Forall (fun a => marks a = false) answers ->
  interactiveLoop files answers false [] <> Perform result.
Proof.
  induction files as [|f files IH]; intros answers result Hall; cbn [interactiveLoop];
    [discriminate|].
  destruct (readLine_marks answers Hall) as [Hin Hrest].
  destruct (readLine answers) as [input answers']. cbn [fst snd] in *.
  unfold marks in Hin. apply orb_false_iff in Hin as [Hin Hall'].
  apply orb_false_iff in Hin as [Hyes Ha].
  rewrite Hyes, Ha, Hall'. cbn [orb].
  destruct (String.eqb input "q" || String.eqb input "quit"); [discriminate|].
  apply IH, Hrest.
Qed.

Lemma marks_cases answers :
  Forall (fun a => marks a = false) answers
  \/ Exists (fun a => marks a = true) answers.
Proof.
  induction answers as [|a answers IH]; [left; constructor|].
  destruct (marks a) eqn:E; [right; constructor; exact E|].
  destruct IH as [IH | IH]; [left | right]; constructor; assumption.
Qed.

(** X25.  When [handleInteractiveDelete] goes on to [performDeletion], the
    files it hands over are not none, they are files of the list, in the
    order of the list, and some answer was [y], [yes], [a] or [all]:
    without such an answer nothing is deleted. *)
Theorem handleInteractiveDelete_selection files answers toDelete :
  handleInteractiveDelete files answers = Perform toDelete ->
  toDelete <> []
  /\ sublist toDelete files
  /\ Exists (fun answer => marks answer = true) answers.
Proof.
  unfold handleInteractiveDelete. intros H.
  destruct (interactiveLoop_sublist _ _ _ _ _ H) as (Hne & chosen & -> & Hsub).
  split; [exact Hne|]. split; [exact Hsub|].
  destruct (marks_cases answers) as [Hno | Hex]; [|exact Hex].
  exfalso. apply (interactiveLoop_unmarked files answers ([] ++ chosen) Hno H).
Qed.

Lemma handleInteractiveDelete_selection_witness :
  let f1 := Scanner.mkFileInfo "/t/a" 1 420 0 false in
  let f2 := Scanner.mkFileInfo "/t/b" 2 420 0 false in
  let f3 := Scanner.mkFileInfo "/t/c" 3 420 0 false in
  sublist [f1; f3] [f1; f2; f3] /\ Exists (fun answer => marks answer = true) ["y"; "n"; "yes"].
Proof.
  intros f1 f2 f3.
  destruct (handleInteractiveDelete_selection [f1; f2; f3] ["y"; "n"; "yes"] [f1; f3])
    as (_ & Hsub & Hex).
  - vm_compute. reflexivity.
  - split; [exact Hsub | exact Hex].
Defined.

(** X26.  After the answer [a] or [all] to the first question every file
    of the list is handed to [performDeletion], whatever is typed
    afterwards; and the answer [q] or [quit] to the first question cancels
    with nothing deleted. *)
Theorem handleInteractiveDelete_all_or_quit f files answer answers :
  (answer = "a" \/ answer = "all" ->
   handleInteractiveDelete (f :: files) (answer :: answers) = Perform (f :: files))
  /\ (answer = "q" \/ answer = "quit" ->
      handleInteractiveDelete (f :: files) (answer :: answers) = Cancelled).
Proof.
  unfold handleInteractiveDelete. split.
  - intros [-> | ->]; cbn [interactiveLoop readLine isYes String.eqb Ascii.eqb Bool.eqb orb];
      apply (interactiveLoop_all files answers [f]); discriminate.
  - intros [-> | ->]; reflexivity.
Qed.

(** *** [calculateTotalSize] *)

(** The sum of the sizes, as a number. *)
Definition sumSizes (files : list Scanner.FileInfo) : Z :=
  fold_right (fun f s => Scanner.Size f + s) 0 files.

Lemma totalFrom_wrap files : forall from,
  fold_left (fun total f => Int64.add total (Scanner.Size f)) files (Int64.wrap from)
  = Int64.wrap (from + sumSizes files).
Proof.
  induction files as [|f files IH]; intros from; cbn [fold_left sumSizes fold_right].
  - rewrite Z.add_0_r. reflexivity.
  - unfold Int64.add at 2. rewrite Int64Facts.wrap_add_l, IH.
    fold (sumSizes files). f_equal. lia.
Qed.

Lemma sumSizes_perm files files' : files ≡ₚ files' -> sumSizes files = sumSizes files'.
Proof.
  induction 1 as [|f l l' _ IH|f g l|l l' l'' _ IH1 _ IH2]; cbn [sumSizes fold_right] in *;
    [reflexivity | fold (sumSizes l) (sumSizes l') in *; lia
    | lia | congruence].
Qed.

(** X28.  [calculateTotalSize] returns the sum of the sizes reduced into
    the range of [int64]: the sum itself when it is in the range, and
    whatever the order of the files. *)
Theorem calculateTotalSize_sum files :
  calculateTotalSize files = Int64.wrap (sumSizes files)
  /\ (Int64.in_range (sumSizes files) -> calculateTotalSize files = sumSizes files)
  /\ (forall files', files ≡ₚ files' -> calculateTotalSize files = calculateTotalSize files')
  /\ (forall files',
        calculateTotalSize (files ++ files')
        = Int64.add (calculateTotalSize files) (calculateTotalSize files')).
Proof.
  assert (Hsum : forall l, calculateTotalSize l = Int64.wrap (sumSizes l)).
  { intros l. unfold calculateTotalSize.
    change 0 with (Int64.wrap 0) at 1. rewrite totalFrom_wrap. reflexivity. }
  split; [apply Hsum|]. split; [|split].
  - intros Hr. rewrite Hsum. apply Int64Facts.wrap_id, Hr.
  - intros files' Hp. rewrite !Hsum, (sumSizes_perm _ _ Hp). reflexivity.
  - intros files'. rewrite (Hsum files'). unfold calculateTotalSize at 1.
    rewrite fold_left_app.
    change (fold_left (fun total f => Int64.add total (Scanner.Size f)) files 0)
      with (calculateTotalSize files).
    rewrite (Hsum files), totalFrom_wrap. unfold Int64.add.
    rewrite Int64Facts.wrap_add_l, (Z.add_comm (sumSizes files) (Int64.wrap _)), Int64Facts.wrap_add_l.
    f_equal. lia.
Qed.

End CmdFacts.

(* ----------------------------------------------------------------- *)
(** ** The utilities *)

Module UtilsFacts.

Import Utils.

Lemma length_upto : forall n s,
  (n <= String.length s)%nat -> String.length (upto n s) = n.
Proof.
  induction n as [|n IH]; intros [|c s] H; simpl in *; try reflexivity; try lia.
  rewrite IH; [reflexivity | lia].
Qed.

Lemma length_from : forall n s,
  String.length (Config.from n s) = (String.length s - n)%nat.
Proof.
  induction n as [|n IH]; intros [|c s]; simpl; try reflexivity; try lia. apply IH.
Qed.

(** A piece of a string is no longer than the string. *)
Lemma split_on_lengths sep : forall s,
  Forall (fun p => (String.length p <= String.length s)%nat) (Filepath.split_on sep s).
Proof.
  induction s as [|c s IH]; cbn [Filepath.split_on];
    [constructor; [simpl; lia | constructor]|].
  assert (Hs : Forall (fun p => (String.length p <= String.length (String c s))%nat)
                 (Filepath.split_on sep s)).
  { eapply Forall_impl; [exact IH|]. intros p Hp. cbv beta in *. simpl. lia. }
  destruct (Ascii.eqb c sep); [constructor; [simpl; lia | exact Hs]|].
  destruct (Filepath.split_on sep s) as [|h t];
    [constructor; [simpl; lia | constructor]|].
  apply Forall_cons in IH as [Hh Ht]. apply Forall_cons in Hs as [_ Hs].
  constructor; [simpl; lia | exact Hs].
Qed.

Lemma last_length (parts : list string) (n : nat) :
  Forall (fun p => (String.length p <= n)%nat) parts ->
  (String.length (List.last parts "") <= n)%nat.
Proof.
  induction 1 as [|p parts Hp Hall IH]; [simpl; lia|].
  destruct parts as [|q parts]; [exact Hp | exact IH].
Qed.

(** X29.  [TruncatePath] for a length that is not negative.  A path that
    fits is returned as it is.  For a longer path the function panics when
    the length is less than three; otherwise it returns a string of at most
    one byte more than the length asked for. *)
Theorem TruncatePath_length path maxLen :
  0 <= maxLen <= Int64.max ->
  Filepath.len path <= 2 ^ 60 ->
  (Filepath.len path <= maxLen -> TruncatePath path maxLen = Some path)
  /\ (maxLen < Filepath.len path -> maxLen < 3 -> TruncatePath path maxLen = None)
  /\ (maxLen < Filepath.len path -> 3 <= maxLen ->
      exists r, TruncatePath path maxLen = Some r /\ Filepath.len r <= maxLen + 1).
Proof.
  intros Hmax Hlen.
  assert (Emax : Int64.max = 9223372036854775807) by reflexivity.
  assert (Emin : Int64.min = -9223372036854775808) by reflexivity.
  assert (E60 : 2 ^ 60 = 1152921504606846976) by reflexivity.
  rewrite Emax in Hmax. rewrite E60 in Hlen.
  assert (Hwrap : forall z, -9223372036854775808 <= z <= 9223372036854775807 ->
                            Int64.wrap z = z).
  { intros z Hz. apply Int64Facts.wrap_id. unfold Int64.in_range.
    rewrite Emax, Emin. exact Hz. }
  assert (Hpos : forall s, 0 <= Filepath.len s) by (intros s; unfold Filepath.len; lia).
  pose proof (Hpos path) as Hp0.
  pose proof (split_on_lengths "/" path) as Hparts.
  pose proof (last_length _ _ Hparts) as Hlast.
  unfold TruncatePath. cbv zeta.
  set (parts := Filepath.split_on "/" path) in *.
  set (filename := List.last parts "") in *.
  assert (Hfn : 0 <= Filepath.len filename <= Filepath.len path)
    by (unfold Filepath.len; lia).
  set (prefix := match parts with
                 | p0 :: p1 :: _ => if String.eqb p0 "" then "/" +:+ p1 else p0
                 | p0 :: _ => p0
                 | [] => ""
                 end).
  assert (Hpre : 0 <= Filepath.len prefix <= Filepath.len path + 1).
  { split; [apply Hpos|]. subst prefix. unfold Filepath.len.
    destruct Hparts as [|p0 parts' H0 Hparts]; [simpl; lia|].
    destruct Hparts as [|p1 parts'' H1 Hparts]; [lia|].
    destruct (String.eqb p0 ""); [|lia].
    rewrite FilepathFacts.length_append. simpl. lia. }
  unfold Int64.sub, Int64.add.
  rewrite (Hwrap (maxLen - 3)), (Hwrap (maxLen - 6)), (Hwrap (Filepath.len path - maxLen))
    by lia.
  rewrite (Hwrap (Filepath.len path - maxLen + 3)), (Hwrap (maxLen - Filepath.len prefix))
    by lia.
  rewrite (Hwrap (maxLen - Filepath.len prefix - Filepath.len filename)) by lia.
  rewrite (Hwrap (maxLen - Filepath.len prefix - Filepath.len filename - 4)) by lia.
  split; [|split].
  - intros Hfit. apply Z.leb_le in Hfit. rewrite Hfit. reflexivity.
  - intros Hlong Hsmall.
    assert (E : (Filepath.len path <=? maxLen) = false) by (apply Z.leb_gt; lia).
    rewrite E. unfold sliceTo, sliceFrom.
    assert (E1 : (0 <=? maxLen - 3) = false) by (apply Z.leb_gt; lia).
    assert (E2 : (Filepath.len path - maxLen + 3 <=? Filepath.len path) = false)
      by (apply Z.leb_gt; lia).
    assert (E3 : (Filepath.len filename >? maxLen - 6) = true)
      by (rewrite Z.gtb_ltb; apply Z.ltb_lt; lia).
    rewrite E1, E2, E3, andb_false_r. cbn [andb].
    destruct (Z.of_nat (length parts) <=? 2); reflexivity.
  - intros Hlong Hbig.
    assert (E : (Filepath.len path <=? maxLen) = false) by (apply Z.leb_gt; lia).
    rewrite E. unfold sliceTo, sliceFrom.
    assert (E1 : (0 <=? maxLen - 3) && (maxLen - 3 <=? Filepath.len path) = true)
      by (apply andb_true_iff; split; apply Z.leb_le; lia).
    assert (E2 : (0 <=? Filepath.len path - maxLen + 3)
                 && (Filepath.len path - maxLen + 3 <=? Filepath.len path) = true)
      by (apply andb_true_iff; split; apply Z.leb_le; lia).
    rewrite E1, E2.
    assert (Htail : Filepath.len
                      ("..." +:+ Config.from (Z.to_nat (Filepath.len path - maxLen + 3)) path)
                    <= maxLen + 1).
    { unfold Filepath.len in *. rewrite FilepathFacts.length_append, length_from.
      simpl String.length. lia. }
    destruct (Z.of_nat (length parts) <=? 2).
    + eexists. split; [reflexivity|].
      unfold Filepath.len in *. rewrite FilepathFacts.length_append, length_upto by lia.
      simpl String.length. lia.
    + destruct (Filepath.len filename >? maxLen - 6); [eexists; split; [reflexivity|exact Htail]|].
      destruct (maxLen - Filepath.len prefix - Filepath.len filename - 4 <? 0) eqn:Erem;
        [eexists; split; [reflexivity|exact Htail]|].
      apply Z.ltb_ge in Erem. eexists. split; [reflexivity|].
      unfold Filepath.len in *. rewrite !FilepathFacts.length_append.
      simpl String.length. lia.
Qed.

Lemma TruncatePath_length_witness :
  exists r, TruncatePath "/aa/bbbb/cc" 9 = Some r /\ Filepath.len r <= 10
            /\ r = "/aa/.../cc" /\ Filepath.len r = 10.
Proof.
  destruct (TruncatePath_length "/aa/bbbb/cc" 9) as (_ & _ & H).
  - vm_compute. split; discriminate.
  - vm_compute. discriminate.
  - destruct H as (r & Hr & Hle); [reflexivity | vm_compute; discriminate |].
    exists r. split; [exact Hr|]. split; [exact Hle|].
    vm_compute in Hr. injection Hr as <-. split; reflexivity.
Defined.

End UtilsFacts.
